(** * Downloader: update resolution, version filtering and install transactions

    A shallow embedding of [redbot/cogs/downloader/downloader.py].  Coroutines
    of the [Downloader] cog become functions in a state-and-exception monad over
    an explicit [World]; the pure helper [_filter_incorrect_cogs] becomes a
    function returning a [Result].  Python dictionaries are finite maps, Python
    sets are duplicate-free lists (a set's iteration order is not specified by
    the language, so every statement below is about membership, never about
    position). *)

From Stdlib Require Import String Ascii List Bool Arith Lia DecimalString.
From stdpp Require Import gmap strings list fin_maps.

(** ** Exceptions and results *)

Inductive Exception : Type :=
| KeyError (key : string)
| IndexError
| ValueError
| ZeroDivisionError
| AttributeError.

Inductive Result (A : Type) : Type :=
| Ok (a : A)
| Raise (e : Exception).

Arguments Ok {A} a.
Arguments Raise {A} e.

Definition rbind {A B} (r : Result A) (k : A -> Result B) : Result B :=
  match r with
  | Ok a => k a
  | Raise e => Raise e
  end.

Global Instance Result_ret : MRet Result := @Ok.
Global Instance Result_bind : MBind Result := fun A B k r => rbind r k.

(** ** Versions

    [sys.version_info] and [cog.min_python_version] are tuples compared with
    Python's lexicographic tuple order; [red_version_info] and the bot-version
    bounds are [VersionInfo] objects.  *)

Record VersionInfo : Type := mkVersion { major : nat; minor : nat; micro : nat }.

Definition version_tuple (v : VersionInfo) : list nat := [major v; minor v; micro v].

(** Python's [<] on tuples of integers: the first differing component decides,
    and a proper prefix is smaller. *)
Fixpoint tuple_lt (a b : list nat) : bool :=
  match a, b with
  | [], [] => false
  | [], _ :: _ => true
  | _ :: _, [] => false
  | x :: a', y :: b' =>
      if (x <? y)%nat then true else if (y <? x)%nat then false else tuple_lt a' b'
  end.

(** Modelled from the spec: the comparison of [redbot.core.VersionInfo], which
    is declared outside this cog; the spec calls the bounds "ordered version
    tuples", so versions compare as their [(major, minor, micro)] tuples. *)
Definition version_lt (a b : VersionInfo) : bool :=
  tuple_lt (version_tuple a) (version_tuple b).

(** [a > b] on [VersionInfo] is the reflected [b < a]. *)
Definition version_gt (a b : VersionInfo) : bool := version_lt b a.

(** [cog.min_python_version > sys.version_info].  [sys.version_info] is the
    5-tuple [(major, minor, micro, releaselevel, serial)]; a 3-tuple equal to its
    first three components is a proper prefix of it and therefore not greater. *)
Definition python_gt (min_python_version sys_version : VersionInfo) : bool :=
  tuple_lt (version_tuple sys_version) (version_tuple min_python_version).

(** ** Text helpers *)

Definition str_nat (n : nat) : string := NilEmpty.string_of_uint (Nat.to_uint n).

Definition join (sep : string) (parts : list string) : string := String.concat sep parts.

(** Modelled from the spec: [str] of a [VersionInfo] ("major.minor.micro"). *)
Definition version_str (v : VersionInfo) : string := join "." (map str_nat (version_tuple v)).

(** [str] of a list of strings, as [str.format] renders a list argument. *)
Definition str_list (l : list string) : string :=
  "[" +:+ join ", " (map (fun s => "'" +:+ s +:+ "'") l) +:+ "]".

Definition lookup_kwarg (kwargs : list (string * string)) (k : string) : option string :=
  snd <$> find (fun kv => bool_decide (fst kv = k)) kwargs.

(** [template.format( *args, **kwargs)] for the replacement fields the cog uses:
    [{name}] is looked up among the keyword arguments and raises [KeyError]
    when absent; [{}] takes the next positional argument. *)
Fixpoint format_from (template : string) (field : option string)
    (args : list string) (kwargs : list (string * string)) : Result string :=
  match template with
  | EmptyString =>
      match field with
      | None => Ok ""
      | Some _ => Raise ValueError
      end
  | String c rest =>
      match field with
      | None =>
          if bool_decide (c = "{"%char) then format_from rest (Some "") args kwargs
          else rbind (format_from rest None args kwargs) (fun s => Ok (String c s))
      | Some f =>
          if bool_decide (c = "}"%char) then
            if bool_decide (f = "") then
              match args with
              | [] => Raise IndexError
              | a :: args' =>
                  rbind (format_from rest None args' kwargs) (fun s => Ok (a +:+ s))
              end
            else
              match lookup_kwarg kwargs f with
              | None => Raise (KeyError f)
              | Some v =>
                  rbind (format_from rest None args kwargs) (fun s => Ok (v +:+ s))
              end
          else format_from rest (Some (f +:+ String c "")) args kwargs
      end
  end.

Definition format (template : string) (args : list string)
    (kwargs : list (string * string)) : Result string :=
  format_from template None args kwargs.

(** ** Installables *)

Inductive InstallableType : Type := UNKNOWN | COG | SHARED_LIBRARY.

Global Instance InstallableType_eq_dec : EqDecision InstallableType.
Proof. solve_decision. Defined.

(** What a repository publishes about a module in its [info.json]. *)
Record Metadata : Type := mkMetadata {
  type : InstallableType;
  disabled : bool;
  hidden : bool;
  min_bot_version : VersionInfo;
  max_bot_version : VersionInfo;
  min_python_version : VersionInfo;
  requirements : list string;
}.

(** An [Installable]: a module as published by repository [repo_name] at
    [commit]. *)
Record Installable : Type := mkInstallable {
  name : string;
  repo_name : string;
  commit : string;
  meta : Metadata;
}.

(** Modelled from the spec: [Installable.__eq__] and [__hash__], declared in
    [installable.py]; two module descriptions denote the same module when they
    have the same repository and the same module name (the persisted map is
    keyed "repo name -> module name"). *)
Definition ModuleKey : Type := (string * string)%type.

Definition key (m : Installable) : ModuleKey := (repo_name m, name m).

(** An [InstalledModule]: the record of an installed module.  It subclasses
    [Installable] in the source; the fields the cog reads are kept.
    [im_json_repo_name] is the attribute [_json_repo_name] that
    [_remove_from_installed] reads: the repository name of the document the
    record was read from. *)
Record InstalledModule : Type := mkInstalled {
  im_name : string;
  im_repo_name : string;
  im_commit : string;
  im_type : InstallableType;
  im_pinned : bool;
  im_json_repo_name : string;
}.

Definition im_key (m : InstalledModule) : ModuleKey := (im_repo_name m, im_name m).

(** The repository and name under which [_remove_from_installed] looks for
    the document of a record. *)
Definition im_json_key (m : InstalledModule) : ModuleKey := (im_json_repo_name m, im_name m).

(** [module.commit = commit] *)
Definition set_commit (m : InstalledModule) (c : string) : InstalledModule :=
  {| im_name := im_name m; im_repo_name := im_repo_name m; im_commit := c;
     im_type := im_type m; im_pinned := im_pinned m;
     im_json_repo_name := im_json_repo_name m |}.

(** [cog.pinned = True] *)
Definition set_pinned (m : InstalledModule) (b : bool) : InstalledModule :=
  {| im_name := im_name m; im_repo_name := im_repo_name m; im_commit := im_commit m;
     im_type := im_type m; im_pinned := b;
     im_json_repo_name := im_json_repo_name m |}.

(** The JSON document persisted for one module (see [_schema_0_to_1]). *)
Record ModuleJson : Type := mkJson {
  json_repo_name : string;
  json_module_name : string;
  json_commit : string;
  json_pinned : bool;
}.

(** Modelled from the spec: [InstalledModule.to_json] and [from_json], declared
    in [installable.py]; a record carries "name, kind, repo_name, commit,
    pinned", and its kind is the kind of the map it is persisted in. *)
Definition to_json (m : InstalledModule) : ModuleJson :=
  {| json_repo_name := im_repo_name m; json_module_name := im_name m;
     json_commit := im_commit m; json_pinned := im_pinned m |}.

(** Modelled from the spec: [InstalledModule.from_json], declared in
    [installable.py]; [kind] is the kind of the map the document is read from.
    The record remembers the repository name of its document. *)
Definition from_json (kind : InstallableType) (j : ModuleJson) : InstalledModule :=
  {| im_name := json_module_name j; im_repo_name := json_repo_name j;
     im_commit := json_commit j; im_type := kind; im_pinned := json_pinned j;
     im_json_repo_name := json_repo_name j |}.

(** Modelled from the spec: [InstalledModule.from_installable]; a fresh record
    is not pinned.  It was read from no document: its [_json_repo_name] is
    the constructor's default, the empty string. *)
Definition from_installable (m : Installable) : InstalledModule :=
  {| im_name := name m; im_repo_name := repo_name m; im_commit := commit m;
     im_type := type (meta m); im_pinned := false; im_json_repo_name := "" |}.

(** ** The world the cog acts on *)

Inductive PathKind : Type := Directory | RegularFile | OtherPath.

(** Calls made to the collaborators, in program order (newest first). *)
Inductive Event : Type :=
| EvDiff (repo old_rev new_rev : string)
| EvPip (repo : string) (reqs : list string)
| EvCopy (module : Installable) (shared_lib : bool)
| EvSend (content : string)
| EvSendHelp.

Record World : Type := mkWorld {
  repos : gmap string string;
    (* RepoManager: repository name -> commit checked out in its working copy *)
  installed_cogs_conf : gmap string (gmap string ModuleJson);
  installed_libraries_conf : gmap string (gmap string ModuleJson);
    (* Config: repo name -> module name -> json *)
  install_path : gmap string PathKind;
    (* entries of [cog_install_path()] *)
  sharedlib_path : gmap string PathKind;
    (* entries of [SHAREDLIB_PATH] *)
  extensions : gset string;
    (* [ctx.bot.extensions]: the loaded extensions *)
  packages : gset string;
    (* the packages the bot loads on start *)
  trace : list Event;
}.

Definition set_repos (f : gmap string string -> gmap string string) (w : World) : World :=
  mkWorld (f (repos w)) (installed_cogs_conf w) (installed_libraries_conf w)
          (install_path w) (sharedlib_path w) (extensions w) (packages w) (trace w).

Definition set_conf (cogs libs : gmap string (gmap string ModuleJson)) (w : World) : World :=
  mkWorld (repos w) cogs libs (install_path w) (sharedlib_path w) (extensions w) (packages w) (trace w).

Definition set_install_path (f : gmap string PathKind -> gmap string PathKind)
    (w : World) : World :=
  mkWorld (repos w) (installed_cogs_conf w) (installed_libraries_conf w)
          (f (install_path w)) (sharedlib_path w) (extensions w) (packages w) (trace w).

Definition set_sharedlib_path (f : gmap string PathKind -> gmap string PathKind)
    (w : World) : World :=
  mkWorld (repos w) (installed_cogs_conf w) (installed_libraries_conf w)
          (install_path w) (f (sharedlib_path w)) (extensions w) (packages w) (trace w).

Definition set_bot (exts pkgs : gset string) (w : World) : World :=
  mkWorld (repos w) (installed_cogs_conf w) (installed_libraries_conf w)
          (install_path w) (sharedlib_path w) exts pkgs (trace w).

Definition with_trace (t : list Event) (w : World) : World :=
  mkWorld (repos w) (installed_cogs_conf w) (installed_libraries_conf w)
          (install_path w) (sharedlib_path w) (extensions w) (packages w) t.

Definition log_event (e : Event) (w : World) : World := with_trace (e :: trace w) w.

(** The collaborators outside this cog: the host versions, the chat
    formatting helpers, git history, the file copy and the package installer.

    Modelled from the spec: the git queries, declared in [repo_manager.py],
    have the interface "ancestor(a,b) -> bool, diff(a,b) -> set<module-name>,
    list-modules-at-HEAD", and the copy and the package installer report
    success or failure; a git query that fails is not part of this
    interface. *)
Record Env : Type := mkEnv {
  sys_version_info : VersionInfo;
  red_version_info : VersionInfo;
  inline : string -> string;
  humanize_list : list string -> string;
  (* modules in the working tree of a repository at a commit *)
  modules_at : string -> string -> list (string * Metadata);
  (* [repo.is_ancestor(maybe_ancestor_rev, descendant_rev)] *)
  is_ancestor : string -> string -> string -> bool;
  (* [repo.get_modified_modules(old_rev, new_rev)] *)
  modified_modules : string -> string -> string -> list (string * Metadata);
  (* [repo.get_last_module_occurrence(name)]: commit and description *)
  last_module_occurrence : string -> string -> option (string * Metadata);
  (* does [Installable.copy_to] succeed *)
  copy_succeeds : World -> Installable -> bool;
  (* does [repo.install_raw_requirements(reqs, target)] succeed *)
  pip_succeeds : World -> string -> list string -> bool;
}.

(** ** The coroutine monad: state and exceptions *)

Definition M (A : Type) : Type := World -> Result (A * World).

Global Instance M_ret : MRet M := fun A a w => Ok (a, w).
Global Instance M_bind : MBind M := fun A B k m w =>
  match m w with
  | Ok (a, w') => k a w'
  | Raise e => Raise e
  end.

Definition get_world : M World := fun w => Ok (w, w).
Definition modify_world (f : World -> World) : M unit := fun w => Ok (tt, f w).
Definition raise {A} (e : Exception) : M A := fun _ => Raise e.
Definition lift {A} (r : Result A) : M A := fun w =>
  match r with
  | Ok a => Ok (a, w)
  | Raise e => Raise e
  end.

(** [for x in l: acc = body(x, acc)] *)
Fixpoint for_each {A S} (l : list A) (body : A -> S -> M S) (acc : S) : M S :=
  match l with
  | [] => mret acc
  | x :: l' => acc' ← body x acc; for_each l' body acc'
  end.

(** ** Python sets and dictionaries of the resolver *)

(** [s.add(x)] on a set whose elements compare by [k]: an equal element that
    is already present is kept. *)
Definition set_add {A} (k : A -> ModuleKey) (x : A) (s : list A) : list A :=
  if bool_decide (k x ∈ k <$> s) then s else s ++ [x].

(** [l.index(x)] returning the element found: the first one that compares
    equal. *)
Definition index_of {A} (k : A -> ModuleKey) (q : ModuleKey) (l : list A) : option A :=
  find (fun y => bool_decide (k y = q)) l.

(** A Python [dict] used for grouping: keys in insertion order, no key twice.
    [dict_upsert k f d] is [d[k] = f(d.get(k))]. *)
Fixpoint dict_upsert {K V} `{EqDecision K} (k : K) (f : option V -> V)
    (d : list (K * V)) : list (K * V) :=
  match d with
  | [] => [(k, f None)]
  | (k', v) :: d' =>
      if decide (k = k') then (k, f (Some v)) :: d'
      else (k', v) :: dict_upsert k f d'
  end.

Fixpoint dict_get {K V} `{EqDecision K} (k : K) (d : list (K * V)) : option V :=
  match d with
  | [] => None
  | (k', v) :: d' => if decide (k = k') then Some v else dict_get k d'
  end.

(** [for i, x in enumerate(l)] *)
Definition enumerate {A} (l : list A) : list (nat * A) := imap (fun i x => (i, x)) l.

Definition nl : string := String (ascii_of_nat 10) "".

(** ** The persisted install map *)

Definition records_of (kind : InstallableType)
    (conf : gmap string (gmap string ModuleJson)) : list InstalledModule :=
  repo_json ← (map_to_list conf).*2;
  from_json kind <$> (map_to_list repo_json).*2.

(** [installed.setdefault(module.repo_name, {})[module.name] = module.to_json()] *)
Definition conf_store (m : InstalledModule)
    (conf : gmap string (gmap string ModuleJson)) : gmap string (gmap string ModuleJson) :=
  <[im_repo_name m := <[im_name m := to_json m]> (default ∅ (conf !! im_repo_name m))]> conf.

(** [with suppress(KeyError): installed[module._json_repo_name].pop(module.name)] *)
Definition conf_pop (m : InstalledModule)
    (conf : gmap string (gmap string ModuleJson)) : gmap string (gmap string ModuleJson) :=
  match conf !! im_json_repo_name m with
  | Some repo_json => <[im_json_repo_name m := delete (im_name m) repo_json]> conf
  | None => conf
  end.

Definition conf_lookup (conf : gmap string (gmap string ModuleJson))
    (k : ModuleKey) : option ModuleJson :=
  repo_json ← conf !! k.1; repo_json !! k.2.

(** Applies [on_cogs] or [on_libs] to the map selected by [module.type]; a
    module of any other type is skipped ([else: continue]). *)
Definition by_type
    (op : InstalledModule -> gmap string (gmap string ModuleJson) ->
          gmap string (gmap string ModuleJson))
    (acc : gmap string (gmap string ModuleJson) * gmap string (gmap string ModuleJson))
    (module : InstalledModule) :=
  match im_type module with
  | COG => (op module acc.1, acc.2)
  | SHARED_LIBRARY => (acc.1, op module acc.2)
  | UNKNOWN => acc
  end.

Definition installed_cogs : M (list InstalledModule) :=
  w ← get_world; mret (records_of COG (installed_cogs_conf w)).

Definition installed_libraries : M (list InstalledModule) :=
  w ← get_world; mret (records_of SHARED_LIBRARY (installed_libraries_conf w)).

Definition installed_modules : M (list InstalledModule) :=
  cogs ← installed_cogs; libs ← installed_libraries; mret (cogs ++ libs).

Definition _save_to_installed (modules : list InstalledModule) : M unit :=
  modify_world (fun w =>
    let global_data :=
      foldl (by_type conf_store) (installed_cogs_conf w, installed_libraries_conf w) modules in
    set_conf global_data.1 global_data.2 w).

Definition _remove_from_installed (modules : list InstalledModule) : M unit :=
  modify_world (fun w =>
    let global_data :=
      foldl (by_type conf_pop) (installed_cogs_conf w, installed_libraries_conf w) modules in
    set_conf global_data.1 global_data.2 w).

Definition is_installed (cog_name : string) : M (bool * option InstalledModule) :=
  cogs ← installed_cogs;
  match find (fun installed_cog => bool_decide (im_name installed_cog = cog_name)) cogs with
  | Some installed_cog => mret (true, Some installed_cog)
  | None => mret (false, None)
  end.

(** [for x in l: acc = body(x, acc)] for a body that does no I/O. *)
Fixpoint for_each_pure {A S} (l : list A) (body : A -> S -> Result S) (acc : S) : Result S :=
  match l with
  | [] => Ok acc
  | x :: l' => rbind (body x acc) (for_each_pure l' body)
  end.

(** [set(l)] for elements compared by [k]. *)
Definition to_set {A} (k : A -> ModuleKey) (l : list A) : list A :=
  foldl (fun s x => set_add k x s) [] l.

Section Downloader.

Context (env : Env).

(** ** VersionFilter: [_filter_incorrect_cogs] *)

Definition python_outdated (cog : Installable) : bool :=
  python_gt (min_python_version (meta cog)) (sys_version_info env).

Definition ignore_max (cog : Installable) : bool :=
  version_gt (min_bot_version (meta cog)) (max_bot_version (meta cog)).

Definition bot_outdated (cog : Installable) : bool :=
  version_gt (min_bot_version (meta cog)) (red_version_info env)
  || negb (ignore_max cog) && version_lt (max_bot_version (meta cog)) (red_version_info env).

(** A candidate the filter keeps: it fails neither check. *)
Definition accepted (cog : Installable) : bool :=
  negb (python_outdated cog) && negb (bot_outdated cog).

(** One iteration of [for cog in cogs] in [_filter_incorrect_cogs]. *)
Definition filter_cog (cog : Installable)
    (acc : list Installable * list string * list string)
    : Result (list Installable * list string * list string) :=
  let '(correct_cogs, outdated_python_version, outdated_bot_version) := acc in
  if python_outdated cog then
    minimum ← format " (Minimum: {min_version})" []
      [("min_version", join "." (map str_nat (version_tuple (min_python_version (meta cog)))))];
    mret (correct_cogs,
          outdated_python_version ++ [inline env (name cog) +:+ minimum],
          outdated_bot_version)
  else if bot_outdated cog then
    minimum ← format " (Minimum: {min_version}" []
      [("min_version", version_str (min_bot_version (meta cog)))];
    at_most ← (if ignore_max cog then mret ""
               else format ", at most: {max_version}" []
                      [("max_version", version_str (max_bot_version (meta cog)))]);
    mret (correct_cogs, outdated_python_version,
          outdated_bot_version ++ [inline env (name cog) +:+ minimum +:+ at_most +:+ ")"])
  else mret (correct_cogs ++ [cog], outdated_python_version, outdated_bot_version).

Definition python_message (outdated_python_version : list string) : Result string :=
  match outdated_python_version with
  | [] => mret ""
  | first :: _ =>
      if bool_decide (1 < length outdated_python_version) then
        mret (nl +:+ "These cogs require higher python version than you have: "
              +:+ humanize_list env outdated_python_version)
      else format "{cog} require higher python version than you have." [first] []
  end.

Definition bot_message (outdated_bot_version : list string) : Result string :=
  match outdated_bot_version with
  | [] => mret ""
  | _ :: _ =>
      if bool_decide (1 < length outdated_bot_version) then
        heading ← format
          (nl +:+ "These cogs require different Red version than you currently have ({current_version}): ")
          [] [("current_version", version_str (red_version_info env))];
        mret (heading +:+ humanize_list env outdated_bot_version)
      else
        format
          "{cog} require different Red version than you currently have ({current_version})"
          [] [("cog", str_list outdated_bot_version);
              ("current_version", version_str (red_version_info env))]
  end.

Definition _filter_incorrect_cogs (cogs : list Installable)
    : Result (list Installable * string) :=
  '(correct_cogs, outdated_python_version, outdated_bot_version) ←
    for_each_pure cogs filter_cog ([], [], []);
  python_part ← python_message outdated_python_version;
  bot_part ← bot_message outdated_bot_version;
  mret (correct_cogs, python_part +:+ bot_part).

(** ** Repositories *)

(** [repo.commit], for a repository object that may be [None]. *)
Definition repo_commit (repo : string) : M string := fun w =>
  match repos w !! repo with
  | Some c => Ok (c, w)
  | None => Raise AttributeError
  end.

(** Modelled from the spec: [Repo.checkout], declared in [repo_manager.py];
    "the working copy's checked-out ref always equals commit".  The checkout
    of a revision is taken to succeed. *)
Definition checkout (repo rev : string) : M unit :=
  modify_world (set_repos (<[repo := rev]>)).

(** Modelled from the spec: [Repo.available_modules] and its views, declared in
    [repo_manager.py]: the modules published at the checked-out commit. *)
Definition available_modules (w : World) (repo : string) : list Installable :=
  match repos w !! repo with
  | Some c => (fun nm => mkInstallable nm.1 repo c nm.2) <$> modules_at env repo c
  | None => []
  end.

(** Modelled from the spec: [Repo.available_libraries], declared in
    [repo_manager.py]: the available modules of kind shared library. *)
Definition available_libraries (w : World) (repo : string) : list Installable :=
  filter (fun m => type (meta m) = SHARED_LIBRARY) (available_modules w repo).

Definition get_modified_modules (repo old_rev new_rev : string) : M (list Installable) :=
  fun w => Ok ((fun nm => mkInstallable nm.1 repo new_rev nm.2)
                 <$> modified_modules env repo old_rev new_rev,
               log_event (EvDiff repo old_rev new_rev) w).

Definition get_last_module_occurrence (repo module_name : string) : option Installable :=
  (fun cm => mkInstallable module_name repo cm.1 cm.2)
    <$> last_module_occurrence env repo module_name.

Definition install_raw_requirements (repo : string) (reqs : list string) : M bool :=
  fun w => Ok (pip_succeeds env w repo reqs, log_event (EvPip repo reqs) w).

(** [cog.copy_to(target_dir)]: an entry named after the module appears in the
    target directory when the copy succeeds; [shared_lib] selects
    [SHAREDLIB_PATH] instead of [cog_install_path()]. *)
Definition copy_to (cog : Installable) (shared_lib : bool) : M bool := fun w =>
  let w1 := log_event (EvCopy cog shared_lib) w in
  if copy_succeeds env w cog then
    Ok (true, if shared_lib then set_sharedlib_path (<[name cog := Directory]>) w1
              else set_install_path (<[name cog := Directory]>) w1)
  else Ok (false, w1).

(** ** InstallExecutor *)

(** The set comprehension of [_install_requirements]. *)
Definition requirement_set (cogs : list Installable) : list string :=
  remove_dups (cog ← cogs; requirements (meta cog)).

Definition _install_requirements (cogs : list Installable) : M (list string) :=
  let requirements := requirement_set cogs in
  w ← get_world;
  let repos : list (string * list string) := (fun r => (r.1, [])) <$> map_to_list (repos w) in
  repos ← for_each (enumerate requirements) (fun ireq repos =>
    if bool_decide (length repos = 0) then raise ZeroDivisionError
    else
      let repo_index := ireq.1 mod length repos in
      mret (alter (fun item => (item.1, item.2 ++ [ireq.2])) repo_index repos)) repos;
  let has_reqs := filter (fun item => 0 < length item.2) repos in
  for_each has_reqs (fun item failed_reqs =>
    for_each item.2 (fun req failed_reqs =>
      ok ← install_raw_requirements item.1 [req];
      mret (if ok : bool then failed_reqs else failed_reqs ++ [req])) failed_reqs) [].

(** The grouping loop of [_install_cogs]: repo name -> commit -> cogs. *)
Definition group_by_repo_commit (cogs : list Installable)
    : list (string * list (string * list Installable)) :=
  foldl (fun repos cog =>
    dict_upsert (repo_name cog) (fun repo_by_commit =>
      dict_upsert (commit cog) (fun l => default [] l ++ [cog]) (default [] repo_by_commit))
      repos) [] cogs.

Definition _install_cogs (cogs : list Installable)
    : M (list InstalledModule * list Installable) :=
  let repos := group_by_repo_commit cogs in
  for_each repos (fun entry acc =>
    exit_to_commit ← repo_commit entry.1;
    acc ← for_each entry.2 (fun group acc =>
      checkout entry.1 group.1;;
      for_each group.2 (fun cog acc =>
        ok ← copy_to cog false;
        mret (if ok : bool then (acc.1 ++ [from_installable cog], acc.2)
              else (acc.1, acc.2 ++ [cog]))) acc) acc;
    checkout entry.1 exit_to_commit;;
    mret acc) ([], []).

(** Modelled from the spec: [Repo.install_libraries], declared in
    [repo_manager.py]: each library's requirements are installed before its
    source is copied, and "a requirement-install failure for a library fails
    that library's install but not siblings"; without an explicit list every
    available library of the repository is installed. *)
Definition install_libraries (repo : string) (libraries : list Installable)
    : M (list InstalledModule * list Installable) :=
  w ← get_world;
  let libraries := match libraries with [] => available_libraries w repo | _ => libraries end in
  for_each libraries (fun lib acc =>
    reqs_ok ← match requirements (meta lib) with
              | [] => mret true
              | reqs => install_raw_requirements repo reqs
              end;
    ok ← (if reqs_ok : bool then copy_to lib true else mret false);
    mret (if ok : bool then (acc.1 ++ [from_installable lib], acc.2)
          else (acc.1, acc.2 ++ [lib]))) ([], []).

(** The grouping loop of [_reinstall_libraries]: repo name -> commit -> set. *)
Definition group_libs_by_repo_commit (libraries : list Installable)
    : list (string * list (string * list Installable)) :=
  foldl (fun repos lib =>
    dict_upsert (repo_name lib) (fun repo_by_commit =>
      dict_upsert (commit lib) (fun s => set_add key lib (default [] s))
        (default [] repo_by_commit))
      repos) [] libraries.

Definition _reinstall_libraries (libraries : list Installable)
    : M (list InstalledModule * list Installable) :=
  let repos := group_libs_by_repo_commit libraries in
  for_each repos (fun entry acc =>
    exit_to_commit ← repo_commit entry.1;
    acc ← for_each entry.2 (fun group acc =>
      checkout entry.1 group.1;;
      '(installed, failed) ← install_libraries entry.1 group.2;
      mret (acc.1 ++ installed, acc.2 ++ failed)) acc;
    checkout entry.1 exit_to_commit;;
    mret acc) ([], []).

Definition send_pagified (content : string) : M unit :=
  modify_world (log_event (EvSend content)).

Definition plural {A} (l : list A) : bool := bool_decide (1 < length l).

Definition _update_cogs_and_libs (cogs_to_update libs_to_update : list Installable)
    : M (list string * string) :=
  failed_reqs ← _install_requirements cogs_to_update;
  match failed_reqs with
  | _ :: _ =>
      mret ([], "Failed to install requirements: "
                +:+ humanize_list env (inline env <$> failed_reqs))
  | [] =>
      '(installed_cogs, failed_cogs) ← _install_cogs cogs_to_update;
      '(installed_libs, failed_libs) ← _reinstall_libraries libs_to_update;
      _save_to_installed (installed_cogs ++ installed_libs);;
      let message := "Cog update completed successfully." in
      let updated_cognames :=
        match installed_cogs with
        | [] => []
        | _ => remove_dups (im_name <$> installed_cogs)
        end in
      message ← match installed_cogs with
                | [] => mret message
                | _ =>
                    if plural installed_cogs then
                      mret (message +:+ nl +:+ "Updated: "
                            +:+ humanize_list env (inline env <$> updated_cognames))
                    else
                      updated ← lift (format (nl +:+ "{cog} updated.") []
                        [("cog", humanize_list env (inline env <$> updated_cognames))]);
                      mret (message +:+ updated)
                end;
      let message :=
        match failed_cogs with
        | [] => message
        | _ =>
            let cognames := name <$> failed_cogs in
            if plural failed_cogs then
              message +:+ nl +:+ "Failed to update cogs: "
                +:+ humanize_list env (inline env <$> cognames)
            else
              message +:+ nl +:+ "Failed to update cog: "
                +:+ humanize_list env (inline env <$> cognames)
        end in
      let message :=
        match cogs_to_update with [] => "No cogs were updated." | _ => message end in
      let message :=
        match installed_libs with
        | [] => message
        | _ =>
            if plural installed_libs then
              message +:+ nl +:+ "Some shared libraries were updated, you should restart the bot "
                +:+ "to bring the changes into effect."
            else
              message +:+ nl +:+ "A shared library was updated, you should restart the "
                +:+ "bot to bring the changes into effect."
        end in
      let message :=
        match failed_libs with
        | [] => message
        | _ =>
            let libnames := name <$> failed_libs in
            if plural failed_cogs then
              message +:+ nl +:+ "Failed to install shared libraries: "
                +:+ humanize_list env (inline env <$> libnames)
            else
              message +:+ nl +:+ "Failed to install shared library: "
                +:+ humanize_list env (inline env <$> libnames)
        end in
      mret (updated_cognames, message)
  end.

(** [_cog_installrev] inside the block
    [async with repo.checkout(commit, exit_to_rev=repo.branch)], from the point
    where the requested names have been resolved to [cogs] (with [message] the
    report so far), up to the saving of the install map.  [pin] is
    [rev is not None]: the block was then entered by checking the revision
    out, and it is left, by the early return as by its end, by checking
    [repo.branch] out, whose commit is [branch_commit]; without a revision
    neither checkout is made.  The result tells whether the command went on
    to install ([None] after the early return). *)
Definition _cog_installrev_install (repo : string) (pin : bool) (branch_commit : string)
    (cogs : list Installable) (message : string)
    : M (option (list InstalledModule * list Installable)) :=
  let leave_checkout : M unit :=
    if pin then checkout repo branch_commit else mret tt in
  failed_reqs ← _install_requirements cogs;
  match failed_reqs with
  | _ :: _ =>
      send_pagified (message +:+ nl +:+ "Failed to install requirements: "
                     +:+ humanize_list env (inline env <$> failed_reqs));;
      leave_checkout;;
      mret None
  | [] =>
      '(installed_cogs, failed_cogs) ← _install_cogs cogs;
      leave_checkout;;
      '(installed_libs, failed_libs) ← install_libraries repo [];
      let installed_cogs :=
        if pin then (fun cog => set_pinned cog true) <$> installed_cogs else installed_cogs in
      _save_to_installed (installed_cogs ++ installed_libs);;
      mret (Some (installed_cogs, failed_cogs))
  end.

(** ** Uninstall *)

(** [_delete_cog(target)] for an entry of the install path; [shutil.rmtree] and
    [os.remove] are taken to succeed on an entry that exists. *)
Definition _delete_cog (target : string) : M unit :=
  modify_world (fun w =>
    match install_path w !! target with
    | None => w
    | Some Directory => set_install_path (delete target) w
    | Some RegularFile => set_install_path (delete target) w
    | Some OtherPath => w
    end).

(** [with suppress(ExtensionNotLoaded): unload_extension(n); remove_loaded_package(n)] *)
Definition unload_suppressed (real_name : string) : M unit :=
  modify_world (fun w =>
    if bool_decide (real_name ∈ extensions w)
    then set_bot (extensions w ∖ {[real_name]}) (packages w ∖ {[real_name]}) w
    else w).

Definition uninstall_message (clean_prefix : string)
    (uninstalled_cogs failed_cogs : list string) : Result string :=
  let message :=
    match uninstalled_cogs with
    | [] => ""
    | first :: _ =>
        if plural uninstalled_cogs then
          "Successfully uninstalled cogs: " +:+ humanize_list env uninstalled_cogs
        else "Successfully uninstalled cog " +:+ first
    end in
  match failed_cogs with
  | [] => mret message
  | first :: _ =>
      if plural failed_cogs then
        hint ← format
          (nl +:+ "They were most likely removed without using `{prefix}cog uninstall`." +:+ nl
           +:+ "You may need to remove those files manually if the cogs are still usable."
           +:+ " If so, ensure the cogs have been unloaded with `{prefix}unload {cogs}`.")
          [] [("prefix", clean_prefix); ("cogs", join " " failed_cogs)];
        mret (message +:+ nl
              +:+ "Downloader has removed these cogs from the installed cogs list"
              +:+ " but it wasn't able to find their files: "
              +:+ humanize_list env (inline env <$> failed_cogs) +:+ hint)
      else
        removed ← format
          (nl +:+ "Downloader has removed the cog {cog} from the installed cogs list"
           +:+ " but it wasn't able to find his files.")
          [] [("cog", inline env first)];
        hint ← format
          (nl +:+ "It was most likely removed without using `{prefix}cog uninstall`." +:+ nl
           +:+ "You may need to remove those files manually if the cog are still usable."
           +:+ " If so, ensure the cog have been unloaded with `{prefix}unload {cog}`.")
          [] [("prefix", clean_prefix); ("cog", first)];
        mret (message +:+ removed +:+ hint)
  end.

Definition _cog_uninstall (clean_prefix : string) (cogs : list InstalledModule) : M unit :=
  match cogs with
  | [] => modify_world (log_event EvSendHelp)
  | _ :: _ =>
      '(uninstalled_cogs, failed_cogs) ← for_each (to_set im_key cogs) (fun cog acc =>
        let real_name := im_name cog in
        w ← get_world;
        match install_path w !! real_name with
        | Some _ =>
            unload_suppressed real_name;;
            _delete_cog real_name;;
            mret (acc.1 ++ [inline env real_name], acc.2)
        | None => mret (acc.1, acc.2 ++ [real_name])
        end) ([], []);
      _remove_from_installed cogs;;
      message ← lift (uninstall_message clean_prefix uninstalled_cogs failed_cogs);
      send_pagified message
  end.

(** ** UpdateResolver: [_available_updates] *)

(** [{cog.repo for cog in cogs if cog.repo is not None}] *)
Definition repos_of (w : World) (cogs : list InstalledModule) : list string :=
  remove_dups (im_repo_name <$> filter (fun cog => is_Some (repos w !! im_repo_name cog)) cogs).

(** Body of the loop over [repo.available_libraries]. *)
Definition check_library (installed_libraries : list InstalledModule)
    (acc : list InstalledModule * list Installable) (lib : Installable)
    : list InstalledModule * list Installable :=
  match index_of im_key (key lib) installed_libraries with
  | None => (acc.1, set_add key lib acc.2)
  | Some installed => (set_add im_key installed acc.1, acc.2)
  end.

(** Body of the loop [for cog in cogs]. *)
Definition check_cog (w : World)
    (acc : list InstalledModule * list Installable) (cog : InstalledModule)
    : list InstalledModule * list Installable :=
  match repos w !! im_repo_name cog with
  | None => acc
  | Some _ =>
      if bool_decide (im_commit cog ≠ "") then (set_add im_key cog acc.1, acc.2)
      else
        match get_last_module_occurrence (im_repo_name cog) (im_name cog) with
        | Some last_cog_occurrence =>
            if disabled (meta last_cog_occurrence) then acc
            else (acc.1, set_add key last_cog_occurrence acc.2)
        | None => acc
        end
  end.

(** Body of the loop that fills [hashes]. *)
Definition hash_module (module : InstalledModule)
    (hashes : list (string * string * list InstalledModule))
    : M (list (string * string * list InstalledModule)) :=
  head ← repo_commit (im_repo_name module);
  if bool_decide (head ≠ im_commit module)
     && is_ancestor env (im_repo_name module) (im_commit module) head
  then mret (dict_upsert (im_repo_name module, im_commit module)
               (fun s => set_add im_key module (default [] s)) hashes)
  else mret hashes.

(** Body of the loop over the modules of one [(repo, old_hash)] group. *)
Definition classify_module (head : string) (modified : list Installable)
    (module : InstalledModule)
    (acc : list InstalledModule * list Installable * list Installable)
    : list InstalledModule * list Installable * list Installable :=
  let '(update_commits, cogs_to_update, libraries_to_update) := acc in
  match index_of key (im_key module) modified with
  | None => (update_commits ++ [set_commit module head], cogs_to_update, libraries_to_update)
  | Some modified_module =>
      match type (meta modified_module) with
      | COG =>
          if disabled (meta modified_module) then acc
          else (update_commits, set_add key modified_module cogs_to_update,
                libraries_to_update)
      | SHARED_LIBRARY =>
          (update_commits, cogs_to_update, set_add key modified_module libraries_to_update)
      | UNKNOWN => acc
      end
  end.

(** Body of the loop over [hashes.items()]: one diff query per entry. *)
Definition check_group (entry : string * string * list InstalledModule)
    (acc : list InstalledModule * list Installable * list Installable)
    : M (list InstalledModule * list Installable * list Installable) :=
  let '(repo, old_hash, modules_to_check) := entry in
  head ← repo_commit repo;
  modified ← get_modified_modules repo old_hash head;
  mret (foldl (fun acc module => classify_module head modified module acc)
          acc modules_to_check).

Definition _available_updates (cogs : list InstalledModule)
    : M (list Installable * list Installable) :=
  w ← get_world;
  let repos := repos_of w cogs in
  installed_libraries ← installed_libraries;
  let '(modules, libraries_to_update) :=
    foldl (check_library installed_libraries) ([], [])
      (repo ← repos; available_libraries w repo) in
  let '(modules, cogs_to_update) := foldl (check_cog w) (modules, []) cogs in
  hashes ← for_each modules hash_module [];
  '(update_commits, cogs_to_update, libraries_to_update) ←
    for_each hashes check_group ([], cogs_to_update, libraries_to_update);
  _save_to_installed update_commits;;
  mret (cogs_to_update, libraries_to_update).

End Downloader.

(** * The commands around the engine

    The remaining coroutines of the cog that act on the persisted install map:
    pinning, the filter by names of [_cog_installrev], the schema migration,
    and the helpers of [findcog] and [repo add]. *)

(** ** Outcomes of the filter by names

    [_filter_incorrect_cogs_by_names] can end with an exception that the
    version filter does not have: the [TypeError] of a unary minus applied to
    a string. *)

Inductive Raised : Type :=
| Builtin (e : Exception)
| TypeError.

Inductive Outcome (A : Type) : Type :=
| Returns (a : A)
| Raises (e : Raised).

Arguments Returns {A} a.
Arguments Raises {A} e.

Global Instance Outcome_ret : MRet Outcome := @Returns.
Global Instance Outcome_bind : MBind Outcome := fun A B k r =>
  match r with
  | Returns a => k a
  | Raises e => Raises e
  end.

Definition builtin {A} (r : Result A) : Outcome A :=
  match r with
  | Ok a => Returns a
  | Raise e => Raises (Builtin e)
  end.

(** ** Text helpers of the commands *)

(** [s.split(sep)] for a separator of one character: the pieces between the
    occurrences of [sep]; a string without [sep] is its own single piece. *)
Fixpoint split (sep : ascii) (s : string) : list string :=
  match s with
  | EmptyString => [EmptyString]
  | String c rest =>
      if bool_decide (c = sep) then EmptyString :: split sep rest
      else
        match split sep rest with
        | first :: others => String c first :: others
        | [] => [String c EmptyString]
        end
  end.

(** [cog_name_from_instance]: [instance.__module__.split(".")[0]]. *)
Definition cog_name_from_instance (module : string) : Result string :=
  match split "."%char module with
  | first :: _ => Ok first
  | [] => Raise IndexError
  end.

(** The regular expressions the cog uses: a sequence of [^], [$] and starred
    character classes given by their ranges. *)
Inductive ReItem : Type :=
| ReStart
| ReEnd
| ReStarClass (ranges : list (ascii * ascii)).

Definition in_range (c : ascii) (r : ascii * ascii) : bool :=
  (nat_of_ascii r.1 <=? nat_of_ascii c)%nat && (nat_of_ascii c <=? nat_of_ascii r.2)%nat.

Definition in_class (ranges : list (ascii * ascii)) (c : ascii) : bool :=
  existsb (in_range c) ranges.

(** A starred class followed by the rest of the pattern [k]: it takes as many
    characters as it can and gives them back one at a time. *)
Fixpoint star_class (ranges : list (ascii * ascii)) (k : bool -> string -> bool)
    (at_start : bool) (s : string) : bool :=
  match s with
  | String c rest => in_class ranges c && star_class ranges k false rest || k at_start s
  | EmptyString => k at_start s
  end.

(** [re.match(pattern, s) is not None]: the pattern is matched from the
    beginning of [s]; [^] matches at the beginning, [$] at the end of the
    string and just before a newline that ends it. *)
Fixpoint re_match_from (items : list ReItem) (at_start : bool) (s : string) : bool :=
  match items with
  | [] => true
  | ReStart :: items' => at_start && re_match_from items' at_start s
  | ReEnd :: items' =>
      (bool_decide (s = EmptyString) || bool_decide (s = nl))
      && re_match_from items' at_start s
  | ReStarClass ranges :: items' => star_class ranges (re_match_from items') at_start s
  end.

Definition re_match (items : list ReItem) (s : string) : bool :=
  re_match_from items true s.

(** The pattern [^[a-zA-Z0-9_\-]*$] of [_repo_add]. *)
Definition repo_name_pattern : list ReItem :=
  [ReStart;
   ReStarClass [("a"%char, "z"%char); ("A"%char, "Z"%char); ("0"%char, "9"%char);
                ("_"%char, "_"%char); ("-"%char, "-"%char)];
   ReEnd].

(** ** The schema migration: [_maybe_update_config] and [_schema_0_to_1] *)

(** The global configuration of the cog: the world with its install maps, the
    schema version and the raw list [installed] written by schema 0, whose
    entries are JSON objects with string values. *)
Record Store : Type := mkStore {
  schema_version : nat;
  installed : option (list (gmap string string));
  store_world : World;
}.

(** [d[k]] *)
Definition getitem (d : gmap string string) (k : string) : Result string :=
  match d !! k with
  | Some v => Ok v
  | None => Raise (KeyError k)
  end.

(** One iteration of [for cog_json in old_conf]. *)
Definition migrate_entry (cog_json : gmap string string)
    (new_cog_conf : gmap string (gmap string ModuleJson))
    : Result (gmap string (gmap string ModuleJson)) :=
  repo_name ← getitem cog_json "repo_name";
  module_name ← getitem cog_json "cog_name";
  let new_cog_conf :=
    match new_cog_conf !! repo_name with
    | None => <[repo_name := ∅]> new_cog_conf
    | Some _ => new_cog_conf
    end in
  mret (alter (<[module_name := mkJson repo_name module_name "" false]>)
          repo_name new_cog_conf).

(** The loop [for cog_json in old_conf]: how it ended, and the map
    [new_cog_conf] as it left it; an entry that raises ends the loop, the
    entries before it having been filed. *)
Fixpoint migrate_entries (old_conf : list (gmap string string))
    (new_cog_conf : gmap string (gmap string ModuleJson))
    : Result unit * gmap string (gmap string ModuleJson) :=
  match old_conf with
  | [] => (Ok tt, new_cog_conf)
  | cog_json :: rest =>
      match migrate_entry cog_json new_cog_conf with
      | Ok new_cog_conf => migrate_entries rest new_cog_conf
      | Raise e => (Raise e, new_cog_conf)
      end
  end.

(** Modelled from the spec: the persisted configuration store, declared in
    [config.py]; the map that [async with self.config.installed_cogs()]
    hands out is written back when the block is left, by its end or by an
    exception.  The result is how the coroutine ended and the configuration
    it leaves. *)
Definition _schema_0_to_1 (s : Store) : Result unit * Store :=
  match default [] (installed s) with
  | [] => (Ok tt, s)
  | old_conf =>
      let '(ended, new_cog_conf) :=
        migrate_entries old_conf (installed_cogs_conf (store_world s)) in
      let written :=
        set_conf new_cog_conf (installed_libraries_conf (store_world s)) (store_world s) in
      match ended with
      | Ok _ => (Ok tt, mkStore (schema_version s) None written)
      | Raise e => (Raise e, mkStore (schema_version s) (installed s) written)
      end
  end.

Definition _maybe_update_config (s : Store) : Result unit * Store :=
  let version := schema_version s in
  if bool_decide (version = 0) then
    match _schema_0_to_1 s with
    | (Ok _, s) => (Ok tt, mkStore (version + 1) (installed s) (store_world s))
    | (Raise e, s) => (Raise e, s)
    end
  else (Ok tt, s).

Section Commands.

Context (env : Env).

(** ** Pinning: [_cog_pin] and [_cog_unpin] *)

(** The loop [for cog in set(cogs)] of [_cog_pin]: the names of the cogs found
    pinned, and the cogs it pins. *)
Definition pin_loop (cogs : list InstalledModule) : list string * list InstalledModule :=
  foldl (fun acc cog =>
    if im_pinned cog then (acc.1 ++ [inline env (im_name cog)], acc.2)
    else (acc.1, acc.2 ++ [set_pinned cog true])) ([], []) (to_set im_key cogs).

Definition _cog_pin (cogs : list InstalledModule) : M unit :=
  match cogs with
  | [] => modify_world (log_event EvSendHelp)
  | _ :: _ =>
      let '(already_pinned, pinned) := pin_loop cogs in
      message ← match pinned with
                | [] => mret ""
                | _ :: _ =>
                    _save_to_installed pinned;;
                    let cognames := (fun cog => inline env (im_name cog)) <$> pinned in
                    if plural pinned then mret "Pinned cogs: "
                    else
                      match cognames with
                      | first :: _ => lift (format "Pinned {cog}" [first] [])
                      | [] => raise IndexError
                      end
                end;
      message ← match already_pinned with
                | [] => mret message
                | first :: _ =>
                    if plural already_pinned then
                      mret (message +:+ nl +:+ "These cogs were already pinned: "
                            +:+ humanize_list env already_pinned)
                    else
                      already ← lift (format (nl +:+ "{cog} was already pinned.") []
                                        [("cog", first)]);
                      mret (message +:+ already)
                end;
      send_pagified message
  end.

(** The loop [for cog in set(cogs)] of [_cog_unpin]. *)
Definition unpin_loop (cogs : list InstalledModule) : list string * list InstalledModule :=
  foldl (fun acc cog =>
    if negb (im_pinned cog) then (acc.1 ++ [inline env (im_name cog)], acc.2)
    else (acc.1, acc.2 ++ [set_pinned cog false])) ([], []) (to_set im_key cogs).

Definition _cog_unpin (cogs : list InstalledModule) : M unit :=
  match cogs with
  | [] => modify_world (log_event EvSendHelp)
  | _ :: _ =>
      let '(not_pinned, unpinned) := unpin_loop cogs in
      message ← match unpinned with
                | [] => mret ""
                | _ :: _ =>
                    _save_to_installed unpinned;;
                    let cognames := (fun cog => inline env (im_name cog)) <$> unpinned in
                    if plural unpinned then mret "Unpinned cogs: "
                    else
                      match cognames with
                      | first :: _ => lift (format "Unpinned {cog}" [first] [])
                      | [] => raise IndexError
                      end
                end;
      message ← match not_pinned with
                | [] => mret message
                | first :: _ =>
                    if plural unpinned then
                      mret (message +:+ nl +:+ "These cogs weren't pinned: "
                            +:+ humanize_list env not_pinned)
                    else
                      already ← lift (format (nl +:+ "{cog} was already not pinned.") []
                                        [("cog", first)]);
                      mret (message +:+ already)
                end;
      send_pagified message
  end.

(** ** The filter by names: [_filter_incorrect_cogs_by_names] *)

Section ByNames.

(** [repo.available_cogs], declared in [repo_manager.py]: the cogs a
    repository offers in its working copy. *)
Context (available_cogs : World -> string -> list Installable).

(** [discord.utils.get(repo.available_cogs, name=cog_name)] *)
Definition get_available (w : World) (repo cog_name : string) : option Installable :=
  find (fun cog => bool_decide (name cog = cog_name)) (available_cogs w repo).

(** One iteration of [for cog_name in cog_names]. *)
Definition filter_name (w : World) (repo : string) (installed_cogs : list InstalledModule)
    (acc : list Installable * list string * list string * list string)
    (cog_name : string) : list Installable * list string * list string * list string :=
  let '(cogs, unavailable_cogs, already_installed, name_already_used) := acc in
  match get_available w repo cog_name with
  | None =>
      (cogs, unavailable_cogs ++ [inline env cog_name], already_installed, name_already_used)
  | Some cog =>
      if bool_decide (key cog ∈ im_key <$> installed_cogs) then
        (cogs, unavailable_cogs, already_installed ++ [inline env cog_name],
         name_already_used)
      else if bool_decide (name cog ∈ im_name <$> installed_cogs) then
        (cogs, unavailable_cogs, already_installed,
         name_already_used ++ [inline env cog_name])
      else (cogs ++ [cog], unavailable_cogs, already_installed, name_already_used)
  end.

(** The report on the names that were set aside.  The field [{repo.name}] reads
    the attribute [name] of the keyword argument [repo]; the singular report of
    a name already in use applies a unary minus to the formatted string. *)
Definition names_message (repo : string)
    (unavailable_cogs already_installed name_already_used : list string) : Outcome string :=
  let message := "" in
  message ← match unavailable_cogs with
            | [] => mret message
            | first :: _ =>
                if plural unavailable_cogs then
                  heading ← builtin (format (nl +:+ "Couldn't find these cogs in {repo.name}: ")
                                       [] [("repo.name", repo)]);
                  mret (message +:+ heading +:+ humanize_list env unavailable_cogs)
                else
                  text ← builtin (format (nl +:+ "Couldn't find {cog} cog in {repo.name}")
                                    [] [("cog", first); ("repo.name", repo)]);
                  mret (message +:+ text)
            end;
  message ← match already_installed with
            | [] => mret message
            | first :: _ =>
                if plural already_installed then
                  mret (message +:+ nl +:+ "These cogs were already installed: "
                        +:+ humanize_list env already_installed)
                else
                  text ← builtin (format (nl +:+ "{cog} was already installed.")
                                    [] [("cog", first)]);
                  mret (message +:+ text)
            end;
  match name_already_used with
  | [] => mret message
  | first :: _ =>
      if plural name_already_used then
        mret (message +:+ nl
              +:+ "Some cogs with these names are already installed from different repos: "
              +:+ humanize_list env name_already_used)
      else
        text ← builtin (format "Cog with name {cog} is already installed from a different repo."
                          [] [("cog", first)]);
        Raises TypeError
  end.

Definition _filter_incorrect_cogs_by_names (w : World) (repo : string)
    (cog_names : list string) : Outcome (list Installable * string) :=
  let installed_cogs := records_of COG (installed_cogs_conf w) in
  let '(cogs, unavailable_cogs, already_installed, name_already_used) :=
    foldl (filter_name w repo installed_cogs) ([], [], [], []) cog_names in
  message ← names_message repo unavailable_cogs already_installed name_already_used;
  '(correct_cogs, add_to_message) ← builtin (_filter_incorrect_cogs env cogs);
  if bool_decide (add_to_message ≠ "") then mret (correct_cogs, message +:+ add_to_message)
  else mret (correct_cogs, message).

End ByNames.

End Commands.

(** ** The update commands: [_cog_checkforupdates] and [_cog_update_logic] *)

Section UpdateCommands.

Context (env : Env).

(** [RepoManager.update_repos(repos)], declared in [repo_manager.py]: it
    fetches the given repositories (all of them when none is given) and
    returns the names of those it could not update; the repositories it
    updated are not used by the cog. *)
Context (update_repos : option (list string) -> M (list string)).

Definition format_failed_repos (failed : list string) : string :=
  (if plural failed then "Failed to update the following repositories:"
   else "Failed to update the following repository:")
  +:+ " " +:+ humanize_list env (inline env <$> failed) +:+ nl
  +:+ "The repository's branch might have been removed or"
  +:+ " the repository is no longer accessible at set url."
  +:+ " See logs for more information.".

(** [_get_cogs_to_check(repos=..., cogs=..., update_repos=...)], with [None]
    and the empty collection both given as [[]], and repositories given by
    name.  The repository of a cog of the request was looked up when the
    request was read, the repository of a cog read from the install map is
    looked up when the map is read. *)
Definition _get_cogs_to_check (repo_names : list string) (cogs : list InstalledModule)
    (update : bool) : M (list InstalledModule * list string) :=
  w0 ← get_world;
  match cogs, repo_names with
  | [], [] =>
      failed ← (if update then update_repos None else mret []);
      installed ← installed_cogs;
      w ← get_world;
      mret (to_set im_key
              (filter (fun cog => is_Some (repos w !! im_repo_name cog)
                                  /\ im_repo_name cog ∉ failed) installed),
            failed)
  | _, _ =>
      let repo_names :=
        match repo_names with
        | [] => repos_of w0 cogs
        | _ => repo_names
        end in
      failed ← (if update then update_repos (Some repo_names) else mret []);
      let repo_names :=
        match failed with
        | [] => repo_names
        | _ => filter (fun repo => repo ∉ failed) repo_names
        end in
      match cogs with
      | _ :: _ =>
          mret (to_set im_key
                  (filter (fun cog => is_Some (repos w0 !! im_repo_name cog)
                                      /\ im_repo_name cog ∈ repo_names) cogs),
                failed)
      | [] =>
          installed ← installed_cogs;
          w ← get_world;
          mret (to_set im_key
                  (filter (fun cog => is_Some (repos w !! im_repo_name cog)
                                      /\ im_repo_name cog ∈ repo_names) installed),
                failed)
      end
  end.

Definition _cog_checkforupdates : M unit :=
  '(cogs_to_check, failed) ← _get_cogs_to_check [] [] true;
  '(cogs_to_update, libs_to_update) ← _available_updates env cogs_to_check;
  '(cogs_to_update, filter_message) ← lift (_filter_incorrect_cogs env cogs_to_update);
  let message := "" in
  message ← match cogs_to_update with
            | [] => mret message
            | first :: _ =>
                let cognames := name <$> cogs_to_update in
                if plural cogs_to_update then
                  mret (message +:+ "These cogs can be updated: "
                        +:+ humanize_list env (inline env <$> cognames))
                else
                  text ← lift (format "{cog} can be updated." []
                                 [("cog", inline env (name first))]);
                  mret (message +:+ text)
            end;
  message ← match libs_to_update with
            | [] => mret message
            | first :: _ =>
                let libnames := name <$> libs_to_update in
                if plural libnames then
                  mret (message +:+ nl +:+ "These shared libraries can be updated: "
                        +:+ humanize_list env (inline env <$> libnames))
                else
                  text ← lift (format (nl +:+ "Shared library {library} can be updated.") []
                                 [("library", inline env (name first))]);
                  mret (message +:+ text)
            end;
  let message :=
    match cogs_to_update, libs_to_update with
    | [], [] => if bool_decide (filter_message ≠ "") then message +:+ "No cogs can be updated."
                else message
    | _, _ => message
    end in
  let message := message +:+ filter_message in
  let message :=
    if bool_decide (message = "") then "All installed cogs are up to date." else message in
  let message :=
    match failed with
    | [] => message
    | _ => message +:+ nl +:+ format_failed_repos failed
    end in
  send_pagified message.

Definition DEPRECATION_NOTICE : string :=
  nl +:+ "**WARNING:** The following repos are using shared libraries"
  +:+ " which are marked for removal in Red 3.4: {repo_list}." +:+ nl
  +:+ " You should inform maintainers of these repos about this message.".

(** The note on the pinned cogs that [_cog_update_logic] appends. *)
Definition pinned_note (pinned_cogs : list InstalledModule) (message : string) : string :=
  match pinned_cogs with
  | [] => message
  | _ =>
      let cognames := im_name <$> pinned_cogs in
      message +:+ nl +:+ "These cogs are pinned and therefore weren't checked: "
      +:+ humanize_list env (inline env <$> cognames)
  end.

(** [module.repo.name], for the modules whose repository offers shared
    libraries. *)
Definition repos_with_libs (modules : list Installable) : M (list string) :=
  names ← for_each modules (fun module names =>
    repo_commit (repo_name module);;
    w ← get_world;
    match available_libraries env w (repo_name module) with
    | [] => mret names
    | _ => mret (names ++ [inline env (repo_name module)])
    end) [];
  mret (remove_dups names).

(** [_cog_update_logic] as [_cog_update] and [_cog_updateallfromrepos] call it
    ([repo] is [None]), up to the question whether to reload: the result is
    the set of names the reload is offered for, if it is offered. *)
Definition _cog_update_logic (repo_names : list string) (cogs : list InstalledModule)
    : M (option (list string)) :=
  '(cogs_to_check, check_failed) ← _get_cogs_to_check repo_names cogs true;
  let failed_repos := remove_dups check_failed in
  let pinned_cogs := filter (fun cog => im_pinned cog) cogs_to_check in
  let cogs_to_check := filter (fun cog => negb (im_pinned cog)) cogs_to_check in
  let message := "" in
  '(cogs_to_update, libs_to_update, updated_cognames, message) ←
    match cogs_to_check with
    | [] =>
        let message := message +:+ "There were no cogs to check." in
        mret ([], [], None, pinned_note pinned_cogs message)
    | _ :: _ =>
        '(cogs_to_update, libs_to_update) ← _available_updates env cogs_to_check;
        let updates_available :=
          match cogs_to_update, libs_to_update with
          | [], [] => false
          | _, _ => true
          end in
        '(cogs_to_update, filter_message) ← lift (_filter_incorrect_cogs env cogs_to_update);
        '(updated_cognames, message) ←
          (if updates_available then
             '(updated_cognames, message) ←
               _update_cogs_and_libs env cogs_to_update libs_to_update;
             mret (Some updated_cognames, message)
           else
             match repo_names with
             | _ :: _ =>
                 mret (None, message +:+ "Cogs from provided repos are already up to date.")
             | [] =>
                 match cogs with
                 | _ :: _ => mret (None, message +:+ "Provided cogs are already up to date.")
                 | [] =>
                     mret (None, message +:+ "All installed cogs are already up to date.")
                 end
             end);
        let message := pinned_note pinned_cogs message in
        mret (cogs_to_update, libs_to_update, updated_cognames, message +:+ filter_message)
    end;
  let message :=
    match failed_repos with
    | [] => message
    | _ => message +:+ nl +:+ format_failed_repos failed_repos
    end in
  repos_with_libs ← repos_with_libs (cogs_to_update ++ libs_to_update);
  message ← match repos_with_libs with
            | [] => mret message
            | _ =>
                notice ← lift (format DEPRECATION_NOTICE []
                                 [("repo_list", humanize_list env repos_with_libs)]);
                mret (message +:+ notice)
            end;
  send_pagified message;;
  match updated_cognames with
  | Some (first :: rest) => mret (Some (first :: rest))
  | _ => mret None
  end.

End UpdateCommands.

(** * Notions used to state the properties *)

(** The calls to the package installer made for the buckets of the
    repositories, in program order. *)
Definition pip_calls (items : list (string * list string)) : list (string * string) :=
  item ← items; (fun req => (item.1, req)) <$> item.2.

Definition pip_event (call : string * string) : Event := EvPip call.1 [call.2].

(** The world in which a call to the package installer is made when the
    calls [before] precede it, from [w]: only the record of the calls has
    grown. *)
Definition pip_world (w : World) (before : list (string * string)) : World :=
  with_trace (reverse (pip_event <$> before) ++ trace w) w.

(** The requirements whose call fails when [calls] are made in this order
    after the calls [before], from [w]. *)
Fixpoint failed_calls (env : Env) (w : World) (before calls : list (string * string))
    : list string :=
  match calls with
  | [] => []
  | call :: rest =>
      (if pip_succeeds env (pip_world w before) call.1 [call.2] then [] else [call.2])
      ++ failed_calls env w (before ++ [call]) rest
  end.

(** Among the [calls] made in this order from [w], the one for [req] fails. *)
Definition failed_call (env : Env) (w : World) (calls : list (string * string))
    (req : string) : Prop :=
  exists before repo after,
    calls = before ++ (repo, req) :: after
    /\ pip_succeeds env (pip_world w before) repo [req] = false.

(** The modules held by a grouping [repo -> commit -> modules]. *)
Definition modules_of_groups {A} (groups : list (string * list A)) : list A :=
  group ← groups; group.2.

Definition modules_of_entries {A} (entries : list (string * list (string * list A)))
    : list A :=
  entry ← entries; modules_of_groups entry.2.

(** The copy of [cog] succeeds (fails) whenever it is attempted. *)
Definition copy_always (env : Env) (outcome : bool) (cog : Installable) : Prop :=
  forall w, copy_succeeds env w cog = outcome.

(** What [_install_cogs] owes the modules it has visited: each went to
    [installed] or to [failed], according to its copy. *)
Definition settled (env : Env) (visited : list Installable)
    (acc : list InstalledModule * list Installable) : Prop :=
  forall cog, cog ∈ visited ->
    (from_installable cog ∈ acc.1 \/ cog ∈ acc.2)
    /\ (copy_always env true cog -> from_installable cog ∈ acc.1)
    /\ (copy_always env false cog -> cog ∈ acc.2).

(** One copy of a run of [_install_cogs]: the module and the world in which
    its copy is attempted. *)
Definition Attempt : Type := (Installable * World)%type.

(** Did the copy of an attempt succeed. *)
Definition copied (env : Env) (a : Attempt) : bool := copy_succeeds env a.2 a.1.

Definition copy_event (cog : Installable) : Event := EvCopy cog false.

(** The world that the attempts [before] leave, from [w], when the
    repositories have the commits [rs] checked out: the copies are recorded,
    and each module whose copy succeeded has its directory in the install
    path. *)
Definition after_attempts (env : Env) (w : World) (before : list Attempt)
    (rs : gmap string string) : World :=
  mkWorld rs (installed_cogs_conf w) (installed_libraries_conf w)
    (foldl (fun path a => if copied env a then <[name a.1 := Directory]> path else path)
       (install_path w) before)
    (sharedlib_path w) (extensions w) (packages w)
    (reverse (copy_event <$> before.*1) ++ trace w).

(** The world in which [cog] is copied after the attempts [before]: its
    repository has the commit of [cog] checked out. *)
Definition attempt_world (env : Env) (w : World) (before : list Attempt)
    (cog : Installable) : World :=
  after_attempts env w before (<[repo_name cog := commit cog]> (repos w)).

(** [attempts] are the copies of one run from [w], in program order: each
    module is copied in the world its predecessors have left, with its
    repository at its commit. *)
Definition attempts_from (env : Env) (w : World) (attempts : list Attempt) : Prop :=
  forall before cog w1 after,
    attempts = before ++ (cog, w1) :: after -> w1 = attempt_world env w before cog.

(** What the loops of [_install_cogs] have done once they have attempted the
    copies [attempts], the repositories having the commits [rs] checked out. *)
Definition copies_done (env : Env) (w : World) (attempts : list Attempt)
    (rs : gmap string string)
    (acc : list InstalledModule * list Installable) (w1 : World) : Prop :=
  attempts_from env w attempts
  /\ acc = (from_installable <$> (filter (fun a => copied env a) attempts).*1,
            (filter (fun a => negb (copied env a)) attempts).*1)
  /\ w1 = after_attempts env w attempts rs.

(** The persisted map files every document under its own repository and
    module name, as [_save_to_installed] does. *)
Definition conf_consistent (conf : gmap string (gmap string ModuleJson)) : Prop :=
  forall r repo_json n j,
    conf !! r = Some repo_json -> repo_json !! n = Some j ->
    json_repo_name j = r /\ json_module_name j = n.

(** C7 as the spec states it, for an update request: whenever the request
    returns, every sibling module whose own requirements all install was
    handed to the copy step. *)
Definition requirement_failure_isolated (env : Env) (cogs : list Installable)
    (w : World) : Prop :=
  forall names message w',
    _update_cogs_and_libs env cogs [] w = Ok ((names, message), w') ->
    forall sibling, sibling ∈ cogs ->
      (forall req repo w0, req ∈ requirements (meta sibling) ->
         pip_succeeds env w0 repo [req] = true) ->
      EvCopy sibling false ∈ trace w'.

Definition is_pip_event (e : Event) : Prop :=
  match e with
  | EvPip _ _ => True
  | _ => False
  end.

(** ** Notions for the update resolver *)

Section ResolverNotions.

Context (env : Env) (w : World).

(** The records [installed_libraries()] returns. *)
Definition library_records : list InstalledModule :=
  records_of SHARED_LIBRARY (installed_libraries_conf w).

(** The shared libraries published by the repositories of the request. *)
Definition published_libraries (cogs : list InstalledModule) : list Installable :=
  repo ← repos_of w cogs; available_libraries env w repo.

(** The state after the loop over the available libraries, and after the
    loop over the cogs: the set [modules] and the first update candidates. *)
Definition libraries_checked (cogs : list InstalledModule)
    : list InstalledModule * list Installable :=
  foldl (check_library library_records) ([], []) (published_libraries cogs).

Definition cogs_checked (cogs : list InstalledModule)
    : list InstalledModule * list Installable :=
  foldl (check_cog env w) ((libraries_checked cogs).1, []) cogs.

Definition candidates (cogs : list InstalledModule) : list InstalledModule :=
  (cogs_checked cogs).1.

(** A record the resolver diffs: its commit differs from the commit checked
    out in its repository and is an ancestor of it. *)
Definition diffable (m : InstalledModule) : Prop :=
  exists head, repos w !! im_repo_name m = Some head
            /\ head <> im_commit m
            /\ is_ancestor env (im_repo_name m) (im_commit m) head = true.

(** The answer to the diff query for a record's [(repo, old commit)]. *)
Definition diff_of (m : InstalledModule) : list Installable :=
  match repos w !! im_repo_name m with
  | Some head =>
      (fun nm => mkInstallable nm.1 (im_repo_name m) head nm.2)
        <$> modified_modules env (im_repo_name m) (im_commit m) head
  | None => []
  end.

Definition absent_from_diff (m : InstalledModule) : Prop :=
  im_key m ∉ key <$> diff_of m.

(** The record with its commit moved to its repository's current commit. *)
Definition fast_forward (m : InstalledModule) : InstalledModule :=
  set_commit m (default "" (repos w !! im_repo_name m)).

(** The diff query issued for one entry of [hashes]. *)
Definition diff_event (entry : string * string * list InstalledModule) : Event :=
  EvDiff entry.1.1 entry.1.2 (default "" (repos w !! entry.1.1)).

(** The answer to the diff query issued for one entry of [hashes]. *)
Definition entry_diff (entry : string * string * list InstalledModule) : list Installable :=
  let head := default "" (repos w !! entry.1.1) in
  (fun nm => mkInstallable nm.1 entry.1.1 head nm.2)
    <$> modified_modules env entry.1.1 entry.1.2 head.

Definition entry_head (entry : string * string * list InstalledModule) : string :=
  default "" (repos w !! entry.1.1).

End ResolverNotions.

(** The [(repo, old commit)] pairs of the diff queries in a trace. *)
Definition diff_pairs (events : list Event) : list (string * string) :=
  omap (fun e => match e with EvDiff repo old _ => Some (repo, old) | _ => None end) events.


(** C6 as the spec states it: no disabled module, of either kind, is ever
    returned as an update candidate. *)
Definition disabled_never_returned (env : Env) (cogs : list InstalledModule)
    (w : World) : Prop :=
  forall cogs_to_update libraries_to_update w',
    _available_updates env cogs w = Ok ((cogs_to_update, libraries_to_update), w') ->
    forall x, x ∈ cogs_to_update ++ libraries_to_update -> disabled (meta x) = false.

(** The records of a request read back from the persisted cog map. *)
Definition reread (w : World) (cogs : list InstalledModule) : list InstalledModule :=
  omap (fun c => from_json COG <$> conf_lookup (installed_cogs_conf w) (im_key c)) cogs.

(** The idempotence of C3 as the spec states it: after a first run, a second
    run on the same records, read back, returns two empty update sets. *)
Definition second_run_empty (env : Env) (cogs : list InstalledModule) (w : World) : Prop :=
  forall first w1,
    _available_updates env cogs w = Ok (first, w1) ->
    exists w2, _available_updates env (reread w1 cogs) w1 = Ok (([], []), w2).

(** ** Notions for the commands *)

(** The characters a repository name may consist of. *)
Definition name_char (c : ascii) : bool :=
  in_class [("a"%char, "z"%char); ("A"%char, "Z"%char); ("0"%char, "9"%char);
            ("_"%char, "_"%char); ("-"%char, "-"%char)] c.

Definition chars (s : string) : list ascii := list_ascii_of_string s.

Section NameNotions.

Context (available_cogs : World -> string -> list Installable) (w : World) (repo : string).

(** What the filter by names makes of a requested name: the cog the
    repository offers under it, when no installed cog has its repository and
    name or bears its name. *)
Definition fresh_cog (cog_name : string) : option Installable :=
  cog ← get_available available_cogs w repo cog_name;
  if bool_decide (key cog ∈ im_key <$> records_of COG (installed_cogs_conf w))
     || bool_decide (name cog ∈ im_name <$> records_of COG (installed_cogs_conf w))
  then None else Some cog.

(** A requested name whose cog is offered, is not installed from this
    repository, and bears the name of a cog installed from another one. *)
Definition name_clash (cog_name : string) : bool :=
  match get_available available_cogs w repo cog_name with
  | Some cog =>
      negb (bool_decide (key cog ∈ im_key <$> records_of COG (installed_cogs_conf w)))
      && bool_decide (name cog ∈ im_name <$> records_of COG (installed_cogs_conf w))
  | None => false
  end.

End NameNotions.

(** The repository and cog named by an entry of the raw list of schema 0. *)
Definition legacy_key (cog_json : gmap string string) : option ModuleKey :=
  repo_name ← cog_json !! "repo_name";
  module_name ← cog_json !! "cog_name";
  Some (repo_name, module_name).

(** The record the migration files for a legacy entry: no commit, not pinned. *)
Definition legacy_record (k : ModuleKey) : InstalledModule :=
  mkInstalled k.2 k.1 "" COG false k.1.

(** What the loop of [_cog_uninstall] has done to the files and the loaded
    extensions once it has visited [done]. *)
Definition uninstalled_upto (w : World) (done : list InstalledModule) (w' : World) : Prop :=
  installed_cogs_conf w' = installed_cogs_conf w
  /\ installed_libraries_conf w' = installed_libraries_conf w
  /\ repos w' = repos w
  /\ (forall n, n ∉ im_name <$> done ->
        install_path w' !! n = install_path w !! n
        /\ (n ∈ extensions w' <-> n ∈ extensions w))
  /\ (forall n, n ∈ im_name <$> done ->
        match install_path w !! n with
        | None => install_path w' !! n = None /\ (n ∈ extensions w' <-> n ∈ extensions w)
        | Some kind =>
            install_path w' !! n = (if kind is OtherPath then Some OtherPath else None)
            /\ n ∉ extensions w'
        end).


(** The world [w'] differs from [w] by copies of modules of [cogs] into the
    cog install path and by checkouts only. *)
Definition copies_only (cogs : list Installable) (w w' : World) : Prop :=
  installed_cogs_conf w' = installed_cogs_conf w
  /\ installed_libraries_conf w' = installed_libraries_conf w
  /\ sharedlib_path w' = sharedlib_path w
  /\ extensions w' = extensions w
  /\ (forall n, n ∉ name <$> cogs -> install_path w' !! n = install_path w !! n)
  /\ exists events, trace w' = events ++ trace w
       /\ forall e, e ∈ events -> exists c, c ∈ cogs /\ e = EvCopy c false.

(** The world [w'] differs from [w] by installs of libraries of [libs] into
    the shared library path, with their requirements, and by checkouts only. *)
Definition library_installs_only (libs : list Installable) (w w' : World) : Prop :=
  installed_cogs_conf w' = installed_cogs_conf w
  /\ installed_libraries_conf w' = installed_libraries_conf w
  /\ install_path w' = install_path w
  /\ extensions w' = extensions w
  /\ exists events, trace w' = events ++ trace w
       /\ forall e, e ∈ events ->
            is_pip_event e \/ exists lib, lib ∈ libs /\ e = EvCopy lib true.

(** The libraries [install_libraries] works on: the given ones, or every
    library the repository offers when none is given. *)
Definition libraries_to_install (env : Env) (w : World) (repo : string)
    (libraries : list Installable) : list Installable :=
  match libraries with
  | [] => available_libraries env w repo
  | _ => libraries
  end.

(** * Concrete repositories and requests *)

Module Examples.

Definition cog_meta (reqs : list string) : Metadata :=
  mkMetadata COG false false (mkVersion 3 0 0) (mkVersion 3 9 0) (mkVersion 3 8 1) reqs.

Definition lib_meta (is_disabled : bool) : Metadata :=
  mkMetadata SHARED_LIBRARY is_disabled true
    (mkVersion 3 0 0) (mkVersion 3 9 0) (mkVersion 3 8 1) [].

(** A host running Python 3.8.1 and bot version 3.2.0; [inline] wraps a name
    in backquotes and [humanize_list] joins with commas. *)
Definition host
    (tree : string -> string -> list (string * Metadata))
    (diff : string -> string -> string -> list (string * Metadata))
    (copy_ok : Installable -> bool) (pip_ok : bool) : Env :=
  mkEnv (mkVersion 3 8 1) (mkVersion 3 2 0)
    (fun s => "`" +:+ s +:+ "`") (join ", ")
    tree (fun _ _ _ => true) diff (fun _ _ => None)
    (fun _ cog => copy_ok cog) (fun _ _ _ => pip_ok).

Definition no_modules : string -> string -> list (string * Metadata) := fun _ _ => [].
Definition no_diff : string -> string -> string -> list (string * Metadata) :=
  fun _ _ _ => [].

Definition record (n c : string) : InstalledModule := mkInstalled n "R" c COG false "R".
Definition lib_record (n c : string) : InstalledModule :=
  mkInstalled n "R" c SHARED_LIBRARY false "R".

(** Repository [R] with [c2] checked out, and the given persisted maps. *)
Definition world (cogs_conf libs_conf : gmap string (gmap string ModuleJson)) : World :=
  mkWorld {[ "R" := "c2" ]} cogs_conf libs_conf ∅ ∅ ∅ ∅ [].

(** [a] is current, [b] was installed at [c1] and changed since. *)
Definition env_changed_b : Env :=
  host no_modules (fun _ _ _ => [("b", cog_meta [])]) (fun _ => true) true.
Definition world_ab : World :=
  world {[ "R" := {[ "a" := to_json (record "a" "c2"); "b" := to_json (record "b" "c1") ]} ]} ∅.

(** A disabled shared library, installed at [c1], changed since. *)
Definition env_disabled_lib : Env :=
  host (fun _ _ => [("lib", lib_meta true)]) (fun _ _ _ => [("lib", lib_meta true)])
       (fun _ => true) true.
Definition world_lib : World :=
  world {[ "R" := {[ "a" := to_json (record "a" "c2") ]} ]}
        {[ "R" := {[ "lib" := to_json (lib_record "lib" "c1") ]} ]}.

(** A published library [util] that was never installed; nothing changed
    between [c1] and [c2]. *)
Definition env_new_lib : Env :=
  host (fun _ _ => [("util", lib_meta false)]) no_diff (fun _ => true) true.
Definition world_a_old : World :=
  world {[ "R" := {[ "a" := to_json (record "a" "c1") ]} ]} ∅.


(** Nothing published as a library, nothing changed. *)
Definition env_quiet : Env := host no_modules no_diff (fun _ => true) true.

(** Installables of [R] at [c1]: [a] requires package [x], [b] nothing. *)
Definition cog_a : Installable := mkInstallable "a" "R" "c1" (cog_meta ["x"]).
Definition cog_b : Installable := mkInstallable "b" "R" "c1" (cog_meta []).

(** The copy of [b] succeeds, every other copy fails. *)
Definition env_copy_b_only : Env :=
  host no_modules no_diff (fun cog => bool_decide (name cog = "b")) true.

(** No package can be installed. *)
Definition env_pip_fails : Env := host no_modules no_diff (fun _ => true) false.

(** A cog that needs Python 3.9 on a host running 3.8.1. *)
Definition cog_py39 : Installable :=
  mkInstallable "new" "R" "c2"
    (mkMetadata COG false false (mkVersion 3 0 0) (mkVersion 3 9 0) (mkVersion 3 9 0) []).

End Examples.

(** * Concrete requests for the commands *)

Module MoreExamples.

Import Examples.

(** The repository offers [a] and [b]. *)
Definition offers_ab : World -> string -> list Installable := fun _ _ => [cog_a; cog_b].

(** A cog [a] installed from another repository, [S]. *)
Definition world_other_a : World :=
  world {[ "S" := {[ "a" := to_json (mkInstalled "a" "S" "c1" COG false "S") ]} ]} ∅.

(** A store of schema 0 whose raw list names cog [a] of repository [R]. *)
Definition legacy_store : Store :=
  mkStore 0 (Some [({[ "repo_name" := "R"; "cog_name" := "a" ]} : gmap string string)])
    (world ∅ ∅).

(** A store of schema 0 whose second entry lacks its cog name. *)
Definition half_malformed_store : Store :=
  mkStore 0 (Some [({[ "repo_name" := "R"; "cog_name" := "a" ]} : gmap string string);
                   ({[ "repo_name" := "R" ]} : gmap string string)]) (world ∅ ∅).

(** Every repository updates. *)
Definition all_updated : option (list string) -> M (list string) := fun _ => mret [].

(** [a] is current; [b], pinned, and [c] were installed at [c1] and changed
    since. *)
Definition env_changed_bc : Env :=
  host no_modules (fun _ _ _ => [("b", cog_meta []); ("c", cog_meta [])]) (fun _ => true) true.
Definition pinned_b : InstalledModule := mkInstalled "b" "R" "c1" COG true "R".
Definition world_abc : World :=
  world {[ "R" := {[ "a" := to_json (record "a" "c2");
                     "b" := to_json pinned_b;
                     "c" := to_json (record "c" "c1") ]} ]} ∅.

(** A cog of a repository that is not registered. *)
Definition cog_gone : Installable := mkInstallable "g" "gone" "c1" (cog_meta []).

(** A shared library of [R]. *)
Definition lib_util : Installable := mkInstallable "util" "R" "c1" (lib_meta false).

End MoreExamples.

(** * Proofs *)

(** ** Membership in lists that grow at the end *)

Lemma elem_of_snoc_l {A} (l : list A) x y : x ∈ l -> x ∈ l ++ [y].
Proof. intros Hx. apply elem_of_app. by left. Qed.

Lemma elem_of_snoc_r {A} (l : list A) y : y ∈ l ++ [y].
Proof. apply elem_of_app. right. by left. Qed.

Lemma elem_of_middle {A} (l1 l2 : list A) x : x ∈ l1 ++ x :: l2.
Proof. apply elem_of_app. right. by left. Qed.

Lemma subseteq_snoc {A} (l : list A) y : l ⊆ l ++ [y].
Proof. intros x. apply elem_of_snoc_l. Qed.

Lemma subseteq_refl {A} (l : list A) : l ⊆ l.
Proof. by intros x. Qed.

Create HintDb mem.
#[local] Hint Resolve elem_of_snoc_l elem_of_snoc_r elem_of_middle
  subseteq_snoc subseteq_refl : mem.

Ltac mem := simpl; solve [ done | eauto with mem ].

(** ** Reasoning about the monad *)

Lemma bind_ok {A B} (m : M A) (k : A -> M B) w a w1 :
  m w = Ok (a, w1) -> (m ≫= k) w = k a w1.
Proof. intros H. unfold mbind, M_bind. by rewrite H. Qed.

Lemma bind_raise {A B} (m : M A) (k : A -> M B) w e :
  m w = Raise e -> (m ≫= k) w = Raise e.
Proof. intros H. unfold mbind, M_bind. by rewrite H. Qed.

Lemma bind_inv {A B} (m : M A) (k : A -> M B) w b w2 :
  (m ≫= k) w = Ok (b, w2) -> exists a w1, m w = Ok (a, w1) /\ k a w1 = Ok (b, w2).
Proof.
  unfold mbind, M_bind. destruct (m w) as [[a w1]|e]; [eauto | discriminate].
Qed.

(** Loop rule, total form: an invariant indexed by the part of the list
    already visited; every iteration returns and re-establishes it. *)
Lemma for_each_invariant {A S} (I : list A -> S -> World -> Prop)
    (body : A -> S -> M S) (l : list A) :
  (forall done x s w, (exists rest, l = done ++ x :: rest) -> I done s w ->
     exists s' w', body x s w = Ok (s', w') /\ I (done ++ [x]) s' w') ->
  forall s w, I [] s w ->
  exists s' w', for_each l body s w = Ok (s', w') /\ I l s' w'.
Proof.
  intros Hbody.
  assert (Hgen : forall rest done s w, l = done ++ rest -> I done s w ->
            exists s' w', for_each rest body s w = Ok (s', w') /\ I l s' w').
  { induction rest as [|x rest IH]; intros done s w Hl HI.
    - rewrite app_nil_r in Hl. subst. exists s, w. split; [reflexivity | done].
    - destruct (Hbody done x s w) as (s1 & w1 & Hx & HI1); [by exists rest | done |].
      destruct (IH (done ++ [x]) s1 w1) as (s2 & w2 & Hrest & HI2).
      + by rewrite <- app_assoc.
      + done.
      + exists s2, w2. split; [|done]. simpl. by rewrite (bind_ok _ _ _ _ _ Hx). }
  intros s w HI. by apply (Hgen l []).
Qed.

(** Loop rule, partial form: whenever the loop returns, the invariant holds
    of the whole list. *)
Lemma for_each_invariant_ok {A S} (I : list A -> S -> World -> Prop)
    (body : A -> S -> M S) (l : list A) :
  (forall done x s w s' w', (exists rest, l = done ++ x :: rest) -> I done s w ->
     body x s w = Ok (s', w') -> I (done ++ [x]) s' w') ->
  forall s w s' w', I [] s w -> for_each l body s w = Ok (s', w') -> I l s' w'.
Proof.
  intros Hbody.
  assert (Hgen : forall rest done s w s' w', l = done ++ rest -> I done s w ->
            for_each rest body s w = Ok (s', w') -> I l s' w').
  { induction rest as [|x rest IH]; intros done s w s' w' Hl HI Hrun.
    - rewrite app_nil_r in Hl. subst. cbv in Hrun. by simplify_eq.
    - simpl in Hrun. apply bind_inv in Hrun as (s1 & w1 & Hx & Hrest).
      apply (IH (done ++ [x]) s1 w1); [by rewrite <- app_assoc | | done].
      eapply Hbody; [by exists rest | done | done]. }
  intros s w s' w' HI. by apply (Hgen l []).
Qed.

Lemma for_each_pure_invariant {A S} (I : list A -> S -> Prop)
    (body : A -> S -> Result S) (l : list A) :
  (forall done x s, (exists rest, l = done ++ x :: rest) -> I done s ->
     exists s', body x s = Ok s' /\ I (done ++ [x]) s') ->
  forall s, I [] s -> exists s', for_each_pure l body s = Ok s' /\ I l s'.
Proof.
  intros Hbody.
  assert (Hgen : forall rest done s, l = done ++ rest -> I done s ->
            exists s', for_each_pure rest body s = Ok s' /\ I l s').
  { induction rest as [|x rest IH]; intros done s Hl HI.
    - rewrite app_nil_r in Hl. subst. exists s. split; [reflexivity | done].
    - destruct (Hbody done x s) as (s1 & Hx & HI1); [by exists rest | done |].
      destruct (IH (done ++ [x]) s1) as (s2 & Hrest & HI2).
      + by rewrite <- app_assoc.
      + done.
      + exists s2. split; [|done]. simpl. by rewrite Hx. }
  intros s HI. by apply (Hgen l []).
Qed.

Lemma foldl_invariant {A B} (I : list B -> A -> Prop) (f : A -> B -> A) (l : list B) a :
  I [] a ->
  (forall done x a, (exists rest, l = done ++ x :: rest) -> I done a -> I (done ++ [x]) (f a x)) ->
  I l (foldl f a l).
Proof.
  intros Hinit Hstep.
  assert (Hgen : forall rest done a, l = done ++ rest -> I done a -> I l (foldl f a rest)).
  { induction rest as [|x rest IH]; intros done a0 Hl HI.
    - rewrite app_nil_r in Hl. by subst.
    - simpl. apply (IH (done ++ [x])); [by rewrite <- app_assoc|].
      apply Hstep; [by exists rest | done]. }
  by apply (Hgen l []).
Qed.

Lemma filter_snoc_bool {A} (f : A -> bool) (l : list A) (x : A) :
  filter f (l ++ [x]) = filter f l ++ (if f x then [x] else []).
Proof.
  rewrite filter_app. f_equal. rewrite filter_cons, filter_nil.
  destruct (decide (f x)) as [Hx|Hx].
  - by apply Is_true_true in Hx as ->.
  - by apply Is_true_false in Hx as ->.
Qed.

Lemma NoDup_fmap_eq {A B} (f : A -> B) (l : list A) x y :
  NoDup (f <$> l) -> x ∈ l -> y ∈ l -> f x = f y -> x = y.
Proof.
  induction l as [|z l IH]; csimpl; intros Hnd Hx Hy Hk.
  - by apply elem_of_nil in Hx.
  - apply NoDup_cons in Hnd as [Hz Hnd].
    apply elem_of_cons in Hx as [->|Hx], Hy as [->|Hy]; [done | | | by apply IH].
    + exfalso. apply Hz. rewrite Hk. apply list_elem_of_fmap. by exists y.
    + exfalso. apply Hz. rewrite <- Hk. apply list_elem_of_fmap. by exists x.
Qed.

(** ** The persisted map *)

Lemma elem_of_records_of kind conf m :
  m ∈ records_of kind conf <->
  exists r repo_json n j,
    conf !! r = Some repo_json /\ repo_json !! n = Some j /\ m = from_json kind j.
Proof.
  unfold records_of. rewrite list_elem_of_bind. split.
  - intros (rj & Hm & Hrj).
    apply list_elem_of_fmap in Hrj as ([r rj'] & -> & Hrj).
    apply elem_of_map_to_list in Hrj.
    apply list_elem_of_fmap in Hm as (j & -> & Hj).
    apply list_elem_of_fmap in Hj as ([n j'] & -> & Hj).
    apply elem_of_map_to_list in Hj. by exists r, rj', n, j'.
  - intros (r & rj & n & j & Hr & Hn & ->). exists rj. split.
    + apply list_elem_of_fmap. exists j. split; [done|].
      apply list_elem_of_fmap. exists (n, j). split; [done|].
      by apply elem_of_map_to_list.
    + apply list_elem_of_fmap. exists (r, rj). split; [done|].
      by apply elem_of_map_to_list.
Qed.

Lemma is_installed_run w cog_name :
  is_installed cog_name w =
  match find (fun c => bool_decide (im_name c = cog_name))
             (records_of COG (installed_cogs_conf w)) with
  | Some c => Ok ((true, Some c), w)
  | None => Ok ((false, None), w)
  end.
Proof.
  unfold is_installed, installed_cogs, get_world, mbind, M_bind, mret, M_ret.
  by destruct (find _ _).
Qed.

(** C9. [is_installed] looks a name up among the installed cogs only: a
    shared library recorded as installed, whose name no installed cog bears,
    is reported as [(False, None)]; the answer is [(True, record)], with
    [record] an installed cog of that name, exactly when some installed cog
    has the name, and [(False, None)] exactly when none has; and the answer
    does not depend on the installed-libraries map. *)
Theorem is_installed_consults_cogs_only (w : World) (cog_name : string) :
  let cogs := records_of COG (installed_cogs_conf w) in
  let libs := records_of SHARED_LIBRARY (installed_libraries_conf w) in
  (forall lib, lib ∈ libs ->
     (forall cog, cog ∈ cogs -> im_name cog <> im_name lib) ->
     is_installed (im_name lib) w = Ok ((false, None), w))
  /\ ((exists cog, cog ∈ cogs /\ im_name cog = cog_name) <->
      (exists record, is_installed cog_name w = Ok ((true, Some record), w)
                      /\ record ∈ cogs /\ im_name record = cog_name))
  /\ ((~ exists cog, cog ∈ cogs /\ im_name cog = cog_name) <->
      is_installed cog_name w = Ok ((false, None), w))
  /\ (forall libs_conf,
        let w' := set_conf (installed_cogs_conf w) libs_conf w in
        forall answer, is_installed cog_name w = Ok (answer, w) ->
                       is_installed cog_name w' = Ok (answer, w')).
Proof.
  intros cogs libs. repeat split.
  - intros lib _ Hno. rewrite is_installed_run.
    destruct (find _ _) as [c|] eqn:Hfind; [|done].
    apply find_some in Hfind as [Hin Hname].
    apply bool_decide_eq_true in Hname.
    exfalso. apply (Hno c); [by apply list_elem_of_In | done].
  - intros (cog & Hin & Hname). rewrite is_installed_run.
    destruct (find _ _) as [c|] eqn:Hfind.
    + apply find_some in Hfind as [Hc Hn]. apply bool_decide_eq_true in Hn.
      exists c. split; [done|]. split; [by apply list_elem_of_In | done].
    + exfalso. apply list_elem_of_In in Hin.
      apply (find_none _ _ Hfind) in Hin. by apply bool_decide_eq_false in Hin.
  - intros (record & _ & Hin & Hname). by exists record.
  - intros Hno. rewrite is_installed_run.
    destruct (find _ _) as [c|] eqn:Hfind; [|done].
    apply find_some in Hfind as [Hc Hn]. apply bool_decide_eq_true in Hn.
    exfalso. apply Hno. exists c. split; [by apply list_elem_of_In | done].
  - rewrite is_installed_run. intros Hrun (cog & Hin & Hname).
    destruct (find _ _) as [c|] eqn:Hfind; [discriminate|].
    apply list_elem_of_In in Hin. apply (find_none _ _ Hfind) in Hin.
    by apply bool_decide_eq_false in Hin.
  - intros libs_conf w' answer. rewrite !is_installed_run. simpl.
    destruct (find _ _); congruence.
Qed.

(** ** VersionFilter *)

Section VersionFilter.

Context (env : Env).

Lemma filter_cog_run cog correct py bot :
  exists entry,
  filter_cog env cog (correct, py, bot) =
  Ok (if accepted env cog then correct ++ [cog] else correct,
      if python_outdated env cog then py ++ [entry] else py,
      if negb (python_outdated env cog) && bot_outdated env cog
      then bot ++ [entry] else bot).
Proof.
  unfold filter_cog, accepted.
  destruct (python_outdated env cog); simpl; [eexists; reflexivity|].
  destruct (bot_outdated env cog); simpl; [|by exists ""].
  destruct (ignore_max cog); eexists; reflexivity.
Qed.

Lemma filter_loop cogs :
  exists py bot,
    for_each_pure cogs (filter_cog env) ([], [], []) = Ok (filter (accepted env) cogs, py, bot)
    /\ length py = length (filter (python_outdated env) cogs)
    /\ length bot =
       length (filter (fun c => negb (python_outdated env c) && bot_outdated env c) cogs).
Proof.
  edestruct (for_each_pure_invariant
    (fun done s =>
       s.1.1 = filter (accepted env) done
       /\ length s.1.2 = length (filter (python_outdated env) done)
       /\ length s.2 =
          length (filter (fun c => negb (python_outdated env c) && bot_outdated env c) done))
    (filter_cog env) cogs) as ([[correct py] bot] & Hrun & Hc & Hpy & Hbot).
  - intros done x [[correct py] bot] _ (Hc & Hpy & Hbot).
    destruct (filter_cog_run x correct py bot) as (entry & Hrun).
    eexists. split; [exact Hrun|]. clear Hrun. simpl in *.
    rewrite !filter_app, !length_app, !filter_cons, !filter_nil. subst correct.
    assert (Ha : accepted env x = negb (python_outdated env x) && negb (bot_outdated env x))
      by reflexivity.
    destruct (python_outdated env x), (bot_outdated env x); simpl in Ha; rewrite Ha; simpl;
      rewrite ?app_nil_r, ?length_app; simpl; repeat split; (done || lia).
  - instantiate (1 := ([], [], [])). done.
  - simpl in *. subst. by exists py, bot.
Qed.

Lemma bot_message_ok (outdated_bot_version : list string) :
  exists s, bot_message env outdated_bot_version = Ok s.
Proof.
  unfold bot_message. destruct outdated_bot_version as [|first rest]; [by eexists|].
  case_bool_decide; eexists; reflexivity.
Qed.

Lemma python_message_single (entry : string) :
  python_message env [entry] = Raise (KeyError "cog").
Proof. reflexivity. Qed.

Lemma python_message_ok (outdated_python_version : list string) :
  length outdated_python_version <> 1 ->
  exists s, python_message env outdated_python_version = Ok s.
Proof.
  intros Hlen. unfold python_message.
  destruct outdated_python_version as [|first rest]; [by eexists|].
  case_bool_decide as Hplural; [by eexists|].
  simpl in *. lia.
Qed.

(** Whenever the number of candidates failing the interpreter check is not
    exactly one, the filter returns, keeps the accepted candidates in their
    original order and rejects exactly the others. *)
Lemma filter_incorrect_cogs_returns (cogs : list Installable) :
  length (filter (python_outdated env) cogs) <> 1 ->
  exists message, _filter_incorrect_cogs env cogs = Ok (filter (accepted env) cogs, message).
Proof.
  intros Hlen. unfold _filter_incorrect_cogs.
  destruct (filter_loop cogs) as (py & bot & -> & Hpy & _). simpl.
  rewrite <- Hpy in Hlen.
  destruct (python_message_ok py Hlen) as (s1 & ->).
  destruct (bot_message_ok bot) as (s2 & ->). simpl. by eexists.
Qed.

Lemma tuple_lt_irrefl (a : list nat) : tuple_lt a a = false.
Proof.
  induction a as [|x a IH]; [done|]. simpl.
  by rewrite Nat.ltb_irrefl.
Qed.

Lemma version_lt_irrefl (v : VersionInfo) : version_lt v v = false.
Proof. apply tuple_lt_irrefl. Qed.

(** The bot-version bounds at their boundaries. *)
Lemma bot_bounds_boundaries (cog : Installable) :
  let lo := min_bot_version (meta cog) in
  let hi := max_bot_version (meta cog) in
  let host := red_version_info env in
  (lo = host -> bot_outdated env cog = false)
  /\ (hi = host -> version_gt lo host = false -> bot_outdated env cog = false)
  /\ (version_lt hi host = true -> version_lt hi lo = false -> bot_outdated env cog = true)
  /\ (version_lt hi lo = true -> bot_outdated env cog = version_gt lo host).
Proof.
  unfold bot_outdated, ignore_max, version_gt. simpl. repeat split.
  - intros ->. rewrite version_lt_irrefl. simpl. by destruct (version_lt _ _).
  - intros -> ->. rewrite version_lt_irrefl. by rewrite andb_false_r.
  - intros -> ->. by rewrite orb_true_r.
  - intros ->. by rewrite orb_false_r.
Qed.

End VersionFilter.

(** C5 (defect). With exactly one candidate failing the interpreter check,
    [_filter_incorrect_cogs] does not return its pair: building the report
    raises [KeyError], because the singular message is formatted with a
    positional argument for the named field [{cog}]. *)
Theorem filter_incorrect_cogs_single_python_outdated_raises
    (env : Env) (cogs : list Installable) :
  length (filter (python_outdated env) cogs) = 1 ->
  _filter_incorrect_cogs env cogs = Raise (KeyError "cog").
Proof.
  intros Hlen. unfold _filter_incorrect_cogs.
  destruct (filter_loop env cogs) as (py & bot & -> & Hpy & _). simpl.
  rewrite <- Hpy in Hlen.
  destruct py as [|entry [|? ?]]; simpl in Hlen; try lia.
  by rewrite python_message_single.
Qed.

(** ** Requirement installation *)

Lemma with_trace_with_trace t t' w : with_trace t (with_trace t' w) = with_trace t w.
Proof. reflexivity. Qed.

Lemma with_trace_id w : with_trace (trace w) w = w.
Proof. by destruct w. Qed.

Lemma enumerate_snd {A} (l : list A) : (enumerate l).*2 = l.
Proof.
  unfold enumerate. rewrite fmap_imap.
  rewrite (imap_ext _ (const id)); [|done]. rewrite imap_const. apply list_fmap_id.
Qed.

Lemma enumerate_cons_inv {A} (l : list A) :
  l <> [] -> exists x rest, enumerate l = (0, x) :: rest.
Proof. destruct l as [|x l]; [done|]. intros _. unfold enumerate. rewrite imap_cons. eauto. Qed.

Lemma concat_alter_append (buckets : list (string * list string)) i (x : string) :
  i < length buckets ->
  concat (alter (fun item => (item.1, item.2 ++ [x])) i buckets).*2
    ≡ₚ x :: concat buckets.*2.
Proof.
  revert i. induction buckets as [|[r l] buckets IH]; intros i Hi; simpl in *; [lia|].
  destruct i as [|i]; simpl.
  - rewrite <- app_assoc. simpl. by rewrite <- Permutation_middle.
  - etrans; [apply Permutation_app_head, (IH i); lia|]. by rewrite Permutation_middle.
Qed.

Lemma concat_nonempty_buckets (buckets : list (string * list string)) :
  concat (filter (fun item => 0 < length item.2) buckets).*2 = concat buckets.*2.
Proof.
  induction buckets as [|[r l] buckets IH]; [done|].
  rewrite filter_cons. case_decide as Hl; csimpl in *.
  - by rewrite IH.
  - destruct l; simpl in *; [done | lia].
Qed.

Lemma filter_empty_buckets (rs : list (string * string)) :
  filter (fun item : string * list string => 0 < length item.2)
         ((fun r => (r.1, [])) <$> rs) = [].
Proof.
  induction rs as [|r rs IH]; [done|]. csimpl. rewrite filter_cons.
  case_decide as Hl; [simpl in Hl; lia | done].
Qed.

Lemma concat_empty_buckets (rs : list (string * string)) :
  concat ((fun r : string * string => (r.1, @nil string)) <$> rs).*2 = [].
Proof. induction rs as [|r rs IH]; [done|]. csimpl. exact IH. Qed.

Section Requirements.

Context (env : Env).

Lemma install_bucket_run repo (reqs : list string) failed w :
  exists failed',
    for_each reqs (fun req failed_reqs =>
      ok ← install_raw_requirements env repo [req];
      mret (if ok : bool then failed_reqs else failed_reqs ++ [req])) failed w
    = Ok (failed', with_trace
            (reverse (pip_event <$> ((fun req => (repo, req)) <$> reqs)) ++ trace w) w).
Proof.
  revert failed w. induction reqs as [|req reqs IH]; intros failed w; simpl.
  - exists failed. by rewrite with_trace_id.
  - unfold mbind at 1, M_bind at 1. unfold mbind at 1, M_bind at 1. simpl.
    unfold mret at 1, M_ret at 1.
    edestruct IH as (failed' & ->). exists failed'. f_equal. f_equal.
    rewrite reverse_cons, <- app_assoc. reflexivity.
Qed.

Lemma install_buckets_run (items : list (string * list string)) w :
  exists failed,
    for_each items (fun item failed_reqs =>
      for_each item.2 (fun req failed_reqs =>
        ok ← install_raw_requirements env item.1 [req];
        mret (if ok : bool then failed_reqs else failed_reqs ++ [req])) failed_reqs) [] w
    = Ok (failed, with_trace (reverse (pip_event <$> pip_calls items) ++ trace w) w).
Proof.
  edestruct (for_each_invariant
    (fun done (_ : list string) w' =>
       w' = with_trace (reverse (pip_event <$> pip_calls done) ++ trace w) w))
    as (failed & w' & Hrun & ->); [| |by eauto].
  - intros done item failed w1 _ ->.
    destruct (install_bucket_run item.1 item.2 failed
                (with_trace (reverse (pip_event <$> pip_calls done) ++ trace w) w))
      as (failed' & Hrun).
    eexists _, _. split; [exact Hrun|]. simpl. rewrite with_trace_with_trace.
    f_equal. unfold pip_calls. rewrite bind_app, fmap_app, reverse_app, <- app_assoc.
    simpl. by rewrite app_nil_r.
  - simpl. by rewrite with_trace_id.
Qed.

Lemma pip_calls_requirements (items : list (string * list string)) :
  (pip_calls items).*2 = concat items.*2.
Proof.
  induction items as [|[r l] items IH]; [done|].
  unfold pip_calls in *. csimpl. rewrite fmap_app, IH. f_equal.
  rewrite <- list_fmap_compose. apply list_fmap_id.
Qed.

End Requirements.

(** What one call of [_install_requirements] does, by cases on the union of
    the requirements and on the registered repositories. *)
Lemma install_requirements_run (env : Env) (cogs : list Installable) (w : World) :
  (requirement_set cogs = [] -> _install_requirements env cogs w = Ok ([], w))
  /\ (requirement_set cogs <> [] -> repos w = ∅ ->
      _install_requirements env cogs w = Raise ZeroDivisionError)
  /\ (repos w <> ∅ ->
      exists failed calls,
        _install_requirements env cogs w
          = Ok (failed, with_trace ((pip_event <$> calls) ++ trace w) w)
        /\ calls.*2 ≡ₚ requirement_set cogs
        /\ NoDup calls.*2).
Proof.
  unfold _install_requirements. repeat split.
  - intros ->. unfold mbind at 1, M_bind at 1, get_world. simpl.
    unfold mbind at 1, M_bind at 1, mret at 1, M_ret at 1.
    by rewrite filter_empty_buckets.
  - intros Hne Hrepos. unfold mbind at 1, M_bind at 1, get_world.
    rewrite Hrepos, map_to_list_empty.
    destruct (enumerate_cons_inv _ Hne) as (x & rest & ->). reflexivity.
  - intros Hrepos. unfold mbind at 1, M_bind at 1, get_world.
    set (buckets0 := (fun r : string * string => (r.1, [])) <$> map_to_list (repos w)).
    assert (Hn : 0 < length buckets0).
    { unfold buckets0. rewrite length_fmap.
      destruct (map_to_list (repos w)) eqn:Hl; [|simpl; lia].
      by apply map_to_list_empty_iff in Hl. }
    destruct (fun H => for_each_invariant
      (fun done (buckets : list (string * list string)) w' =>
         w' = w /\ length buckets = length buckets0 /\ concat buckets.*2 ≡ₚ done.*2)
      (fun (ireq : nat * string) (repos : list (string * list string)) =>
         if bool_decide (length repos = 0) then raise ZeroDivisionError
         else mret (alter (fun item => (item.1, item.2 ++ [ireq.2]))
                      (ireq.1 mod length repos) repos))
      (enumerate (requirement_set cogs)) H buckets0 w)
      as (buckets & w' & Hloop & -> & Hlen & Hperm).
    { intros done [i req] buckets w1 _ (-> & Hlen & Hperm). simpl.
      rewrite bool_decide_eq_false_2 by lia.
      eexists _, _. split; [reflexivity|]. split; [done|].
      rewrite length_alter. split; [done|].
      rewrite concat_alter_append.
      - rewrite fmap_app. simpl. rewrite Hperm. by rewrite <- Permutation_cons_append.
      - apply Nat.mod_upper_bound. lia. }
    { split; [done|]. split; [done|]. unfold buckets0.
      by rewrite concat_empty_buckets. }
    rewrite (bind_ok _ _ _ _ _ Hloop).
    destruct (install_buckets_run env
                (filter (fun item : string * list string => 0 < length item.2) buckets) w)
      as (failed & Hrun).
    exists failed,
      (reverse (pip_calls (filter (fun item : string * list string => 0 < length item.2)
                             buckets))).
    rewrite fmap_reverse. split; [exact Hrun|].
    assert (Hcalls : (reverse (pip_calls (filter
              (fun item : string * list string => 0 < length item.2) buckets))).*2
            ≡ₚ requirement_set cogs).
    { rewrite fmap_reverse, reverse_Permutation, pip_calls_requirements,
        concat_nonempty_buckets, Hperm. by rewrite enumerate_snd. }
    split; [done|]. rewrite Hcalls. apply NoDup_remove_dups.
Qed.

(** C10. [_install_requirements] attempts every distinct requirement of the
    given cogs exactly once (the installer is called with one requirement at a
    time, and the requirements attempted are a duplicate-free rearrangement of
    the union); with an empty union it returns the empty tuple and leaves the
    world as it was; with a non-empty union and no registered repository it
    raises [ZeroDivisionError]; with at least one repository it returns. *)
Theorem install_requirements_once (env : Env) (cogs : list Installable) (w : World) :
  (requirement_set cogs = [] -> _install_requirements env cogs w = Ok ([], w))
  /\ (requirement_set cogs <> [] -> repos w = ∅ ->
      _install_requirements env cogs w = Raise ZeroDivisionError)
  /\ (repos w <> ∅ ->
      exists failed calls,
        _install_requirements env cogs w
          = Ok (failed, with_trace ((pip_event <$> calls) ++ trace w) w)
        /\ calls.*2 ≡ₚ requirement_set cogs
        /\ NoDup calls.*2).
Proof. apply install_requirements_run. Qed.

(** ** Grouping dictionaries *)

Lemma dict_upsert_flat {K V A} `{EqDecision K} (flat : V -> list A)
    (k : K) (f : option V -> V) (x : A) (d : list (K * V)) :
  (forall o, flat (f o) ≡ₚ x :: from_option flat [] o) ->
  (entry ← dict_upsert k f d; flat entry.2) ≡ₚ x :: (entry ← d; flat entry.2).
Proof.
  intros Hf. induction d as [|[k' v] d IH]; csimpl.
  - rewrite app_nil_r. apply (Hf None).
  - case_decide; csimpl.
    + by rewrite (Hf (Some v)).
    + rewrite IH. by rewrite Permutation_middle.
Qed.

Lemma dict_upsert_keys {K V} `{EqDecision K} (k : K) (f : option V -> V)
    (d : list (K * V)) k' :
  k' ∈ (dict_upsert k f d).*1 -> k' = k \/ k' ∈ d.*1.
Proof.
  induction d as [|[k0 v] d IH]; csimpl.
  - rewrite list_elem_of_singleton. auto.
  - case_decide; csimpl; rewrite !elem_of_cons.
    + intros [->|Hin]; [by left | right; by right].
    + intros [->|Hin]; [right; by left|].
      destruct (IH Hin) as [->|Hd]; [by left | right; by right].
Qed.

Lemma dict_upsert_NoDup {K V} `{EqDecision K} (k : K) (f : option V -> V)
    (d : list (K * V)) :
  NoDup d.*1 -> NoDup (dict_upsert k f d).*1.
Proof.
  induction d as [|[k0 v] d IH]; csimpl; intros Hnd.
  - apply NoDup_singleton.
  - apply NoDup_cons in Hnd as [Hk0 Hnd]. case_decide; csimpl.
    + subst. by apply NoDup_cons.
    + apply NoDup_cons. split; [|by apply IH].
      intros Hin. apply dict_upsert_keys in Hin as [->|Hin]; done.
Qed.

Lemma dict_upsert_Forall {K V} `{EqDecision K} (P : K -> V -> Prop)
    (k : K) (f : option V -> V) (d : list (K * V)) :
  (forall o, (forall v, o = Some v -> P k v) -> P k (f o)) ->
  Forall (fun entry => P entry.1 entry.2) d ->
  Forall (fun entry => P entry.1 entry.2) (dict_upsert k f d).
Proof.
  intros Hf. induction d as [|[k0 v0] d IH]; intros Hall.
  - simpl. constructor; [|done]. simpl. by apply Hf.
  - apply Forall_cons in Hall as [Hhead Hall]. simpl. case_decide as Hk.
    + subst k0. constructor; [|done]. simpl. apply Hf. by intros v [= <-].
    + constructor; [done | by apply IH].
Qed.

Lemma group_by_repo_commit_modules (cogs : list Installable) :
  modules_of_entries (group_by_repo_commit cogs) ≡ₚ cogs.
Proof.
  unfold group_by_repo_commit.
  assert (Hgen : forall acc,
    modules_of_entries
      (foldl (fun repos cog =>
         dict_upsert (repo_name cog) (fun repo_by_commit =>
           dict_upsert (commit cog) (fun l => default [] l ++ [cog])
             (default [] repo_by_commit)) repos) acc cogs)
    ≡ₚ cogs ++ modules_of_entries acc).
  { induction cogs as [|cog cogs IH]; intros acc; [done|]. simpl.
    rewrite IH. unfold modules_of_entries at 1.
    rewrite (dict_upsert_flat modules_of_groups _ _ cog).
    - by rewrite Permutation_middle.
    - intros o. unfold modules_of_groups at 1.
      rewrite (dict_upsert_flat id _ _ cog).
      + by destruct o.
      + intros l. simpl. rewrite <- Permutation_cons_append. by destruct l. }
  rewrite Hgen. by rewrite app_nil_r.
Qed.

Lemma group_by_repo_commit_keys (cogs : list Installable) entry :
  entry ∈ group_by_repo_commit cogs -> entry.1 ∈ repo_name <$> cogs.
Proof.
  unfold group_by_repo_commit.
  assert (Hgen : forall acc k,
    k ∈ (foldl (fun repos cog =>
         dict_upsert (repo_name cog) (fun repo_by_commit =>
           dict_upsert (commit cog) (fun l => default [] l ++ [cog])
             (default [] repo_by_commit)) repos) acc cogs).*1 ->
    k ∈ repo_name <$> cogs \/ k ∈ acc.*1).
  { induction cogs as [|cog cogs IH]; intros acc k; [auto|]. simpl.
    intros Hk. apply IH in Hk as [Hk|Hk]; [left; by right|].
    apply dict_upsert_keys in Hk as [->|Hk]; [left; by left | by right]. }
  intros Hin. destruct (Hgen [] entry.1) as [H|H]; [|done|].
  - apply list_elem_of_fmap. by exists entry.
  - by apply elem_of_nil in H.
Qed.

(** ** [_install_cogs] *)

Section InstallCogs.

Context (env : Env).

Lemma settled_mono visited acc acc' :
  acc.1 ⊆ acc'.1 -> acc.2 ⊆ acc'.2 -> settled env visited acc -> settled env visited acc'.
Proof.
  intros H1 H2 Hs cog Hin. destruct (Hs cog Hin) as (Hor & Hok & Hfail).
  repeat split; [destruct Hor; auto | auto | auto].
Qed.

Lemma copy_group_run (visited group : list Installable) acc w :
  settled env visited acc ->
  exists acc' w',
    for_each group (fun cog acc =>
      ok ← copy_to env cog false;
      mret (if ok : bool then (acc.1 ++ [from_installable cog], acc.2)
            else (acc.1, acc.2 ++ [cog]))) acc w = Ok (acc', w')
    /\ repos w' = repos w
    /\ settled env (visited ++ group) acc'.
Proof.
  intros Hs.
  destruct (fun H => for_each_invariant
    (fun done acc' w' => repos w' = repos w /\ settled env (visited ++ done) acc')
    (fun cog acc =>
      ok ← copy_to env cog false;
      mret (if ok : bool then (acc.1 ++ [from_installable cog], acc.2)
            else (acc.1, acc.2 ++ [cog]))) group H acc w)
    as (acc' & w' & Hrun & Hrepos & Hs'); [| |by eauto].
  - intros done cog [installed failed] w1 _ [Hrepos Hdone].
    unfold mbind, M_bind, copy_to, mret, M_ret.
    destruct (copy_succeeds env w1 cog) eqn:Hcopy; simpl.
    + eexists _, _. split; [reflexivity|]. split; [done|].
      intros c Hc. rewrite app_assoc in Hc. apply elem_of_app in Hc as [Hc|Hc].
      * eapply (settled_mono _ (installed, failed)); [mem..| apply Hdone | done].
      * apply list_elem_of_singleton in Hc as ->. simpl. repeat split.
        -- left. mem.
        -- intros _. mem.
        -- intros Hfail. specialize (Hfail w1). congruence.
    + eexists _, _. split; [reflexivity|]. split; [done|].
      intros c Hc. rewrite app_assoc in Hc. apply elem_of_app in Hc as [Hc|Hc].
      * eapply (settled_mono _ (installed, failed)); [mem..| apply Hdone | done].
      * apply list_elem_of_singleton in Hc as ->. simpl. repeat split.
        -- right. mem.
        -- intros Hok. specialize (Hok w1). congruence.
        -- intros _. mem.
  - split; [done|]. by rewrite app_nil_r.
Qed.

Lemma install_entry_run (visited : list Installable)
    (entry : string * list (string * list Installable)) acc w :
  is_Some (repos w !! entry.1) ->
  settled env visited acc ->
  exists acc' w',
    (exit_to_commit ← repo_commit entry.1;
     acc ← for_each entry.2 (fun group acc =>
       checkout entry.1 group.1;;
       for_each group.2 (fun cog acc =>
         ok ← copy_to env cog false;
         mret (if ok : bool then (acc.1 ++ [from_installable cog], acc.2)
               else (acc.1, acc.2 ++ [cog]))) acc) acc;
     checkout entry.1 exit_to_commit;;
     mret acc) w = Ok (acc', w')
    /\ repos w' = repos w
    /\ settled env (visited ++ modules_of_groups entry.2) acc'.
Proof.
  intros [exit_to_commit Hexit] Hs.
  unfold mbind at 1, M_bind at 1, repo_commit at 1. rewrite Hexit.
  destruct (fun H => for_each_invariant
    (fun done acc' w' =>
       <[entry.1 := exit_to_commit]> (repos w') = repos w
       /\ settled env (visited ++ modules_of_groups done) acc')
    (fun (group : string * list Installable) acc =>
       checkout entry.1 group.1;;
       for_each group.2 (fun cog acc =>
         ok ← copy_to env cog false;
         mret (if ok : bool then (acc.1 ++ [from_installable cog], acc.2)
               else (acc.1, acc.2 ++ [cog]))) acc) entry.2 H acc w)
    as (acc' & w' & Hrun & Hrepos & Hs').
  - intros done group acc1 w1 _ [Hrepos Hdone].
    unfold mbind at 1, M_bind at 1, checkout, modify_world.
    destruct (copy_group_run (visited ++ modules_of_groups done) group.2 acc1
                (set_repos <[entry.1:=group.1]> w1) Hdone)
      as (acc2 & w2 & Hrun & Hrepos2 & Hs2).
    exists acc2, w2. split; [exact Hrun|]. split.
    + rewrite Hrepos2. simpl. by rewrite insert_insert_eq.
    + unfold modules_of_groups in *. by rewrite bind_app, app_assoc, bind_singleton.
  - split; [by apply insert_id|]. unfold modules_of_groups. simpl. by rewrite app_nil_r.
  - rewrite (bind_ok _ _ _ _ _ Hrun).
    eexists _, _. split; [reflexivity|]. simpl. by split.
Qed.

Lemma install_cogs_run (cogs : list Installable) w :
  (forall cog, cog ∈ cogs -> is_Some (repos w !! repo_name cog)) ->
  exists acc w',
    _install_cogs env cogs w = Ok (acc, w')
    /\ repos w' = repos w
    /\ settled env cogs acc.
Proof.
  intros Hregistered. unfold _install_cogs.
  destruct (fun H => for_each_invariant
    (fun done acc' w' => repos w' = repos w /\ settled env (modules_of_entries done) acc')
    (fun (entry : string * list (string * list Installable)) acc =>
       exit_to_commit ← repo_commit entry.1;
       acc ← for_each entry.2 (fun group acc =>
         checkout entry.1 group.1;;
         for_each group.2 (fun cog acc =>
           ok ← copy_to env cog false;
           mret (if ok : bool then (acc.1 ++ [from_installable cog], acc.2)
                 else (acc.1, acc.2 ++ [cog]))) acc) acc;
       checkout entry.1 exit_to_commit;;
       mret acc) (group_by_repo_commit cogs) H ([], []) w)
    as (acc & w' & Hrun & Hrepos & Hs).
  - intros done entry acc1 w1 [rest Hsplit] [Hrepos Hdone].
    destruct (install_entry_run (modules_of_entries done) entry acc1 w1)
      as (acc2 & w2 & Hrun & Hrepos2 & Hs2).
    + rewrite Hrepos.
      assert (Hin : entry ∈ group_by_repo_commit cogs) by (rewrite Hsplit; mem).
      apply group_by_repo_commit_keys, list_elem_of_fmap in Hin as (cog & -> & Hcog).
      by apply Hregistered.
    + done.
    + exists acc2, w2. split; [exact Hrun|]. split; [congruence|].
      unfold modules_of_entries in *. by rewrite bind_app, bind_singleton.
  - split; [done|]. intros cog Hin. by apply elem_of_nil in Hin.
  - exists acc, w'. split; [done|]. split; [done|].
    intros cog Hin. apply Hs. by rewrite group_by_repo_commit_modules.
Qed.

End InstallCogs.

(** ** The copies of a run of [_install_cogs] *)

Lemma group_by_repo_commit_homogeneous (cogs : list Installable) :
  Forall (fun entry =>
    Forall (fun group : string * list Installable =>
      Forall (fun cog => repo_name cog = entry.1 /\ commit cog = group.1) group.2) entry.2)
    (group_by_repo_commit cogs).
Proof.
  unfold group_by_repo_commit.
  apply (foldl_invariant
    (fun (_ : list Installable) (repos : list (string * list (string * list Installable))) =>
       Forall (fun entry =>
         Forall (fun group : string * list Installable =>
           Forall (fun cog => repo_name cog = entry.1 /\ commit cog = group.1) group.2)
           entry.2) repos)).
  - constructor.
  - intros done cog repos _ Hall.
    apply (dict_upsert_Forall
             (fun r (groups : list (string * list Installable)) =>
                Forall (fun group : string * list Installable =>
                  Forall (fun c => repo_name c = r /\ commit c = group.1) group.2) groups));
      [|exact Hall].
    intros o Ho.
    apply (dict_upsert_Forall
             (fun c (l : list Installable) =>
                Forall (fun c0 => repo_name c0 = repo_name cog /\ commit c0 = c) l)).
    + intros l Hl. apply Forall_app. split; [|by repeat constructor].
      destruct l as [l|]; [by apply Hl | constructor].
    + destruct o as [groups|]; [|constructor]. simpl. by apply Ho.
Qed.

Section Attempts.

Context (env : Env) (w : World).

Lemma attempts_from_nil : attempts_from env w [].
Proof. intros before cog w1 after Heq. by destruct before. Qed.

Lemma attempts_from_snoc (attempts : list Attempt) (cog : Installable) :
  attempts_from env w attempts ->
  attempts_from env w (attempts ++ [(cog, attempt_world env w attempts cog)]).
Proof.
  intros Hfrom before c w1 after Heq.
  destruct after as [|z after _] using rev_ind.
  - apply app_inj_tail in Heq as [-> Heq]. by injection Heq as <- <-.
  - rewrite app_comm_cons, app_assoc in Heq. apply app_inj_tail in Heq as [-> _].
    by apply (Hfrom before c w1 after).
Qed.

Lemma after_attempts_snoc (attempts : list Attempt) (rs : gmap string string)
    (cog : Installable) (w1 : World) :
  after_attempts env w (attempts ++ [(cog, w1)]) rs
  = (if copy_succeeds env w1 cog then set_install_path (<[name cog := Directory]>) else id)
      (log_event (EvCopy cog false) (after_attempts env w attempts rs)).
Proof.
  unfold after_attempts. rewrite foldl_app, !fmap_app, reverse_app.
  cbn [foldl fmap list_fmap reverse rev_append app fst snd]. unfold copied at 1.
  cbn [fst snd]. unfold copy_event at 1.
  by destruct (copy_succeeds env w1 cog).
Qed.

Lemma copy_group_attempts (visited : list Attempt) (r c : string)
    (group : list Installable) acc w1 :
  Forall (fun cog => repo_name cog = r /\ commit cog = c) group ->
  copies_done env w visited (<[r := c]> (repos w)) acc w1 ->
  exists more acc' w',
    for_each group (fun cog acc =>
      ok ← copy_to env cog false;
      mret (if ok : bool then (acc.1 ++ [from_installable cog], acc.2)
            else (acc.1, acc.2 ++ [cog]))) acc w1 = Ok (acc', w')
    /\ more.*1 = group
    /\ copies_done env w (visited ++ more) (<[r := c]> (repos w)) acc' w'.
Proof.
  intros Hgroup Hdone.
  destruct (fun H => for_each_invariant
    (fun done acc' w' =>
       exists more, more.*1 = done
         /\ copies_done env w (visited ++ more) (<[r := c]> (repos w)) acc' w')
    (fun cog acc =>
      ok ← copy_to env cog false;
      mret (if ok : bool then (acc.1 ++ [from_installable cog], acc.2)
            else (acc.1, acc.2 ++ [cog]))) group H acc w1)
    as (acc' & w' & Hrun & more & Hmore & Hdone'); [| |by eauto 6].
  - intros done cog acc1 w2 [rest Hsplit] (more & Hmore & Hfrom & -> & ->).
    assert (Hcog : repo_name cog = r /\ commit cog = c).
    { rewrite Forall_forall in Hgroup. apply Hgroup. rewrite Hsplit. apply elem_of_middle. }
    destruct Hcog as [<- <-].
    set (w2 := after_attempts env w (visited ++ more) (<[repo_name cog := commit cog]> (repos w))).
    exists (if copy_succeeds env w2 cog
            then ((from_installable <$> (filter (fun a => copied env a) (visited ++ more)).*1)
                    ++ [from_installable cog],
                  (filter (fun a => negb (copied env a)) (visited ++ more)).*1)
            else (from_installable <$> (filter (fun a => copied env a) (visited ++ more)).*1,
                  (filter (fun a => negb (copied env a)) (visited ++ more)).*1 ++ [cog])),
      (after_attempts env w ((visited ++ more) ++ [(cog, w2)])
         (<[repo_name cog := commit cog]> (repos w))).
    split.
    { rewrite after_attempts_snoc. fold w2.
      unfold mbind, M_bind, copy_to, mret, M_ret.
      by destruct (copy_succeeds env w2 cog). }
    exists (more ++ [(cog, w2)]). split; [by rewrite fmap_app, Hmore|].
    rewrite app_assoc. split; [by apply attempts_from_snoc|]. split; [|done].
    rewrite !filter_snoc_bool.
    change (copied env (cog, w2)) with (copy_succeeds env w2 cog).
    destruct (copy_succeeds env w2 cog); simpl.
    + by rewrite !fmap_app, app_nil_r.
    + by rewrite !fmap_app, app_nil_r.
  - exists []. by rewrite app_nil_r.
Qed.

Lemma install_entry_attempts (visited : list Attempt)
    (entry : string * list (string * list Installable)) acc w1 :
  is_Some (repos w !! entry.1) ->
  Forall (fun group : string * list Installable =>
    Forall (fun cog => repo_name cog = entry.1 /\ commit cog = group.1) group.2) entry.2 ->
  copies_done env w visited (repos w) acc w1 ->
  exists more acc' w',
    (exit_to_commit ← repo_commit entry.1;
     acc ← for_each entry.2 (fun group acc =>
       checkout entry.1 group.1;;
       for_each group.2 (fun cog acc =>
         ok ← copy_to env cog false;
         mret (if ok : bool then (acc.1 ++ [from_installable cog], acc.2)
               else (acc.1, acc.2 ++ [cog]))) acc) acc;
     checkout entry.1 exit_to_commit;;
     mret acc) w1 = Ok (acc', w')
    /\ more.*1 = modules_of_groups entry.2
    /\ copies_done env w (visited ++ more) (repos w) acc' w'.
Proof.
  intros [exit_to_commit Hexit] Hgroups (Hfrom & -> & ->).
  unfold mbind at 1, M_bind at 1, repo_commit at 1.
  cbn [repos after_attempts]. rewrite Hexit.
  destruct (fun H => for_each_invariant
    (fun done acc' w' =>
       exists more rs, more.*1 = modules_of_groups done
         /\ (forall c, <[entry.1 := c]> rs = <[entry.1 := c]> (repos w))
         /\ copies_done env w (visited ++ more) rs acc' w')
    (fun (group : string * list Installable) acc =>
       checkout entry.1 group.1;;
       for_each group.2 (fun cog acc =>
         ok ← copy_to env cog false;
         mret (if ok : bool then (acc.1 ++ [from_installable cog], acc.2)
               else (acc.1, acc.2 ++ [cog]))) acc) entry.2 H
    (from_installable <$> (filter (fun a => copied env a) visited).*1,
     (filter (fun a => negb (copied env a)) visited).*1)
    (after_attempts env w visited (repos w)))
    as (acc' & w' & Hrun & more & rs & Hmore & Hrs & Hfrom' & -> & ->).
  - intros done group acc1 w2 [rest Hsplit] (more & rs & Hmore & Hrs & Hfrom1 & -> & ->).
    unfold mbind at 1, M_bind at 1, checkout, modify_world.
    assert (Hgroup : Forall (fun cog => repo_name cog = entry.1 /\ commit cog = group.1)
                       group.2).
    { rewrite Forall_forall in Hgroups. apply Hgroups. rewrite Hsplit. apply elem_of_middle. }
    destruct (copy_group_attempts (visited ++ more) entry.1 group.1 group.2
                (from_installable <$> (filter (fun a => copied env a) (visited ++ more)).*1,
                 (filter (fun a => negb (copied env a)) (visited ++ more)).*1)
                (set_repos <[entry.1 := group.1]> (after_attempts env w (visited ++ more) rs))
                Hgroup)
      as (more2 & acc2 & w3 & Hrun & Hmore2 & Hdone2).
    { split; [done|]. split; [done|].
      unfold set_repos, after_attempts. simpl. by rewrite Hrs. }
    exists acc2, w3. split; [exact Hrun|].
    exists (more ++ more2), (<[entry.1 := group.1]> (repos w)). split.
    { rewrite fmap_app, Hmore, Hmore2. unfold modules_of_groups.
      by rewrite bind_app, bind_singleton. }
    split; [intros c; by rewrite !insert_insert_eq|]. by rewrite app_assoc.
  - exists [], (repos w). split; [done|]. split; [done|]. by rewrite app_nil_r.
  - rewrite (bind_ok _ _ _ _ _ Hrun).
    exists more. eexists _, _. split; [reflexivity|]. split; [done|].
    split; [done|]. split; [done|].
    unfold set_repos, after_attempts. simpl. rewrite Hrs. by rewrite insert_id.
Qed.

Lemma install_cogs_attempts (cogs : list Installable) :
  (forall cog, cog ∈ cogs -> is_Some (repos w !! repo_name cog)) ->
  exists attempts acc w',
    _install_cogs env cogs w = Ok (acc, w')
    /\ attempts.*1 = modules_of_entries (group_by_repo_commit cogs)
    /\ copies_done env w attempts (repos w) acc w'.
Proof.
  intros Hregistered. unfold _install_cogs.
  destruct (fun H => for_each_invariant
    (fun done acc' w' =>
       exists attempts, attempts.*1 = modules_of_entries done
         /\ copies_done env w attempts (repos w) acc' w')
    (fun (entry : string * list (string * list Installable)) acc =>
       exit_to_commit ← repo_commit entry.1;
       acc ← for_each entry.2 (fun group acc =>
         checkout entry.1 group.1;;
         for_each group.2 (fun cog acc =>
           ok ← copy_to env cog false;
           mret (if ok : bool then (acc.1 ++ [from_installable cog], acc.2)
                 else (acc.1, acc.2 ++ [cog]))) acc) acc;
       checkout entry.1 exit_to_commit;;
       mret acc) (group_by_repo_commit cogs) H ([], []) w)
    as (acc & w' & Hrun & attempts & Hattempts & Hdone); [| |by eauto 6].
  - intros done entry acc1 w1 [rest Hsplit] (attempts & Hattempts & Hdone).
    assert (Hin : entry ∈ group_by_repo_commit cogs)
      by (rewrite Hsplit; apply elem_of_middle).
    destruct (install_entry_attempts attempts entry acc1 w1)
      as (more & acc2 & w2 & Hrun & Hmore & Hdone2).
    + apply group_by_repo_commit_keys, list_elem_of_fmap in Hin as (cog & -> & Hcog).
      by apply Hregistered.
    + pose proof (group_by_repo_commit_homogeneous cogs) as Hall.
      rewrite Forall_forall in Hall. by apply Hall.
    + done.
    + exists acc2, w2. split; [exact Hrun|]. exists (attempts ++ more). split; [|done].
      rewrite fmap_app, Hattempts, Hmore. unfold modules_of_entries.
      by rewrite bind_app, bind_singleton.
  - exists []. split; [done|]. split; [apply attempts_from_nil|]. split; [done|].
    unfold after_attempts. simpl. by destruct w.
Qed.

End Attempts.

(** C4. [_install_cogs] settles every module on its own and restores every
    repository.  When all modules of the request belong to registered
    repositories the call returns, and each repository has afterwards the
    commit checked out that it had before the call.  The copies it attempts
    are one per module of the request, each made with the module's repository
    at the module's commit, in the world the earlier copies have left; the
    records it returns as installed are those of the modules whose copy
    succeeded and the modules it returns as failed are those whose copy
    failed, in the order of the copies.  So whenever module [a]'s copy fails
    and module [b]'s copy succeeds, in the same group or not, [b]'s record is
    in [installed] and [a] is in [failed]; and in a request without duplicates
    no module is in both. *)
Theorem install_cogs_module_atomic (env : Env) (cogs : list Installable) (w : World) :
  (forall cog, cog ∈ cogs -> is_Some (repos w !! repo_name cog)) ->
  exists installed failed w' attempts,
    _install_cogs env cogs w = Ok ((installed, failed), w')
    /\ repos w' = repos w
    /\ w' = after_attempts env w attempts (repos w)
    /\ attempts.*1 ≡ₚ cogs
    /\ attempts_from env w attempts
    /\ installed = from_installable <$> (filter (fun a => copied env a) attempts).*1
    /\ failed = (filter (fun a => negb (copied env a)) attempts).*1
    /\ (forall a b wa wb, (a, wa) ∈ attempts -> (b, wb) ∈ attempts ->
          copy_succeeds env wa a = false -> copy_succeeds env wb b = true ->
          from_installable b ∈ installed /\ a ∈ failed)
    /\ (NoDup (key <$> cogs) ->
        forall cog, cog ∈ failed -> key cog ∉ im_key <$> installed).
Proof.
  intros Hregistered.
  destruct (install_cogs_attempts env w cogs Hregistered)
    as (attempts & [installed failed] & w' & Hrun & Hattempts & Hfrom & Hacc & ->).
  injection Hacc as -> ->.
  assert (Hperm : attempts.*1 ≡ₚ cogs)
    by (rewrite Hattempts; apply group_by_repo_commit_modules).
  eexists _, _, _, attempts. split; [exact Hrun|]. split; [done|]. split; [done|].
  split; [done|]. split; [done|]. split; [done|]. split; [done|]. split.
  - intros a b wa wb Ha Hb Hfail Hok. split.
    + apply list_elem_of_fmap. exists b. split; [done|].
      apply list_elem_of_fmap. exists (b, wb). split; [done|].
      apply list_elem_of_filter. split; [|done]. unfold copied. simpl. by rewrite Hok.
    + apply list_elem_of_fmap. exists (a, wa). split; [done|].
      apply list_elem_of_filter. split; [|done]. unfold copied. simpl. by rewrite Hfail.
  - intros Hnd cog Hcog Hin.
    apply list_elem_of_fmap in Hcog as ([a wa] & -> & Ha).
    apply list_elem_of_filter in Ha as [Hfail Ha].
    apply list_elem_of_fmap in Hin as (r & Hkey & Hr).
    apply list_elem_of_fmap in Hr as (b & -> & Hb).
    apply list_elem_of_fmap in Hb as ([b' wb] & -> & Hb).
    apply list_elem_of_filter in Hb as [Hok Hb]. simpl in *.
    assert (Heq : (a, wa) = (b', wb)).
    { apply (NoDup_fmap_eq (fun x : Attempt => key x.1) attempts); [|done|done|done].
      assert (Hkeys : (fun x : Attempt => key x.1) <$> attempts = key <$> attempts.*1)
        by (rewrite <- list_fmap_compose; done).
      rewrite Hkeys. by rewrite Hperm. }
    injection Heq as -> ->. destruct (copied env (b', wb)); done.
Qed.

(** ** The persisted map under removal and storing *)

Lemma conf_lookup_pop m conf k :
  conf_lookup (conf_pop m conf) k =
  if decide (k = im_json_key m) then None else conf_lookup conf k.
Proof.
  destruct k as [r n]. unfold conf_lookup, conf_pop, im_json_key. simpl.
  destruct (conf !! im_json_repo_name m) as [repo_json|] eqn:Hrepo.
  - destruct (decide (r = im_json_repo_name m)) as [->|Hr].
    + rewrite lookup_insert_eq. simpl. rewrite Hrepo. simpl.
      destruct (decide (n = im_name m)) as [->|Hn].
      * rewrite lookup_delete_eq. by rewrite decide_True.
      * rewrite lookup_delete_ne by done. rewrite decide_False; [done | congruence].
    + rewrite lookup_insert_ne by done. rewrite decide_False; [done | congruence].
  - case_decide as Hk; [|done]. simplify_eq. by rewrite Hrepo.
Qed.

Lemma conf_lookup_store m conf k :
  conf_lookup (conf_store m conf) k =
  if decide (k = im_key m) then Some (to_json m) else conf_lookup conf k.
Proof.
  destruct k as [r n]. unfold conf_lookup, conf_store, im_key. simpl.
  destruct (decide (r = im_repo_name m)) as [->|Hr].
  - rewrite lookup_insert_eq. simpl.
    destruct (decide (n = im_name m)) as [->|Hn].
    + rewrite lookup_insert_eq. by rewrite decide_True.
    + rewrite lookup_insert_ne by done. rewrite decide_False by congruence.
      by destruct (conf !! im_repo_name m).
  - rewrite lookup_insert_ne by done. rewrite decide_False; [done | congruence].
Qed.

Lemma conf_pop_all_cogs (modules : list InstalledModule) cogs_conf libs_conf :
  Forall (fun m => im_type m = COG) modules ->
  foldl (by_type conf_pop) (cogs_conf, libs_conf) modules
  = (foldl (fun conf m => conf_pop m conf) cogs_conf modules, libs_conf).
Proof.
  intros Hall. revert cogs_conf.
  induction Hall as [|m modules Hm _ IH]; intros cogs_conf; [done|]. simpl.
  unfold by_type at 2. rewrite Hm. simpl. apply IH.
Qed.

Lemma conf_lookup_pop_all (modules : list InstalledModule) conf k :
  conf_lookup (foldl (fun conf m => conf_pop m conf) conf modules) k =
  if decide (k ∈ im_json_key <$> modules) then None else conf_lookup conf k.
Proof.
  revert conf. induction modules as [|m modules IH]; intros conf.
  - case_decide as Hin; [by apply elem_of_nil in Hin | done].
  - change (foldl (fun conf m => conf_pop m conf) conf (m :: modules))
      with (foldl (fun conf m => conf_pop m conf) (conf_pop m conf) modules).
    rewrite IH, conf_lookup_pop, fmap_cons.
    destruct (decide (k ∈ im_json_key <$> modules)) as [Hin|Hin].
    + rewrite decide_True; [done | by right].
    + destruct (decide (k = im_json_key m)) as [->|Hk].
      * rewrite decide_True; [done | by left].
      * rewrite decide_False; [done|]. rewrite elem_of_cons. tauto.
Qed.

Lemma records_of_lookup kind conf m :
  conf_consistent conf ->
  m ∈ records_of kind conf ->
  conf_lookup conf (im_key m) = Some (to_json m) /\ im_type m = kind.
Proof.
  intros Hcons Hin. apply elem_of_records_of in Hin as (r & rj & n & j & Hr & Hn & ->).
  destruct (Hcons r rj n j Hr Hn) as [<- <-]. split; [|done].
  unfold conf_lookup, im_key. simpl. rewrite Hr. simpl. rewrite Hn. by destruct j.
Qed.

Lemma json_repo_name_of_record kind conf m :
  m ∈ records_of kind conf -> im_json_repo_name m = im_repo_name m.
Proof.
  intros Hin. by apply elem_of_records_of in Hin as (r & rj & n & j & _ & _ & ->).
Qed.

Lemma json_key_of_record kind conf m :
  m ∈ records_of kind conf -> im_json_key m = im_key m.
Proof.
  intros Hin. unfold im_json_key, im_key. by rewrite (json_repo_name_of_record _ _ _ Hin).
Qed.

Lemma conf_pop_consistent m conf : conf_consistent conf -> conf_consistent (conf_pop m conf).
Proof.
  intros Hcons r rj n j Hr Hn. unfold conf_pop in Hr.
  destruct (conf !! im_json_repo_name m) as [repo_json|] eqn:Hrepo; [|by eapply Hcons].
  destruct (decide (r = im_json_repo_name m)) as [->|Hne].
  - rewrite lookup_insert_eq in Hr. simplify_eq.
    apply lookup_delete_Some in Hn as [_ Hn]. by eapply Hcons.
  - rewrite lookup_insert_ne in Hr by done. by eapply Hcons.
Qed.

Lemma conf_pop_all_consistent (modules : list InstalledModule) conf :
  conf_consistent conf ->
  conf_consistent (foldl (fun conf m => conf_pop m conf) conf modules).
Proof.
  revert conf. induction modules as [|m modules IH]; intros conf Hc; [done|].
  simpl. by apply IH, conf_pop_consistent.
Qed.

(** ** Uninstall *)

Section Uninstall.

Context (env : Env).

Lemma uninstall_message_ok clean_prefix (uninstalled_cogs failed_cogs : list string) :
  exists s, uninstall_message env clean_prefix uninstalled_cogs failed_cogs = Ok s.
Proof.
  unfold uninstall_message. destruct failed_cogs as [|first rest]; [by eexists|].
  destruct (plural (first :: rest)); eexists; reflexivity.
Qed.

Lemma uninstall_loop_run (targets : list InstalledModule) w :
  exists acc w',
    for_each targets (fun cog (acc : list string * list string) =>
      let real_name := im_name cog in
      w ← get_world;
      match install_path w !! real_name with
      | Some _ =>
          unload_suppressed real_name;;
          _delete_cog real_name;;
          mret (acc.1 ++ [inline env real_name], acc.2)
      | None => mret (acc.1, acc.2 ++ [real_name])
      end) ([], []) w = Ok (acc, w')
    /\ installed_cogs_conf w' = installed_cogs_conf w
    /\ installed_libraries_conf w' = installed_libraries_conf w
    /\ (forall n, install_path w !! n = None -> install_path w' !! n = None).
Proof.
  destruct (fun H => for_each_invariant
    (fun (_ : list InstalledModule) (_ : list string * list string) w' =>
       installed_cogs_conf w' = installed_cogs_conf w
       /\ installed_libraries_conf w' = installed_libraries_conf w
       /\ (forall n, install_path w !! n = None -> install_path w' !! n = None))
    (fun cog (acc : list string * list string) =>
      let real_name := im_name cog in
      w ← get_world;
      match install_path w !! real_name with
      | Some _ =>
          unload_suppressed real_name;;
          _delete_cog real_name;;
          mret (acc.1 ++ [inline env real_name], acc.2)
      | None => mret (acc.1, acc.2 ++ [real_name])
      end) targets H ([], []) w) as (acc & w' & Hrun & Hinv); [| |by eauto].
  - intros done cog acc w1 _ (Hc & Hl & Hp).
    unfold mbind, M_bind, get_world, unload_suppressed, _delete_cog, modify_world,
      mret, M_ret. simpl.
    destruct (install_path w1 !! im_name cog) as [kind|] eqn:Hpath.
    + eexists _, _. split; [reflexivity|].
      case_bool_decide; simpl; rewrite Hpath; destruct kind; simpl;
        repeat split; try done; intros n Hn;
        try (apply lookup_delete_None; right); by apply Hp.
    + eexists _, _. split; [reflexivity|]. done.
  - done.
Qed.

End Uninstall.

(** C8. Uninstalling cog records always returns normally, whether or not the
    files of the cogs are still on disk, and afterwards the installed-cogs map
    has no entry left under the repository and name each of them was read
    under: looked up by that key there is nothing, and (the map filing its
    documents consistently) no record read back from the map is filed under
    such a key; in particular a cog that was installed, a record of the
    installed-cogs map, has no document left under its repository and name;
    no file is created. *)
Theorem cog_uninstall_removes_records (env : Env) (clean_prefix : string)
    (cogs : list InstalledModule) (w : World) :
  Forall (fun cog => im_type cog = COG) cogs ->
  exists w',
    _cog_uninstall env clean_prefix cogs w = Ok (tt, w')
    /\ (forall cog, cog ∈ cogs ->
          conf_lookup (installed_cogs_conf w') (im_json_key cog) = None)
    /\ (forall cog, cog ∈ cogs -> cog ∈ records_of COG (installed_cogs_conf w) ->
          conf_lookup (installed_cogs_conf w') (im_key cog) = None)
    /\ (conf_consistent (installed_cogs_conf w) ->
        forall record, record ∈ records_of COG (installed_cogs_conf w') ->
                       im_key record ∉ im_json_key <$> cogs)
    /\ (forall cog, cog ∈ cogs -> install_path w !! im_name cog = None ->
          install_path w' !! im_name cog = None).
Proof.
  intros Hcogs. unfold _cog_uninstall.
  destruct cogs as [|cog0 cogs0] eqn:Hshape.
  { eexists. split; [reflexivity|].
    split; [intros ? Hin; by apply elem_of_nil in Hin|].
    split; [intros ? Hin; by apply elem_of_nil in Hin|].
    split; [|intros ? Hin; by apply elem_of_nil in Hin].
    intros _ record _ Hin. by apply elem_of_nil in Hin. }
  rewrite <- Hshape in *. clear Hshape cog0 cogs0.
  destruct (uninstall_loop_run env (to_set im_key cogs) w)
    as ([uninstalled failed] & w1 & Hloop & Hc & Hl & Hp).
  rewrite (bind_ok _ _ _ _ _ Hloop).
  unfold mbind at 1, M_bind at 1, _remove_from_installed, modify_world.
  destruct (uninstall_message_ok env clean_prefix uninstalled failed) as (message & Hmsg).
  unfold mbind, M_bind, lift. rewrite Hmsg. unfold send_pagified, modify_world.
  eexists. split; [reflexivity|]. simpl.
  rewrite Hc, Hl, conf_pop_all_cogs by done. simpl.
  assert (Hgone : forall cog, cog ∈ cogs ->
            conf_lookup (foldl (fun conf m => conf_pop m conf) (installed_cogs_conf w) cogs)
              (im_json_key cog) = None).
  { intros cog Hin. rewrite conf_lookup_pop_all.
    rewrite decide_True; [done|]. apply list_elem_of_fmap. by exists cog. }
  split; [exact Hgone|]. split; [|split].
  - intros cog Hin Hrecord. rewrite <- (json_key_of_record _ _ _ Hrecord). by apply Hgone.
  - intros Hcons record Hrecord Hin.
    apply records_of_lookup in Hrecord as [Hlookup _];
      [|by apply conf_pop_all_consistent].
    rewrite conf_lookup_pop_all in Hlookup. by rewrite decide_True in Hlookup.
  - intros cog _ Hnone. by apply Hp.
Qed.

(** ** Requirement failures stop the request *)

Section RequirementFailure.

Context (env : Env).

Lemma install_requirements_failed_world (cogs : list Installable) w failed w1 :
  _install_requirements env cogs w = Ok (failed, w1) ->
  exists events, w1 = with_trace (events ++ trace w) w /\ Forall is_pip_event events.
Proof.
  intros Hrun.
  destruct (install_requirements_run env cogs w) as (Hempty & Hraise & Hok).
  destruct (decide (repos w = ∅)) as [Hrepos|Hrepos].
  - destruct (decide (requirement_set cogs = [])) as [Hreqs|Hreqs].
    + rewrite (Hempty Hreqs) in Hrun. simplify_eq. exists []. split; [|done].
      simpl. by rewrite with_trace_id.
    + rewrite (Hraise Hreqs Hrepos) in Hrun. discriminate.
  - destruct (Hok Hrepos) as (failed' & calls & Hrun' & _).
    rewrite Hrun' in Hrun. simplify_eq. exists (pip_event <$> calls). split; [done|].
    apply Forall_fmap, Forall_forall. by intros call _.
Qed.

Lemma pip_world_nil w : pip_world w [] = w.
Proof. unfold pip_world. simpl. apply with_trace_id. Qed.

Lemma pip_world_log w before call :
  log_event (pip_event call) (pip_world w before) = pip_world w (before ++ [call]).
Proof.
  unfold pip_world, log_event. rewrite with_trace_with_trace. f_equal. simpl.
  by rewrite fmap_app, reverse_app.
Qed.

Lemma failed_calls_app w before calls1 calls2 :
  failed_calls env w before (calls1 ++ calls2)
  = failed_calls env w before calls1 ++ failed_calls env w (before ++ calls1) calls2.
Proof.
  revert before. induction calls1 as [|call calls1 IH]; intros before; simpl.
  - by rewrite app_nil_r.
  - rewrite IH, <- !app_assoc. reflexivity.
Qed.

Lemma elem_of_failed_calls w before calls req :
  req ∈ failed_calls env w before calls <->
  exists b repo a, calls = b ++ (repo, req) :: a
    /\ pip_succeeds env (pip_world w (before ++ b)) repo [req] = false.
Proof.
  revert before. induction calls as [|[r q] calls IH]; intros before; simpl.
  - split; [intros H; by apply elem_of_nil in H|].
    intros (b & repo & a & Heq & _). by destruct b.
  - rewrite elem_of_app, IH. split.
    + intros [Hhead|(b & repo & a & -> & Hfail)].
      * destruct (pip_succeeds env (pip_world w before) r [q]) eqn:Hcall;
          [by apply elem_of_nil in Hhead|].
        apply list_elem_of_singleton in Hhead as ->.
        exists [], r, calls. by rewrite app_nil_r.
      * exists ((r, q) :: b), repo, a. split; [done|].
        by rewrite <- app_assoc in Hfail.
    + intros (b & repo & a & Heq & Hfail). destruct b as [|c b].
      * injection Heq as -> -> ->. rewrite app_nil_r in Hfail. left.
        rewrite Hfail. by left.
      * injection Heq as <- ->. right. exists b, repo, a. split; [done|].
        by rewrite <- app_assoc.
Qed.

Lemma install_bucket_failed (repo : string) (reqs : list string) failed before w :
  for_each reqs (fun req failed_reqs =>
    ok ← install_raw_requirements env repo [req];
    mret (if ok : bool then failed_reqs else failed_reqs ++ [req])) failed
    (pip_world w before)
  = Ok (failed ++ failed_calls env w before ((fun req => (repo, req)) <$> reqs),
        pip_world w (before ++ ((fun req => (repo, req)) <$> reqs))).
Proof.
  revert failed before. induction reqs as [|req reqs IH]; intros failed before.
  - simpl. by rewrite !app_nil_r.
  - cbn [for_each fmap list_fmap failed_calls fst snd].
    unfold mbind at 1, M_bind at 1. unfold mbind at 1, M_bind at 1.
    unfold install_raw_requirements at 1, mret at 1, M_ret at 1.
    change (EvPip repo [req]) with (pip_event (repo, req)).
    rewrite pip_world_log, IH. rewrite <- !app_assoc. f_equal. f_equal.
    destruct (pip_succeeds env (pip_world w before) repo [req]); [done|].
    by rewrite <- app_assoc.
Qed.

Lemma install_buckets_failed (items : list (string * list string)) failed before w :
  for_each items (fun item failed_reqs =>
    for_each item.2 (fun req failed_reqs =>
      ok ← install_raw_requirements env item.1 [req];
      mret (if ok : bool then failed_reqs else failed_reqs ++ [req])) failed_reqs) failed
    (pip_world w before)
  = Ok (failed ++ failed_calls env w before (pip_calls items),
        pip_world w (before ++ pip_calls items)).
Proof.
  revert failed before. induction items as [|item items IH]; intros failed before.
  - simpl. by rewrite !app_nil_r.
  - cbn [for_each]. unfold mbind at 1, M_bind at 1.
    rewrite install_bucket_failed, IH.
    unfold pip_calls. rewrite bind_cons, failed_calls_app, <- !app_assoc. reflexivity.
Qed.

(** With a repository registered, the requirement installer returns the
    requirements whose call failed, having made one call for each. *)
Lemma install_requirements_failed (cogs : list Installable) w :
  repos w <> ∅ ->
  exists calls,
    _install_requirements env cogs w = Ok (failed_calls env w [] calls, pip_world w calls)
    /\ calls.*2 ≡ₚ requirement_set cogs
    /\ NoDup calls.*2.
Proof.
  intros Hrepos. unfold _install_requirements.
  unfold mbind at 1, M_bind at 1, get_world.
  set (buckets0 := (fun r : string * string => (r.1, [])) <$> map_to_list (repos w)).
  assert (Hn : 0 < length buckets0).
  { unfold buckets0. rewrite length_fmap.
    destruct (map_to_list (repos w)) eqn:Hl; [|simpl; lia].
    by apply map_to_list_empty_iff in Hl. }
  destruct (fun H => for_each_invariant
    (fun done (buckets : list (string * list string)) w' =>
       w' = w /\ length buckets = length buckets0 /\ concat buckets.*2 ≡ₚ done.*2)
    (fun (ireq : nat * string) (repos : list (string * list string)) =>
       if bool_decide (length repos = 0) then raise ZeroDivisionError
       else mret (alter (fun item => (item.1, item.2 ++ [ireq.2]))
                    (ireq.1 mod length repos) repos))
    (enumerate (requirement_set cogs)) H buckets0 w)
    as (buckets & w' & Hloop & -> & Hlen & Hperm).
  { intros done [i req] buckets w1 _ (-> & Hlen & Hperm). simpl.
    rewrite bool_decide_eq_false_2 by lia.
    eexists _, _. split; [reflexivity|]. split; [done|].
    rewrite length_alter. split; [done|].
    rewrite concat_alter_append.
    - rewrite fmap_app. simpl. rewrite Hperm. by rewrite <- Permutation_cons_append.
    - apply Nat.mod_upper_bound. lia. }
  { split; [done|]. split; [done|]. unfold buckets0.
    by rewrite concat_empty_buckets. }
  rewrite (bind_ok _ _ _ _ _ Hloop).
  exists (pip_calls (filter (fun item : string * list string => 0 < length item.2) buckets)).
  pose proof (install_buckets_failed
                (filter (fun item : string * list string => 0 < length item.2) buckets)
                [] [] w) as Hrun.
  rewrite pip_world_nil in Hrun. split; [exact Hrun|].
  assert (Hcalls : (pip_calls (filter
            (fun item : string * list string => 0 < length item.2) buckets)).*2
          ≡ₚ requirement_set cogs).
  { rewrite pip_calls_requirements, concat_nonempty_buckets, Hperm. by rewrite enumerate_snd. }
  split; [done|]. rewrite Hcalls. apply NoDup_remove_dups.
Qed.

Lemma update_cogs_and_libs_failed_requirements
    (cogs_to_update libs_to_update : list Installable) w failed w1 :
  _install_requirements env cogs_to_update w = Ok (failed, w1) ->
  failed <> [] ->
  _update_cogs_and_libs env cogs_to_update libs_to_update w
  = Ok (([], "Failed to install requirements: "
             +:+ humanize_list env (inline env <$> failed)), w1).
Proof.
  intros Hrun Hfailed. unfold _update_cogs_and_libs.
  rewrite (bind_ok _ _ _ _ _ Hrun). by destruct failed.
Qed.

Lemma cog_installrev_failed_requirements repo pin branch_commit
    (cogs : list Installable) message w failed w1 :
  _install_requirements env cogs w = Ok (failed, w1) ->
  failed <> [] ->
  _cog_installrev_install env repo pin branch_commit cogs message w
  = Ok (None,
        (if pin then set_repos (<[repo := branch_commit]>) else id)
          (log_event (EvSend (message +:+ nl +:+ "Failed to install requirements: "
                              +:+ humanize_list env (inline env <$> failed))) w1)).
Proof.
  intros Hrun Hfailed. unfold _cog_installrev_install.
  rewrite (bind_ok _ _ _ _ _ Hrun). destruct failed as [|req failed]; [done|].
  by destruct pin.
Qed.

End RequirementFailure.

(** C7 (amended). A requirement that fails to install stops the whole request
    before anything is copied.  With a repository registered, the requirement
    installer returns, having changed the world only by its calls to the
    package installer, one for each distinct requirement, and what it returns
    are the requirements whose call failed, each in the world its call was
    made in.  Whenever some call fails, the update returns no updated name and
    reports the failed requirements, and the install command sends them and
    returns early, leaving the block of its checkout: neither the module that
    needed the package nor any sibling has been copied or recorded. *)
Theorem failed_requirement_stops_request (env : Env)
    (cogs libs : list Installable) (repo : string) (pin : bool) (branch_commit : string)
    (message : string) (w : World) :
  repos w <> ∅ ->
  exists calls failed,
    _install_requirements env cogs w = Ok (failed, pip_world w calls)
    /\ calls.*2 ≡ₚ requirement_set cogs
    /\ (forall req, req ∈ failed <-> failed_call env w calls req)
    /\ ((exists req, failed_call env w calls req) ->
        _update_cogs_and_libs env cogs libs w
          = Ok (([], "Failed to install requirements: "
                     +:+ humanize_list env (inline env <$> failed)), pip_world w calls)
        /\ _cog_installrev_install env repo pin branch_commit cogs message w
          = Ok (None,
                (if pin then set_repos (<[repo := branch_commit]>) else id)
                  (log_event
                     (EvSend (message +:+ nl +:+ "Failed to install requirements: "
                              +:+ humanize_list env (inline env <$> failed)))
                     (pip_world w calls)))).
Proof.
  intros Hrepos.
  destruct (install_requirements_failed env cogs w Hrepos) as (calls & Hrun & Hperm & _).
  exists calls, (failed_calls env w [] calls). split; [exact Hrun|]. split; [exact Hperm|].
  assert (Hiff : forall req, req ∈ failed_calls env w [] calls <-> failed_call env w calls req).
  { intros req. rewrite elem_of_failed_calls. unfold failed_call. by setoid_rewrite app_nil_l. }
  split; [exact Hiff|].
  intros (req & Hreq). apply Hiff in Hreq.
  assert (Hfailed : failed_calls env w [] calls <> []).
  { intros Hnil. rewrite Hnil in Hreq. by apply elem_of_nil in Hreq. }
  split.
  - by apply update_cogs_and_libs_failed_requirements.
  - by apply cog_installrev_failed_requirements.
Qed.

(** ** Sets, lookups by key and loops without effects *)

Section Keyed.

Context {A : Type} (k : A -> ModuleKey).

Lemma elem_of_set_add x y (s : list A) :
  y ∈ set_add k x s <-> y ∈ s \/ (y = x /\ k x ∉ k <$> s).
Proof.
  unfold set_add. case_bool_decide as Hin.
  - split; [auto | intros [?|[_ ?]]; done].
  - rewrite elem_of_app, list_elem_of_singleton. tauto.
Qed.

Lemma set_add_subseteq x (s : list A) : s ⊆ set_add k x s.
Proof. intros y Hy. apply elem_of_set_add. by left. Qed.

Lemma set_add_key x (s : list A) : k x ∈ k <$> set_add k x s.
Proof.
  unfold set_add. case_bool_decide as Hin; [done|].
  rewrite fmap_app. apply elem_of_app. right. by left.
Qed.

Lemma set_add_keys x q (s : list A) :
  q ∈ k <$> set_add k x s <-> q ∈ k <$> s \/ q = k x.
Proof.
  unfold set_add. case_bool_decide as Hin.
  - split; [auto | intros [?| ->]; done].
  - rewrite fmap_app, elem_of_app. simpl. rewrite list_elem_of_singleton. tauto.
Qed.

Lemma set_add_NoDup x (s : list A) : NoDup (k <$> s) -> NoDup (k <$> set_add k x s).
Proof.
  intros Hnd. unfold set_add. case_bool_decide as Hin; [done|].
  rewrite fmap_app. apply NoDup_app. split; [done|]. split.
  - intros q Hq Hx. apply list_elem_of_singleton in Hx. by subst.
  - apply NoDup_singleton.
Qed.

Lemma set_add_nonempty x (s : list A) : set_add k x s <> [].
Proof.
  unfold set_add. case_bool_decide as Hin.
  - intros ->. by apply elem_of_nil in Hin.
  - by destruct s.
Qed.

Lemma index_of_Some q (l : list A) y : index_of k q l = Some y -> y ∈ l /\ k y = q.
Proof.
  unfold index_of. intros Hfind. apply find_some in Hfind as [Hin Hk].
  split; [by apply list_elem_of_In | by apply bool_decide_eq_true in Hk].
Qed.

Lemma index_of_None q (l : list A) : index_of k q l = None <-> q ∉ k <$> l.
Proof.
  unfold index_of. split.
  - intros Hfind Hin. apply list_elem_of_fmap in Hin as (y & -> & Hy).
    apply list_elem_of_In in Hy. apply (find_none _ _ Hfind) in Hy.
    by apply bool_decide_eq_false in Hy.
  - intros Hnot. destruct (find _ l) as [y|] eqn:Hfind; [|done].
    apply find_some in Hfind as [Hin Hk]. apply bool_decide_eq_true in Hk.
    exfalso. apply Hnot. apply list_elem_of_fmap. exists y.
    split; [done | by apply list_elem_of_In].
Qed.

Lemma index_of_is_Some q (l : list A) : q ∈ k <$> l -> is_Some (index_of k q l).
Proof.
  intros Hin. destruct (index_of k q l) eqn:Hfind; [by eexists|].
  by apply index_of_None in Hfind.
Qed.

Lemma NoDup_key_inj (l : list A) x y :
  NoDup (k <$> l) -> x ∈ l -> y ∈ l -> k x = k y -> x = y.
Proof.
  induction l as [|z l IH]; csimpl; intros Hnd Hx Hy Hk.
  - by apply elem_of_nil in Hx.
  - apply NoDup_cons in Hnd as [Hz Hnd].
    apply elem_of_cons in Hx as [->|Hx], Hy as [->|Hy]; [done | | | by apply IH].
    + exfalso. apply Hz. rewrite Hk. apply list_elem_of_fmap. by exists y.
    + exfalso. apply Hz. rewrite <- Hk. apply list_elem_of_fmap. by exists x.
Qed.

End Keyed.

Lemma elem_of_dict_upsert {K V} `{EqDecision K} (k : K) (f : option V -> V)
    (d : list (K * V)) entry :
  NoDup d.*1 ->
  entry ∈ dict_upsert k f d <->
  entry = (k, f (dict_get k d)) \/ (entry ∈ d /\ entry.1 <> k).
Proof.
  induction d as [|[k0 v] d IH]; csimpl; intros Hnd.
  - rewrite list_elem_of_singleton. split; [auto|]. intros [?|[Hin _]]; [done|].
    by apply elem_of_nil in Hin.
  - apply NoDup_cons in Hnd as [Hk0 Hnd]. case_decide as Hk; rewrite !elem_of_cons.
    + subst k0. split.
      * intros [->|Hin]; [by left|]. right. split; [by right|].
        intros <-. apply Hk0. apply list_elem_of_fmap. by exists entry.
      * intros [->|[[->|Hin] Hne]]; [by left | done | by right].
    + rewrite (IH Hnd). split.
      * intros [->|[->|[Hin Hne]]]; [right; split; [by left|done] | by left |].
        right. split; [by right | done].
      * intros [->|[[->|Hin] Hne]]; [right; by left | by left |]. right. by right.
Qed.

Lemma dict_get_Some {K V} `{EqDecision K} (k : K) (d : list (K * V)) v :
  dict_get k d = Some v -> (k, v) ∈ d.
Proof.
  induction d as [|[k0 v0] d IH]; simpl; [done|].
  case_decide; [intros; simplify_eq; by left | intros; right; auto].
Qed.

Lemma dict_get_elem {K V} `{EqDecision K} (k : K) (d : list (K * V)) v :
  NoDup d.*1 -> (k, v) ∈ d -> dict_get k d = Some v.
Proof.
  induction d as [|[k0 v0] d IH]; csimpl; intros Hnd Hin.
  - by apply elem_of_nil in Hin.
  - apply NoDup_cons in Hnd as [Hk0 Hnd]. apply elem_of_cons in Hin as [Heq|Hin].
    + simplify_eq. by rewrite decide_True.
    + rewrite decide_False; [by apply IH|]. intros ->. apply Hk0.
      apply list_elem_of_fmap. by exists (k0, v).
Qed.

(** ** The update resolver *)

Section Resolver.

Context (env : Env) (w : World).

Lemma available_library_repo repo lib :
  lib ∈ available_libraries env w repo -> repo_name lib = repo /\ is_Some (repos w !! repo).
Proof.
  unfold available_libraries, available_modules. intros Hin.
  apply list_elem_of_filter in Hin as [_ Hin].
  destruct (repos w !! repo) as [c|]; [|by apply elem_of_nil in Hin].
  apply list_elem_of_fmap in Hin as (nm & -> & _). by split.
Qed.

Lemma published_library_registered cogs lib :
  lib ∈ published_libraries env w cogs -> is_Some (repos w !! repo_name lib).
Proof.
  unfold published_libraries. intros Hin.
  apply list_elem_of_bind in Hin as (repo & Hin & _).
  by apply available_library_repo in Hin as [-> ?].
Qed.

(** The loop over the available libraries. *)
Lemma libraries_checked_spec cogs :
  let libs := library_records w in
  let published := published_libraries env w cogs in
  (forall m, m ∈ (libraries_checked env w cogs).1 ->
     exists lib, lib ∈ published /\ index_of im_key (key lib) libs = Some m)
  /\ (forall x, x ∈ (libraries_checked env w cogs).2 ->
        x ∈ published /\ index_of im_key (key x) libs = None)
  /\ NoDup (im_key <$> (libraries_checked env w cogs).1)
  /\ (forall lib m, lib ∈ published -> index_of im_key (key lib) libs = Some m ->
        key lib ∈ im_key <$> (libraries_checked env w cogs).1).
Proof.
  intros libs published. unfold libraries_checked. fold libs. fold published.
  apply (foldl_invariant
    (fun done acc =>
       (forall m, m ∈ acc.1 ->
          exists lib, lib ∈ done /\ index_of im_key (key lib) libs = Some m)
       /\ (forall x, x ∈ acc.2 -> x ∈ done /\ index_of im_key (key x) libs = None)
       /\ NoDup (im_key <$> acc.1)
       /\ (forall lib m, lib ∈ done -> index_of im_key (key lib) libs = Some m ->
             key lib ∈ im_key <$> acc.1))).
  - simpl. split; [|split; [|split]].
    + intros ? Hin. by apply elem_of_nil in Hin.
    + intros ? Hin. by apply elem_of_nil in Hin.
    + apply NoDup_nil_2.
    + intros ? ? Hin. by apply elem_of_nil in Hin.
  - intros done lib [modules lu] _ (Hm & Hlu & Hnd & Hcomplete).
    unfold check_library. simpl in *.
    destruct (index_of im_key (key lib) libs) as [found|] eqn:Hfound; simpl.
    + split; [|split; [|split]].
      * intros m Hin. apply elem_of_set_add in Hin as [Hin|[-> _]].
        -- destruct (Hm m Hin) as (l0 & Hl0 & Hidx). exists l0. split; [mem|done].
        -- exists lib. split; [mem|done].
      * intros x Hx. destruct (Hlu x Hx). split; [mem|done].
      * by apply set_add_NoDup.
      * intros l0 m0 Hl0 Hidx. apply set_add_keys.
        apply elem_of_app in Hl0 as [Hl0|Hl0].
        -- left. by eapply Hcomplete.
        -- apply list_elem_of_singleton in Hl0 as ->. right.
           apply index_of_Some in Hfound as [_ Hk]. done.
    + split; [|split; [|split]].
      * intros m Hin. destruct (Hm m Hin) as (l0 & Hl0 & Hidx).
        exists l0. split; [mem|done].
      * intros x Hx. apply elem_of_set_add in Hx as [Hx|[-> _]].
        -- destruct (Hlu x Hx). split; [mem|done].
        -- split; [mem|done].
      * done.
      * intros l0 m0 Hl0 Hidx. apply elem_of_app in Hl0 as [Hl0|Hl0].
        -- by eapply Hcomplete.
        -- apply list_elem_of_singleton in Hl0 as ->. congruence.
Qed.

(** The loop over the cogs of the request. *)
Lemma cogs_checked_spec cogs :
  let modules1 := (libraries_checked env w cogs).1 in
  (forall m, m ∈ candidates env w cogs ->
     m ∈ modules1
     \/ (m ∈ cogs /\ im_commit m <> "" /\ is_Some (repos w !! im_repo_name m)))
  /\ modules1 ⊆ candidates env w cogs
  /\ NoDup (im_key <$> candidates env w cogs)
  /\ (forall x, x ∈ (cogs_checked env w cogs).2 ->
        disabled (meta x) = false
        /\ exists c, c ∈ cogs /\ im_commit c = "" /\ key x = im_key c)
  /\ (forall c, c ∈ cogs -> im_commit c <> "" -> is_Some (repos w !! im_repo_name c) ->
        im_key c ∈ im_key <$> candidates env w cogs).
Proof.
  intros modules1. unfold candidates, cogs_checked. fold modules1.
  apply (foldl_invariant
    (fun done acc =>
       (forall m, m ∈ acc.1 ->
          m ∈ modules1
          \/ (m ∈ done /\ im_commit m <> "" /\ is_Some (repos w !! im_repo_name m)))
       /\ modules1 ⊆ acc.1
       /\ NoDup (im_key <$> acc.1)
       /\ (forall x, x ∈ acc.2 ->
             disabled (meta x) = false
             /\ exists c, c ∈ done /\ im_commit c = "" /\ key x = im_key c)
       /\ (forall c, c ∈ done -> im_commit c <> "" ->
             is_Some (repos w !! im_repo_name c) -> im_key c ∈ im_key <$> acc.1))).
  - simpl. split; [|split; [|split; [|split]]].
    + auto.
    + done.
    + apply (libraries_checked_spec cogs).
    + intros ? Hin. by apply elem_of_nil in Hin.
    + intros ? Hin. by apply elem_of_nil in Hin.
  - intros done cog [modules cu] _ (Hm & Hsub & Hnd & Hcu & Hcomplete).
    unfold check_cog. simpl in *.
    assert (Hweaken_m : forall m,
      m ∈ modules1 \/ (m ∈ done /\ im_commit m <> "" /\ is_Some (repos w !! im_repo_name m)) ->
      m ∈ modules1
      \/ (m ∈ done ++ [cog] /\ im_commit m <> "" /\ is_Some (repos w !! im_repo_name m))).
    { intros m [?|(? & ? & ?)]; [by left|]. right. split; [mem|done]. }
    assert (Hweaken_cu : forall x,
      disabled (meta x) = false
      /\ (exists c, c ∈ done /\ im_commit c = "" /\ key x = im_key c) ->
      disabled (meta x) = false
      /\ (exists c, c ∈ done ++ [cog] /\ im_commit c = "" /\ key x = im_key c)).
    { intros x (? & c & ? & ? & ?). split; [done|]. exists c. split; [mem|done]. }
    destruct (repos w !! im_repo_name cog) as [head|] eqn:Hrepo.
    + case_bool_decide as Hknown; simpl.
      * split; [|split; [|split; [|split]]].
        -- intros m Hin. apply elem_of_set_add in Hin as [Hin|[-> _]].
           ++ by apply Hweaken_m, Hm.
           ++ right. split; [mem|]. split; [done|]. by rewrite Hrepo.
        -- intros m Hin. apply set_add_subseteq. by apply Hsub.
        -- by apply set_add_NoDup.
        -- intros x Hx. by apply Hweaken_cu, Hcu.
        -- intros c Hc Hcommit Hreg. apply set_add_keys.
           apply elem_of_app in Hc as [Hc|Hc]; [left; by apply Hcomplete|].
           apply list_elem_of_singleton in Hc as ->. by right.
      * assert (Hempty : im_commit cog = "") by (destruct (decide (im_commit cog = "")); tauto).
        assert (Hkeep : forall c, c ∈ done ++ [cog] -> im_commit c <> "" ->
                  is_Some (repos w !! im_repo_name c) -> im_key c ∈ im_key <$> modules).
        { intros c Hc Hcommit Hreg. apply elem_of_app in Hc as [Hc|Hc];
            [by apply Hcomplete|].
          apply list_elem_of_singleton in Hc as ->. done. }
        destruct (get_last_module_occurrence env (im_repo_name cog) (im_name cog))
          as [last|] eqn:Hlast; [destruct (disabled (meta last)) eqn:Hdis|]; simpl;
          (split; [|split; [|split; [|split]]]); try done;
          try (intros m Hin; by apply Hweaken_m, Hm);
          try (intros x Hx; by apply Hweaken_cu, Hcu).
        intros x Hx. apply elem_of_set_add in Hx as [Hx|[-> _]];
          [by apply Hweaken_cu, Hcu|].
        split; [done|]. exists cog. split; [mem|]. split; [done|].
        unfold get_last_module_occurrence in Hlast.
        destruct (last_module_occurrence env _ _) as [cm|]; simpl in Hlast;
          [by simplify_eq | discriminate].
    + simpl. split; [|split; [|split; [|split]]]; try done.
      * intros m Hin. by apply Hweaken_m, Hm.
      * intros x Hx. by apply Hweaken_cu, Hcu.
      * intros c Hc Hcommit Hreg. apply elem_of_app in Hc as [Hc|Hc];
          [by apply Hcomplete|].
        apply list_elem_of_singleton in Hc as ->. rewrite Hrepo in Hreg.
        by destruct Hreg.
Qed.

(** The loop that fills [hashes]. *)
Lemma hashes_spec (modules : list InstalledModule) :
  (forall m, m ∈ modules -> is_Some (repos w !! im_repo_name m)) ->
  exists hashes,
    for_each modules (hash_module env) [] w = Ok (hashes, w)
    /\ NoDup hashes.*1
    /\ (forall entry m, entry ∈ hashes -> m ∈ entry.2 ->
          m ∈ modules /\ diffable env w m /\ entry.1 = (im_repo_name m, im_commit m))
    /\ (forall m, m ∈ modules -> diffable env w m ->
          exists entry, entry ∈ hashes /\ entry.1 = (im_repo_name m, im_commit m)
                        /\ im_key m ∈ im_key <$> entry.2)
    /\ (forall entry, entry ∈ hashes -> is_Some (repos w !! entry.1.1) /\ entry.2 <> [])
    /\ ((forall m, m ∈ modules -> ~ diffable env w m) -> hashes = []).
Proof.
  intros Hregistered.
  destruct (fun H => for_each_invariant
    (fun done (hashes : list (string * string * list InstalledModule)) w' =>
       w' = w
       /\ NoDup hashes.*1
       /\ (forall entry m, entry ∈ hashes -> m ∈ entry.2 ->
             m ∈ done /\ diffable env w m /\ entry.1 = (im_repo_name m, im_commit m))
       /\ (forall m, m ∈ done -> diffable env w m ->
             exists entry, entry ∈ hashes /\ entry.1 = (im_repo_name m, im_commit m)
                           /\ im_key m ∈ im_key <$> entry.2)
       /\ (forall entry, entry ∈ hashes -> is_Some (repos w !! entry.1.1) /\ entry.2 <> [])
       /\ ((forall m, m ∈ done -> ~ diffable env w m) -> hashes = []))
    (hash_module env) modules H [] w)
    as (hashes & w' & Hrun & -> & Hinv); [| |by eauto].
  - intros done m hashes w1 [rest Hsplit] (-> & Hnd & Hsound & Hcomplete & Hreg & Hnone).
    assert (Hm : m ∈ modules) by (rewrite Hsplit; mem).
    destruct (Hregistered m Hm) as [head Hhead].
    unfold hash_module, mbind, M_bind, repo_commit. rewrite Hhead.
    destruct (bool_decide (head ≠ im_commit m)
              && is_ancestor env (im_repo_name m) (im_commit m) head) eqn:Hcond.
    + apply andb_true_iff in Hcond as [Hne Hanc]. apply bool_decide_eq_true in Hne.
      assert (Hdiffable : diffable env w m) by (by exists head).
      eexists _, _. split; [reflexivity|]. split; [done|].
      set (k := (im_repo_name m, im_commit m)).
      set (f := fun s : option (list InstalledModule) => set_add im_key m (default [] s)).
      split; [by apply dict_upsert_NoDup|].
      split; [|split; [|split]].
      * intros entry m' Hentry Hm'.
        apply (elem_of_dict_upsert _ _ _ _ Hnd) in Hentry as [->|[Hentry Hk]].
        -- simpl in Hm'. apply elem_of_set_add in Hm' as [Hm'|[-> _]].
           ++ destruct (dict_get k hashes) as [v|] eqn:Hget;
                [|by apply elem_of_nil in Hm'].
              apply dict_get_Some in Hget.
              destruct (Hsound _ _ Hget Hm') as (? & ? & ?). split; [mem|done].
           ++ split; [mem|done].
        -- destruct (Hsound _ _ Hentry Hm') as (? & ? & ?). split; [mem|done].
      * intros m0 Hm0 Hd0. apply elem_of_app in Hm0 as [Hm0|Hm0].
        -- destruct (Hcomplete m0 Hm0 Hd0) as ([k0 v0] & Hentry & Hk0 & Hkey).
           destruct (decide (k0 = k)) as [->|Hne0].
           ++ exists (k, f (Some v0)). split; [|split; [done|]].
              ** apply elem_of_dict_upsert; [done|]. left.
                 by rewrite (dict_get_elem _ _ _ Hnd Hentry).
              ** simpl. apply set_add_keys. by left.
           ++ exists (k0, v0). split; [|done].
              apply elem_of_dict_upsert; [done|]. by right.
        -- apply list_elem_of_singleton in Hm0 as ->.
           exists (k, f (dict_get k hashes)). split; [|split; [done|]].
           ++ apply elem_of_dict_upsert; [done|]. by left.
           ++ apply set_add_key.
      * intros entry Hentry.
        apply (elem_of_dict_upsert _ _ _ _ Hnd) in Hentry as [->|[Hentry Hk]]; [|by apply Hreg].
        simpl. rewrite Hhead. split; [done | apply set_add_nonempty].
      * intros Hno. exfalso. apply (Hno m); [mem|done].
    + assert (Hnot : ~ diffable env w m).
      { intros (head' & Hhead' & Hne & Hanc). simplify_eq.
        apply andb_false_iff in Hcond as [Hcond|Hcond]; [|congruence].
        by apply bool_decide_eq_false in Hcond. }
      eexists _, _. split; [reflexivity|]. split; [done|]. split; [done|].
      split; [|split; [|split]].
      * intros entry m' Hentry Hm'. destruct (Hsound _ _ Hentry Hm') as (? & ? & ?).
        split; [mem|done].
      * intros m0 Hm0 Hd0. apply elem_of_app in Hm0 as [Hm0|Hm0]; [by apply Hcomplete|].
        by apply list_elem_of_singleton in Hm0 as ->.
      * done.
      * intros Hno. apply Hnone. intros m0 Hm0. apply Hno. mem.
  - split; [done|]. split; [apply NoDup_nil_2|].
    split; [|split; [|split]]; try done;
      intros ? ?; try intros ?; by apply elem_of_nil in H.
Qed.

(** The loop over the modules of one group. *)
Lemma classify_spec head (modified : list Installable) (ms : list InstalledModule)
    (acc : list InstalledModule * list Installable * list Installable) :
  let res := foldl (fun acc module => classify_module head modified module acc) acc ms in
  (forall u, u ∈ res.1.1 ->
     u ∈ acc.1.1
     \/ exists m, m ∈ ms /\ u = set_commit m head
                  /\ index_of key (im_key m) modified = None)
  /\ (forall m, m ∈ ms -> index_of key (im_key m) modified = None ->
        set_commit m head ∈ res.1.1)
  /\ acc.1.1 ⊆ res.1.1 /\ acc.1.2 ⊆ res.1.2 /\ acc.2 ⊆ res.2
  /\ (forall x, x ∈ res.1.2 ->
        x ∈ acc.1.2
        \/ (disabled (meta x) = false
            /\ exists m, m ∈ ms /\ index_of key (im_key m) modified = Some x))
  /\ (forall x, x ∈ res.2 ->
        x ∈ acc.2
        \/ (type (meta x) = SHARED_LIBRARY
            /\ exists m, m ∈ ms /\ index_of key (im_key m) modified = Some x)).
Proof.
  apply (foldl_invariant
    (fun done res =>
      (forall u, u ∈ res.1.1 ->
         u ∈ acc.1.1
         \/ exists m, m ∈ done /\ u = set_commit m head
                      /\ index_of key (im_key m) modified = None)
      /\ (forall m, m ∈ done -> index_of key (im_key m) modified = None ->
            set_commit m head ∈ res.1.1)
      /\ acc.1.1 ⊆ res.1.1 /\ acc.1.2 ⊆ res.1.2 /\ acc.2 ⊆ res.2
      /\ (forall x, x ∈ res.1.2 ->
            x ∈ acc.1.2
            \/ (disabled (meta x) = false
                /\ exists m, m ∈ done /\ index_of key (im_key m) modified = Some x))
      /\ (forall x, x ∈ res.2 ->
            x ∈ acc.2
            \/ (type (meta x) = SHARED_LIBRARY
                /\ exists m, m ∈ done /\ index_of key (im_key m) modified = Some x)))).
  - split; [auto|]. split; [intros ? Hin; by apply elem_of_nil in Hin|].
    repeat (split; [done|]). split; auto.
  - intros done m [[uc cu] lu] _ (Huc & Hff & Hsub1 & Hsub2 & Hsub3 & Hcu & Hlu).
    simpl in *.
    assert (Huc' : forall u, u ∈ uc ->
      u ∈ acc.1.1
      \/ exists m0, m0 ∈ done ++ [m] /\ u = set_commit m0 head
                    /\ index_of key (im_key m0) modified = None).
    { intros u Hu. destruct (Huc u Hu) as [?|(m0 & ? & ? & ?)]; [by left|].
      right. exists m0. split; [mem|done]. }
    assert (Hcu' : forall x, x ∈ cu ->
      x ∈ acc.1.2
      \/ (disabled (meta x) = false
          /\ exists m0, m0 ∈ done ++ [m] /\ index_of key (im_key m0) modified = Some x)).
    { intros x Hx. destruct (Hcu x Hx) as [?|(? & m0 & ? & ?)]; [by left|].
      right. split; [done|]. exists m0. split; [mem|done]. }
    assert (Hlu' : forall x, x ∈ lu ->
      x ∈ acc.2
      \/ (type (meta x) = SHARED_LIBRARY
          /\ exists m0, m0 ∈ done ++ [m] /\ index_of key (im_key m0) modified = Some x)).
    { intros x Hx. destruct (Hlu x Hx) as [?|(? & m0 & ? & ?)]; [by left|].
      right. split; [done|]. exists m0. split; [mem|done]. }
    unfold classify_module.
    destruct (index_of key (im_key m) modified) as [mm|] eqn:Hidx.
    + assert (Hff' : forall m0, m0 ∈ done ++ [m] ->
        index_of key (im_key m0) modified = None -> set_commit m0 head ∈ uc).
      { intros m0 Hm0 Hnone. apply elem_of_app in Hm0 as [Hm0|Hm0]; [by apply Hff|].
        apply list_elem_of_singleton in Hm0 as ->. congruence. }
      destruct (type (meta mm)) eqn:Htype; [|destruct (disabled (meta mm)) eqn:Hdis|];
        simpl; (split; [done|]); (split; [done|]); (split; [done|]).
      * done.
      * done.
      * split; [intros x Hx; by apply set_add_subseteq, Hsub2|]. split; [done|].
        split; [|done]. intros x Hx. apply elem_of_set_add in Hx as [Hx|[-> _]]; [auto|].
        right. split; [done|]. exists m. split; [mem|done].
      * split; [done|]. split; [intros x Hx; by apply set_add_subseteq, Hsub3|].
        split; [done|]. intros x Hx. apply elem_of_set_add in Hx as [Hx|[-> _]]; [auto|].
        right. split; [done|]. exists m. split; [mem|done].
    + simpl. split; [|split; [|split; [|done]]].
      * intros u Hu. apply elem_of_app in Hu as [Hu|Hu]; [auto|].
        apply list_elem_of_singleton in Hu as ->. right. exists m.
        split; [mem|done].
      * intros m0 Hm0 Hnone. apply elem_of_app in Hm0 as [Hm0|Hm0].
        -- apply elem_of_app. left. by apply Hff.
        -- apply list_elem_of_singleton in Hm0 as ->. mem.
      * intros u Hu. apply elem_of_app. left. by apply Hsub1.
Qed.

Lemma check_group_run (entry : string * string * list InstalledModule) acc w1 :
  repos w1 = repos w ->
  is_Some (repos w !! entry.1.1) ->
  check_group env entry acc w1
  = Ok (foldl (fun acc module =>
                 classify_module (entry_head w entry) (entry_diff env w entry) module acc)
              acc entry.2,
        log_event (diff_event w entry) w1).
Proof.
  intros Hrepos [head Hhead]. destruct entry as [[repo old_hash] modules_to_check].
  unfold check_group, mbind, M_bind, repo_commit, get_modified_modules, mret, M_ret,
    entry_head, entry_diff, diff_event. simpl in *.
  by rewrite Hrepos, Hhead.
Qed.

(** The loop over [hashes.items()]. *)
Lemma groups_spec (hashes : list (string * string * list InstalledModule))
    (cu0 lu0 : list Installable) :
  (forall entry, entry ∈ hashes -> is_Some (repos w !! entry.1.1)) ->
  exists uc cu lu,
    for_each hashes (check_group env) ([], cu0, lu0) w
    = Ok ((uc, cu, lu), with_trace (reverse (diff_event w <$> hashes) ++ trace w) w)
    /\ (forall u, u ∈ uc ->
          exists entry m, entry ∈ hashes /\ m ∈ entry.2
            /\ u = set_commit m (entry_head w entry)
            /\ index_of key (im_key m) (entry_diff env w entry) = None)
    /\ (forall entry m, entry ∈ hashes -> m ∈ entry.2 ->
          index_of key (im_key m) (entry_diff env w entry) = None ->
          set_commit m (entry_head w entry) ∈ uc)
    /\ cu0 ⊆ cu /\ lu0 ⊆ lu
    /\ (forall x, x ∈ cu ->
          x ∈ cu0
          \/ (disabled (meta x) = false
              /\ exists entry m, entry ∈ hashes /\ m ∈ entry.2
                   /\ index_of key (im_key m) (entry_diff env w entry) = Some x))
    /\ (forall x, x ∈ lu ->
          x ∈ lu0
          \/ (type (meta x) = SHARED_LIBRARY
              /\ exists entry m, entry ∈ hashes /\ m ∈ entry.2
                   /\ index_of key (im_key m) (entry_diff env w entry) = Some x)).
Proof.
  intros Hregistered.
  destruct (fun H => for_each_invariant
    (fun done (acc : list InstalledModule * list Installable * list Installable) w' =>
       w' = with_trace (reverse (diff_event w <$> done) ++ trace w) w
       /\ (forall u, u ∈ acc.1.1 ->
             exists entry m, entry ∈ done /\ m ∈ entry.2
               /\ u = set_commit m (entry_head w entry)
               /\ index_of key (im_key m) (entry_diff env w entry) = None)
       /\ (forall entry m, entry ∈ done -> m ∈ entry.2 ->
             index_of key (im_key m) (entry_diff env w entry) = None ->
             set_commit m (entry_head w entry) ∈ acc.1.1)
       /\ cu0 ⊆ acc.1.2 /\ lu0 ⊆ acc.2
       /\ (forall x, x ∈ acc.1.2 ->
             x ∈ cu0
             \/ (disabled (meta x) = false
                 /\ exists entry m, entry ∈ done /\ m ∈ entry.2
                      /\ index_of key (im_key m) (entry_diff env w entry) = Some x))
       /\ (forall x, x ∈ acc.2 ->
             x ∈ lu0
             \/ (type (meta x) = SHARED_LIBRARY
                 /\ exists entry m, entry ∈ done /\ m ∈ entry.2
                      /\ index_of key (im_key m) (entry_diff env w entry) = Some x)))
    (check_group env) hashes H ([], cu0, lu0) w)
    as ([[uc cu] lu] & w' & Hrun & -> & Hinv).
  - intros done entry acc w1 [rest Hsplit]
      (-> & Huc & Hff & Hsub2 & Hsub3 & Hcu & Hlu).
    rewrite check_group_run; [|done|apply Hregistered; rewrite Hsplit; mem].
    eexists _, _. split; [reflexivity|].
    destruct (classify_spec (entry_head w entry) (entry_diff env w entry) entry.2 acc)
      as (Huc1 & Hff1 & Hs1 & Hs2 & Hs3 & Hcu1 & Hlu1).
    split; [|split; [|split; [|split; [|split; [|split]]]]].
    + unfold log_event. rewrite with_trace_with_trace. f_equal. simpl.
      rewrite fmap_app, reverse_app. reflexivity.
    + intros u Hu. destruct (Huc1 u Hu) as [Hold|(m & Hm & -> & Hidx)].
      * destruct (Huc u Hold) as (e0 & m0 & ? & ? & ? & ?).
        exists e0, m0. split; [mem|done].
      * exists entry, m. split; [mem|done].
    + intros e0 m0 He0 Hm0 Hidx. apply elem_of_app in He0 as [He0|He0].
      * apply Hs1. by eapply Hff.
      * apply list_elem_of_singleton in He0 as ->. by apply Hff1.
    + intros x Hx. by apply Hs2, Hsub2.
    + intros x Hx. by apply Hs3, Hsub3.
    + intros x Hx. destruct (Hcu1 x Hx) as [Hold|(Hdis & m & Hm & Hidx)].
      * destruct (Hcu x Hold) as [?|(? & e0 & m0 & ? & ? & ?)]; [by left|].
        right. split; [done|]. exists e0, m0. split; [mem|done].
      * right. split; [done|]. exists entry, m. split; [mem|done].
    + intros x Hx. destruct (Hlu1 x Hx) as [Hold|(Hty & m & Hm & Hidx)].
      * destruct (Hlu x Hold) as [?|(? & e0 & m0 & ? & ? & ?)]; [by left|].
        right. split; [done|]. exists e0, m0. split; [mem|done].
      * right. split; [done|]. exists entry, m. split; [mem|done].
  - simpl. split; [by rewrite with_trace_id|].
    split; [intros ? Hin; by apply elem_of_nil in Hin|].
    split; [intros ? ? Hin; by apply elem_of_nil in Hin|].
    split; [done|]. split; [done|]. split; auto.
  - exists uc, cu, lu. split; [done|]. apply Hinv.
Qed.

(** Every module found in a diff reaches the update set of its kind, unless
    it is a disabled cog. *)
Lemma classify_complete head (modified : list Installable) (ms : list InstalledModule)
    (acc : list InstalledModule * list Installable * list Installable) :
  let res := foldl (fun acc module => classify_module head modified module acc) acc ms in
  forall m x, m ∈ ms -> index_of key (im_key m) modified = Some x ->
    (type (meta x) = SHARED_LIBRARY -> key x ∈ key <$> res.2)
    /\ (type (meta x) = COG -> disabled (meta x) = false -> key x ∈ key <$> res.1.2).
Proof.
  apply (foldl_invariant
    (fun done res =>
       forall m x, m ∈ done -> index_of key (im_key m) modified = Some x ->
         (type (meta x) = SHARED_LIBRARY -> key x ∈ key <$> res.2)
         /\ (type (meta x) = COG -> disabled (meta x) = false -> key x ∈ key <$> res.1.2))).
  - intros m x Hin. by apply elem_of_nil in Hin.
  - intros done m0 [[uc cu] lu] _ Hdone m x Hm Hidx.
    destruct (classify_spec head modified [m0] (uc, cu, lu))
      as (_ & _ & _ & Hs2 & Hs3 & _). simpl in Hs2, Hs3.
    apply elem_of_app in Hm as [Hm|Hm].
    + destruct (Hdone m x Hm Hidx) as [Hlib Hcog]. simpl in *. split.
      * intros Ht. specialize (Hlib Ht).
        apply list_elem_of_fmap in Hlib as (y & -> & Hy).
        apply list_elem_of_fmap. exists y. split; [done | by apply Hs3].
      * intros Ht Hd. specialize (Hcog Ht Hd).
        apply list_elem_of_fmap in Hcog as (y & -> & Hy).
        apply list_elem_of_fmap. exists y. split; [done | by apply Hs2].
    + apply list_elem_of_singleton in Hm as ->.
      unfold classify_module. rewrite Hidx. simpl. split.
      * intros Ht. rewrite Ht. simpl. apply set_add_key.
      * intros Ht Hd. rewrite Ht, Hd. simpl. apply set_add_key.
Qed.

Lemma groups_complete (hashes : list (string * string * list InstalledModule))
    acc0 result w' :
  (forall entry, entry ∈ hashes -> is_Some (repos w !! entry.1.1)) ->
  for_each hashes (check_group env) acc0 w = Ok (result, w') ->
  forall entry m x, entry ∈ hashes -> m ∈ entry.2 ->
    index_of key (im_key m) (entry_diff env w entry) = Some x ->
    (type (meta x) = SHARED_LIBRARY -> key x ∈ key <$> result.2)
    /\ (type (meta x) = COG -> disabled (meta x) = false -> key x ∈ key <$> result.1.2).
Proof.
  intros Hregistered Hrun.
  apply (for_each_invariant_ok
    (fun done (acc : list InstalledModule * list Installable * list Installable) w1 =>
       repos w1 = repos w
       /\ forall entry m x, entry ∈ done -> m ∈ entry.2 ->
            index_of key (im_key m) (entry_diff env w entry) = Some x ->
            (type (meta x) = SHARED_LIBRARY -> key x ∈ key <$> acc.2)
            /\ (type (meta x) = COG -> disabled (meta x) = false ->
                key x ∈ key <$> acc.1.2))
    (check_group env) hashes) in Hrun; [by apply Hrun | | ].
  - intros done entry acc w1 acc' w2 [rest Hsplit] [Hrepos Hdone] Hstep.
    rewrite check_group_run in Hstep;
      [|done|apply Hregistered; rewrite Hsplit; mem].
    injection Hstep as <- <-. split; [done|].
    intros e0 m x He0 Hm Hidx.
    destruct (classify_spec (entry_head w entry) (entry_diff env w entry) entry.2 acc)
      as (_ & _ & _ & Hs2 & Hs3 & _).
    apply elem_of_app in He0 as [He0|He0].
    + destruct (Hdone e0 m x He0 Hm Hidx) as [Hlib Hcog]. split.
      * intros Ht. specialize (Hlib Ht).
        apply list_elem_of_fmap in Hlib as (y & -> & Hy).
        apply list_elem_of_fmap. exists y. split; [done | by apply Hs3].
      * intros Ht Hd. specialize (Hcog Ht Hd).
        apply list_elem_of_fmap in Hcog as (y & -> & Hy).
        apply list_elem_of_fmap. exists y. split; [done | by apply Hs2].
    + apply list_elem_of_singleton in He0 as ->.
      by apply (classify_complete (entry_head w entry) (entry_diff env w entry)
                  entry.2 acc m x).
  - split; [done|]. intros ? ? ? Hin. by apply elem_of_nil in Hin.
Qed.

Lemma candidate_registered cogs m :
  m ∈ candidates env w cogs -> is_Some (repos w !! im_repo_name m).
Proof.
  intros Hm. destruct (cogs_checked_spec cogs) as (Hsrc & _).
  destruct (Hsrc m Hm) as [Hlib|(_ & _ & Hreg)]; [|done].
  destruct (libraries_checked_spec cogs) as (Hlibs & _).
  destruct (Hlibs m Hlib) as (lib & Hpub & Hidx).
  apply index_of_Some in Hidx as [_ Hkey].
  apply published_library_registered in Hpub.
  unfold im_key, key in Hkey. injection Hkey as Hr _. by rewrite Hr.
Qed.

Lemma entry_diff_of entry m :
  diffable env w m -> entry.1 = (im_repo_name m, im_commit m) ->
  entry_diff env w entry = diff_of env w m
  /\ set_commit m (entry_head w entry) = fast_forward w m.
Proof.
  intros (head & Hhead & _) Hkey. destruct entry as [[r c] ms]. simpl in Hkey.
  simplify_eq. unfold entry_diff, diff_of, entry_head, fast_forward. simpl.
  by rewrite Hhead.
Qed.

Lemma available_updates_unfold cogs :
  _available_updates env cogs w =
  (hashes ← for_each (candidates env w cogs) (hash_module env) [];
   acc ← for_each hashes (check_group env)
           ([], (cogs_checked env w cogs).2, (libraries_checked env w cogs).2);
   _save_to_installed acc.1.1;;
   mret (acc.1.2, acc.2)) w.
Proof.
  unfold _available_updates, candidates, cogs_checked, libraries_checked,
    published_libraries, library_records.
  unfold mbind at 1, M_bind at 1, get_world.
  unfold mbind at 1, M_bind at 1, installed_libraries.
  unfold mbind at 1, M_bind at 1, get_world.
  unfold mret at 1, M_ret at 1.
  destruct (foldl (check_library _) _ _) as [modules1 lu1]. simpl.
  destruct (foldl (check_cog env w) _ _) as [modules2 cu1]. simpl.
  unfold mbind, M_bind.
  destruct (for_each modules2 (hash_module env) [] w) as [[hashes w1]|]; [|done].
  by destruct (for_each hashes _ _ w1) as [[[[uc cu] lu] w2]|].
Qed.

(** What one call of [_available_updates] returns and does. *)
Lemma available_updates_run cogs :
  exists hashes uc cu lu,
    let saved :=
      foldl (by_type conf_store) (installed_cogs_conf w, installed_libraries_conf w) uc in
    _available_updates env cogs w
    = Ok ((cu, lu),
          set_conf saved.1 saved.2
            (with_trace (reverse (diff_event w <$> hashes) ++ trace w) w))
    /\ NoDup hashes.*1
    /\ (forall entry, entry ∈ hashes ->
          exists m, m ∈ candidates env w cogs /\ diffable env w m
                    /\ entry.1 = (im_repo_name m, im_commit m))
    /\ (forall u, u ∈ uc ->
          exists m, m ∈ candidates env w cogs /\ diffable env w m
                    /\ absent_from_diff env w m /\ u = fast_forward w m)
    /\ (forall m, m ∈ candidates env w cogs -> diffable env w m ->
          absent_from_diff env w m -> fast_forward w m ∈ uc)
    /\ (cogs_checked env w cogs).2 ⊆ cu
    /\ (libraries_checked env w cogs).2 ⊆ lu
    /\ (forall x, x ∈ cu ->
          disabled (meta x) = false
          /\ (x ∈ (cogs_checked env w cogs).2
              \/ exists m, m ∈ candidates env w cogs /\ diffable env w m
                           /\ x ∈ diff_of env w m /\ key x = im_key m))
    /\ (forall x, x ∈ lu ->
          type (meta x) = SHARED_LIBRARY
          /\ (x ∈ (libraries_checked env w cogs).2
              \/ exists m, m ∈ candidates env w cogs /\ diffable env w m
                           /\ x ∈ diff_of env w m /\ key x = im_key m))
    /\ ((forall m, m ∈ candidates env w cogs -> ~ diffable env w m) ->
        hashes = [] /\ uc = []
        /\ cu = (cogs_checked env w cogs).2 /\ lu = (libraries_checked env w cogs).2).
Proof.
  destruct (cogs_checked_spec cogs) as (Hsrc & Hsub & Hnd & Hcu1 & Hcover).
  destruct (hashes_spec (candidates env w cogs))
    as (hashes & Hhash & Hnd_h & Hsound & Hcomplete & Hreg & Hnone);
    [intros m; apply candidate_registered|].
  destruct (groups_spec hashes (cogs_checked env w cogs).2 (libraries_checked env w cogs).2)
    as (uc & cu & lu & Hrun & Huc & Hff & Hsub_cu & Hsub_lu & Hcu & Hlu);
    [intros entry Hentry; by apply Hreg|].
  exists hashes, uc, cu, lu. intros saved.
  split.
  { rewrite available_updates_unfold.
    rewrite (bind_ok _ _ _ _ _ Hhash), (bind_ok _ _ _ _ _ Hrun). reflexivity. }
  split; [done|]. split.
  { intros entry Hentry. destruct (Hreg entry Hentry) as [_ Hne].
    destruct entry.2 as [|m ms] eqn:Hms; [done|].
    destruct (Hsound entry m Hentry) as (? & ? & ?); [rewrite Hms; by left|].
    by exists m. }
  split.
  { intros u Hu. destruct (Huc u Hu) as (entry & m & Hentry & Hm & -> & Hidx).
    destruct (Hsound entry m Hentry Hm) as (Hcand & Hdiff & Hkey).
    destruct (entry_diff_of entry m Hdiff Hkey) as [Hd Hf].
    exists m. split; [done|]. split; [done|]. split; [|done].
    unfold absent_from_diff. rewrite <- Hd. by apply index_of_None. }
  split.
  { intros m Hm Hdiff Habsent.
    destruct (Hcomplete m Hm Hdiff) as (entry & Hentry & Hkey & Hin).
    apply list_elem_of_fmap in Hin as (m' & Hk' & Hm').
    destruct (Hsound entry m' Hentry Hm') as (Hcand' & _ & _).
    assert (m' = m) as -> by (by apply (NoDup_key_inj im_key (candidates env w cogs))).
    destruct (entry_diff_of entry m Hdiff Hkey) as [Hd <-].
    apply Hff; [done | done |]. apply index_of_None. by rewrite Hd. }
  split; [done|]. split; [done|]. split.
  { intros x Hx. destruct (Hcu x Hx) as [Hold|(Hdis & entry & m & Hentry & Hm & Hidx)].
    - destruct (Hcu1 x Hold) as [Hdis _]. split; [done | by left].
    - split; [done|]. right.
      destruct (Hsound entry m Hentry Hm) as (Hcand & Hdiff & Hkey).
      destruct (entry_diff_of entry m Hdiff Hkey) as [Hd _].
      apply index_of_Some in Hidx as [Hin Hk]. rewrite Hd in Hin. by exists m. }
  split.
  { intros x Hx. destruct (Hlu x Hx) as [Hold|(Hty & entry & m & Hentry & Hm & Hidx)].
    - split; [|by left].
      destruct (libraries_checked_spec cogs) as (_ & Hlu1 & _).
      destruct (Hlu1 x Hold) as [Hpub _]. unfold published_libraries in Hpub.
      apply list_elem_of_bind in Hpub as (repo & Hpub & _).
      unfold available_libraries in Hpub. by apply list_elem_of_filter in Hpub as [? _].
    - split; [done|]. right.
      destruct (Hsound entry m Hentry Hm) as (Hcand & Hdiff & Hkey).
      destruct (entry_diff_of entry m Hdiff Hkey) as [Hd _].
      apply index_of_Some in Hidx as [Hin Hk]. rewrite Hd in Hin. by exists m. }
  intros Hno. specialize (Hnone Hno). subst hashes.
  cbv [for_each mret M_ret] in Hrun. by simplify_eq.
Qed.

(** Every module found in the diff of a diffed record is returned in the
    update set of its kind, unless it is a disabled cog. *)
Lemma available_updates_complete cogs cu lu w' :
  _available_updates env cogs w = Ok ((cu, lu), w') ->
  forall m x, m ∈ candidates env w cogs -> diffable env w m ->
    index_of key (im_key m) (diff_of env w m) = Some x ->
    (type (meta x) = SHARED_LIBRARY -> key x ∈ key <$> lu)
    /\ (type (meta x) = COG -> disabled (meta x) = false -> key x ∈ key <$> cu).
Proof.
  intros Hrun m x Hm Hdiff Hidx.
  destruct (cogs_checked_spec cogs) as (_ & _ & Hnd & _).
  destruct (hashes_spec (candidates env w cogs))
    as (hashes & Hhash & Hnd_h & Hsound & Hcomplete & Hreg & _);
    [intros m0; apply candidate_registered|].
  rewrite available_updates_unfold in Hrun.
  rewrite (bind_ok _ _ _ _ _ Hhash) in Hrun.
  apply bind_inv in Hrun as ([[uc cu'] lu'] & w1 & Hgroups & Hsave).
  cbv [mbind M_bind _save_to_installed modify_world mret M_ret] in Hsave.
  injection Hsave as <- <- _.
  destruct (Hcomplete m Hm Hdiff) as (entry & Hentry & Hkey & Hin).
  apply list_elem_of_fmap in Hin as (m' & Hk' & Hm').
  destruct (Hsound entry m' Hentry Hm') as (Hcand' & _ & _).
  assert (m' = m) as -> by (by apply (NoDup_key_inj im_key (candidates env w cogs))).
  destruct (entry_diff_of entry m Hdiff Hkey) as [Hd _].
  apply (groups_complete hashes _ _ _ (fun e He => proj1 (Hreg e He)) Hgroups entry m x);
    [done | done | by rewrite Hd].
Qed.

End Resolver.

(** ** Properties of the update resolver *)

Lemma diff_pairs_events w (hashes : list (string * string * list InstalledModule)) :
  diff_pairs (diff_event w <$> hashes) = hashes.*1.
Proof.
  induction hashes as [|[[r c] ms] hashes IH]; [done|].
  unfold diff_pairs in *. csimpl. by rewrite IH.
Qed.

Lemma diff_pairs_reverse (events : list Event) :
  diff_pairs (reverse events) = reverse (diff_pairs events).
Proof.
  unfold diff_pairs. induction events as [|e events IH]; [done|].
  rewrite reverse_cons, omap_app, IH. csimpl.
  destruct e; simpl; rewrite ?app_nil_r, ?reverse_cons; done.
Qed.

Lemma candidate_source env w cogs m :
  m ∈ candidates env w cogs ->
  (m ∈ cogs /\ im_commit m <> "") \/ m ∈ library_records w.
Proof.
  intros Hm. destruct (cogs_checked_spec env w cogs) as (Hsrc & _).
  destruct (Hsrc m Hm) as [Hlib|(? & ? & _)]; [|by left]. right.
  destruct (libraries_checked_spec env w cogs) as (Hlibs & _).
  destruct (Hlibs m Hlib) as (lib & _ & Hidx). by apply index_of_Some in Hidx as [? _].
Qed.

(** C2. One call of [_available_updates] always returns, and the calls it
    makes to the collaborators are diff queries only, no two of them for the
    same [(repository, old commit)] pair; each pair queried is the repository
    and commit of a known-commit record of the request or of an installed
    library record. *)
Theorem available_updates_one_diff_per_pair (env : Env) (w : World)
    (cogs : list InstalledModule) :
  exists result w' events,
    _available_updates env cogs w = Ok (result, w')
    /\ trace w' = events ++ trace w
    /\ length (diff_pairs events) = length events
    /\ NoDup (diff_pairs events)
    /\ (forall pair, pair ∈ diff_pairs events ->
          exists m, ((m ∈ cogs /\ im_commit m <> "") \/ m ∈ library_records w)
                    /\ pair = (im_repo_name m, im_commit m)).
Proof.
  destruct (available_updates_run env w cogs)
    as (hashes & uc & cu & lu & Hrun & Hnd & Hentries & _).
  eexists _, _, (reverse (diff_event w <$> hashes)). split; [exact Hrun|].
  rewrite diff_pairs_reverse, diff_pairs_events.
  split; [done|]. split; [by rewrite !length_reverse, !length_fmap|].
  split; [by rewrite reverse_Permutation|].
  intros pair Hpair. apply elem_of_reverse, list_elem_of_fmap in Hpair as (entry & -> & Hentry).
  destruct (Hentries entry Hentry) as (m & Hm & _ & Hkey).
  exists m. split; [by eapply candidate_source | done].
Qed.

(** C6 (amended). One call of [_available_updates] always returns; every
    module in the returned cogs-to-update set is enabled and the returned
    libraries-to-update set holds shared libraries only, so that a disabled
    cog, found in a diff result or as the last occurrence of a record without
    commit, is in neither set; a shared library found in the diff of a diffed
    record is in the libraries-to-update set whatever its disabled flag, and
    an enabled cog found there is in the cogs-to-update set. *)
Theorem available_updates_drops_disabled_cogs (env : Env) (w : World)
    (cogs : list InstalledModule) :
  exists cogs_to_update libraries_to_update w',
    _available_updates env cogs w = Ok ((cogs_to_update, libraries_to_update), w')
    /\ (forall x, x ∈ cogs_to_update -> disabled (meta x) = false)
    /\ (forall x, x ∈ libraries_to_update -> type (meta x) = SHARED_LIBRARY)
    /\ (forall x, type (meta x) = COG -> disabled (meta x) = true ->
          (x ∉ cogs_to_update) /\ (x ∉ libraries_to_update))
    /\ (forall m x, m ∈ candidates env w cogs -> diffable env w m ->
          index_of key (im_key m) (diff_of env w m) = Some x ->
          (type (meta x) = SHARED_LIBRARY -> key x ∈ key <$> libraries_to_update)
          /\ (type (meta x) = COG -> disabled (meta x) = false ->
              key x ∈ key <$> cogs_to_update)).
Proof.
  destruct (available_updates_run env w cogs)
    as (hashes & uc & cu & lu & Hrun & _ & _ & _ & _ & _ & _ & Hcu & Hlu & _).
  eexists cu, lu, _. split; [exact Hrun|].
  split; [intros x Hx; by apply Hcu|]. split; [intros x Hx; by apply Hlu|].
  split.
  - intros x Htype Hdis. split; intros Hx.
    + apply Hcu in Hx as [Hx _]. congruence.
    + apply Hlu in Hx as [Hx _]. congruence.
  - by apply (available_updates_complete env w cogs cu lu _ Hrun).
Qed.


(** ** Fast-forwarded records in the persisted map *)

Lemma to_json_inj (a b : InstalledModule) :
  to_json a = to_json b -> im_type a = im_type b ->
  im_json_repo_name a = im_json_repo_name b -> a = b.
Proof. destruct a, b. unfold to_json. simpl. intros Hj Ht Hn. by simplify_eq. Qed.

Lemma from_to_json (m : InstalledModule) :
  im_json_repo_name m = im_repo_name m -> from_json (im_type m) (to_json m) = m.
Proof. destruct m. simpl. by intros ->. Qed.

Lemma records_of_from_lookup kind conf k j :
  conf_lookup conf k = Some j -> from_json kind j ∈ records_of kind conf.
Proof.
  destruct k as [r n]. unfold conf_lookup. simpl. intros Hlookup.
  destruct (conf !! r) as [repo_json|] eqn:Hr; [|done]. simpl in Hlookup.
  apply elem_of_records_of. by exists r, repo_json, n, j.
Qed.

Lemma records_same_key kind conf (a b : InstalledModule) :
  conf_consistent conf -> a ∈ records_of kind conf -> b ∈ records_of kind conf ->
  im_key a = im_key b -> a = b.
Proof.
  intros Hcons Ha Hb Hkey.
  pose proof (json_repo_name_of_record _ _ _ Ha) as Hja.
  pose proof (json_repo_name_of_record _ _ _ Hb) as Hjb.
  apply (records_of_lookup _ _ _ Hcons) in Ha as [Ha Hta], Hb as [Hb Htb].
  unfold im_key in *. apply to_json_inj; congruence.
Qed.

Lemma conf_store_consistent m conf :
  conf_consistent conf -> conf_consistent (conf_store m conf).
Proof.
  intros Hcons r rj n j Hr Hn. unfold conf_store in Hr.
  destruct (decide (r = im_repo_name m)) as [->|Hne].
  - rewrite lookup_insert_eq in Hr. simplify_eq.
    destruct (decide (n = im_name m)) as [->|Hnn].
    + rewrite lookup_insert_eq in Hn. by simplify_eq.
    + rewrite lookup_insert_ne in Hn by done.
      destruct (conf !! im_repo_name m) as [repo_json|] eqn:Hrepo; simpl in Hn.
      * by eapply Hcons.
      * by rewrite lookup_empty in Hn.
  - rewrite lookup_insert_ne in Hr by done. by eapply Hcons.
Qed.

Section Saved.

Context (cogs_conf libs_conf : gmap string (gmap string ModuleJson)).
Context (uc : list InstalledModule).

Let saved := foldl (by_type conf_store) (cogs_conf, libs_conf) uc.

Lemma saved_spec :
  (conf_consistent cogs_conf -> conf_consistent saved.1)
  /\ (conf_consistent libs_conf -> conf_consistent saved.2)
  /\ (forall k,
        (exists u, u ∈ uc /\ im_type u = COG /\ im_key u = k
                   /\ conf_lookup saved.1 k = Some (to_json u))
        \/ ((forall u, u ∈ uc -> im_type u = COG -> im_key u <> k)
            /\ conf_lookup saved.1 k = conf_lookup cogs_conf k))
  /\ (forall k,
        (exists u, u ∈ uc /\ im_type u = SHARED_LIBRARY /\ im_key u = k
                   /\ conf_lookup saved.2 k = Some (to_json u))
        \/ ((forall u, u ∈ uc -> im_type u = SHARED_LIBRARY -> im_key u <> k)
            /\ conf_lookup saved.2 k = conf_lookup libs_conf k)).
Proof.
  unfold saved. apply (foldl_invariant
    (fun done acc =>
      (conf_consistent cogs_conf -> conf_consistent acc.1)
      /\ (conf_consistent libs_conf -> conf_consistent acc.2)
      /\ (forall k,
            (exists u, u ∈ done /\ im_type u = COG /\ im_key u = k
                       /\ conf_lookup acc.1 k = Some (to_json u))
            \/ ((forall u, u ∈ done -> im_type u = COG -> im_key u <> k)
                /\ conf_lookup acc.1 k = conf_lookup cogs_conf k))
      /\ (forall k,
            (exists u, u ∈ done /\ im_type u = SHARED_LIBRARY /\ im_key u = k
                       /\ conf_lookup acc.2 k = Some (to_json u))
            \/ ((forall u, u ∈ done -> im_type u = SHARED_LIBRARY -> im_key u <> k)
                /\ conf_lookup acc.2 k = conf_lookup libs_conf k)))).
  - simpl. split; [done|]. split; [done|].
    split; intros k; right; (split; [|done]); intros ? Hin; by apply elem_of_nil in Hin.
  - intros done u [c l] _ (Hc & Hl & Hcogs & Hlibs). unfold by_type. simpl in *.
    assert (Hkeep : forall kind (conf conf0 : gmap string (gmap string ModuleJson)) k,
      im_type u <> kind ->
      (exists u0, u0 ∈ done /\ im_type u0 = kind /\ im_key u0 = k
                  /\ conf_lookup conf k = Some (to_json u0))
      \/ ((forall u0, u0 ∈ done -> im_type u0 = kind -> im_key u0 <> k)
          /\ conf_lookup conf k = conf_lookup conf0 k) ->
      (exists u0, u0 ∈ done ++ [u] /\ im_type u0 = kind /\ im_key u0 = k
                  /\ conf_lookup conf k = Some (to_json u0))
      \/ ((forall u0, u0 ∈ done ++ [u] -> im_type u0 = kind -> im_key u0 <> k)
          /\ conf_lookup conf k = conf_lookup conf0 k)).
    { intros kind conf conf0 k Hkind [(u0 & ? & ? & ? & ?)|[Hno ?]].
      - left. exists u0. split; [mem|done].
      - right. split; [|done]. intros u0 Hu0 Ht. apply elem_of_app in Hu0 as [Hu0|Hu0];
          [by apply Hno|]. apply list_elem_of_singleton in Hu0 as ->. done. }
    assert (Hstore : forall kind (conf conf0 : gmap string (gmap string ModuleJson)) k,
      im_type u = kind ->
      (exists u0, u0 ∈ done /\ im_type u0 = kind /\ im_key u0 = k
                  /\ conf_lookup conf k = Some (to_json u0))
      \/ ((forall u0, u0 ∈ done -> im_type u0 = kind -> im_key u0 <> k)
          /\ conf_lookup conf k = conf_lookup conf0 k) ->
      (exists u0, u0 ∈ done ++ [u] /\ im_type u0 = kind /\ im_key u0 = k
                  /\ conf_lookup (conf_store u conf) k = Some (to_json u0))
      \/ ((forall u0, u0 ∈ done ++ [u] -> im_type u0 = kind -> im_key u0 <> k)
          /\ conf_lookup (conf_store u conf) k = conf_lookup conf0 k)).
    { intros kind conf conf0 k Hkind Hold. rewrite conf_lookup_store.
      case_decide as Hk.
      - left. exists u. split; [mem|done].
      - destruct Hold as [(u0 & ? & ? & ? & ?)|[Hno ?]].
        + left. exists u0. split; [mem|done].
        + right. split; [|done]. intros u0 Hu0 Ht.
          apply elem_of_app in Hu0 as [Hu0|Hu0]; [by apply Hno|].
          apply list_elem_of_singleton in Hu0 as ->. congruence. }
    destruct (im_type u) eqn:Htype; simpl.
    + split; [done|]. split; [done|]. split; intros k; by apply Hkeep.
    + split; [intros; by apply conf_store_consistent, Hc|]. split; [done|].
      split; intros k; [by apply Hstore | by apply Hkeep].
    + split; [done|]. split; [intros; by apply conf_store_consistent, Hl|].
      split; intros k; [by apply Hkeep | by apply Hstore].
Qed.

End Saved.

Lemma lookup_record kind conf k j :
  conf_consistent conf -> conf_lookup conf k = Some j ->
  exists m, m ∈ records_of kind conf /\ im_key m = k.
Proof.
  intros Hcons Hlookup. exists (from_json kind j).
  split; [by eapply records_of_from_lookup|].
  destruct k as [r n]. unfold conf_lookup in Hlookup. simpl in Hlookup.
  destruct (conf !! r) as [repo_json|] eqn:Hr; [|done]. simpl in Hlookup.
  destruct (Hcons r repo_json n j Hr Hlookup) as [<- <-]. done.
Qed.

Section Rerun.

Context (env : Env).

Lemma elem_of_repos_of w cogs repo :
  repo ∈ repos_of w cogs <->
  exists c, c ∈ cogs /\ im_repo_name c = repo /\ is_Some (repos w !! repo).
Proof.
  unfold repos_of. rewrite elem_of_remove_dups, list_elem_of_fmap. split.
  - intros (c & -> & Hc). apply list_elem_of_filter in Hc as [? ?]. by exists c.
  - intros (c & Hc & <- & Hreg). exists c. split; [done|].
    by apply list_elem_of_filter.
Qed.

Lemma published_intro w cogs c lib :
  c ∈ cogs -> is_Some (repos w !! im_repo_name c) ->
  lib ∈ available_libraries env w (im_repo_name c) ->
  lib ∈ published_libraries env w cogs.
Proof.
  intros Hc Hreg Hlib. unfold published_libraries. apply list_elem_of_bind.
  exists (im_repo_name c). split; [done|]. apply elem_of_repos_of. by exists c.
Qed.

Lemma published_elim w cogs lib :
  lib ∈ published_libraries env w cogs ->
  exists c, c ∈ cogs /\ is_Some (repos w !! im_repo_name c)
            /\ lib ∈ available_libraries env w (im_repo_name c)
            /\ repo_name lib = im_repo_name c.
Proof.
  unfold published_libraries. intros Hlib.
  apply list_elem_of_bind in Hlib as (repo & Hlib & Hrepo).
  apply elem_of_repos_of in Hrepo as (c & Hc & <- & Hreg).
  exists c. split; [done|]. split; [done|]. split; [done|].
  by apply available_library_repo in Hlib as [? _].
Qed.

Lemma fast_forward_not_diffable w m : ~ diffable env w (fast_forward w m).
Proof.
  intros (head & Hhead & Hne & _). unfold fast_forward in *. simpl in *.
  rewrite Hhead in Hne. done.
Qed.

(** An installed library record that matches a published library of the
    request is one of the candidates. *)
Lemma library_candidate w cogs lib m :
  conf_consistent (installed_libraries_conf w) ->
  lib ∈ published_libraries env w cogs ->
  m ∈ library_records w -> im_key m = key lib ->
  m ∈ candidates env w cogs.
Proof.
  intros Hcons Hlib Hm Hkey.
  destruct (libraries_checked_spec env w cogs) as (Hsrc & _ & _ & Hcomplete).
  destruct (cogs_checked_spec env w cogs) as (_ & Hsub & _).
  destruct (index_of_is_Some im_key (key lib) (library_records w)) as [m' Hidx].
  { apply list_elem_of_fmap. by exists m. }
  pose proof (index_of_Some _ _ _ _ Hidx) as [Hm' Hkey'].
  assert (m' = m) as -> by (eapply records_same_key; [done..|congruence]).
  pose proof (Hcomplete lib m Hlib Hidx) as Hin.
  apply list_elem_of_fmap in Hin as (m3 & Hk3 & Hm3).
  destruct (Hsrc m3 Hm3) as (lib3 & _ & Hidx3).
  apply index_of_Some in Hidx3 as [Hin3 _].
  assert (m3 = m) as -> by (eapply records_same_key; [done..|congruence]).
  by apply Hsub.
Qed.

End Rerun.

Section FastForward.

Context (env : Env) (w : World).

(** A diffed record whose module is absent from the diff is stored with the
    repository's current commit and is not returned. *)
Lemma fast_forward_unchanged (cogs : list InstalledModule) :
  NoDup (im_key <$> cogs) ->
  exists cu lu w1,
    _available_updates env cogs w = Ok ((cu, lu), w1)
    /\ forall r, r ∈ cogs -> im_commit r <> "" -> im_type r = COG ->
         diffable env w r -> absent_from_diff env w r ->
         (forall lib, lib ∈ available_libraries env w (im_repo_name r) ->
            name lib <> im_name r) ->
         conf_lookup (installed_cogs_conf w1) (im_key r)
           = Some (to_json (fast_forward w r))
         /\ (im_key r ∉ key <$> cu)
         /\ (im_key r ∉ key <$> lu).
Proof.
  intros Hnd.
  destruct (available_updates_run env w cogs)
    as (hashes & uc & cu & lu & Hrun & _ & _ & Huc & Hff & _ & _ & Hcu & Hlu & _).
  destruct (cogs_checked_spec env w cogs) as (Hsrc & _ & Hnd_c & Hcu1 & Hcover).
  destruct (libraries_checked_spec env w cogs) as (Hlibs & Hlu1 & _).
  eexists cu, lu, _. split; [exact Hrun|].
  intros r Hr Hknown Htype (head & Hhead & Hdiff) Habsent Hnotlib.
  assert (Hdiffable : diffable env w r) by (by exists head).
  assert (Hnot_published : forall lib, lib ∈ published_libraries env w cogs ->
            key lib <> im_key r).
  { intros lib Hpub Hkey. apply published_elim in Hpub as (c & _ & _ & Hlib & Hrepo).
    unfold key, im_key in Hkey. injection Hkey as Hrn Hn.
    apply (Hnotlib lib); [|done]. by rewrite <- Hrn, Hrepo. }
  assert (Hrep : forall m, m ∈ candidates env w cogs -> im_key m = im_key r -> m = r).
  { intros m Hm Hkey. destruct (Hsrc m Hm) as [Hlib|(Hin & _ & _)].
    - destruct (Hlibs m Hlib) as (lib & Hpub & Hidx).
      apply index_of_Some in Hidx as [_ Hk]. exfalso.
      apply (Hnot_published lib Hpub). congruence.
    - by apply (NoDup_key_inj im_key cogs). }
  assert (Hcand : r ∈ candidates env w cogs).
  { pose proof (Hcover r Hr Hknown (ex_intro _ head Hhead)) as Hin.
    apply list_elem_of_fmap in Hin as (m & Hk & Hm).
    by rewrite <- (Hrep m Hm). }
  split; [|split].
  - simpl.
    destruct (saved_spec (installed_cogs_conf w) (installed_libraries_conf w) uc)
      as (_ & _ & Hsaved & _).
    destruct (Hsaved (im_key r)) as [(u & Hu & _ & Hk & ->)|[Hno _]].
    + destruct (Huc u Hu) as (m & Hm & _ & _ & ->).
      by rewrite (Hrep m Hm Hk).
    + exfalso. apply (Hno (fast_forward w r)); [by apply Hff | done | done].
  - intros Hin. apply list_elem_of_fmap in Hin as (x & Hkey & Hx).
    destruct (Hcu x Hx) as [_ [Hold|(m & Hm & _ & Hxm & Hk)]].
    + destruct (Hcu1 x Hold) as (_ & c & Hc & Hempty & Hkc).
      assert (c = r) as -> by (apply (NoDup_key_inj im_key cogs); congruence). done.
    + rewrite (Hrep m Hm) in Hxm by congruence.
      apply Habsent. apply list_elem_of_fmap. by exists x.
  - intros Hin. apply list_elem_of_fmap in Hin as (x & Hkey & Hx).
    destruct (Hlu x Hx) as [_ [Hold|(m & Hm & _ & Hxm & Hk)]].
    + destruct (Hlu1 x Hold) as (Hpub & _). by apply (Hnot_published x Hpub).
    + rewrite (Hrep m Hm) in Hxm by congruence.
      apply Habsent. apply list_elem_of_fmap. by exists x.
Qed.

End FastForward.

Section Stable.

Context (env : Env) (w : World).

(** When no record's module appears in its diff, the first run returns no cog
    and fast-forwards every diffed record, so that a second run on records
    read back from the persisted map diffs nothing, changes nothing and
    returns only published libraries that have no installed record. *)
Lemma rerun_is_stable (cogs : list InstalledModule) :
  conf_consistent (installed_cogs_conf w) ->
  conf_consistent (installed_libraries_conf w) ->
  (forall repo head, repos w !! repo = Some head -> head <> "") ->
  (forall c, c ∈ cogs ->
     c ∈ records_of COG (installed_cogs_conf w) /\ im_commit c <> "") ->
  (forall m, m ∈ cogs \/ m ∈ library_records w ->
     diffable env w m -> absent_from_diff env w m) ->
  exists cu lu w1,
    _available_updates env cogs w = Ok ((cu, lu), w1)
    /\ cu = []
    /\ (forall x, x ∈ lu ->
          x ∈ published_libraries env w cogs
          /\ index_of im_key (key x) (library_records w) = None)
    /\ conf_consistent (installed_cogs_conf w1)
    /\ forall cogs2,
         (forall c, c ∈ cogs2 ->
            c ∈ records_of COG (installed_cogs_conf w1)
            /\ im_key c ∈ im_key <$> cogs) ->
         exists lu2,
           _available_updates env cogs2 w1 = Ok (([], lu2), w1)
           /\ forall x, x ∈ lu2 ->
                x ∈ published_libraries env w1 cogs2
                /\ index_of im_key (key x) (library_records w1) = None.
Proof.
  intros Hcons_c Hcons_l Hheads Hcogs Habsent.
  destruct (available_updates_run env w cogs)
    as (hashes & uc & cu & lu & Hrun & _ & _ & Huc & Hff & _ & _ & Hcu & Hlu & _).
  destruct (cogs_checked_spec env w cogs) as (Hsrc & Hsub1 & Hnd_c & Hcu1 & Hcover).
  destruct (libraries_checked_spec env w cogs) as (Hlibs & Hlu1 & _ & Hlibs_complete).
  destruct (saved_spec (installed_cogs_conf w) (installed_libraries_conf w) uc)
    as (Hsaved_c & Hsaved_l & Hlookup_c & Hlookup_l).
  specialize (Hsaved_c Hcons_c). specialize (Hsaved_l Hcons_l).
  set (saved := foldl (by_type conf_store)
                  (installed_cogs_conf w, installed_libraries_conf w) uc) in *.
  set (w1 := set_conf saved.1 saved.2
               (with_trace (reverse (diff_event w <$> hashes) ++ trace w) w)) in *.
  assert (Hcand_abs : forall m, m ∈ candidates env w cogs -> diffable env w m ->
            absent_from_diff env w m).
  { intros m Hm. apply Habsent. destruct (candidate_source env w cogs m Hm) as [[? _]|?]; auto. }
  assert (Hcand_json : forall m, m ∈ candidates env w cogs ->
            im_json_repo_name m = im_repo_name m).
  { intros m Hm. destruct (candidate_source env w cogs m Hm) as [[Hc _]|Hl].
    - apply Hcogs in Hc as [Hc _]. by apply json_repo_name_of_record in Hc.
    - by apply json_repo_name_of_record in Hl. }
  (* records of the new maps: fast-forwarded, or untouched *)
  assert (Hrec_c : forall c, c ∈ records_of COG saved.1 ->
            (exists m, diffable env w m /\ c = fast_forward w m)
            \/ (c ∈ records_of COG (installed_cogs_conf w)
                /\ forall u, u ∈ uc -> im_type u = COG -> im_key u <> im_key c)).
  { intros c Hc. pose proof (json_repo_name_of_record _ _ _ Hc) as Hjc.
    apply (records_of_lookup _ _ _ Hsaved_c) in Hc as [Hc Htype].
    destruct (Hlookup_c (im_key c)) as [(u & Hu & Htu & Hk & Hl)|[Hno Hl]].
    - left. destruct (Huc u Hu) as (m & Hm & Hd & _ & ->). exists m. split; [done|].
      apply to_json_inj; [congruence..|].
      rewrite Hjc. simpl. rewrite (Hcand_json m Hm). by injection Hk as <- _.
    - right. split; [|done]. rewrite Hl in Hc.
      apply (records_of_from_lookup COG) in Hc.
      assert (from_json COG (to_json c) = c) as Heq
        by (rewrite <- Htype; by apply from_to_json).
      by rewrite Heq in Hc. }
  assert (Hrec_l : forall c, c ∈ records_of SHARED_LIBRARY saved.2 ->
            (exists m, diffable env w m /\ c = fast_forward w m)
            \/ (c ∈ library_records w
                /\ forall u, u ∈ uc -> im_type u = SHARED_LIBRARY -> im_key u <> im_key c)).
  { intros c Hc. pose proof (json_repo_name_of_record _ _ _ Hc) as Hjc.
    apply (records_of_lookup _ _ _ Hsaved_l) in Hc as [Hc Htype].
    destruct (Hlookup_l (im_key c)) as [(u & Hu & Htu & Hk & Hl)|[Hno Hl]].
    - left. destruct (Huc u Hu) as (m & Hm & Hd & _ & ->). exists m. split; [done|].
      apply to_json_inj; [congruence..|].
      rewrite Hjc. simpl. rewrite (Hcand_json m Hm). by injection Hk as <- _.
    - right. split; [|done]. rewrite Hl in Hc.
      apply (records_of_from_lookup SHARED_LIBRARY) in Hc.
      assert (from_json SHARED_LIBRARY (to_json c) = c) as Heq
        by (rewrite <- Htype; by apply from_to_json).
      by rewrite Heq in Hc. }
  exists cu, lu, w1. split; [exact Hrun|]. split; [|split; [|split; [exact Hsaved_c|]]].
  { apply elem_of_nil_inv. intros x Hx.
    destruct (Hcu x Hx) as [_ [Hold|(m & Hm & Hd & Hxm & Hk)]].
    - destruct (Hcu1 x Hold) as (_ & c & Hc & Hempty & _). by apply Hcogs in Hc as [_ ?].
    - apply (Hcand_abs m Hm Hd). apply list_elem_of_fmap. by exists x. }
  { intros x Hx. destruct (Hlu x Hx) as [_ [Hold|(m & Hm & Hd & Hxm & Hk)]].
    - by apply Hlu1.
    - exfalso. apply (Hcand_abs m Hm Hd). apply list_elem_of_fmap. by exists x. }
  intros cogs2 Hcogs2.
  (* the records of the second request *)
  assert (Hcogs2' : forall c, c ∈ cogs2 ->
            (exists m, diffable env w m /\ c = fast_forward w m)
            \/ (c ∈ cogs /\ forall u, u ∈ uc -> im_type u = COG -> im_key u <> im_key c)).
  { intros c Hc. destruct (Hcogs2 c Hc) as [Hrec Hkey].
    destruct (Hrec_c c Hrec) as [?|[Hold Hno]]; [by left|]. right. split; [|done].
    apply list_elem_of_fmap in Hkey as (c0 & Hk0 & Hc0).
    destruct (Hcogs c0 Hc0) as [Hrec0 _].
    by rewrite (records_same_key COG _ c c0 Hcons_c Hold Hrec0 Hk0). }
  destruct (available_updates_run env w1 cogs2)
    as (hashes2 & uc2 & cu2 & lu2 & Hrun2 & _ & _ & _ & _ & _ & _ & _ & _ & Hstable).
  destruct (cogs_checked_spec env w1 cogs2) as (Hsrc2 & Hsub2 & Hnd2 & Hcu2 & _).
  destruct (libraries_checked_spec env w1 cogs2) as (Hlibs2 & Hlu2 & _ & Hlibs2_complete).
  assert (Hpublished2 : forall lib, lib ∈ published_libraries env w1 cogs2 ->
            lib ∈ published_libraries env w cogs).
  { intros lib Hlib. apply published_elim in Hlib as (c2 & Hc2 & Hreg & Hlib & _).
    destruct (Hcogs2 c2 Hc2) as [_ Hkey].
    apply list_elem_of_fmap in Hkey as (c0 & Hk0 & Hc0).
    assert (Hrepo : im_repo_name c2 = im_repo_name c0)
      by (unfold im_key in Hk0; by injection Hk0).
    rewrite Hrepo in Hreg, Hlib. by apply (published_intro env w cogs c0). }
  assert (Hnone : forall m, m ∈ candidates env w1 cogs2 -> ~ diffable env w1 m).
  { intros m Hm Hdiff.
    assert (Hdiff0 : diffable env w m) by exact Hdiff.
    assert (Hlib_case : m ∈ (libraries_checked env w1 cogs2).1 -> False).
    { intros Hlib. destruct (Hlibs2 m Hlib) as (lib & Hpub & Hidx).
      apply index_of_Some in Hidx as [Hrec Hkey].
      destruct (Hrec_l m Hrec) as [(m0 & _ & ->)|[Hold Hno]];
        [by apply fast_forward_not_diffable in Hdiff0|].
      assert (Hcand : m ∈ candidates env w cogs)
        by (apply (library_candidate env w cogs lib); auto).
      apply (Hno (fast_forward w m)); [| |done].
      - apply Hff; [done | done | by apply Hcand_abs].
      - by apply (records_of_lookup _ _ _ Hcons_l) in Hold as [_ ?]. }
    destruct (Hsrc2 m Hm) as [Hlib|(Hm2 & _ & Hreg)]; [done|].
    destruct (Hcogs2' m Hm2) as [(m0 & _ & ->)|[Hold Hno]];
      [by apply fast_forward_not_diffable in Hdiff0|].
    destruct (Hcogs m Hold) as [Hrec Hknown].
    pose proof (Hcover m Hold Hknown Hreg) as Hin.
    apply list_elem_of_fmap in Hin as (m' & Hk' & Hm').
    destruct (Hsrc m' Hm') as [Hlib'|(Hin' & _ & _)].
    - (* the cog is shadowed by a library record, in both runs *)
      destruct (Hlibs m' Hlib') as (lib & Hpub & Hidx).
      pose proof (index_of_Some _ _ _ _ Hidx) as [Hrec' Hkey'].
      apply published_elim in Hpub as (c0 & Hc0 & Hreg0 & Hlib & Hrepo).
      assert (Hrepo_m : repo_name lib = im_repo_name m).
      { unfold im_key, key in *. congruence. }
      assert (Hpub2 : lib ∈ published_libraries env w1 cogs2).
      { apply (published_intro env w1 cogs2 m); [done | done |].
        rewrite <- Hrepo_m, Hrepo. exact Hlib. }
      destruct (index_of_is_Some im_key (key lib) (library_records w1)) as [l2 Hidx2].
      { destruct (Hlookup_l (key lib)) as [(u & _ & _ & _ & Hl)|[_ Hl]].
        - destruct (lookup_record SHARED_LIBRARY _ _ _ Hsaved_l Hl) as (l2 & Hl2 & Hk2).
          apply list_elem_of_fmap. by exists l2.
        - apply (records_of_lookup _ _ _ Hcons_l) in Hrec' as [Hrec' _].
          rewrite Hkey' in Hrec'. rewrite Hrec' in Hl.
          destruct (lookup_record SHARED_LIBRARY _ _ _ Hsaved_l Hl) as (l2 & Hl2 & Hk2).
          apply list_elem_of_fmap. by exists l2. }
      pose proof (Hlibs2_complete lib l2 Hpub2 Hidx2) as Hin4.
      apply list_elem_of_fmap in Hin4 as (m4 & Hk4 & Hm4).
      assert (m4 = m) as ->.
      { apply (NoDup_key_inj im_key (candidates env w1 cogs2)); [done | by apply Hsub2 | done |].
        congruence. }
      done.
    - assert (m' = m) as ->.
      { destruct (Hcogs m' Hin') as [Hrec' _].
        by apply (records_same_key COG _ _ _ Hcons_c Hrec' Hrec). }
      apply (Hno (fast_forward w m)); [| |done].
      + apply Hff; [done | done | by apply Hcand_abs].
      + by apply (records_of_lookup _ _ _ Hcons_c) in Hrec as [_ ?]. }
  destruct (Hstable Hnone) as (-> & -> & -> & ->).
  exists (libraries_checked env w1 cogs2).2. split.
  - assert (Hnil : (cogs_checked env w1 cogs2).2 = []).
    { apply elem_of_nil_inv. intros x Hx.
      destruct (Hcu2 x Hx) as (_ & c & Hc & Hempty & _).
      destruct (Hcogs2' c Hc) as [(m0 & (head & Hhead & _) & ->)|[Hold _]].
      - unfold fast_forward in Hempty. simpl in Hempty. rewrite Hhead in Hempty.
        by apply (Hheads _ _ Hhead).
      - by apply Hcogs in Hold as [_ ?]. }
    rewrite Hrun2, Hnil. reflexivity.
  - intros x Hx. by apply Hlu2.
Qed.

End Stable.

Lemma reread_records (w1 : World) (cogs : list InstalledModule) c :
  conf_consistent (installed_cogs_conf w1) ->
  c ∈ reread w1 cogs ->
  c ∈ records_of COG (installed_cogs_conf w1) /\ im_key c ∈ im_key <$> cogs.
Proof.
  intros Hcons Hc. unfold reread in Hc.
  apply list_elem_of_omap in Hc as (c0 & Hc0 & Hread).
  destruct (conf_lookup (installed_cogs_conf w1) (im_key c0)) as [j|] eqn:Hlookup;
    [|done].
  simpl in Hread. injection Hread as <-.
  split; [by eapply records_of_from_lookup|].
  assert (Hkey : im_key (from_json COG j) = im_key c0).
  { destruct (im_key c0) as [r n]. unfold conf_lookup in Hlookup. simpl in Hlookup.
    destruct (installed_cogs_conf w1 !! r) as [repo_json|] eqn:Hr; [|done].
    simpl in Hlookup. by destruct (Hcons r repo_json n j Hr Hlookup) as [<- <-]. }
  rewrite Hkey. apply list_elem_of_fmap. by exists c0.
Qed.

(** C3 (amended). For a request that is a set: a known-commit cog record that
    the resolver diffs, whose module is absent from the diff and does not bear
    the name of a shared library published by its repository, is stored with
    the repository's current commit and is returned in neither update set.
    Consequently, when the persisted maps are consistent, the repositories
    have a commit checked out, the request consists of installed known-commit
    records and no record's module appears in its diff, the first run returns
    no cog, and a second run on the records read back from the persisted map
    diffs nothing, leaves the world as it is and returns no cog; the
    libraries it returns, like those of the first run, are published shared
    libraries that have no installed record. *)
Theorem fast_forward_and_rerun (env : Env) (w : World) (cogs : list InstalledModule) :
  NoDup (im_key <$> cogs) ->
  exists cu lu w1,
    _available_updates env cogs w = Ok ((cu, lu), w1)
    /\ (forall r, r ∈ cogs -> im_commit r <> "" -> im_type r = COG ->
          diffable env w r -> absent_from_diff env w r ->
          (forall lib, lib ∈ available_libraries env w (im_repo_name r) ->
             name lib <> im_name r) ->
          conf_lookup (installed_cogs_conf w1) (im_key r)
            = Some (to_json (fast_forward w r))
          /\ (im_key r ∉ key <$> cu)
          /\ (im_key r ∉ key <$> lu))
    /\ (conf_consistent (installed_cogs_conf w) ->
        conf_consistent (installed_libraries_conf w) ->
        (forall repo head, repos w !! repo = Some head -> head <> "") ->
        (forall c, c ∈ cogs ->
           c ∈ records_of COG (installed_cogs_conf w) /\ im_commit c <> "") ->
        (forall m, m ∈ cogs \/ m ∈ library_records w ->
           diffable env w m -> absent_from_diff env w m) ->
        cu = []
        /\ (forall x, x ∈ lu ->
              x ∈ published_libraries env w cogs
              /\ index_of im_key (key x) (library_records w) = None)
        /\ exists lu2,
             _available_updates env (reread w1 cogs) w1 = Ok (([], lu2), w1)
             /\ forall x, x ∈ lu2 ->
                  x ∈ published_libraries env w1 (reread w1 cogs)
                  /\ index_of im_key (key x) (library_records w1) = None).
Proof.
  intros Hnd.
  destruct (fast_forward_unchanged env w cogs Hnd) as (cu & lu & w1 & Hrun & Hpart1).
  exists cu, lu, w1. split; [exact Hrun|]. split; [exact Hpart1|].
  intros Hcons_c Hcons_l Hheads Hcogs Habsent.
  destruct (rerun_is_stable env w cogs Hcons_c Hcons_l Hheads Hcogs Habsent)
    as (cu' & lu' & w1' & Hrun' & Hcu & Hlu & Hcons1 & Hsecond).
  rewrite Hrun in Hrun'. injection Hrun' as <- <- <-.
  split; [done|]. split; [done|].
  apply Hsecond. intros c Hc. by apply reread_records.
Qed.

(** * The helpers of [findcog] and [repo add] *)

Lemma split_join (sep : ascii) (s : string) :
  exists first others,
    split sep s = first :: others
    /\ (sep ∉ chars first)
    /\ join (String sep "") (first :: others) = s.
Proof.
  induction s as [|c rest (first & others & Hsplit & Hfirst & Hjoin)].
  - exists "", []. split; [done|]. split; [|done]. intros Hin. by apply elem_of_nil in Hin.
  - simpl. case_bool_decide as Hc.
    + subst c. exists "", (split sep rest). split; [done|].
      split; [intros Hin; by apply elem_of_nil in Hin|].
      rewrite Hsplit, <- Hjoin. reflexivity.
    + rewrite Hsplit. exists (String c first), others. split; [done|]. split.
      * intros Hin. apply elem_of_cons in Hin as [Hin|Hin]; [congruence | done].
      * rewrite <- Hjoin. by destruct others.
Qed.

(** The name the cog derives from a cog instance is the part of the instance's
    module path before the first dot: it always exists (also for an empty
    path), holds no dot, and the module path is that name alone or that name
    followed by a dot and the rest of the path. *)
Theorem cog_name_from_instance_first_component (module : string) :
  exists first,
    cog_name_from_instance module = Ok first
    /\ ("."%char ∉ chars first)
    /\ (module = first \/ exists rest, module = first +:+ "." +:+ rest).
Proof.
  unfold cog_name_from_instance.
  destruct (split_join "."%char module) as (first & others & -> & Hfirst & Hjoin).
  exists first. split; [done|]. split; [done|].
  destruct others as [|second others]; [by left|]. right.
  exists (join "." (second :: others)). by rewrite <- Hjoin.
Qed.

Lemma star_class_end (at_start : bool) (s : string) :
  star_class [("a"%char, "z"%char); ("A"%char, "Z"%char); ("0"%char, "9"%char);
              ("_"%char, "_"%char); ("-"%char, "-"%char)]
    (re_match_from [ReEnd]) at_start s = true
  <-> exists body, forallb name_char (chars body) = true
                   /\ (s = body \/ s = body +:+ nl).
Proof.
  revert at_start. induction s as [|c rest IH]; intros at_start.
  - split; [|done]. intros _. exists "". split; [done | by left].
  - cbn [star_class]. change (in_class _ c) with (name_char c). rewrite orb_true_iff, andb_true_iff, IH.
    split.
    + intros [[Hc (body & Hbody & Hrest)]|Hend].
      * exists (String c body). split.
        { change (name_char c && forallb name_char (chars body) = true).
          by rewrite Hc. }
        destruct Hrest as [->| ->]; [by left | by right].
      * exists "". split; [done|]. right. simpl in Hend.
        rewrite andb_true_r in Hend. by apply bool_decide_eq_true in Hend.
    + intros ([|c' body] & Hbody & Hs).
      * right. destruct Hs as [Hs|Hs]; [discriminate|]. simpl in Hs. by rewrite Hs.
      * left. change (name_char c' && forallb name_char (chars body) = true) in Hbody.
        apply andb_true_iff in Hbody as [Hc Hbody].
        assert (c = c') as -> by (destruct Hs as [Hs|Hs]; by injection Hs).
        split; [done|]. exists body. split; [done|].
        destruct Hs as [Hs|Hs]; injection Hs as ->; [by left | by right].
Qed.

(** The name check of [repo add] accepts exactly the names made of letters,
    digits, underscores and hyphens, and those names followed by one final
    newline; in particular it accepts the empty name. *)
Theorem repo_name_pattern_accepts (repo_name : string) :
  re_match repo_name_pattern repo_name = true
  <-> exists body, forallb name_char (chars body) = true
                   /\ (repo_name = body \/ repo_name = body +:+ nl).
Proof.
  unfold re_match, repo_name_pattern. cbn [re_match_from andb].
  apply star_class_end.
Qed.

(** * The persisted install map: storing and removing *)

Lemma find_snoc {A} (f : A -> bool) (l : list A) (x : A) :
  find f (l ++ [x]) = match find f l with
                      | Some y => Some y
                      | None => if f x then Some x else None
                      end.
Proof. induction l as [|y l IH]; simpl; [done|]. by destruct (f y). Qed.

(** The persisted map a module of a given kind is filed in. *)
Lemma by_type_store_lookup kind (m : InstalledModule)
    (acc : gmap string (gmap string ModuleJson) * gmap string (gmap string ModuleJson)) k :
  kind <> UNKNOWN ->
  conf_lookup (match kind with COG => (by_type conf_store acc m).1
                          | _ => (by_type conf_store acc m).2 end) k
  = if bool_decide (im_type m = kind /\ im_key m = k) then Some (to_json m)
    else conf_lookup (match kind with COG => acc.1 | _ => acc.2 end) k.
Proof.
  intros Hkind. unfold by_type.
  destruct kind, (im_type m) eqn:Htype; try done; simpl;
    rewrite ?conf_lookup_store;
    repeat case_decide; repeat case_bool_decide;
    try done; exfalso; intuition congruence.
Qed.

Lemma by_type_pop_lookup kind (m : InstalledModule)
    (acc : gmap string (gmap string ModuleJson) * gmap string (gmap string ModuleJson)) k :
  kind <> UNKNOWN ->
  conf_lookup (match kind with COG => (by_type conf_pop acc m).1
                          | _ => (by_type conf_pop acc m).2 end) k
  = if bool_decide (im_type m = kind /\ im_json_key m = k) then None
    else conf_lookup (match kind with COG => acc.1 | _ => acc.2 end) k.
Proof.
  intros Hkind. unfold by_type.
  destruct kind, (im_type m) eqn:Htype; try done; simpl;
    rewrite ?conf_lookup_pop;
    repeat case_decide; repeat case_bool_decide;
    try done; exfalso; intuition congruence.
Qed.

Lemma save_all_lookup kind (modules : list InstalledModule)
    (acc : gmap string (gmap string ModuleJson) * gmap string (gmap string ModuleJson)) k :
  kind <> UNKNOWN ->
  conf_lookup (match kind with
               | COG => (foldl (by_type conf_store) acc modules).1
               | _ => (foldl (by_type conf_store) acc modules).2
               end) k
  = match find (fun m => bool_decide (im_type m = kind /\ im_key m = k)) (reverse modules) with
    | Some m => Some (to_json m)
    | None => conf_lookup (match kind with COG => acc.1 | _ => acc.2 end) k
    end.
Proof.
  intros Hkind. induction modules as [|m modules IH] using rev_ind; [done|].
  rewrite foldl_app, reverse_app. cbn [foldl reverse rev_append app find].
  change (rev_append [m] []) with [m]. cbn [app find].
  rewrite by_type_store_lookup by done.
  case_bool_decide; [done|]. exact IH.
Qed.

Lemma remove_all_lookup kind (modules : list InstalledModule)
    (acc : gmap string (gmap string ModuleJson) * gmap string (gmap string ModuleJson)) k :
  kind <> UNKNOWN ->
  conf_lookup (match kind with
               | COG => (foldl (by_type conf_pop) acc modules).1
               | _ => (foldl (by_type conf_pop) acc modules).2
               end) k
  = match find (fun m => bool_decide (im_type m = kind /\ im_json_key m = k)) modules with
    | Some m => None
    | None => conf_lookup (match kind with COG => acc.1 | _ => acc.2 end) k
    end.
Proof.
  intros Hkind. induction modules as [|m modules IH] using rev_ind; [done|].
  rewrite foldl_app. cbn [foldl]. rewrite by_type_pop_lookup by done.
  rewrite find_snoc.
  destruct (find _ modules) eqn:Hfind.
  - by case_bool_decide.
  - by case_bool_decide.
Qed.

(** Storing records files each under its repository and name in the map of its
    kind, the last record of the call winning a key that is written more than
    once; a record of unknown kind is not stored, every other key keeps its
    document, and nothing but the two maps changes. *)
Theorem save_to_installed_last_write_wins (modules : list InstalledModule) (w : World) :
  exists cogs_conf libs_conf,
    _save_to_installed modules w = Ok (tt, set_conf cogs_conf libs_conf w)
    /\ (forall k,
          conf_lookup cogs_conf k
          = match find (fun m => bool_decide (im_type m = COG /\ im_key m = k))
                       (reverse modules) with
            | Some m => Some (to_json m)
            | None => conf_lookup (installed_cogs_conf w) k
            end)
    /\ (forall k,
          conf_lookup libs_conf k
          = match find (fun m => bool_decide (im_type m = SHARED_LIBRARY /\ im_key m = k))
                       (reverse modules) with
            | Some m => Some (to_json m)
            | None => conf_lookup (installed_libraries_conf w) k
            end).
Proof.
  eexists _, _. split; [reflexivity|]. split; intros k.
  - by apply (save_all_lookup COG).
  - by apply (save_all_lookup SHARED_LIBRARY).
Qed.

(** The removal looks for the document of a record under the repository
    name the record was read under.  For records read from the install maps
    (that name is their repository's) that have no document, storing them
    and removing them again gives back the lookups of both maps; in between
    each cog record's key holds the document of a record of the call. *)
Theorem save_then_remove_restores (modules : list InstalledModule) (w : World) :
  (forall m, m ∈ modules ->
     im_json_repo_name m = im_repo_name m
     /\ conf_lookup (installed_cogs_conf w) (im_key m) = None
     /\ conf_lookup (installed_libraries_conf w) (im_key m) = None) ->
  exists w1 w2,
    _save_to_installed modules w = Ok (tt, w1)
    /\ _remove_from_installed modules w1 = Ok (tt, w2)
    /\ (forall k, conf_lookup (installed_cogs_conf w2) k
                  = conf_lookup (installed_cogs_conf w) k)
    /\ (forall k, conf_lookup (installed_libraries_conf w2) k
                  = conf_lookup (installed_libraries_conf w) k)
    /\ (forall m, m ∈ modules -> im_type m = COG ->
          exists m', m' ∈ modules /\ im_key m' = im_key m
                     /\ conf_lookup (installed_cogs_conf w1) (im_key m) = Some (to_json m')).
Proof.
  intros Hfresh. eexists _, _. split; [reflexivity|]. split; [reflexivity|].
  cbn [installed_cogs_conf installed_libraries_conf set_conf].
  assert (Hkeys : forall m, m ∈ modules -> im_json_key m = im_key m).
  { intros m Hm. apply Hfresh in Hm as [Hm _]. unfold im_json_key, im_key. by rewrite Hm. }
  assert (Hback : forall kind, kind <> UNKNOWN -> forall k,
    conf_lookup (match kind with
       | COG => (foldl (by_type conf_pop)
                  ((foldl (by_type conf_store)
                      (installed_cogs_conf w, installed_libraries_conf w) modules).1,
                   (foldl (by_type conf_store)
                      (installed_cogs_conf w, installed_libraries_conf w) modules).2)
                  modules).1
       | _ => (foldl (by_type conf_pop)
                  ((foldl (by_type conf_store)
                      (installed_cogs_conf w, installed_libraries_conf w) modules).1,
                   (foldl (by_type conf_store)
                      (installed_cogs_conf w, installed_libraries_conf w) modules).2)
                  modules).2
       end) k
    = conf_lookup (match kind with COG => installed_cogs_conf w
                              | _ => installed_libraries_conf w end) k).
  { intros kind Hkind k. rewrite remove_all_lookup by done.
    destruct (find _ modules) as [m|] eqn:Hfind.
    - apply find_some in Hfind as [Hin Hm]. apply bool_decide_eq_true in Hm as [_ <-].
      apply list_elem_of_In in Hin. rewrite (Hkeys m Hin).
      apply Hfresh in Hin as (_ & Hc & Hl). by destruct kind.
    - pose proof (save_all_lookup kind modules
                    (installed_cogs_conf w, installed_libraries_conf w) k Hkind) as Hsave.
      destruct (find _ (reverse modules)) as [m|] eqn:Hrev.
      + apply find_some in Hrev as [Hin Hm].
        apply list_elem_of_In in Hin. rewrite elem_of_reverse in Hin.
        pose proof (Hkeys m Hin) as Hkey. apply list_elem_of_In in Hin.
        pose proof (find_none _ _ Hfind m Hin) as Hno. simpl in Hm, Hno.
        rewrite Hkey in Hno. congruence.
      + by destruct kind. }
  split; [exact (Hback COG ltac:(done))|].
  split; [exact (Hback SHARED_LIBRARY ltac:(done))|].
  intros m Hin Htype.
  rewrite (save_all_lookup COG) by done.
  destruct (find _ (reverse modules)) as [m'|] eqn:Hrev.
  - apply find_some in Hrev as [Hin' Hm'].
    apply bool_decide_eq_true in Hm' as [_ Hkey].
    apply list_elem_of_In in Hin'. rewrite elem_of_reverse in Hin'. by exists m'.
  - assert (Hin' : In m (reverse modules))
      by (apply list_elem_of_In; by rewrite elem_of_reverse).
    pose proof (find_none _ _ Hrev m Hin') as Hno. simpl in Hno.
    apply bool_decide_eq_false in Hno. by destruct Hno.
Qed.

(** A record made from an installable was read from no document, so the
    removal looks for it under the empty repository name: removing such
    records changes no document filed under a repository with a name, and in
    particular does not undo their storing. *)
Theorem remove_from_installed_keeps_fresh_records (cogs : list Installable) (w : World) :
  exists w1 w2,
    _save_to_installed (from_installable <$> cogs) w = Ok (tt, w1)
    /\ _remove_from_installed (from_installable <$> cogs) w1 = Ok (tt, w2)
    /\ (forall k : ModuleKey, k.1 <> "" ->
          conf_lookup (installed_cogs_conf w2) k = conf_lookup (installed_cogs_conf w1) k
          /\ conf_lookup (installed_libraries_conf w2) k
             = conf_lookup (installed_libraries_conf w1) k)
    /\ (forall cog, cog ∈ cogs -> type (meta cog) = COG -> repo_name cog <> "" ->
          exists cog', cog' ∈ cogs /\ key cog' = key cog
            /\ conf_lookup (installed_cogs_conf w2) (key cog)
               = Some (to_json (from_installable cog'))).
Proof.
  eexists _, _. split; [reflexivity|]. split; [reflexivity|].
  cbn [installed_cogs_conf installed_libraries_conf set_conf].
  set (saved := foldl (by_type conf_store)
                  (installed_cogs_conf w, installed_libraries_conf w)
                  (from_installable <$> cogs)).
  assert (Hkept : forall kind, kind <> UNKNOWN -> forall k : ModuleKey, k.1 <> "" ->
    conf_lookup (match kind with
       | COG => (foldl (by_type conf_pop) (saved.1, saved.2) (from_installable <$> cogs)).1
       | _ => (foldl (by_type conf_pop) (saved.1, saved.2) (from_installable <$> cogs)).2
       end) k
    = conf_lookup (match kind with COG => saved.1 | _ => saved.2 end) k).
  { intros kind Hkind k Hk. rewrite remove_all_lookup by done.
    destruct (find _ (from_installable <$> cogs)) as [m|] eqn:Hfind; [|done].
    apply find_some in Hfind as [Hin Hm]. apply bool_decide_eq_true in Hm as [_ <-].
    apply list_elem_of_In, list_elem_of_fmap in Hin as (cog & -> & _). done. }
  split.
  - intros k Hk. split; [exact (Hkept COG ltac:(done) k Hk)|].
    exact (Hkept SHARED_LIBRARY ltac:(done) k Hk).
  - intros cog Hin Htype Hrepo.
    rewrite (Hkept COG ltac:(done) (key cog) Hrepo). unfold saved.
    rewrite (save_all_lookup COG) by done. cbn [fst].
    destruct (find _ (reverse (from_installable <$> cogs))) as [m'|] eqn:Hrev.
    + apply find_some in Hrev as [Hin' Hm'].
      apply bool_decide_eq_true in Hm' as [_ Hkey].
      apply list_elem_of_In in Hin'. rewrite elem_of_reverse in Hin'.
      apply list_elem_of_fmap in Hin' as (cog' & -> & Hcog'). by exists cog'.
    + assert (Hin' : In (from_installable cog) (reverse (from_installable <$> cogs))).
      { apply list_elem_of_In. rewrite elem_of_reverse. apply list_elem_of_fmap. by exists cog. }
      pose proof (find_none _ _ Hrev _ Hin') as Hno. simpl in Hno.
      apply bool_decide_eq_false in Hno. by destruct Hno.
Qed.

(** * The version filter: what it keeps and what it reports *)

Section VersionFilterReport.

Context (env : Env).

Lemma append_empty (a b : string) : a +:+ b = "" -> a = "" /\ b = "".
Proof. destruct a; [done | discriminate]. Qed.

Lemma python_message_empty (outdated_python_version : list string) s :
  python_message env outdated_python_version = Ok s ->
  (s = "" <-> outdated_python_version = []).
Proof.
  unfold python_message. destruct outdated_python_version as [|first rest].
  - intros [= <-]. done.
  - case_bool_decide; [|discriminate]. intros [= <-]. done.
Qed.

Lemma bot_message_empty (outdated_bot_version : list string) s :
  bot_message env outdated_bot_version = Ok s ->
  (s = "" <-> outdated_bot_version = []).
Proof.
  unfold bot_message. destruct outdated_bot_version as [|first rest].
  - intros [= <-]. done.
  - case_bool_decide.
    + intros [= <-]. done.
    + intros [= <-]. done.
Qed.

Lemma filter_nil_length {A} (f : A -> bool) (l : list A) :
  length (filter f l) = 0 <-> Forall (fun x => f x = false) l.
Proof.
  induction l as [|x l IH]; [by split|].
  rewrite filter_cons, Forall_cons. destruct (decide (f x)) as [Hx|Hx]; simpl.
  - apply Is_true_true in Hx. split; [lia | intros [? _]; congruence].
  - apply Is_true_false in Hx. rewrite IH. tauto.
Qed.

End VersionFilterReport.

Lemma filter_incorrect_cogs_report (env : Env)
    (cogs : list Installable) :
  length (filter (python_outdated env) cogs) <> 1 ->
  exists message,
    _filter_incorrect_cogs env cogs = Ok (filter (accepted env) cogs, message)
    /\ (message = "" <-> Forall (fun cog => accepted env cog = true) cogs).
Proof.
  intros Hlen. unfold _filter_incorrect_cogs.
  destruct (filter_loop env cogs) as (py & bot & -> & Hpy & Hbot). simpl.
  rewrite <- Hpy in Hlen.
  destruct (python_message_ok env py Hlen) as (s1 & Hs1).
  destruct (bot_message_ok env bot) as (s2 & Hs2).
  rewrite Hs1, Hs2. simpl. eexists. split; [reflexivity|].
  apply python_message_empty in Hs1. apply bot_message_empty in Hs2.
  assert (Hpy0 : py = [] <-> Forall (fun c => python_outdated env c = false) cogs).
  { rewrite <- filter_nil_length, <- Hpy. by destruct py. }
  assert (Hbot0 : bot = [] <->
            Forall (fun c => negb (python_outdated env c) && bot_outdated env c = false) cogs).
  { rewrite <- (filter_nil_length (fun c => negb (python_outdated env c) && bot_outdated env c)),
      <- Hbot. by destruct bot. }
  split.
  - intros Hempty. apply append_empty in Hempty as [H1 H2].
    apply Hs1, Hpy0 in H1. apply Hs2, Hbot0 in H2.
    rewrite Forall_forall in H1, H2. apply Forall_forall. intros cog Hin.
    specialize (H1 cog Hin). specialize (H2 cog Hin). unfold accepted.
    rewrite H1 in *. simpl in *. by rewrite H2.
  - intros Hall. rewrite Forall_forall in Hall.
    assert (H1 : s1 = "").
    { apply Hs1, Hpy0, Forall_forall. intros cog Hin. specialize (Hall cog Hin).
      unfold accepted in Hall. by destruct (python_outdated env cog). }
    assert (H2 : s2 = "").
    { apply Hs2, Hbot0, Forall_forall. intros cog Hin. specialize (Hall cog Hin).
      unfold accepted in Hall.
      by destruct (python_outdated env cog), (bot_outdated env cog). }
    by rewrite H1, H2.
Qed.

(** Whenever the number of candidates failing the interpreter check is not
    exactly one, the version filter returns the accepted candidates, in the
    order they were given, and its report is empty exactly when every
    candidate was accepted. *)
Theorem filter_incorrect_cogs_keeps_accepted_in_order (env : Env)
    (cogs : list Installable) :
  length (filter (python_outdated env) cogs) <> 1 ->
  exists message,
    _filter_incorrect_cogs env cogs = Ok (filter (accepted env) cogs, message)
    /\ (message = "" <-> Forall (fun cog => accepted env cog = true) cogs).
Proof. apply filter_incorrect_cogs_report. Qed.

(** The version bounds are inclusive, and a maximum below the minimum is
    ignored: a cog whose minimum interpreter version is the host's, or whose
    minimum bot version is the host's, is not rejected for that bound; a cog
    whose maximum bot version is the host's is rejected only if its minimum is
    above the host; a maximum below the host rejects the cog unless it is
    below the minimum, in which case the minimum alone decides. *)
Theorem version_bounds_are_inclusive (env : Env) (cog : Installable) :
  let lo := min_bot_version (meta cog) in
  let hi := max_bot_version (meta cog) in
  let host := red_version_info env in
  (min_python_version (meta cog) = sys_version_info env -> python_outdated env cog = false)
  /\ (lo = host -> bot_outdated env cog = false)
  /\ (hi = host -> version_gt lo host = false -> bot_outdated env cog = false)
  /\ (version_lt hi host = true -> version_lt hi lo = false -> bot_outdated env cog = true)
  /\ (version_lt hi lo = true -> bot_outdated env cog = version_gt lo host).
Proof.
  intros lo hi host. split; [|apply bot_bounds_boundaries].
  intros Heq. unfold python_outdated, python_gt. rewrite Heq. apply tuple_lt_irrefl.
Qed.

(** * Pinning *)

Section ToSet.

Context {A : Type} (k : A -> ModuleKey).

Lemma to_set_spec (l : list A) :
  NoDup (k <$> to_set k l)
  /\ to_set k l ⊆ l
  /\ (forall q, q ∈ k <$> l -> q ∈ k <$> to_set k l).
Proof.
  unfold to_set.
  apply (foldl_invariant
    (fun done s => NoDup (k <$> s) /\ s ⊆ done
                   /\ (forall q, q ∈ k <$> done -> q ∈ k <$> s))
    (fun s x => set_add k x s)).
  - split; [constructor|]. split; [done|]. by intros q Hq.
  - intros done x s _ (Hnd & Hsub & Hkeys). split; [by apply set_add_NoDup|]. split.
    + intros y Hy. apply elem_of_set_add in Hy as [Hy|[-> _]]; [|apply elem_of_snoc_r].
      apply elem_of_app. left. by apply Hsub.
    + intros q Hq. rewrite fmap_app in Hq. apply elem_of_app in Hq as [Hq|Hq].
      * apply set_add_keys. left. by apply Hkeys.
      * apply list_elem_of_singleton in Hq as ->. apply set_add_key.
Qed.

End ToSet.

Lemma set_conf_id w : set_conf (installed_cogs_conf w) (installed_libraries_conf w) w = w.
Proof. by destruct w. Qed.

Lemma conf_store_all_cogs (modules : list InstalledModule) cogs_conf libs_conf :
  Forall (fun m => im_type m = COG) modules ->
  foldl (by_type conf_store) (cogs_conf, libs_conf) modules
  = (foldl (fun conf m => conf_store m conf) cogs_conf modules, libs_conf).
Proof.
  intros Hall. revert cogs_conf.
  induction Hall as [|m modules Hm _ IH]; intros cogs_conf; [done|]. simpl.
  unfold by_type at 2. rewrite Hm. simpl. apply IH.
Qed.

Section Pinning.

Context (env : Env).

Lemma pin_loop_spec (cogs : list InstalledModule) :
  pin_loop env cogs
  = ((fun c => inline env (im_name c)) <$> filter (fun c => im_pinned c) (to_set im_key cogs),
     (fun c => set_pinned c true)
       <$> filter (fun c => negb (im_pinned c)) (to_set im_key cogs)).
Proof.
  unfold pin_loop. generalize (to_set im_key cogs). intros l.
  induction l as [|c l IH] using rev_ind; [done|].
  rewrite foldl_app, IH, !filter_app, !fmap_app. cbn [foldl].
  rewrite !filter_cons, !filter_nil. destruct (im_pinned c); simpl.
  - by rewrite app_nil_r.
  - by rewrite app_nil_r.
Qed.

Lemma unpin_loop_spec (cogs : list InstalledModule) :
  unpin_loop env cogs
  = ((fun c => inline env (im_name c))
       <$> filter (fun c => negb (im_pinned c)) (to_set im_key cogs),
     (fun c => set_pinned c false) <$> filter (fun c => im_pinned c) (to_set im_key cogs)).
Proof.
  unfold unpin_loop. generalize (to_set im_key cogs). intros l.
  induction l as [|c l IH] using rev_ind; [done|].
  rewrite foldl_app, IH, !filter_app, !fmap_app. cbn [foldl].
  rewrite !filter_cons, !filter_nil. destruct (im_pinned c); simpl.
  - by rewrite app_nil_r.
  - by rewrite app_nil_r.
Qed.

Lemma cog_pin_run (cogs : list InstalledModule) w :
  let pinned := (fun c => set_pinned c true)
                  <$> filter (fun c => negb (im_pinned c)) (to_set im_key cogs) in
  (length pinned = 1 -> _cog_pin env cogs w = Raise (KeyError "cog"))
  /\ (cogs <> [] -> length pinned <> 1 ->
      exists message,
        let saved := foldl (by_type conf_store)
                       (installed_cogs_conf w, installed_libraries_conf w) pinned in
        _cog_pin env cogs w
        = Ok (tt, log_event (EvSend message) (set_conf saved.1 saved.2 w))).
Proof.
  intros pinned. unfold _cog_pin. rewrite pin_loop_spec. fold pinned.
  generalize ((fun c => inline env (im_name c))
                <$> filter (fun c => im_pinned c) (to_set im_key cogs)).
  intros already. split.
  - intros Hlen. destruct cogs as [|c0 cogs0].
    { exfalso. subst pinned. by cbn in Hlen. }
    destruct pinned as [|p1 [|p2 rest]]; try done.
  - intros Hne Hlen. destruct cogs as [|c0 cogs0]; [done|].
    destruct pinned as [|p1 [|p2 rest]]; [| done |].
    + destruct already as [|a1 [|a2 arest]]; eexists; cbv zeta; cbn [foldl fst snd];
        rewrite set_conf_id; reflexivity.
    + destruct already as [|a1 [|a2 arest]]; eexists; reflexivity.
Qed.

Lemma cog_unpin_run (cogs : list InstalledModule) w :
  let unpinned := (fun c => set_pinned c false)
                    <$> filter (fun c => im_pinned c) (to_set im_key cogs) in
  (length unpinned = 1 -> _cog_unpin env cogs w = Raise (KeyError "cog"))
  /\ (cogs <> [] -> length unpinned <> 1 ->
      exists message,
        let saved := foldl (by_type conf_store)
                       (installed_cogs_conf w, installed_libraries_conf w) unpinned in
        _cog_unpin env cogs w
        = Ok (tt, log_event (EvSend message) (set_conf saved.1 saved.2 w))).
Proof.
  intros unpinned. unfold _cog_unpin. rewrite unpin_loop_spec. fold unpinned.
  generalize ((fun c => inline env (im_name c))
                <$> filter (fun c => negb (im_pinned c)) (to_set im_key cogs)).
  intros not_pinned. split.
  - intros Hlen. destruct cogs as [|c0 cogs0].
    { exfalso. subst unpinned. by cbn in Hlen. }
    destruct unpinned as [|p1 [|p2 rest]]; try done.
  - intros Hne Hlen. destruct cogs as [|c0 cogs0]; [done|].
    destruct unpinned as [|p1 [|p2 rest]]; [| done |].
    + destruct not_pinned as [|a1 [|a2 arest]]; eexists; cbv zeta; cbn [foldl fst snd];
        rewrite set_conf_id; reflexivity.
    + destruct not_pinned as [|a1 [|a2 arest]]; eexists; reflexivity.
Qed.

End Pinning.

(** Pinning exactly one cog that was not pinned, like unpinning exactly one
    cog that was, does not report back: building the report raises [KeyError],
    because the singular message is formatted with a positional argument for
    the named field [{cog}]. *)
Theorem cog_pin_single_raises (env : Env) (cogs : list InstalledModule) (w : World) :
  (length (filter (fun c => negb (im_pinned c)) (to_set im_key cogs)) = 1 ->
   _cog_pin env cogs w = Raise (KeyError "cog"))
  /\ (length (filter (fun c => im_pinned c) (to_set im_key cogs)) = 1 ->
      _cog_unpin env cogs w = Raise (KeyError "cog")).
Proof.
  split; intros Hlen.
  - apply cog_pin_run. by rewrite length_fmap.
  - apply cog_unpin_run. by rewrite length_fmap.
Qed.

Lemma find_unique_key (l : list InstalledModule) (x : InstalledModule) kind :
  NoDup (im_key <$> l) -> x ∈ l -> im_type x = kind ->
  find (fun m => bool_decide (im_type m = kind /\ im_key m = im_key x)) (reverse l) = Some x.
Proof.
  intros Hnd Hin Htype.
  destruct (find _ (reverse l)) as [y|] eqn:Hfind.
  - apply find_some in Hfind as [Hy Hkey]. apply bool_decide_eq_true in Hkey as [_ Hkey].
    apply list_elem_of_In in Hy. rewrite elem_of_reverse in Hy.
    f_equal. by apply (NoDup_key_inj im_key l).
  - assert (Hin' : In x (reverse l)) by (apply list_elem_of_In; by rewrite elem_of_reverse).
    pose proof (find_none _ _ Hfind x Hin') as Hno. simpl in Hno.
    apply bool_decide_eq_false in Hno. by destruct Hno.
Qed.

Lemma find_no_key (l : list InstalledModule) k kind :
  (forall x, x ∈ l -> im_key x <> k) ->
  find (fun m => bool_decide (im_type m = kind /\ im_key m = k)) (reverse l) = None.
Proof.
  intros Hno. destruct (find _ (reverse l)) as [y|] eqn:Hfind; [|done].
  apply find_some in Hfind as [Hy Hkey]. apply bool_decide_eq_true in Hkey as [_ Hkey].
  apply list_elem_of_In in Hy. rewrite elem_of_reverse in Hy. by apply Hno in Hy.
Qed.

Lemma NoDup_keys_set_pinned (l : list InstalledModule) b :
  NoDup (im_key <$> l) -> NoDup (im_key <$> ((fun c => set_pinned c b) <$> l)).
Proof. intros Hnd. rewrite <- list_fmap_compose. exact Hnd. Qed.

Lemma NoDup_keys_filter (P : InstalledModule -> Prop) `{forall x, Decision (P x)}
    (l : list InstalledModule) :
  NoDup (im_key <$> l) -> NoDup (im_key <$> filter P l).
Proof.
  induction l as [|x l IH]; [done|]. rewrite fmap_cons, filter_cons.
  intros Hnd. apply NoDup_cons in Hnd as [Hx Hnd]. case_decide; [|by apply IH].
  rewrite fmap_cons. apply NoDup_cons. split; [|by apply IH].
  intros Hin. apply Hx. apply list_elem_of_fmap in Hin as (y & -> & Hy).
  apply list_elem_of_filter in Hy as [_ Hy]. apply list_elem_of_fmap. by exists y.
Qed.

Lemma cog_pin_stores (env : Env) (cogs : list InstalledModule) (w : World) :
  Forall (fun c => im_type c = COG) cogs ->
  length (filter (fun c => negb (im_pinned c)) (to_set im_key cogs)) <> 1 ->
  exists w',
    _cog_pin env cogs w = Ok (tt, w')
    /\ (forall c, c ∈ to_set im_key cogs -> im_pinned c = false ->
          conf_lookup (installed_cogs_conf w') (im_key c)
          = Some (to_json (set_pinned c true)))
    /\ (forall k,
          (forall c, c ∈ to_set im_key cogs -> im_pinned c = false -> im_key c <> k) ->
          conf_lookup (installed_cogs_conf w') k = conf_lookup (installed_cogs_conf w) k)
    /\ installed_libraries_conf w' = installed_libraries_conf w.
Proof.
  intros Hcogs Hlen.
  destruct (decide (cogs = [])) as [->|Hne].
  { eexists. split; [reflexivity|]. split; [|done].
    intros c Hin. by apply elem_of_nil in Hin. }
  destruct (to_set_spec im_key cogs) as (Hnd & Hsub & _).
  destruct (cog_pin_run env cogs w) as [_ Hrun].
  destruct (Hrun Hne) as (message & Hrun'); [by rewrite length_fmap|]. clear Hrun.
  cbv zeta in Hrun'.
  set (pinned := (fun c => set_pinned c true)
         <$> filter (fun c => negb (im_pinned c)) (to_set im_key cogs)) in *.
  assert (Hnd_p : NoDup (im_key <$> pinned)).
  { apply NoDup_keys_set_pinned. by apply NoDup_keys_filter. }
  eexists. split; [exact Hrun'|].
  cbn [installed_cogs_conf installed_libraries_conf log_event with_trace set_conf].
  split; [|split].
  - intros c Hin Hpin.
    rewrite (save_all_lookup COG) by done.
    assert (Hc : set_pinned c true ∈ pinned).
    { apply list_elem_of_fmap. exists c. split; [done|].
      apply list_elem_of_filter. split; [by rewrite Hpin | done]. }
    change (im_key c) with (im_key (set_pinned c true)).
    rewrite find_unique_key; [done | done | done |].
    simpl. rewrite Forall_forall in Hcogs. by apply Hcogs, Hsub.
  - intros k Hk. rewrite (save_all_lookup COG) by done.
    rewrite find_no_key; [done|].
    intros x Hx. apply list_elem_of_fmap in Hx as (c & -> & Hc).
    apply list_elem_of_filter in Hc as [Hpin Hc].
    apply (Hk c Hc). by destruct (im_pinned c).
  - rewrite conf_store_all_cogs; [done|].
    apply Forall_forall. intros x Hx. apply list_elem_of_fmap in Hx as (c & -> & Hc).
    apply list_elem_of_filter in Hc as [_ Hc]. simpl.
    rewrite Forall_forall in Hcogs. by apply Hcogs, Hsub.
Qed.

(** Pinning returns whenever the number of distinct cogs it newly pins is not
    one, and then every cog of the request that was not pinned is filed as
    pinned, with its commit kept, while every other document of the install
    map, and the map of the libraries, stay as they were. *)
Theorem cog_pin_persists (env : Env) (cogs : list InstalledModule) (w : World) :
  Forall (fun c => im_type c = COG) cogs ->
  length (filter (fun c => negb (im_pinned c)) (to_set im_key cogs)) <> 1 ->
  exists w',
    _cog_pin env cogs w = Ok (tt, w')
    /\ (forall c, c ∈ to_set im_key cogs -> im_pinned c = false ->
          conf_lookup (installed_cogs_conf w') (im_key c)
          = Some (to_json (set_pinned c true)))
    /\ (forall k,
          (forall c, c ∈ to_set im_key cogs -> im_pinned c = false -> im_key c <> k) ->
          conf_lookup (installed_cogs_conf w') k = conf_lookup (installed_cogs_conf w) k)
    /\ installed_libraries_conf w' = installed_libraries_conf w.
Proof. apply cog_pin_stores. Qed.

(** Two install maps with the same repositories and the same documents are
    the same map. *)
Lemma conf_ext (c1 c2 : gmap string (gmap string ModuleJson)) :
  (forall r, is_Some (c1 !! r) <-> is_Some (c2 !! r)) ->
  (forall k, conf_lookup c1 k = conf_lookup c2 k) ->
  c1 = c2.
Proof.
  intros Hdom Hlookup. apply map_eq. intros r.
  destruct (c1 !! r) as [i1|] eqn:H1, (c2 !! r) as [i2|] eqn:H2.
  - f_equal. apply map_eq. intros n. specialize (Hlookup (r, n)).
    unfold conf_lookup in Hlookup. simpl in Hlookup. by rewrite H1, H2 in Hlookup.
  - destruct (proj1 (Hdom r)) as [? Hsome]; [by rewrite H1 | by rewrite H2 in Hsome].
  - destruct (proj2 (Hdom r)) as [? Hsome]; [by rewrite H2 | by rewrite H1 in Hsome].
  - done.
Qed.

Lemma conf_store_all_dom (modules : list InstalledModule) conf r :
  is_Some (foldl (fun conf m => conf_store m conf) conf modules !! r)
  <-> r ∈ im_repo_name <$> modules \/ is_Some (conf !! r).
Proof.
  revert conf. induction modules as [|m modules IH]; intros conf.
  - simpl. split; [by right|]. intros [Hin|?]; [by apply elem_of_nil in Hin | done].
  - cbn [foldl]. rewrite IH, fmap_cons, elem_of_cons. unfold conf_store.
    destruct (decide (r = im_repo_name m)) as [->|Hr].
    + rewrite lookup_insert_eq. split; [by left; left | by right].
    + rewrite lookup_insert_ne by done. tauto.
Qed.

Lemma conf_lookup_repo conf k j :
  conf_lookup conf k = Some j -> is_Some (conf !! k.1).
Proof. unfold conf_lookup. by destruct (conf !! k.1). Qed.

Lemma to_set_fmap_keys (f : InstalledModule -> InstalledModule) (l : list InstalledModule) :
  (forall x, im_key (f x) = im_key x) ->
  to_set im_key (f <$> l) = f <$> to_set im_key l.
Proof.
  intros Hf. unfold to_set.
  induction l as [|x l IH] using rev_ind; [done|].
  rewrite fmap_app, !foldl_app, IH. cbn [fmap list_fmap foldl]. unfold set_add.
  assert (Hkeys : forall s : list InstalledModule, im_key <$> (f <$> s) = im_key <$> s).
  { intros s. rewrite <- list_fmap_compose. apply list_fmap_ext. intros i y _. apply Hf. }
  rewrite Hkeys, Hf.
  case_bool_decide; [done|]. by rewrite fmap_app.
Qed.

Lemma filter_all {A} (P : A -> Prop) `{forall x, Decision (P x)} (l : list A) :
  (forall x, x ∈ l -> P x) -> filter P l = l.
Proof.
  induction l as [|x l IH]; [done|]. intros Hall. rewrite filter_cons.
  rewrite decide_True by (apply Hall; by left). f_equal. apply IH.
  intros y Hy. apply Hall. by right.
Qed.

Lemma filter_none {A} (P : A -> Prop) `{forall x, Decision (P x)} (l : list A) :
  (forall x, x ∈ l -> ~ P x) -> filter P l = [].
Proof.
  induction l as [|x l IH]; [done|]. intros Hall. rewrite filter_cons.
  rewrite decide_False by (apply Hall; by left). apply IH.
  intros y Hy. apply Hall. by right.
Qed.

(** Pinning installed cogs that were not pinned and then unpinning them, read
    back from the install map, restores the install map exactly (for a request
    that does not name exactly one distinct cog, so that both commands
    return). *)
Theorem pin_then_unpin_restores (env : Env) (cogs : list InstalledModule) (w : World) :
  conf_consistent (installed_cogs_conf w) ->
  (forall c, c ∈ cogs -> c ∈ records_of COG (installed_cogs_conf w) /\ im_pinned c = false) ->
  length (to_set im_key cogs) <> 1 ->
  exists w1 w2,
    _cog_pin env cogs w = Ok (tt, w1)
    /\ _cog_unpin env (reread w1 cogs) w1 = Ok (tt, w2)
    /\ (forall c, c ∈ cogs ->
          exists record, record ∈ records_of COG (installed_cogs_conf w1)
                         /\ im_key record = im_key c /\ im_pinned record = true)
    /\ installed_cogs_conf w2 = installed_cogs_conf w
    /\ installed_libraries_conf w2 = installed_libraries_conf w.
Proof.
  intros Hcons Hcogs Hlen.
  assert (Htypes : Forall (fun c => im_type c = COG) cogs).
  { apply Forall_forall. intros c Hc. apply Hcogs in Hc as [Hc _].
    by apply (records_of_lookup _ _ _ Hcons) in Hc as [_ ?]. }
  assert (Hjson : forall c, c ∈ cogs -> im_json_repo_name c = im_repo_name c).
  { intros c Hc. apply Hcogs in Hc as [Hc _]. by apply json_repo_name_of_record in Hc. }
  destruct (to_set_spec im_key cogs) as (Hnd & Hsub & Hkeys).
  assert (Hall : filter (fun c => negb (im_pinned c)) (to_set im_key cogs)
                 = to_set im_key cogs).
  { apply filter_all. intros c Hc. apply Hsub, Hcogs in Hc as [_ ->]. done. }
  destruct (cog_pin_stores env cogs w Htypes) as (w1 & Hpin & Hstored & Hother & Hlibs1);
    [by rewrite Hall|].
  assert (Hlookup1 : forall c, c ∈ cogs ->
            conf_lookup (installed_cogs_conf w1) (im_key c)
            = Some (to_json (set_pinned c true))).
  { intros c Hc.
    assert (Hk : im_key c ∈ im_key <$> to_set im_key cogs)
      by (apply Hkeys, list_elem_of_fmap; by exists c).
    apply list_elem_of_fmap in Hk as (c' & Hkey & Hc').
    assert (c' = c) as ->.
    { apply (records_same_key COG (installed_cogs_conf w)); [done | | | done].
      - by apply Hsub, Hcogs in Hc' as [? _].
      - by apply Hcogs in Hc as [? _]. }
    apply Hstored; [done|]. by apply Hcogs in Hc as [_ ?]. }
  assert (Hreread : reread w1 cogs = (fun c => set_pinned c true) <$> cogs).
  { unfold reread. clear Hlen Hall Hnd Hsub Hkeys Hstored Hother Hpin.
    induction cogs as [|c cogs IH]; [done|].
    cbn [omap list_omap fmap list_fmap].
    rewrite Hlookup1 by (by left). simpl.
    assert (Htype : im_type c = COG) by (by apply Forall_cons in Htypes as [? _]).
    assert (Hc : from_json COG (to_json (set_pinned c true)) = set_pinned c true)
      by (rewrite <- Htype; apply (from_to_json (set_pinned c true)); simpl;
          apply Hjson; by left).
    rewrite Hc. f_equal. apply IH.
    - intros c' Hc'. apply Hcogs. by right.
    - by apply Forall_cons in Htypes as [_ ?].
    - intros c' Hc'. apply Hjson. by right.
    - intros c' Hc'. apply Hlookup1. by right. }
  assert (Hset : to_set im_key (reread w1 cogs)
                 = (fun c => set_pinned c true) <$> to_set im_key cogs).
  { rewrite Hreread. by apply to_set_fmap_keys. }
  assert (Hunpinned : (fun c => set_pinned c false)
                        <$> filter (fun c => im_pinned c) (to_set im_key (reread w1 cogs))
                      = to_set im_key cogs).
  { rewrite Hset, filter_all.
    - rewrite <- list_fmap_compose. rewrite <- (list_fmap_id (to_set im_key cogs)) at 2.
      apply list_fmap_ext. intros i c Hc. apply list_elem_of_lookup_2 in Hc.
      apply Hsub, Hcogs in Hc as [_ Hc]. destruct c. simpl in *. by subst.
    - intros c Hc. apply list_elem_of_fmap in Hc as (c' & -> & _). done. }
  destruct (cog_unpin_run env (reread w1 cogs) w1) as [_ Hrun].
  destruct (decide (cogs = [])) as [->|Hne].
  { inversion Hpin; subst. eexists _, _.
    split; [reflexivity|]. split; [reflexivity|]. split; [|done].
    intros c Hc. by apply elem_of_nil in Hc. }
  destruct Hrun as (message & Hunpin).
  { rewrite Hreread. by destruct cogs. }
  { by rewrite Hunpinned. }
  cbv zeta in Hunpin. rewrite Hunpinned in Hunpin.
  assert (Htypes_set : Forall (fun m => im_type m = COG) (to_set im_key cogs)).
  { apply Forall_forall. intros c Hc. rewrite Forall_forall in Htypes. by apply Htypes, Hsub. }
  rewrite conf_store_all_cogs in Hunpin by done. cbn [fst snd] in Hunpin.
  eexists w1, _. split; [exact Hpin|]. split; [exact Hunpin|].
  cbn [installed_cogs_conf installed_libraries_conf log_event with_trace set_conf].
  split; [|split; [|done]].
  - intros c Hc. exists (set_pinned c true). split; [|done].
    assert (Htype : im_type c = COG) by (rewrite Forall_forall in Htypes; by apply Htypes).
    rewrite <- (from_to_json (set_pinned c true)) by (simpl; by apply Hjson).
    simpl. rewrite Htype.
    eapply records_of_from_lookup. by apply Hlookup1.
  - assert (Hfinal : forall k,
      conf_lookup (foldl (fun conf m => conf_store m conf) (installed_cogs_conf w1)
                     (to_set im_key cogs)) k
      = conf_lookup (installed_cogs_conf w) k).
    { intros k.
      pose proof (save_all_lookup COG (to_set im_key cogs)
                    (installed_cogs_conf w1, installed_libraries_conf w1) k) as Hsave.
      rewrite conf_store_all_cogs in Hsave by done. cbn [fst snd] in Hsave.
      rewrite Hsave by done. clear Hsave.
      destruct (decide (k ∈ im_key <$> to_set im_key cogs)) as [Hin|Hin].
      - apply list_elem_of_fmap in Hin as (c & -> & Hc).
        rewrite find_unique_key; [| done | done |].
        + symmetry. apply Hsub, Hcogs in Hc as [Hc _].
          by apply (records_of_lookup _ _ _ Hcons) in Hc as [? _].
        + rewrite Forall_forall in Htypes_set. by apply Htypes_set.
      - rewrite find_no_key.
        + apply Hother. intros c Hc _ Heq. apply Hin. rewrite <- Heq.
          apply list_elem_of_fmap. by exists c.
        + intros c Hc Heq. apply Hin. rewrite <- Heq.
          apply list_elem_of_fmap. by exists c. }
    apply conf_ext; [|exact Hfinal].
    intros r. rewrite conf_store_all_dom.
    assert (Hdom1 : is_Some (installed_cogs_conf w1 !! r)
                    <-> is_Some (installed_cogs_conf w !! r)).
    { destruct (cog_pin_run env cogs w) as [_ Hrun1].
      destruct (Hrun1 Hne) as (message1 & Hrun1'); [by rewrite length_fmap, Hall|].
      cbv zeta in Hrun1'. rewrite Hrun1' in Hpin.
      assert (Hw1 : installed_cogs_conf w1
                    = (foldl (by_type conf_store)
                         (installed_cogs_conf w, installed_libraries_conf w)
                         ((fun c => set_pinned c true)
                            <$> filter (fun c => negb (im_pinned c)) (to_set im_key cogs))).1)
        by (by injection Hpin as <-).
      rewrite Hw1.
      rewrite Hall, conf_store_all_cogs.
      2:{ apply Forall_forall. intros x Hx. apply list_elem_of_fmap in Hx as (c & -> & Hc).
          rewrite Forall_forall in Htypes_set. simpl. by apply Htypes_set. }
      cbn [fst]. rewrite conf_store_all_dom. split; [|by right].
      intros [Hin|?]; [|done].
      apply list_elem_of_fmap in Hin as (x & -> & Hx).
      apply list_elem_of_fmap in Hx as (c & -> & Hc). simpl.
      apply Hsub, Hcogs in Hc as [Hc _].
      apply (records_of_lookup _ _ _ Hcons) in Hc as [Hc _].
      by apply conf_lookup_repo in Hc. }
    rewrite Hdom1. split; [|by right].
    intros [Hin|?]; [|done].
    apply list_elem_of_fmap in Hin as (c & -> & Hc).
    apply Hsub, Hcogs in Hc as [Hc _].
    apply (records_of_lookup _ _ _ Hcons) in Hc as [Hc _].
    by apply conf_lookup_repo in Hc.
Qed.

(** * The filter by names *)

Section ByNamesProofs.

Context (env : Env) (available_cogs : World -> string -> list Installable).
Context (w : World) (repo : string).

Lemma filter_names_spec (cog_names : list string) :
  exists unavailable_cogs already_installed name_already_used,
    foldl (filter_name env available_cogs w repo (records_of COG (installed_cogs_conf w)))
      ([], [], [], []) cog_names
    = (omap (fresh_cog available_cogs w repo) cog_names,
       unavailable_cogs, already_installed, name_already_used)
    /\ length name_already_used
       = length (filter (fun n => name_clash available_cogs w repo n) cog_names).
Proof.
  induction cog_names as [|n cog_names (un & al & used & IH & Hlen)] using rev_ind.
  - by exists [], [], [].
  - rewrite foldl_app, IH, omap_app, filter_app, length_app, <- Hlen.
    cbn [foldl omap list_omap].
    unfold filter_name, fresh_cog, name_clash. rewrite filter_cons, filter_nil.
    destruct (get_available available_cogs w repo n) as [cog|]; simpl.
    + case_bool_decide; simpl.
      * eexists _, _, _. split; [by rewrite app_nil_r|]. simpl. lia.
      * case_bool_decide; simpl.
        -- eexists _, _, _. split; [by rewrite app_nil_r|]. rewrite length_app. simpl. lia.
        -- eexists _, _, _. split; [done|]. simpl. lia.
    + eexists _, _, _. split; [by rewrite app_nil_r|]. simpl. lia.
Qed.

Lemma names_message_run (unavailable_cogs already_installed name_already_used : list string) :
  (length name_already_used = 1 ->
   names_message env repo unavailable_cogs already_installed name_already_used
   = Raises TypeError)
  /\ (length name_already_used <> 1 ->
      exists message,
        names_message env repo unavailable_cogs already_installed name_already_used
        = Returns message).
Proof.
  unfold names_message. split; intros Hlen.
  - destruct name_already_used as [|n1 [|n2 ns]]; try done.
    destruct unavailable_cogs as [|u1 [|u2 us]], already_installed as [|a1 [|a2 rest]];
      reflexivity.
  - destruct name_already_used as [|n1 [|n2 ns]]; try done;
      destruct unavailable_cogs as [|u1 [|u2 us]], already_installed as [|a1 [|a2 rest]];
      eexists; reflexivity.
Qed.

End ByNamesProofs.

(** The filter by names returns, in the order of the request, the cogs that
    the repository offers under a requested name, that are not installed,
    whose name no installed cog bears, and that pass the version filter,
    whenever it returns at all: that is, unless exactly one requested name
    clashes with a cog installed from another repository or exactly one
    candidate fails the interpreter check. *)
Theorem filter_by_names_keeps_fresh_accepted (env : Env)
    (available_cogs : World -> string -> list Installable)
    (w : World) (repo : string) (cog_names : list string) :
  let fresh := omap (fresh_cog available_cogs w repo) cog_names in
  length (filter (fun n => name_clash available_cogs w repo n) cog_names) <> 1 ->
  length (filter (python_outdated env) fresh) <> 1 ->
  exists message,
    _filter_incorrect_cogs_by_names env available_cogs w repo cog_names
    = Returns (filter (accepted env) fresh, message)
    /\ forall cog, cog ∈ filter (accepted env) fresh <->
         accepted env cog = true
         /\ (key cog ∉ im_key <$> records_of COG (installed_cogs_conf w))
         /\ (name cog ∉ im_name <$> records_of COG (installed_cogs_conf w))
         /\ exists cog_name, cog_name ∈ cog_names
              /\ find (fun c => bool_decide (name c = cog_name)) (available_cogs w repo)
                 = Some cog.
Proof.
  intros fresh Hclash Hpy. unfold _filter_incorrect_cogs_by_names.
  destruct (filter_names_spec env available_cogs w repo cog_names)
    as (un & al & used & -> & Hlen).
  destruct (names_message_run env repo un al used) as [_ Hmsg].
  destruct Hmsg as (message & ->); [by rewrite Hlen|].
  destruct (filter_incorrect_cogs_report env fresh Hpy)
    as (add & Hfilter & _).
  fold fresh. cbn [mbind Outcome_bind]. rewrite Hfilter. cbn [builtin].
  exists (if bool_decide (add ≠ "") then message +:+ add else message).
  split; [unfold mbind, Outcome_bind; by case_bool_decide|].
  intros cog. rewrite list_elem_of_filter. unfold fresh.
  rewrite list_elem_of_omap. unfold fresh_cog, get_available. split.
  - intros (Hacc & cog_name & Hname & Hfresh). split; [by apply Is_true_true|].
    destruct (find _ (available_cogs w repo)) as [c|] eqn:Hfind; [|done].
    simpl in Hfresh. case_bool_decide as Hkey; [done|].
    case_bool_decide as Hused; [done|]. simpl in Hfresh. injection Hfresh as ->.
    split; [done|]. split; [done|]. by exists cog_name.
  - intros (Hacc & Hkey & Hused & cog_name & Hname & Hfind).
    split; [by apply Is_true_true|]. exists cog_name. split; [done|].
    rewrite Hfind. simpl. rewrite !bool_decide_eq_false_2 by done. done.
Qed.

(** When exactly one requested name is the name of a cog installed from
    another repository, the filter by names does not return: the singular
    report applies a unary minus to a string, which raises [TypeError]. *)
Theorem filter_by_names_single_clash_raises (env : Env)
    (available_cogs : World -> string -> list Installable)
    (w : World) (repo : string) (cog_names : list string) :
  length (filter (fun n => name_clash available_cogs w repo n) cog_names) = 1 ->
  _filter_incorrect_cogs_by_names env available_cogs w repo cog_names = Raises TypeError.
Proof.
  intros Hclash. unfold _filter_incorrect_cogs_by_names.
  destruct (filter_names_spec env available_cogs w repo cog_names)
    as (un & al & used & -> & Hlen).
  destruct (names_message_run env repo un al used) as [Hmsg _].
  rewrite Hmsg by (by rewrite Hlen). reflexivity.
Qed.

(** * The schema migration *)

Lemma migrate_entry_ok (cog_json : gmap string string) conf k :
  legacy_key cog_json = Some k ->
  migrate_entry cog_json conf = Ok (conf_store (legacy_record k) conf).
Proof.
  unfold legacy_key, migrate_entry, getitem. intros Hkey.
  destruct (cog_json !! "repo_name") as [r|]; [|done].
  destruct (cog_json !! "cog_name") as [n|]; [|done].
  simpl in Hkey. injection Hkey as <-.
  cbn [mbind Result_bind rbind mret Result_ret]. f_equal.
  unfold conf_store, legacy_record, to_json. cbn [im_repo_name im_name im_commit im_pinned fst snd].
  destruct (conf !! r) as [repo_json|] eqn:Hr; cbn [default].
  - apply map_eq. intros r'. destruct (decide (r' = r)) as [->|Hne].
    + by rewrite lookup_alter_eq, lookup_insert_eq, Hr.
    + by rewrite lookup_alter_ne, lookup_insert_ne.
  - by rewrite alter_insert_eq.
Qed.

Lemma migrate_entry_malformed (cog_json : gmap string string) :
  legacy_key cog_json = None ->
  exists k, (k = "repo_name" \/ k = "cog_name")
            /\ forall conf, migrate_entry cog_json conf = Raise (KeyError k).
Proof.
  unfold legacy_key, migrate_entry, getitem. intros Hkey.
  destruct (cog_json !! "repo_name") as [r|].
  - destruct (cog_json !! "cog_name") as [n|]; [done|].
    exists "cog_name". split; [by right | done].
  - exists "repo_name". split; [by left | done].
Qed.

Lemma migrate_entries_ok (old_conf : list (gmap string string)) conf :
  Forall (fun cog_json => is_Some (legacy_key cog_json)) old_conf ->
  migrate_entries old_conf conf
  = (Ok tt, foldl (fun conf m => conf_store m conf) conf
              (legacy_record <$> omap legacy_key old_conf)).
Proof.
  revert conf. induction old_conf as [|cog_json old_conf IH]; intros conf Hall; [done|].
  apply Forall_cons in Hall as [[k Hkey] Hall].
  cbn [migrate_entries omap list_omap]. rewrite (migrate_entry_ok _ _ _ Hkey), Hkey.
  cbn [fmap list_fmap foldl]. by apply IH.
Qed.

Lemma migrate_entries_malformed (before after : list (gmap string string))
    (bad : gmap string string) conf :
  Forall (fun cog_json => is_Some (legacy_key cog_json)) before ->
  legacy_key bad = None ->
  exists k, (k = "repo_name" \/ k = "cog_name")
    /\ migrate_entries (before ++ bad :: after) conf
       = (Raise (KeyError k),
          foldl (fun conf m => conf_store m conf) conf
            (legacy_record <$> omap legacy_key before)).
Proof.
  intros Hall Hbad. destruct (migrate_entry_malformed _ Hbad) as (k & Hk & Hraise).
  exists k. split; [done|].
  revert conf. induction before as [|cog_json before IH]; intros conf.
  - cbn [app migrate_entries]. by rewrite Hraise.
  - apply Forall_cons in Hall as [[k0 Hkey] Hall].
    cbn [app migrate_entries omap list_omap]. rewrite (migrate_entry_ok _ _ _ Hkey), Hkey.
    cbn [fmap list_fmap foldl]. by apply IH.
Qed.

Lemma first_malformed (old_conf : list (gmap string string)) :
  Exists (fun cog_json => legacy_key cog_json = None) old_conf ->
  exists before bad after,
    old_conf = before ++ bad :: after
    /\ Forall (fun cog_json => is_Some (legacy_key cog_json)) before
    /\ legacy_key bad = None.
Proof.
  induction old_conf as [|cog_json old_conf IH]; intros Hex.
  - by apply Exists_nil in Hex.
  - destruct (legacy_key cog_json) as [k|] eqn:Hkey.
    + apply Exists_cons in Hex as [Hbad|Hex]; [congruence|].
      destruct (IH Hex) as (before & bad & after & -> & Hall & Hbad).
      exists (cog_json :: before), bad, after. split; [done|]. split; [|done].
      constructor; [by exists k | done].
    + exists [], cog_json, old_conf. by repeat split.
Qed.

Lemma conf_store_all_consistent (modules : list InstalledModule) conf :
  conf_consistent conf ->
  conf_consistent (foldl (fun conf m => conf_store m conf) conf modules).
Proof.
  revert conf. induction modules as [|m modules IH]; intros conf Hc; [done|].
  simpl. by apply IH, conf_store_consistent.
Qed.

Lemma conf_store_all_lookup (modules : list InstalledModule) conf k :
  Forall (fun m => im_type m = COG) modules ->
  conf_lookup (foldl (fun conf m => conf_store m conf) conf modules) k
  = match find (fun m => bool_decide (im_type m = COG /\ im_key m = k)) (reverse modules) with
    | Some m => Some (to_json m)
    | None => conf_lookup conf k
    end.
Proof.
  intros Hall.
  pose proof (save_all_lookup COG modules (conf, ∅) k) as Hsave.
  rewrite conf_store_all_cogs in Hsave by done. by apply Hsave.
Qed.

Lemma schema_0_to_1_unfold (s : Store) :
  default [] (installed s) <> [] ->
  _schema_0_to_1 s
  = let '(ended, new_cog_conf) :=
      migrate_entries (default [] (installed s)) (installed_cogs_conf (store_world s)) in
    let written :=
      set_conf new_cog_conf (installed_libraries_conf (store_world s)) (store_world s) in
    match ended with
    | Ok _ => (Ok tt, mkStore (schema_version s) None written)
    | Raise e => (Raise e, mkStore (schema_version s) (installed s) written)
    end.
Proof. unfold _schema_0_to_1. by destruct (default [] (installed s)). Qed.

(** The documents that the entries of a raw list leave in the map. *)
Lemma legacy_records_lookup (legacy : list (gmap string string)) conf :
  Forall (fun cog_json => is_Some (legacy_key cog_json)) legacy ->
  let conf' := foldl (fun conf m => conf_store m conf) conf
                 (legacy_record <$> omap legacy_key legacy) in
  (forall cog_json k, cog_json ∈ legacy -> legacy_key cog_json = Some k ->
     conf_lookup conf' k = Some (mkJson k.1 k.2 "" false))
  /\ (forall k, (forall cog_json, cog_json ∈ legacy -> legacy_key cog_json <> Some k) ->
        conf_lookup conf' k = conf_lookup conf k).
Proof.
  intros Hall conf'. unfold conf'. clear conf'.
  set (records := legacy_record <$> omap legacy_key legacy).
  assert (Htypes : Forall (fun m => im_type m = COG) records).
  { apply Forall_forall. intros m Hm. by apply list_elem_of_fmap in Hm as (k & -> & _). }
  split.
  - intros cog_json k Hin Hkey. rewrite conf_store_all_lookup by done.
    destruct (find _ (reverse records)) as [m|] eqn:Hfind.
    + apply find_some in Hfind as [Hm Hk]. apply bool_decide_eq_true in Hk as [_ Hk].
      apply list_elem_of_In in Hm. rewrite elem_of_reverse in Hm.
      apply list_elem_of_fmap in Hm as (k' & -> & _).
      destruct k', k. unfold im_key in Hk. simpl in Hk. by simplify_eq.
    + assert (Hin' : In (legacy_record k) (reverse records)).
      { apply list_elem_of_In. rewrite elem_of_reverse. apply list_elem_of_fmap.
        exists k. split; [done|]. apply list_elem_of_omap. by exists cog_json. }
      pose proof (find_none _ _ Hfind _ Hin') as Hno. simpl in Hno.
      apply bool_decide_eq_false in Hno. destruct Hno. by destruct k.
  - intros k Hk. rewrite conf_store_all_lookup by done.
    destruct (find _ (reverse records)) as [m|] eqn:Hfind; [|done].
    apply find_some in Hfind as [Hm Hkey]. apply bool_decide_eq_true in Hkey as [_ Hkey].
    apply list_elem_of_In in Hm. rewrite elem_of_reverse in Hm.
    apply list_elem_of_fmap in Hm as (k' & -> & Hk').
    apply list_elem_of_omap in Hk' as (cog_json & Hin & Hlegacy).
    exfalso. apply (Hk cog_json Hin). rewrite Hlegacy. f_equal.
    destruct k'. by rewrite <- Hkey.
Qed.

(** The migration from schema 0 files every entry of the raw list as an
    installed cog without commit and not pinned, under the repository and
    name the entry gives; it leaves every other document and the map of the
    libraries as they were, keeps the map consistent, drops the raw list and
    sets the schema version to 1. *)
Theorem maybe_update_config_migrates (s : Store) :
  schema_version s = 0 ->
  Forall (fun cog_json => is_Some (legacy_key cog_json)) (default [] (installed s)) ->
  exists s',
    _maybe_update_config s = (Ok tt, s')
    /\ schema_version s' = 1
    /\ default [] (installed s') = []
    /\ (forall cog_json k, cog_json ∈ default [] (installed s) ->
          legacy_key cog_json = Some k ->
          conf_lookup (installed_cogs_conf (store_world s')) k
          = Some (mkJson k.1 k.2 "" false)
          /\ legacy_record k ∈ records_of COG (installed_cogs_conf (store_world s')))
    /\ (forall k,
          (forall cog_json, cog_json ∈ default [] (installed s) ->
             legacy_key cog_json <> Some k) ->
          conf_lookup (installed_cogs_conf (store_world s')) k
          = conf_lookup (installed_cogs_conf (store_world s)) k)
    /\ installed_libraries_conf (store_world s')
       = installed_libraries_conf (store_world s)
    /\ (conf_consistent (installed_cogs_conf (store_world s)) ->
        conf_consistent (installed_cogs_conf (store_world s'))).
Proof.
  intros Hversion Hall. unfold _maybe_update_config, _schema_0_to_1.
  rewrite Hversion. rewrite bool_decide_eq_true_2 by done.
  destruct (default [] (installed s)) as [|j0 old] eqn:Hold.
  { eexists. split; [reflexivity|]. cbn.
    split; [done|]. split; [done|].
    split; [intros ? ? Hin; by apply elem_of_nil in Hin|]. done. }
  rewrite (migrate_entries_ok (j0 :: old) _ Hall).
  eexists. split; [reflexivity|].
  cbn [schema_version installed store_world installed_cogs_conf installed_libraries_conf
       set_conf].
  destruct (legacy_records_lookup (j0 :: old) (installed_cogs_conf (store_world s)) Hall)
    as [Hlookup Hother].
  split; [done|]. split; [done|]. split; [|split; [exact Hother|split; [done|]]].
  - intros cog_json k Hin Hkey. split; [by eapply Hlookup|].
    change (legacy_record k) with (from_json COG (mkJson k.1 k.2 "" false)).
    eapply records_of_from_lookup. by eapply Hlookup.
  - by apply conf_store_all_consistent.
Qed.

(** The migration runs at most once: whenever a call returns, the schema
    version is no longer 0 and a further call changes nothing. *)
Theorem maybe_update_config_runs_once (s s' : Store) :
  _maybe_update_config s = (Ok tt, s') ->
  schema_version s' <> 0 /\ _maybe_update_config s' = (Ok tt, s').
Proof.
  unfold _maybe_update_config. case_bool_decide as Hversion.
  - destruct (_schema_0_to_1 s) as [[[]|e] s1]; [|done].
    intros [= <-]. cbn [schema_version]. rewrite Hversion.
    by rewrite bool_decide_eq_false_2 by done.
  - intros [= <-]. split; [done|]. by rewrite bool_decide_eq_false_2.
Qed.

(** A raw entry of schema 0 that lacks its repository or its cog name stops
    the migration with a [KeyError] for the missing key, at the first such
    entry of the list.  The migration is then left half done: the entries
    before that one have been filed in the install map, every other document
    and the map of the libraries are as they were, and the schema version and
    the raw list are unchanged, so that the next start migrates again. *)
Theorem maybe_update_config_malformed_entry (s : Store) :
  schema_version s = 0 ->
  Exists (fun cog_json => legacy_key cog_json = None) (default [] (installed s)) ->
  exists before bad after k s',
    default [] (installed s) = before ++ bad :: after
    /\ Forall (fun cog_json => is_Some (legacy_key cog_json)) before
    /\ legacy_key bad = None
    /\ (k = "repo_name" \/ k = "cog_name")
    /\ _maybe_update_config s = (Raise (KeyError k), s')
    /\ schema_version s' = 0
    /\ installed s' = installed s
    /\ (forall cog_json key, cog_json ∈ before -> legacy_key cog_json = Some key ->
          conf_lookup (installed_cogs_conf (store_world s')) key
          = Some (mkJson key.1 key.2 "" false))
    /\ (forall key,
          (forall cog_json, cog_json ∈ before -> legacy_key cog_json <> Some key) ->
          conf_lookup (installed_cogs_conf (store_world s')) key
          = conf_lookup (installed_cogs_conf (store_world s)) key)
    /\ installed_libraries_conf (store_world s')
       = installed_libraries_conf (store_world s).
Proof.
  intros Hversion Hbad.
  destruct (first_malformed _ Hbad) as (before & bad & after & Hsplit & Hall & Hkey).
  destruct (migrate_entries_malformed before after bad
              (installed_cogs_conf (store_world s)) Hall Hkey) as (k & Hk & Hrun).
  exists before, bad, after, k. eexists. split; [exact Hsplit|]. split; [exact Hall|].
  split; [exact Hkey|]. split; [exact Hk|].
  unfold _maybe_update_config.
  rewrite Hversion, bool_decide_eq_true_2 by done.
  rewrite schema_0_to_1_unfold by (rewrite Hsplit; by destruct before).
  rewrite Hsplit, Hrun. split; [by rewrite Hversion|].
  cbn [schema_version installed store_world installed_cogs_conf installed_libraries_conf
       set_conf].
  destruct (legacy_records_lookup before (installed_cogs_conf (store_world s)) Hall)
    as [Hlookup Hother].
  split; [done|]. split; [done|]. split; [exact Hlookup|]. split; [exact Hother|done].
Qed.

(** * Uninstalling: files, loaded extensions and the other records *)

Section UninstallEffects.

Context (env : Env).

Lemma uninstall_loop_effects (targets : list InstalledModule) w :
  exists acc w',
    for_each targets (fun cog (acc : list string * list string) =>
      let real_name := im_name cog in
      w ← get_world;
      match install_path w !! real_name with
      | Some _ =>
          unload_suppressed real_name;;
          _delete_cog real_name;;
          mret (acc.1 ++ [inline env real_name], acc.2)
      | None => mret (acc.1, acc.2 ++ [real_name])
      end) ([], []) w = Ok (acc, w')
    /\ uninstalled_upto w targets w'.
Proof.
  destruct (fun H => for_each_invariant
    (fun done (_ : list string * list string) w' => uninstalled_upto w done w')
    (fun cog (acc : list string * list string) =>
      let real_name := im_name cog in
      w ← get_world;
      match install_path w !! real_name with
      | Some _ =>
          unload_suppressed real_name;;
          _delete_cog real_name;;
          mret (acc.1 ++ [inline env real_name], acc.2)
      | None => mret (acc.1, acc.2 ++ [real_name])
      end) targets H ([], []) w) as (acc & w' & Hrun & Hinv); [| |by eauto].
  - intros done cog acc w1 _ (Hc & Hl & Hr & Hout & Hin).
    set (n := im_name cog).
    assert (Hstate : exists w2,
      (w ← get_world;
       match install_path w !! n with
       | Some _ =>
           unload_suppressed n;; _delete_cog n;; mret (acc.1 ++ [inline env n], acc.2)
       | None => mret (acc.1, acc.2 ++ [n])
       end) w1
      = Ok (match install_path w1 !! n with
            | Some _ => (acc.1 ++ [inline env n], acc.2)
            | None => (acc.1, acc.2 ++ [n])
            end, w2)
      /\ installed_cogs_conf w2 = installed_cogs_conf w1
      /\ installed_libraries_conf w2 = installed_libraries_conf w1
      /\ repos w2 = repos w1
      /\ (forall n', n' <> n ->
            install_path w2 !! n' = install_path w1 !! n'
            /\ (n' ∈ extensions w2 <-> n' ∈ extensions w1))
      /\ match install_path w1 !! n with
         | None => install_path w2 !! n = None /\ (n ∈ extensions w2 <-> n ∈ extensions w1)
         | Some kind =>
             install_path w2 !! n = (if kind is OtherPath then Some OtherPath else None)
             /\ n ∉ extensions w2
         end).
    { unfold mbind, M_bind, get_world, unload_suppressed, _delete_cog, modify_world,
        mret, M_ret.
      destruct (install_path w1 !! n) as [kind|] eqn:Hpath.
      - eexists. split; [reflexivity|].
        case_bool_decide as Hloaded;
          cbn [install_path extensions installed_cogs_conf installed_libraries_conf repos
               set_bot set_install_path];
          rewrite Hpath; destruct kind;
          cbn [install_path extensions installed_cogs_conf installed_libraries_conf repos
               set_bot set_install_path];
          (split; [done|]); (split; [done|]); (split; [done|]); split;
          try (intros n' Hn'; rewrite ?lookup_delete_ne by done;
               rewrite ?elem_of_difference, ?elem_of_singleton; tauto);
          rewrite ?lookup_delete_eq, ?elem_of_difference, ?elem_of_singleton;
          (split; [done | tauto]).
      - eexists. split; [reflexivity|]. done. }
    destruct Hstate as (w2 & Hrun & Hc2 & Hl2 & Hr2 & Hout2 & Hin2).
    eexists _, w2. split; [exact Hrun|].
    split; [congruence|]. split; [congruence|]. split; [congruence|]. split.
    + intros n' Hn'. rewrite fmap_app, elem_of_app in Hn'.
      assert (Hne : n' <> n).
      { intros ->. apply Hn'. right. by left. }
      destruct (Hout2 n' Hne) as [-> ->]. apply Hout. tauto.
    + intros n' Hn'. rewrite fmap_app, elem_of_app in Hn'.
      destruct (decide (n' = n)) as [->|Hne].
      * destruct (decide (n ∈ im_name <$> done)) as [Hdone|Hfresh].
        -- specialize (Hin n Hdone).
           destruct (install_path w !! n) as [kind|] eqn:Hpath.
           ++ destruct Hin as [Hp Hext]. rewrite Hp in Hin2.
              destruct kind; try (destruct Hin2 as [-> Hext2]; tauto);
                destruct Hin2 as [-> Hext2]; tauto.
           ++ destruct Hin as [Hp Hext]. rewrite Hp in Hin2. destruct Hin2 as [-> ->].
              done.
        -- destruct (Hout n Hfresh) as [Hp Hext]. rewrite Hp in Hin2.
           destruct (install_path w !! n) as [kind|]; [done|].
           destruct Hin2 as [-> ->]. done.
      * destruct Hn' as [Hn'|Hn'].
        2:{ apply list_elem_of_singleton in Hn'. done. }
        destruct (Hout2 n' Hne) as [-> Hext2]. specialize (Hin n' Hn').
        destruct (install_path w !! n') as [kind|]; rewrite Hext2; exact Hin.
  - repeat split; try done. intros n Hn. by apply elem_of_nil in Hn.
Qed.

End UninstallEffects.

(** Uninstalling always returns; it deletes the directory or file of every
    requested cog that has one and unloads the cog, leaves a cog whose files
    are missing loaded if it was loaded, and touches neither the files nor the
    loaded state of any name that was not requested, nor any repository. *)
Theorem cog_uninstall_deletes_files (env : Env) (clean_prefix : string)
    (cogs : list InstalledModule) (w : World) :
  exists w',
    _cog_uninstall env clean_prefix cogs w = Ok (tt, w')
    /\ (forall cog kind, cog ∈ cogs -> install_path w !! im_name cog = Some kind ->
          (kind <> OtherPath -> install_path w' !! im_name cog = None)
          /\ (im_name cog ∉ extensions w'))
    /\ (forall cog, cog ∈ cogs -> install_path w !! im_name cog = None ->
          (im_name cog ∈ extensions w' <-> im_name cog ∈ extensions w))
    /\ (forall n, n ∉ im_name <$> cogs ->
          install_path w' !! n = install_path w !! n
          /\ (n ∈ extensions w' <-> n ∈ extensions w))
    /\ repos w' = repos w.
Proof.
  unfold _cog_uninstall.
  destruct cogs as [|cog0 cogs0] eqn:Hshape.
  { eexists. split; [reflexivity|].
    split; [intros ? ? Hin; by apply elem_of_nil in Hin|].
    split; [intros ? Hin; by apply elem_of_nil in Hin|]. done. }
  rewrite <- Hshape in *. clear Hshape cog0 cogs0.
  destruct (uninstall_loop_effects env (to_set im_key cogs) w)
    as ([uninstalled failed] & w1 & Hloop & Hc & Hl & Hr & Hout & Hin).
  rewrite (bind_ok _ _ _ _ _ Hloop).
  unfold mbind at 1, M_bind at 1, _remove_from_installed, modify_world.
  destruct (uninstall_message_ok env clean_prefix uninstalled failed) as (message & Hmsg).
  unfold mbind, M_bind, lift. rewrite Hmsg. unfold send_pagified, modify_world.
  eexists. split; [reflexivity|].
  cbn [install_path extensions repos log_event with_trace set_conf].
  destruct (to_set_spec im_key cogs) as (_ & Hsub & Hkeys).
  assert (Hnames : forall n, n ∈ im_name <$> to_set im_key cogs <-> n ∈ im_name <$> cogs).
  { intros n. split.
    - intros Hn. apply list_elem_of_fmap in Hn as (c & -> & Hc').
      apply list_elem_of_fmap. exists c. split; [done | by apply Hsub].
    - intros Hn. apply list_elem_of_fmap in Hn as (c & -> & Hc').
      assert (Hk : im_key c ∈ im_key <$> to_set im_key cogs)
        by (apply Hkeys, list_elem_of_fmap; by exists c).
      apply list_elem_of_fmap in Hk as (c' & Hkey & Hc'').
      apply list_elem_of_fmap. exists c'. split; [|done].
      unfold im_key in Hkey. by injection Hkey. }
  split; [|split; [|split; [|done]]].
  - intros cog kind Hcog Hpath.
    assert (Hn : im_name cog ∈ im_name <$> to_set im_key cogs)
      by (apply Hnames, list_elem_of_fmap; by exists cog).
    specialize (Hin _ Hn). rewrite Hpath in Hin. destruct Hin as [Hp Hext].
    split; [|done]. intros Hkind. rewrite Hp. by destruct kind.
  - intros cog Hcog Hpath.
    assert (Hn : im_name cog ∈ im_name <$> to_set im_key cogs)
      by (apply Hnames, list_elem_of_fmap; by exists cog).
    specialize (Hin _ Hn). rewrite Hpath in Hin. by destruct Hin.
  - intros n Hn. apply Hout. by rewrite Hnames.
Qed.

(** Uninstalling removes no record but those of the requested cogs: every
    document filed under a repository and name that no requested cog was read
    under stays in both maps, and a request for cogs leaves the map of the
    libraries as it was. *)
Theorem cog_uninstall_keeps_other_records (env : Env) (clean_prefix : string)
    (cogs : list InstalledModule) (w : World) :
  exists w',
    _cog_uninstall env clean_prefix cogs w = Ok (tt, w')
    /\ (forall k, k ∉ im_json_key <$> cogs ->
          conf_lookup (installed_cogs_conf w') k = conf_lookup (installed_cogs_conf w) k
          /\ conf_lookup (installed_libraries_conf w') k
             = conf_lookup (installed_libraries_conf w) k)
    /\ (Forall (fun cog => im_type cog = COG) cogs ->
        installed_libraries_conf w' = installed_libraries_conf w).
Proof.
  unfold _cog_uninstall.
  destruct cogs as [|cog0 cogs0] eqn:Hshape.
  { eexists. split; [reflexivity|]. done. }
  rewrite <- Hshape in *. clear Hshape cog0 cogs0.
  destruct (uninstall_loop_effects env (to_set im_key cogs) w)
    as ([uninstalled failed] & w1 & Hloop & Hc & Hl & _).
  rewrite (bind_ok _ _ _ _ _ Hloop).
  unfold mbind at 1, M_bind at 1, _remove_from_installed, modify_world.
  destruct (uninstall_message_ok env clean_prefix uninstalled failed) as (message & Hmsg).
  unfold mbind, M_bind, lift. rewrite Hmsg. unfold send_pagified, modify_world.
  eexists. split; [reflexivity|].
  cbn [installed_cogs_conf installed_libraries_conf log_event with_trace set_conf].
  rewrite Hc, Hl. split.
  - intros k Hk.
    assert (Hnone : forall kind,
              find (fun m => bool_decide (im_type m = kind /\ im_json_key m = k)) cogs = None).
    { intros kind. destruct (find _ cogs) as [m|] eqn:Hfind; [|done].
      apply find_some in Hfind as [Hm Hkey].
      apply bool_decide_eq_true in Hkey as [_ Hkey]. apply list_elem_of_In in Hm.
      exfalso. apply Hk. rewrite <- Hkey. apply list_elem_of_fmap. by exists m. }
    pose proof (remove_all_lookup COG cogs
                  (installed_cogs_conf w, installed_libraries_conf w) k) as Hcogs.
    pose proof (remove_all_lookup SHARED_LIBRARY cogs
                  (installed_cogs_conf w, installed_libraries_conf w) k) as Hlibs.
    rewrite Hnone in Hcogs, Hlibs. split; [by apply Hcogs | by apply Hlibs].
  - intros Htypes. by rewrite conf_pop_all_cogs.
Qed.

(** * What the install steps change *)

Lemma group_by_repo_commit_members (cogs : list Installable) :
  Forall (fun entry =>
    Forall (fun group => group.2 ⊆ cogs) entry.2) (group_by_repo_commit cogs).
Proof.
  unfold group_by_repo_commit.
  apply (foldl_invariant
    (fun done (repos : list (string * list (string * list Installable))) =>
       Forall (fun entry =>
         Forall (fun group : string * list Installable => group.2 ⊆ done) entry.2) repos)).
  - constructor.
  - intros done cog repos _ Hall.
    assert (Hmono : forall l : list Installable, l ⊆ done -> l ⊆ done ++ [cog]).
    { intros l Hl x Hx. apply elem_of_app. left. by apply Hl. }
    apply (dict_upsert_Forall
             (fun _ (groups : list (string * list Installable)) =>
                Forall (fun group => group.2 ⊆ done ++ [cog]) groups)).
    + intros o Ho.
      apply (dict_upsert_Forall (fun _ (l : list Installable) => l ⊆ done ++ [cog])).
      * intros l Hl x Hx. apply elem_of_app in Hx as [Hx|Hx]; [|by apply elem_of_app; right].
        destruct l as [l|]; [|by apply elem_of_nil in Hx]. by apply (Hl l).
      * destruct o as [groups|]; [|constructor]. simpl. by apply Ho.
    + eapply Forall_impl; [exact Hall|]. intros entry Hentry. simpl in *.
      eapply Forall_impl; [exact Hentry|]. intros group Hg. by apply Hmono.
Qed.

Lemma group_libs_by_repo_commit_members (libraries : list Installable) :
  Forall (fun entry =>
    entry.1 ∈ repo_name <$> libraries
    /\ Forall (fun group => group.2 <> [] /\ group.2 ⊆ libraries) entry.2)
    (group_libs_by_repo_commit libraries).
Proof.
  unfold group_libs_by_repo_commit.
  apply (foldl_invariant
    (fun done (repos : list (string * list (string * list Installable))) =>
       Forall (fun entry =>
         entry.1 ∈ repo_name <$> done
         /\ Forall (fun group : string * list Installable =>
                      group.2 <> [] /\ group.2 ⊆ done) entry.2) repos)).
  - constructor.
  - intros done lib repos _ Hall.
    assert (Hmono : forall l : list Installable, l ⊆ done -> l ⊆ done ++ [lib]).
    { intros l Hl x Hx. apply elem_of_app. left. by apply Hl. }
    apply (dict_upsert_Forall
             (fun r (groups : list (string * list Installable)) =>
                r ∈ repo_name <$> done ++ [lib]
                /\ Forall (fun group => group.2 <> [] /\ group.2 ⊆ done ++ [lib]) groups)).
    + intros o Ho. split; [rewrite fmap_app; apply elem_of_app; right; by left|].
      apply (dict_upsert_Forall
               (fun _ (l : list Installable) => l <> [] /\ l ⊆ done ++ [lib])).
      * intros s Hs. split; [apply set_add_nonempty|].
        intros x Hx. apply elem_of_set_add in Hx as [Hx|[-> _]];
          [|apply elem_of_app; right; by left].
        destruct s as [s|]; [|by apply elem_of_nil in Hx].
        by apply (Hs s).
      * destruct o as [groups|]; [|constructor]. simpl. by apply (Ho groups).
    + eapply Forall_impl; [exact Hall|]. intros entry [Hrepo Hentry]. simpl in *.
      split; [rewrite fmap_app; apply elem_of_app; by left|].
      eapply Forall_impl; [exact Hentry|]. intros group [Hne Hg]. split; [done|].
      by apply Hmono.
Qed.

Section InstallEffects.

Context (env : Env).

Lemma copies_only_refl cogs w : copies_only cogs w w.
Proof.
  repeat split; try done. exists []. split; [done|].
  intros e He. by apply elem_of_nil in He.
Qed.

Lemma copies_only_trans cogs w1 w2 w3 :
  copies_only cogs w1 w2 -> copies_only cogs w2 w3 -> copies_only cogs w1 w3.
Proof.
  intros (Hc & Hl & Hs & He & Hp & ev & Ht & Hev) (Hc' & Hl' & Hs' & He' & Hp' & ev' & Ht' & Hev').
  split; [congruence|]. split; [congruence|]. split; [congruence|]. split; [congruence|].
  split; [intros n Hn; rewrite Hp' by done; by apply Hp|].
  exists (ev' ++ ev). split; [by rewrite Ht', Ht, app_assoc|].
  intros e Hin. apply elem_of_app in Hin as [Hin|Hin]; auto.
Qed.

Lemma copies_only_checkout cogs w f : copies_only cogs w (set_repos f w).
Proof.
  repeat split; try done. exists []. split; [done|].
  intros e He. by apply elem_of_nil in He.
Qed.

Lemma copy_to_cog_effects cogs cog w ok w' :
  cog ∈ cogs ->
  copy_to env cog false w = Ok (ok, w') ->
  copies_only cogs w w'.
Proof.
  intros Hin. unfold copy_to. destruct (copy_succeeds env w cog); intros [= <- <-].
  - split; [done|]. split; [done|]. split; [done|]. split; [done|]. split.
    + intros n Hn. cbn. apply lookup_insert_ne. intros <-. apply Hn.
      apply list_elem_of_fmap. by exists cog.
    + exists [EvCopy cog false]. split; [done|].
      intros e He. apply list_elem_of_singleton in He as ->. by exists cog.
  - split; [done|]. split; [done|]. split; [done|]. split; [done|]. split; [done|].
    exists [EvCopy cog false]. split; [done|].
    intros e He. apply list_elem_of_singleton in He as ->. by exists cog.
Qed.

(** What [_install_cogs] leaves behind whenever it returns. *)
Lemma install_cogs_effects (cogs : list Installable) w installed failed w' :
  _install_cogs env cogs w = Ok ((installed, failed), w') ->
  copies_only cogs w w'
  /\ installed ⊆ from_installable <$> cogs
  /\ failed ⊆ cogs.
Proof.
  unfold _install_cogs. intros Hrun.
  pose proof (group_by_repo_commit_members cogs) as Hmembers.
  rewrite Forall_forall in Hmembers.
  set (I := fun (acc : list InstalledModule * list Installable) (w1 : World) =>
              copies_only cogs w w1
              /\ acc.1 ⊆ from_installable <$> cogs /\ acc.2 ⊆ cogs).
  assert (Hcopy : forall group : list Installable, group ⊆ cogs ->
            forall acc w1 acc' w2, I acc w1 ->
              for_each group (fun cog acc =>
                ok ← copy_to env cog false;
                mret (if ok : bool then (acc.1 ++ [from_installable cog], acc.2)
                      else (acc.1, acc.2 ++ [cog]))) acc w1 = Ok (acc', w2) ->
              I acc' w2).
  { intros group Hgroup acc w1 acc' w2 HI Hloop.
    apply (for_each_invariant_ok (fun _ => I) _ group) in Hloop; [done| |done].
    intros done cog acc1 w3 acc2 w4 [rest Hsplit] (Hw & H1 & H2) Hbody.
    apply bind_inv in Hbody as (ok & w5 & Hcopy & Hret).
    assert (Hcog : cog ∈ cogs) by (apply Hgroup; rewrite Hsplit; apply elem_of_middle).
    apply (copy_to_cog_effects cogs) in Hcopy; [|done].
    destruct ok; injection Hret as <- <-;
      (split; [by eapply copies_only_trans|]); simpl; split; try done.
    - intros x Hx. apply elem_of_app in Hx as [Hx|Hx]; [by apply H1|].
      apply list_elem_of_singleton in Hx as ->. apply list_elem_of_fmap. by exists cog.
    - intros x Hx. apply elem_of_app in Hx as [Hx|Hx]; [by apply H2|].
      by apply list_elem_of_singleton in Hx as ->. }
  apply (for_each_invariant_ok (fun _ => I) _ (group_by_repo_commit cogs)) in Hrun;
    [exact Hrun| |].
  - intros done entry acc1 w1 acc2 w2 [rest Hsplit] HI Hbody.
    assert (Hentry : Forall (fun group : string * list Installable => group.2 ⊆ cogs) entry.2).
    { apply Hmembers. rewrite Hsplit. apply elem_of_middle. }
    rewrite Forall_forall in Hentry.
    apply bind_inv in Hbody as (exit_to_commit & w3 & Hexit & Hbody).
    unfold repo_commit in Hexit. destruct (repos w1 !! entry.1); [|done].
    injection Hexit as <- <-.
    apply bind_inv in Hbody as (acc3 & w4 & Hgroups & Hbody).
    unfold mbind, M_bind, checkout, modify_world, mret, M_ret in Hbody.
    injection Hbody as <- <-.
    apply (for_each_invariant_ok (fun _ => I) _ entry.2) in Hgroups.
    + destruct Hgroups as (Hw & H1 & H2). split; [|done].
      eapply copies_only_trans; [exact Hw|]. apply copies_only_checkout.
    + intros done' group acc4 w5 acc5 w6 [rest' Hsplit'] (Hw & H1 & H2) Hgroup.
      apply bind_inv in Hgroup as ([] & w7 & Hcheckout & Hgroup).
      unfold checkout, modify_world in Hcheckout. injection Hcheckout as <-.
      eapply (Hcopy group.2); [|split; [|done]|exact Hgroup].
      * apply Hentry. rewrite Hsplit'. apply elem_of_middle.
      * eapply copies_only_trans; [exact Hw|]. apply copies_only_checkout.
    + done.
  - split; [apply copies_only_refl|]. split; intros x Hx; by apply elem_of_nil in Hx.
Qed.

End InstallEffects.

Section LibraryEffects.

Context (env : Env).

Lemma library_installs_only_refl libs w : library_installs_only libs w w.
Proof.
  repeat split; try done. exists []. split; [done|].
  intros e He. by apply elem_of_nil in He.
Qed.

Lemma library_installs_only_trans libs w1 w2 w3 :
  library_installs_only libs w1 w2 -> library_installs_only libs w2 w3 ->
  library_installs_only libs w1 w3.
Proof.
  intros (Hc & Hl & Hs & He & ev & Ht & Hev) (Hc' & Hl' & Hs' & He' & ev' & Ht' & Hev').
  split; [congruence|]. split; [congruence|]. split; [congruence|]. split; [congruence|].
  exists (ev' ++ ev). split; [by rewrite Ht', Ht, app_assoc|].
  intros e Hin. apply elem_of_app in Hin as [Hin|Hin]; auto.
Qed.

Lemma library_installs_only_mono libs libs' w1 w2 :
  libs ⊆ libs' -> library_installs_only libs w1 w2 -> library_installs_only libs' w1 w2.
Proof.
  intros Hsub (Hc & Hl & Hs & He & ev & Ht & Hev).
  repeat split; try done. exists ev. split; [done|].
  intros e Hin. destruct (Hev e Hin) as [?|(lib & Hlib & ->)]; [by left|].
  right. exists lib. split; [by apply Hsub | done].
Qed.

Lemma library_installs_only_checkout libs w f :
  library_installs_only libs w (set_repos f w).
Proof.
  repeat split; try done. exists []. split; [done|].
  intros e He. by apply elem_of_nil in He.
Qed.

Lemma install_library_effects repo (lib : Installable) w ok w' :
  (reqs_ok ← match requirements (meta lib) with
             | [] => mret true
             | reqs => install_raw_requirements env repo reqs
             end;
   if reqs_ok : bool then copy_to env lib true else mret false) w = Ok (ok, w') ->
  library_installs_only [lib] w w' /\ repos w' = repos w.
Proof.
  intros Hrun. apply bind_inv in Hrun as (reqs_ok & w1 & Hreqs & Hcopy).
  assert (Hfirst : library_installs_only [lib] w w1 /\ repos w1 = repos w).
  { destruct (requirements (meta lib)) as [|req reqs].
    - injection Hreqs as <- <-. split; [apply library_installs_only_refl | done].
    - unfold install_raw_requirements in Hreqs. injection Hreqs as <- <-.
      split; [|done]. repeat split; try done. eexists [_]. split; [done|].
      intros e He. apply list_elem_of_singleton in He as ->. by left. }
  destruct Hfirst as [Hfirst Hrepos1].
  assert (Hsecond : library_installs_only [lib] w1 w' /\ repos w' = repos w1).
  { destruct reqs_ok.
    - unfold copy_to in Hcopy.
      destruct (copy_succeeds env w1 lib); injection Hcopy as <- <-;
        (split; [|done]); repeat split; try done; eexists [_]; (split; [done|]);
        intros e He; apply list_elem_of_singleton in He as ->; right; exists lib;
        (split; [by left | done]).
    - injection Hcopy as <- <-. split; [apply library_installs_only_refl | done]. }
  destruct Hsecond as [Hsecond Hrepos2].
  split; [by eapply library_installs_only_trans | congruence].
Qed.

Lemma install_libraries_effects repo (libraries : list Installable) w installed failed w' :
  install_libraries env repo libraries w = Ok ((installed, failed), w') ->
  library_installs_only (libraries_to_install env w repo libraries) w w'
  /\ repos w' = repos w
  /\ installed ⊆ from_installable <$> libraries_to_install env w repo libraries
  /\ failed ⊆ libraries_to_install env w repo libraries.
Proof.
  unfold install_libraries. intros Hrun.
  apply bind_inv in Hrun as (w0 & w1 & Hget & Hrun).
  unfold get_world in Hget. injection Hget as <- <-.
  change (match libraries with
          | [] => available_libraries env w repo
          | _ => libraries
          end) with (libraries_to_install env w repo libraries) in Hrun.
  set (libs := libraries_to_install env w repo libraries) in *.
  apply (for_each_invariant_ok
    (fun _ (acc : list InstalledModule * list Installable) w1 =>
       library_installs_only libs w w1 /\ repos w1 = repos w
       /\ acc.1 ⊆ from_installable <$> libs /\ acc.2 ⊆ libs) _ libs) in Hrun;
    [exact Hrun| |].
  - intros done lib acc w1 acc' w2 [rest Hsplit] (Hw & Hr & H1 & H2) Hbody.
    assert (Hlib : lib ∈ libs) by (rewrite Hsplit; apply elem_of_middle).
    apply bind_inv in Hbody as (reqs_ok & w3 & Hreqs & Hbody).
    apply bind_inv in Hbody as (ok & w4 & Hcopy & Hret).
    assert (Hstep : (reqs_ok ← match requirements (meta lib) with
                               | [] => mret true
                               | reqs => install_raw_requirements env repo reqs
                               end;
                     if reqs_ok : bool then copy_to env lib true else mret false) w1
                    = Ok (ok, w4)).
    { by rewrite (bind_ok _ _ _ _ _ Hreqs). }
    apply install_library_effects in Hstep as [Hstep Hrepos].
    split.
    { destruct ok; injection Hret as <- <-;
        (eapply library_installs_only_trans; [exact Hw|]);
        (eapply library_installs_only_mono; [|exact Hstep]);
        intros x Hx; by apply list_elem_of_singleton in Hx as ->. }
    split; [destruct ok; injection Hret as <- <-; congruence|].
    destruct ok; injection Hret as <- <-; simpl; split; try done.
    + intros x Hx. apply elem_of_app in Hx as [Hx|Hx]; [by apply H1|].
      apply list_elem_of_singleton in Hx as ->. apply list_elem_of_fmap. by exists lib.
    + intros x Hx. apply elem_of_app in Hx as [Hx|Hx]; [by apply H2|].
      by apply list_elem_of_singleton in Hx as ->.
  - split; [apply library_installs_only_refl|]. split; [done|].
    split; intros x Hx; by apply elem_of_nil in Hx.
Qed.

(** What [_reinstall_libraries] leaves behind whenever it returns. *)
Lemma reinstall_libraries_effects (libraries : list Installable) w installed failed w' :
  _reinstall_libraries env libraries w = Ok ((installed, failed), w') ->
  library_installs_only libraries w w'
  /\ installed ⊆ from_installable <$> libraries
  /\ failed ⊆ libraries.
Proof.
  unfold _reinstall_libraries. intros Hrun.
  pose proof (group_libs_by_repo_commit_members libraries) as Hmembers.
  rewrite Forall_forall in Hmembers.
  set (I := fun (acc : list InstalledModule * list Installable) (w1 : World) =>
              library_installs_only libraries w w1
              /\ acc.1 ⊆ from_installable <$> libraries /\ acc.2 ⊆ libraries).
  apply (for_each_invariant_ok (fun _ => I) _ (group_libs_by_repo_commit libraries)) in Hrun;
    [exact Hrun| |].
  - intros done entry acc1 w1 acc2 w2 [rest Hsplit] HI Hbody.
    destruct (Hmembers entry) as [_ Hentry]; [rewrite Hsplit; apply elem_of_middle|].
    rewrite Forall_forall in Hentry.
    apply bind_inv in Hbody as (exit_to_commit & w3 & Hexit & Hbody).
    unfold repo_commit in Hexit. destruct (repos w1 !! entry.1); [|done].
    injection Hexit as <- <-.
    apply bind_inv in Hbody as (acc3 & w4 & Hgroups & Hbody).
    unfold mbind, M_bind, checkout, modify_world, mret, M_ret in Hbody.
    injection Hbody as <- <-.
    apply (for_each_invariant_ok (fun _ => I) _ entry.2) in Hgroups.
    + destruct Hgroups as (Hw & H1 & H2). split; [|done].
      eapply library_installs_only_trans; [exact Hw|].
      apply library_installs_only_checkout.
    + intros done' group acc4 w5 acc5 w6 [rest' Hsplit'] (Hw & H1 & H2) Hgroup.
      destruct (Hentry group) as [Hne Hsub]; [rewrite Hsplit'; apply elem_of_middle|].
      apply bind_inv in Hgroup as ([] & w7 & Hcheckout & Hgroup).
      unfold checkout, modify_world in Hcheckout. injection Hcheckout as <-.
      apply bind_inv in Hgroup as ([inst fail] & w8 & Hinstall & Hret).
      injection Hret as <- <-.
      apply install_libraries_effects in Hinstall as (Hlibs & _ & Hi & Hf).
      assert (Hshape : libraries_to_install env (set_repos <[entry.1:=group.1]> w5)
                         entry.1 group.2 = group.2) by (by destruct group.2).
      rewrite Hshape in Hlibs, Hi, Hf. split; [|split].
      * eapply library_installs_only_trans; [exact Hw|].
        eapply library_installs_only_trans; [apply library_installs_only_checkout|].
        by eapply library_installs_only_mono.
      * simpl. intros x Hx. apply elem_of_app in Hx as [Hx|Hx]; [by apply H1|].
        apply Hi, list_elem_of_fmap in Hx as (lib & -> & Hlib).
        apply list_elem_of_fmap. exists lib. split; [done | by apply Hsub].
      * simpl. intros x Hx. apply elem_of_app in Hx as [Hx|Hx]; [by apply H2|].
        by apply Hsub, Hf.
    + done.
  - split; [apply library_installs_only_refl|]. split; intros x Hx; by apply elem_of_nil in Hx.
Qed.

End LibraryEffects.

(** An explicit revision pins what it installs: whenever the install step of
    [_cog_installrev] goes through, every record it reports as installed
    comes from a requested cog and is pinned exactly when a revision was
    given, the document filed for it in the install map carries the same
    flag, the cogs reported as failed are requested cogs, and no document of
    the install map filed under another repository and name is changed. *)
Theorem cog_installrev_pins_iff_revision (env : Env) (repo : string) (pin : bool)
    (branch_commit : string) (cogs : list Installable) (message : string) (w : World)
    (installed : list InstalledModule) (failed : list Installable) (w' : World) :
  _cog_installrev_install env repo pin branch_commit cogs message w
  = Ok (Some (installed, failed), w') ->
  (forall r, r ∈ installed ->
     im_pinned r = pin
     /\ exists cog, cog ∈ cogs /\ im_key r = key cog /\ im_commit r = commit cog)
  /\ (forall r, r ∈ installed -> im_type r = COG ->
        exists j, conf_lookup (installed_cogs_conf w') (im_key r) = Some j
                  /\ json_pinned j = pin)
  /\ failed ⊆ cogs
  /\ (forall k, k ∉ key <$> cogs ->
        conf_lookup (installed_cogs_conf w') k = conf_lookup (installed_cogs_conf w) k).
Proof.
  unfold _cog_installrev_install. intros Hrun.
  apply bind_inv in Hrun as (failed_reqs & w1 & Hreqs & Hrun).
  destruct failed_reqs as [|? ?].
  2:{ apply bind_inv in Hrun as (? & ? & _ & Hrun).
      apply bind_inv in Hrun as (? & ? & _ & Hret). discriminate. }
  apply install_requirements_failed_world in Hreqs as (events & -> & _).
  apply bind_inv in Hrun as ([installed_cogs failed_cogs] & w2 & Hcogs & Hrun).
  apply bind_inv in Hrun as ([] & w2' & Hleave & Hrun).
  apply bind_inv in Hrun as ([installed_libs failed_libs] & w3 & Hlibs & Hrun).
  apply bind_inv in Hrun as ([] & w4 & Hsave & Hret).
  injection Hret as <- <- <-.
  apply install_cogs_effects in Hcogs as ((Hc2 & _) & Hinst & Hfail).
  assert (Hc2' : installed_cogs_conf w2' = installed_cogs_conf w2).
  { destruct pin; [|by injection Hleave as <-].
    unfold checkout, modify_world in Hleave. by injection Hleave as <-. }
  apply install_libraries_effects in Hlibs as ((Hc3 & _) & _ & Hilibs & _).
  unfold _save_to_installed, modify_world in Hsave. injection Hsave as <-.
  cbn [installed_cogs_conf set_conf].
  rewrite Hc3, Hc2', Hc2. cbn [installed_cogs_conf with_trace].
  set (pinned := if pin then (fun cog => set_pinned cog true) <$> installed_cogs
                 else installed_cogs).
  assert (Hpinned : forall r, r ∈ pinned ->
            im_pinned r = pin
            /\ exists cog, cog ∈ cogs /\ im_key r = key cog /\ im_commit r = commit cog).
  { intros r Hr. unfold pinned in Hr. destruct pin.
    - apply list_elem_of_fmap in Hr as (r0 & -> & Hr0).
      apply Hinst, list_elem_of_fmap in Hr0 as (cog & -> & Hcog).
      split; [done|]. by exists cog.
    - apply Hinst, list_elem_of_fmap in Hr as (cog & -> & Hcog).
      split; [done|]. by exists cog. }
  assert (Hlib_types : forall l, l ∈ installed_libs -> im_type l = SHARED_LIBRARY).
  { intros l Hl. apply Hilibs, list_elem_of_fmap in Hl as (lib & -> & Hlib).
    unfold libraries_to_install, available_libraries in Hlib.
    by apply list_elem_of_filter in Hlib as [? _]. }
  assert (Hfound : forall k m,
            find (fun m => bool_decide (im_type m = COG /\ im_key m = k))
                 (reverse (pinned ++ installed_libs)) = Some m ->
            m ∈ pinned /\ im_key m = k).
  { intros k m Hfind. apply find_some in Hfind as [Hm Hk].
    apply bool_decide_eq_true in Hk as [Htype Hk].
    apply list_elem_of_In in Hm. rewrite elem_of_reverse in Hm.
    apply elem_of_app in Hm as [Hm|Hm]; [done|].
    apply Hlib_types in Hm. congruence. }
  split; [exact Hpinned|]. split; [|split; [done|]].
  - intros r Hr Htype. rewrite (save_all_lookup COG) by done.
    destruct (find _ (reverse (pinned ++ installed_libs))) as [m|] eqn:Hfind.
    + apply Hfound in Hfind as [Hm _]. exists (to_json m). split; [done|].
      by apply Hpinned in Hm as [? _].
    + assert (Hin : In r (reverse (pinned ++ installed_libs))).
      { apply list_elem_of_In. rewrite elem_of_reverse. apply elem_of_app. by left. }
      pose proof (find_none _ _ Hfind r Hin) as Hno. simpl in Hno.
      apply bool_decide_eq_false in Hno. by destruct Hno.
  - intros k Hk. rewrite (save_all_lookup COG) by done.
    destruct (find _ (reverse (pinned ++ installed_libs))) as [m|] eqn:Hfind; [|done].
    apply Hfound in Hfind as [Hm Hkey]. apply Hpinned in Hm as [_ (cog & Hcog & Hkc & _)].
    exfalso. apply Hk. rewrite <- Hkey, Hkc. apply list_elem_of_fmap. by exists cog.
Qed.

(** * The update commands *)

Section UpdateCommandsProofs.

Context (env : Env) (update_repos : option (list string) -> M (list string)).

(** What [_get_cogs_to_check] selects whenever it returns. *)
Lemma get_cogs_to_check_run (repo_names : list string) (cogs : list InstalledModule)
    (update : bool) w cogs_to_check failed w1 :
  _get_cogs_to_check update_repos repo_names cogs update w
  = Ok ((cogs_to_check, failed), w1) ->
  (if update then exists arg, update_repos arg w = Ok (failed, w1)
                             /\ (cogs = [] -> repo_names = [] -> arg = None)
   else failed = [] /\ w1 = w)
  /\ NoDup (im_key <$> cogs_to_check)
  /\ (forall cog, cog ∈ cogs_to_check ->
        (im_repo_name cog ∉ failed)
        /\ (cogs <> [] -> cog ∈ cogs /\ is_Some (repos w !! im_repo_name cog))
        /\ (cogs = [] -> cog ∈ records_of COG (installed_cogs_conf w1)
                         /\ is_Some (repos w1 !! im_repo_name cog))
        /\ (repo_names <> [] -> im_repo_name cog ∈ repo_names)).
Proof.
  unfold _get_cogs_to_check. intros Hrun.
  apply bind_inv in Hrun as (w0 & w0' & Hget & Hrun).
  unfold get_world in Hget. injection Hget as <- <-.
  assert (Hupdate : forall arg failed' w2,
            (if update then update_repos arg else mret []) w = Ok (failed', w2) ->
            (cogs = [] -> repo_names = [] -> arg = None) ->
            if update then exists arg, update_repos arg w = Ok (failed', w2)
                                       /\ (cogs = [] -> repo_names = [] -> arg = None)
            else failed' = [] /\ w2 = w).
  { intros arg failed' w2 H Harg. destruct update; [by exists arg|].
    by injection H as <- <-. }
  assert (Hsel : forall (P : InstalledModule -> Prop) `{forall x, Decision (P x)}
                        (l : list InstalledModule) cog,
            cog ∈ to_set im_key (filter P l) -> cog ∈ l /\ P cog).
  { intros P ? l cog Hin. destruct (to_set_spec im_key (filter P l)) as (_ & Hsub & _).
    apply Hsub, list_elem_of_filter in Hin as [? ?]. done. }
  destruct cogs as [|c0 cogs0]; [destruct repo_names as [|r0 repo_names0]|].
  - apply bind_inv in Hrun as (failed' & w2 & Hup & Hrun).
    apply Hupdate in Hup; [|done].
    unfold mbind, M_bind, installed_cogs, get_world, mret, M_ret in Hrun.
    injection Hrun as <- <- <-.
    split; [done|]. split; [apply to_set_spec|].
    intros cog Hin. apply Hsel in Hin as [Hin [Hreg Hfailed]].
    split; [done|]. split; [done|]. split; [done|]. done.
  - apply bind_inv in Hrun as (failed' & w2 & Hup & Hrun).
    apply Hupdate in Hup; [|done].
    unfold mbind, M_bind, installed_cogs, get_world, mret, M_ret in Hrun.
    injection Hrun as <- <- <-.
    split; [done|]. split; [apply to_set_spec|].
    intros cog Hin. apply Hsel in Hin as [Hin [Hreg Hrepo]].
    assert (Hboth : (im_repo_name cog ∉ failed') /\ im_repo_name cog ∈ r0 :: repo_names0).
    { destruct failed' as [|f0 failed0]; [split; [by intros ?%elem_of_nil | done]|].
      apply list_elem_of_filter in Hrepo as [? ?]. done. }
    destruct Hboth as [Hf Hr].
    split; [done|]. split; [done|]. split; [done|]. done.
  - set (names := match repo_names with
                  | [] => repos_of w (c0 :: cogs0)
                  | _ => repo_names
                  end) in *.
    apply bind_inv in Hrun as (failed' & w2 & Hup & Hrun).
    apply Hupdate in Hup; [|done]. unfold mret, M_ret in Hrun. injection Hrun as <- <- <-.
    split; [done|]. split; [apply to_set_spec|].
    intros cog Hin. apply Hsel in Hin as [Hin [Hreg Hrepo]].
    assert (Hboth : (im_repo_name cog ∉ failed') /\ im_repo_name cog ∈ names).
    { destruct failed' as [|f0 failed0]; [split; [by intros ?%elem_of_nil | done]|].
      apply list_elem_of_filter in Hrepo as [? ?]. done. }
    destruct Hboth as [Hf Hr].
    split; [done|]. split; [done|]. split; [done|].
    intros Hne. unfold names in Hr. by destruct repo_names.
Qed.

End UpdateCommandsProofs.

(** Whenever the selection of the cogs to check returns, it holds no record
    twice, no cog whose repository failed to update and no cog whose
    repository is not registered; for a request that names cogs it holds
    cogs of the request only, for one that names none it holds installed
    cogs only, and for one that names repositories it holds cogs of those
    repositories only. *)
Theorem get_cogs_to_check_selects
    (update_repos : option (list string) -> M (list string))
    (repo_names : list string) (cogs : list InstalledModule) (update : bool)
    (w : World) (cogs_to_check : list InstalledModule) (failed : list string) (w1 : World) :
  _get_cogs_to_check update_repos repo_names cogs update w
  = Ok ((cogs_to_check, failed), w1) ->
  NoDup (im_key <$> cogs_to_check)
  /\ (forall cog, cog ∈ cogs_to_check ->
        (im_repo_name cog ∉ failed)
        /\ (cogs <> [] -> cog ∈ cogs /\ is_Some (repos w !! im_repo_name cog))
        /\ (cogs = [] -> cog ∈ records_of COG (installed_cogs_conf w1)
                         /\ is_Some (repos w1 !! im_repo_name cog))
        /\ (repo_names <> [] -> im_repo_name cog ∈ repo_names)).
Proof. intros Hrun. by apply get_cogs_to_check_run in Hrun as [_ ?]. Qed.

Lemma lift_inv {A} (r : Result A) w a w' : lift r w = Ok (a, w') -> r = Ok a /\ w' = w.
Proof. unfold lift. destruct r; [|done]. by intros [= <- <-]. Qed.

Lemma library_record_type w m : m ∈ library_records w -> im_type m = SHARED_LIBRARY.
Proof.
  unfold library_records. intros Hm.
  by apply elem_of_records_of in Hm as (? & ? & ? & ? & _ & _ & ->).
Qed.

(** What [_available_updates] changes in the install map of the cogs: it
    moves commits only. *)
Lemma available_updates_moves_commits (env : Env) (cogs : list InstalledModule) w result w' :
  conf_consistent (installed_cogs_conf w) ->
  (forall c, c ∈ cogs -> c ∈ records_of COG (installed_cogs_conf w)) ->
  _available_updates env cogs w = Ok (result, w') ->
  forall k,
    (fun j => (json_repo_name j, json_module_name j, json_pinned j))
      <$> conf_lookup (installed_cogs_conf w') k
    = (fun j => (json_repo_name j, json_module_name j, json_pinned j))
      <$> conf_lookup (installed_cogs_conf w) k.
Proof.
  intros Hcons Hrecords Hrun k.
  destruct (available_updates_run env w cogs)
    as (hashes & uc & cu & lu & Hrun' & _ & _ & Huc & _).
  cbv zeta in Hrun'. rewrite Hrun' in Hrun. injection Hrun as _ <-.
  cbn [installed_cogs_conf set_conf].
  destruct (saved_spec (installed_cogs_conf w) (installed_libraries_conf w) uc)
    as (_ & _ & Hcogs & _).
  destruct (Hcogs k) as [(u & Hu & Htype & Hkey & ->)|[_ ->]]; [|done].
  destruct (Huc u Hu) as (m & Hm & _ & _ & ->).
  apply candidate_source in Hm as [[Hm _]|Hm].
  - apply Hrecords, (records_of_lookup _ _ _ Hcons) in Hm as [Hm _].
    change (im_key (fast_forward w m)) with (im_key m) in Hkey.
    rewrite <- Hkey, Hm. done.
  - apply library_record_type in Hm. simpl in Htype. congruence.
Qed.

(** Checking for updates installs nothing: whenever the command returns, it
    has, after the update of the repositories, issued diff queries and sent
    one message and nothing else; the files of the cogs and of the shared
    libraries, the commits checked out and the loaded extensions are as the
    update of the repositories left them, and in a consistent install map
    every document keeps its repository, name and pin flag. *)
Theorem cog_checkforupdates_installs_nothing (env : Env)
    (update_repos : option (list string) -> M (list string)) (w w' : World) :
  _cog_checkforupdates env update_repos w = Ok (tt, w') ->
  exists failed w1 events message,
    update_repos None w = Ok (failed, w1)
    /\ trace w' = EvSend message :: events ++ trace w1
    /\ length (diff_pairs events) = length events
    /\ install_path w' = install_path w1
    /\ sharedlib_path w' = sharedlib_path w1
    /\ repos w' = repos w1
    /\ extensions w' = extensions w1
    /\ (conf_consistent (installed_cogs_conf w1) ->
        forall k,
          (fun j => (json_repo_name j, json_module_name j, json_pinned j))
            <$> conf_lookup (installed_cogs_conf w') k
          = (fun j => (json_repo_name j, json_module_name j, json_pinned j))
            <$> conf_lookup (installed_cogs_conf w1) k).
Proof.
  unfold _cog_checkforupdates. intros Hrun.
  apply bind_inv in Hrun as ([cogs_to_check failed] & w1 & Hcheck & Hrun).
  pose proof (get_cogs_to_check_run update_repos _ _ _ _ _ _ _ Hcheck)
    as ((arg & Hupdate & Harg) & _ & Hsel).
  rewrite Harg in Hupdate by done. clear Harg arg.
  apply bind_inv in Hrun as ([cogs_to_update libs_to_update] & w2 & Hupdates & Hrun).
  apply bind_inv in Hrun as ([cogs_to_update' filter_message] & w3 & Hfilter & Hrun).
  apply lift_inv in Hfilter as [_ ->].
  apply bind_inv in Hrun as (message1 & w3 & Hm1 & Hrun).
  assert (w3 = w2) as ->.
  { destruct cogs_to_update' as [|first rest]; [by injection Hm1 as _ <-|].
    destruct (plural (first :: rest)); [by injection Hm1 as _ <-|].
    apply bind_inv in Hm1 as (text & w4 & Htext & Hret).
    apply lift_inv in Htext as [_ ->]. by injection Hret as _ <-. }
  apply bind_inv in Hrun as (message2 & w3 & Hm2 & Hrun).
  assert (w3 = w2) as ->.
  { destruct libs_to_update as [|first rest]; [by injection Hm2 as _ <-|].
    destruct (plural (name <$> first :: rest)); [by injection Hm2 as _ <-|].
    apply bind_inv in Hm2 as (text & w4 & Htext & Hret).
    apply lift_inv in Htext as [_ ->]. by injection Hret as _ <-. }
  unfold send_pagified, modify_world in Hrun. injection Hrun as <-.
  destruct (available_updates_run env w1 cogs_to_check)
    as (hashes & uc & cu & lu & Hrun' & _).
  cbv zeta in Hrun'. pose proof Hupdates as Hupdates'.
  rewrite Hrun' in Hupdates'. injection Hupdates' as _ _ <-.
  eexists failed, w1, (reverse (diff_event w1 <$> hashes)), _.
  split; [exact Hupdate|]. split; [reflexivity|].
  split; [by rewrite diff_pairs_reverse, diff_pairs_events, !length_reverse, !length_fmap|].
  split; [done|]. split; [done|]. split; [done|]. split; [done|].
  intros Hcons k.
  change (installed_cogs_conf (log_event _ ?x)) with (installed_cogs_conf x).
  eapply available_updates_moves_commits; [done | | exact Hupdates].
  intros c Hc. by apply Hsel in Hc as (_ & _ & [? _] & _).
Qed.

(** * Updating: what is saved, and what pinning protects *)

Section UpdateEffects.

Context (env : Env).

(** What [_update_cogs_and_libs] leaves behind whenever it returns. *)
Lemma update_cogs_and_libs_effects (cogs_to_update libs_to_update : list Installable)
    w names message w' :
  _update_cogs_and_libs env cogs_to_update libs_to_update w = Ok ((names, message), w') ->
  exists (installed_cogs installed_libs : list InstalledModule) events,
    installed_cogs ⊆ from_installable <$> cogs_to_update
    /\ installed_libs ⊆ from_installable <$> libs_to_update
    /\ names = remove_dups (im_name <$> installed_cogs)
    /\ (installed_cogs_conf w', installed_libraries_conf w')
       = foldl (by_type conf_store) (installed_cogs_conf w, installed_libraries_conf w)
           (installed_cogs ++ installed_libs)
    /\ extensions w' = extensions w
    /\ trace w' = events ++ trace w
    /\ (forall e, e ∈ events ->
          is_pip_event e
          \/ (exists c, c ∈ cogs_to_update /\ e = EvCopy c false)
          \/ (exists lib, lib ∈ libs_to_update /\ e = EvCopy lib true)).
Proof.
  unfold _update_cogs_and_libs. intros Hrun.
  apply bind_inv in Hrun as (failed_reqs & w1 & Hreqs & Hrun).
  apply install_requirements_failed_world in Hreqs as (events1 & -> & Hpip).
  rewrite Forall_forall in Hpip.
  destruct failed_reqs as [|? ?].
  2:{ injection Hrun as <- <- <-. exists [], [], events1.
      split; [apply list_subseteq_nil|]. split; [apply list_subseteq_nil|].
      split; [done|]. split; [done|].
      split; [done|]. split; [done|]. intros e He. left. by apply Hpip. }
  apply bind_inv in Hrun as ([installed_cogs failed_cogs] & w2 & Hcogs & Hrun).
  apply bind_inv in Hrun as ([installed_libs failed_libs] & w3 & Hlibs & Hrun).
  apply bind_inv in Hrun as ([] & w4 & Hsave & Hrun).
  apply install_cogs_effects in Hcogs
    as ((Hc2 & Hl2 & _ & He2 & _ & events2 & Ht2 & Hev2) & Hinst & _).
  apply reinstall_libraries_effects in Hlibs
    as ((Hc3 & Hl3 & _ & He3 & events3 & Ht3 & Hev3) & Hilibs & _).
  unfold _save_to_installed, modify_world in Hsave. injection Hsave as <-.
  apply bind_inv in Hrun as (message1 & w5 & Hmessage & Hret).
  assert (w5 = set_conf
            (foldl (by_type conf_store) (installed_cogs_conf w3, installed_libraries_conf w3)
               (installed_cogs ++ installed_libs)).1
            (foldl (by_type conf_store) (installed_cogs_conf w3, installed_libraries_conf w3)
               (installed_cogs ++ installed_libs)).2 w3) as ->.
  { destruct installed_cogs as [|first rest]; [by injection Hmessage as _ <-|].
    destruct (plural (first :: rest)); [by injection Hmessage as _ <-|].
    apply bind_inv in Hmessage as (text & w6 & Htext & Hret').
    apply lift_inv in Htext as [_ ->]. by injection Hret' as _ <-. }
  injection Hret as <- _ <-.
  exists installed_cogs, installed_libs, (events3 ++ events2 ++ events1).
  split; [done|]. split; [done|]. split; [by destruct installed_cogs|].
  cbn [installed_cogs_conf installed_libraries_conf extensions trace set_conf].
  rewrite Hc3, Hl3, Hc2, Hl2, He3, He2, Ht3, Ht2.
  cbn [installed_cogs_conf installed_libraries_conf extensions trace with_trace].
  split; [symmetry; apply surjective_pairing|]. split; [done|].
  split; [by rewrite <- !app_assoc|].
  intros e He. apply elem_of_app in He as [He|He]; [|apply elem_of_app in He as [He|He]].
  - destruct (Hev3 e He) as [?|?]; [by left | right; by right].
  - right. left. by apply Hev2.
  - left. by apply Hpip.
Qed.

Lemma filter_incorrect_cogs_sub (cogs correct : list Installable) message :
  _filter_incorrect_cogs env cogs = Ok (correct, message) ->
  correct = filter (accepted env) cogs.
Proof.
  unfold _filter_incorrect_cogs.
  destruct (filter_loop env cogs) as (py & bot & -> & _). simpl.
  destruct (python_message env py); [|done]. simpl.
  destruct (bot_message env bot); [|done]. simpl. by intros [= <- _].
Qed.

Lemma repos_with_libs_world (modules : list Installable) w names w' :
  repos_with_libs env modules w = Ok (names, w') -> w' = w.
Proof.
  unfold repos_with_libs. intros Hrun.
  apply bind_inv in Hrun as (names' & w1 & Hloop & Hret).
  injection Hret as _ <-.
  apply (for_each_invariant_ok (fun _ (_ : list string) w1 => w1 = w) _ modules) in Hloop;
    [done| |done].
  intros done module acc w2 acc' w3 _ -> Hbody.
  apply bind_inv in Hbody as (c & w4 & Hcommit & Hbody).
  unfold repo_commit in Hcommit. destruct (repos w !! repo_name module); [|done].
  injection Hcommit as _ <-.
  unfold mbind, M_bind, get_world in Hbody.
  by destruct (available_libraries env w (repo_name module)); injection Hbody as _ <-.
Qed.

End UpdateEffects.

(** An update files what it installed: whenever [_update_cogs_and_libs]
    returns, the names it reports are the names of the cogs it installed,
    each of them a candidate; the document filed for an installed cog carries
    the candidate's commit and is not pinned; and no document of the cog map
    filed under the repository and name of no candidate is changed. *)
Theorem update_files_installed_cogs (env : Env)
    (cogs_to_update libs_to_update : list Installable) (w : World)
    (names : list string) (message : string) (w' : World) :
  _update_cogs_and_libs env cogs_to_update libs_to_update w = Ok ((names, message), w') ->
  exists installed_cogs : list InstalledModule,
    installed_cogs ⊆ from_installable <$> cogs_to_update
    /\ names = remove_dups (im_name <$> installed_cogs)
    /\ (forall r, r ∈ installed_cogs -> im_type r = COG ->
          exists j cog, conf_lookup (installed_cogs_conf w') (im_key r) = Some j
                        /\ json_pinned j = false
                        /\ (cog ∈ cogs_to_update ++ libs_to_update)
                        /\ key cog = im_key r /\ json_commit j = commit cog)
    /\ (forall k, k ∉ key <$> (cogs_to_update ++ libs_to_update) ->
          conf_lookup (installed_cogs_conf w') k = conf_lookup (installed_cogs_conf w) k).
Proof.
  intros Hrun.
  apply update_cogs_and_libs_effects in Hrun
    as (installed_cogs & installed_libs & events & Hinst & Hilibs & Hnames & Hconf & _).
  exists installed_cogs. split; [done|]. split; [done|].
  assert (Hcogs_conf : installed_cogs_conf w'
            = (foldl (by_type conf_store) (installed_cogs_conf w, installed_libraries_conf w)
                 (installed_cogs ++ installed_libs)).1) by (by rewrite <- Hconf).
  rewrite Hcogs_conf.
  assert (Hsource : forall m, m ∈ installed_cogs ++ installed_libs ->
            exists cog, cog ∈ cogs_to_update ++ libs_to_update /\ m = from_installable cog).
  { intros m Hm. apply elem_of_app in Hm as [Hm|Hm].
    - apply Hinst, list_elem_of_fmap in Hm as (cog & -> & Hcog).
      exists cog. split; [|done]. apply elem_of_app. by left.
    - apply Hilibs, list_elem_of_fmap in Hm as (cog & -> & Hcog).
      exists cog. split; [|done]. apply elem_of_app. by right. }
  split.
  - intros r Hr Htype. rewrite (save_all_lookup COG) by done.
    destruct (find _ (reverse (installed_cogs ++ installed_libs))) as [m|] eqn:Hfind.
    + apply find_some in Hfind as [Hm Hk].
      apply bool_decide_eq_true in Hk as [_ Hk].
      apply list_elem_of_In in Hm. rewrite elem_of_reverse in Hm.
      apply Hsource in Hm as (cog & Hcog & ->).
      exists (to_json (from_installable cog)), cog. by rewrite <- Hk.
    + assert (Hin : In r (reverse (installed_cogs ++ installed_libs))).
      { apply list_elem_of_In. rewrite elem_of_reverse. apply elem_of_app. by left. }
      pose proof (find_none _ _ Hfind r Hin) as Hno. simpl in Hno.
      apply bool_decide_eq_false in Hno. by destruct Hno.
  - intros k Hk. rewrite (save_all_lookup COG) by done.
    destruct (find _ (reverse (installed_cogs ++ installed_libs))) as [m|] eqn:Hfind; [|done].
    apply find_some in Hfind as [Hm Hkey].
    apply bool_decide_eq_true in Hkey as [_ Hkey].
    apply list_elem_of_In in Hm. rewrite elem_of_reverse in Hm.
    apply Hsource in Hm as (cog & Hcog & ->).
    exfalso. apply Hk. rewrite <- Hkey. apply list_elem_of_fmap. by exists cog.
Qed.

(** A pinned cog is left alone by an update: whenever the update command
    returns, then for every repository and name all of whose records, in the
    request and in the install map, are pinned, and which no installed shared
    library bears, the document filed in the install map is the one the
    update of the repositories left, and no module of that repository and
    name has been copied into the cog install path. *)
Theorem cog_update_leaves_pinned_alone (env : Env)
    (update_repos : option (list string) -> M (list string))
    (repo_names : list string) (cogs : list InstalledModule) (w : World)
    (result : option (list string)) (w' : World) :
  _cog_update_logic env update_repos repo_names cogs w = Ok (result, w') ->
  exists arg failed w1,
    update_repos arg w = Ok (failed, w1)
    /\ forall k : ModuleKey,
         (forall c, c ∈ cogs \/ c ∈ records_of COG (installed_cogs_conf w1) ->
            im_key c = k -> im_pinned c = true) ->
         (forall l, l ∈ library_records w1 -> im_key l <> k) ->
         conf_lookup (installed_cogs_conf w') k = conf_lookup (installed_cogs_conf w1) k
         /\ (forall c, key c = k -> EvCopy c false ∈ trace w' -> EvCopy c false ∈ trace w1).
Proof.
  unfold _cog_update_logic. intros Hrun.
  apply bind_inv in Hrun as ([cogs_to_check check_failed] & w1 & Hcheck & Hrun).
  pose proof (get_cogs_to_check_run update_repos _ _ _ _ _ _ _ Hcheck)
    as ((arg & Hupdate & _) & _ & Hsel).
  exists arg, check_failed, w1. split; [exact Hupdate|].
  intros k Hpinned Hnolib.
  set (unpinned := filter (fun cog => negb (im_pinned cog)) cogs_to_check) in *.
  assert (Hunpinned : forall c, c ∈ unpinned -> im_key c <> k).
  { intros c Hc Hk. apply list_elem_of_filter in Hc as [Hpin Hc].
    destruct (Hsel c Hc) as (_ & Hgiven & Hread & _).
    assert (Hsome : c ∈ cogs \/ c ∈ records_of COG (installed_cogs_conf w1)).
    { destruct cogs as [|c0 cogs0]; [right; by apply Hread | left; by apply Hgiven]. }
    rewrite (Hpinned c Hsome Hk) in Hpin. done. }
  apply bind_inv in Hrun
    as ([[[cogs_to_update libs_to_update] updated_cognames] message] & w2 & Hmain & Hrun).
  assert (Hmain' : conf_lookup (installed_cogs_conf w2) k
                   = conf_lookup (installed_cogs_conf w1) k
                   /\ (forall c, key c = k -> EvCopy c false ∈ trace w2 ->
                         EvCopy c false ∈ trace w1)).
  { destruct unpinned as [|u0 unpinned0] eqn:Hshape.
    { injection Hmain as _ _ _ _ <-. done. }
    rewrite <- Hshape in *. clear Hshape u0 unpinned0.
    apply bind_inv in Hmain as ([cu lu] & w3 & Hupdates & Hmain).
    apply bind_inv in Hmain as ([cu' filter_message] & w4 & Hfilter & Hmain).
    apply lift_inv in Hfilter as [Hfilter ->].
    apply filter_incorrect_cogs_sub in Hfilter. subst cu'.
    destruct (available_updates_run env w1 unpinned)
      as (hashes & uc & cu0 & lu0 & Hrun' & _ & _ & Huc & _ & _ & _ & Hcu & Hlu & _).
    cbv zeta in Hrun'. rewrite Hrun' in Hupdates. injection Hupdates as <- <- <-.
    assert (Hcandidates : forall m, m ∈ candidates env w1 unpinned ->
              im_key m = k -> im_type m <> COG).
    { intros m Hm Hk. apply candidate_source in Hm as [[Hm _]|Hm].
      - by apply Hunpinned in Hm.
      - by apply Hnolib in Hm. }
    assert (Hcu_keys : forall x, x ∈ cu0 -> key x <> k).
    { intros x Hx Hk. destruct (Hcu x Hx) as [_ [Hold|(m & Hm & _ & _ & Hkey)]].
      - destruct (cogs_checked_spec env w1 unpinned) as (_ & _ & _ & Hcu1 & _).
        destruct (Hcu1 x Hold) as (_ & c & Hc & _ & Hkey).
        apply (Hunpinned c Hc). congruence.
      - apply candidate_source in Hm as [[Hm _]|Hm].
        + apply (Hunpinned m Hm). congruence.
        + apply (Hnolib m Hm). congruence. }
    assert (Hfirst : conf_lookup
              (foldl (by_type conf_store)
                 (installed_cogs_conf w1, installed_libraries_conf w1) uc).1 k
              = conf_lookup (installed_cogs_conf w1) k).
    { destruct (saved_spec (installed_cogs_conf w1) (installed_libraries_conf w1) uc)
        as (_ & _ & Hcogs & _).
      destruct (Hcogs k) as [(u & Hu & Htype & Hkey & _)|[_ ->]]; [|done].
      destruct (Huc u Hu) as (m & Hm & _ & _ & ->).
      exfalso. by apply (Hcandidates m Hm). }
    set (w3 := set_conf _ _ _) in *.
    assert (Htrace3 : forall c, EvCopy c false ∈ trace w3 -> EvCopy c false ∈ trace w1).
    { intros c Hc. unfold w3 in Hc. cbn [trace set_conf with_trace] in Hc.
      apply elem_of_app in Hc as [Hc|Hc]; [|done].
      apply elem_of_reverse, list_elem_of_fmap in Hc as (entry & Hentry & _).
      discriminate. }
    apply bind_inv in Hmain as ([updated message'] & w5 & Hupdate2 & Hret).
    injection Hret as _ _ _ _ <-.
    destruct (match cu0 with
              | [] => match lu0 with [] => false | _ :: _ => true end
              | _ :: _ => true
              end).
    - apply bind_inv in Hupdate2 as ([names message2] & w6 & Hupdate2 & Hret).
      injection Hret as _ _ <-.
      apply update_cogs_and_libs_effects in Hupdate2
        as (installed_cogs & installed_libs & events & Hinst & Hilibs & _ & Hconf & _
            & Htrace & Hevents).
      split.
      + assert (Hcogs_conf : installed_cogs_conf w6
                  = (foldl (by_type conf_store)
                       (installed_cogs_conf w3, installed_libraries_conf w3)
                       (installed_cogs ++ installed_libs)).1) by (by rewrite <- Hconf).
        rewrite Hcogs_conf, (save_all_lookup COG) by done.
        destruct (find _ (reverse (installed_cogs ++ installed_libs))) as [m|] eqn:Hfind;
          [|exact Hfirst].
        exfalso. apply find_some in Hfind as [Hm Hkey].
        apply bool_decide_eq_true in Hkey as [Htype Hkey].
        apply list_elem_of_In in Hm. rewrite elem_of_reverse in Hm.
        apply elem_of_app in Hm as [Hm|Hm].
        * apply Hinst, list_elem_of_fmap in Hm as (x & -> & Hx).
          apply list_elem_of_filter in Hx as [_ Hx]. by apply (Hcu_keys x Hx).
        * apply Hilibs, list_elem_of_fmap in Hm as (x & -> & Hx).
          destruct (Hlu x Hx) as [Hlib _]. simpl in Htype. congruence.
      + intros c Hk Hc. rewrite Htrace in Hc.
        apply elem_of_app in Hc as [Hc|Hc]; [|by apply Htrace3].
        exfalso. destruct (Hevents _ Hc) as [Hpip|[(x & Hx & Heq)|(x & Hx & Heq)]].
        * done.
        * injection Heq as ->. apply list_elem_of_filter in Hx as [_ Hx].
          by apply (Hcu_keys x Hx).
        * discriminate.
    - assert (w5 = w3) as ->.
      { destruct repo_names; [destruct cogs|]; by injection Hupdate2 as _ _ <-. }
      split; [exact Hfirst|]. intros c _ Hc. by apply Htrace3. }
  destruct Hmain' as [Hconf Htrace].
  apply bind_inv in Hrun as (with_libs & w3 & Hlibs & Hrun).
  apply repos_with_libs_world in Hlibs as ->.
  apply bind_inv in Hrun as (message' & w3 & Hnotice & Hrun).
  assert (w3 = w2) as ->.
  { destruct with_libs; [by injection Hnotice as _ <-|].
    apply bind_inv in Hnotice as (notice & w4 & Hformat & Hret).
    apply lift_inv in Hformat as [_ ->]. by injection Hret as _ <-. }
  apply bind_inv in Hrun as ([] & w3 & Hsend & Hret).
  unfold send_pagified, modify_world in Hsend. injection Hsend as <-.
  assert (w' = log_event (EvSend message') w2) as ->.
  { destruct updated_cognames as [[|? ?]|]; by injection Hret as _ <-. }
  split; [exact Hconf|].
  intros c Hk Hc. cbn [trace log_event with_trace] in Hc.
  apply elem_of_cons in Hc as [Hc|Hc]; [discriminate|]. by apply Htrace.
Qed.

(** * The resolver: removed repositories and records without commit *)

Section ResolverExtras.

Context (env : Env) (w : World).

Lemma check_cog_unregistered acc cog :
  repos w !! im_repo_name cog = None -> check_cog env w acc cog = acc.
Proof. unfold check_cog. by intros ->. Qed.

Lemma check_cogs_registered acc (cogs : list InstalledModule) :
  foldl (check_cog env w) acc cogs
  = foldl (check_cog env w) acc
      (filter (fun cog => is_Some (repos w !! im_repo_name cog)) cogs).
Proof.
  revert acc. induction cogs as [|cog cogs IH]; intros acc; [done|].
  rewrite filter_cons. case_decide as Hreg.
  - cbn [foldl]. apply IH.
  - cbn [foldl]. rewrite check_cog_unregistered; [apply IH|].
    destruct (repos w !! im_repo_name cog); [|done]. exfalso. by apply Hreg.
Qed.

Lemma repos_of_registered (cogs : list InstalledModule) :
  repos_of w (filter (fun cog => is_Some (repos w !! im_repo_name cog)) cogs)
  = repos_of w cogs.
Proof.
  unfold repos_of. f_equal. f_equal.
  induction cogs as [|cog cogs IH]; [done|].
  rewrite !filter_cons. case_decide as Hreg; [|done].
  rewrite filter_cons, decide_True by done. by rewrite IH.
Qed.

(** The cogs marked for update by name, without a diff. *)
Lemma legacy_checked_spec (cogs : list InstalledModule) :
  (forall x, x ∈ (cogs_checked env w cogs).2 ->
     exists c, c ∈ cogs /\ im_commit c = "" /\ is_Some (repos w !! im_repo_name c)
               /\ get_last_module_occurrence env (im_repo_name c) (im_name c) = Some x
               /\ disabled (meta x) = false)
  /\ (forall c x, c ∈ cogs -> im_commit c = "" -> is_Some (repos w !! im_repo_name c) ->
        get_last_module_occurrence env (im_repo_name c) (im_name c) = Some x ->
        disabled (meta x) = false ->
        key x ∈ key <$> (cogs_checked env w cogs).2).
Proof.
  unfold cogs_checked.
  apply (foldl_invariant
    (fun done (acc : list InstalledModule * list Installable) =>
       (forall x, x ∈ acc.2 ->
          exists c, c ∈ done /\ im_commit c = "" /\ is_Some (repos w !! im_repo_name c)
                    /\ get_last_module_occurrence env (im_repo_name c) (im_name c) = Some x
                    /\ disabled (meta x) = false)
       /\ (forall c x, c ∈ done -> im_commit c = "" ->
             is_Some (repos w !! im_repo_name c) ->
             get_last_module_occurrence env (im_repo_name c) (im_name c) = Some x ->
             disabled (meta x) = false ->
             key x ∈ key <$> acc.2))).
  - split; [intros x Hx; by apply elem_of_nil in Hx|].
    intros c x Hc. by apply elem_of_nil in Hc.
  - intros done cog [modules cu] _ [Hsound Hcomplete]. cbn [fst snd] in *.
    assert (Hweaken : forall x,
      (exists c, c ∈ done /\ im_commit c = "" /\ is_Some (repos w !! im_repo_name c)
                 /\ get_last_module_occurrence env (im_repo_name c) (im_name c) = Some x
                 /\ disabled (meta x) = false) ->
      exists c, c ∈ done ++ [cog] /\ im_commit c = ""
                /\ is_Some (repos w !! im_repo_name c)
                /\ get_last_module_occurrence env (im_repo_name c) (im_name c) = Some x
                /\ disabled (meta x) = false).
    { intros x (c & Hc & Hrest). exists c. split; [|done]. apply elem_of_app. by left. }
    unfold check_cog. cbn [fst snd].
    destruct (repos w !! im_repo_name cog) as [head|] eqn:Hrepo.
    + case_bool_decide as Hknown; cbn [fst snd].
      * split; [intros x Hx; by apply Hweaken, Hsound|].
        intros c x Hc Hcommit Hreg Hlast Hdis.
        apply elem_of_app in Hc as [Hc|Hc]; [by eapply Hcomplete|].
        apply list_elem_of_singleton in Hc as ->. done.
      * assert (Hempty : im_commit cog = "")
          by (destruct (decide (im_commit cog = "")); tauto).
        destruct (get_last_module_occurrence env (im_repo_name cog) (im_name cog))
          as [last|] eqn:Hlast; [destruct (disabled (meta last)) eqn:Hdis|]; cbn [fst snd].
        -- split; [intros x Hx; by apply Hweaken, Hsound|].
           intros c x Hc Hcommit Hreg Hlast' Hdis'.
           apply elem_of_app in Hc as [Hc|Hc]; [by eapply Hcomplete|].
           apply list_elem_of_singleton in Hc as ->. congruence.
        -- split.
           ++ intros x Hx. apply elem_of_set_add in Hx as [Hx|[-> _]];
                [by apply Hweaken, Hsound|].
              exists cog. split; [apply elem_of_snoc_r|]. split; [done|].
              split; [by rewrite Hrepo | done].
           ++ intros c x Hc Hcommit Hreg Hlast' Hdis'. apply set_add_keys.
              apply elem_of_app in Hc as [Hc|Hc]; [left; by eapply Hcomplete|].
              apply list_elem_of_singleton in Hc as ->. right. congruence.
        -- split; [intros x Hx; by apply Hweaken, Hsound|].
           intros c x Hc Hcommit Hreg Hlast' Hdis'.
           apply elem_of_app in Hc as [Hc|Hc]; [by eapply Hcomplete|].
           apply list_elem_of_singleton in Hc as ->. congruence.
    + split; [intros x Hx; by apply Hweaken, Hsound|].
      intros c x Hc Hcommit Hreg Hlast Hdis.
      apply elem_of_app in Hc as [Hc|Hc]; [by eapply Hcomplete|].
      apply list_elem_of_singleton in Hc as ->. rewrite Hrepo in Hreg. by destruct Hreg.
Qed.

End ResolverExtras.

(** Records whose repository is no longer registered take no part in the
    resolution: the resolver does on a request what it does on the request
    without them. *)
Theorem available_updates_ignores_removed_repos (env : Env)
    (cogs : list InstalledModule) (w : World) :
  _available_updates env cogs w
  = _available_updates env
      (filter (fun cog => is_Some (repos w !! im_repo_name cog)) cogs) w.
Proof.
  rewrite !available_updates_unfold.
  set (registered := filter (fun cog => is_Some (repos w !! im_repo_name cog)) cogs).
  assert (Hlibs : libraries_checked env w registered = libraries_checked env w cogs).
  { unfold libraries_checked, published_libraries, registered.
    by rewrite repos_of_registered. }
  assert (Hcogs : cogs_checked env w registered = cogs_checked env w cogs).
  { unfold cogs_checked. rewrite Hlibs. symmetry. apply check_cogs_registered. }
  unfold candidates. by rewrite Hcogs, Hlibs.
Qed.

Lemma last_occurrence_key (env : Env) repo module_name x :
  get_last_module_occurrence env repo module_name = Some x -> key x = (repo, module_name).
Proof.
  unfold get_last_module_occurrence.
  destruct (last_module_occurrence env repo module_name) as [cm|]; [|done].
  by intros [= <-].
Qed.

(** A record without commit is resolved by name, never by diff: in a request
    that is a set, such a record of a registered repository, whose repository
    and name no installed library bears, is marked for update exactly when
    the last occurrence of its module exists and is enabled; the candidate
    returned for it is that last occurrence, and the record's document in the
    install map is left as it was. *)
Theorem available_updates_resolves_legacy_by_name (env : Env) (w : World)
    (cogs : list InstalledModule) (r : InstalledModule) :
  NoDup (im_key <$> cogs) ->
  r ∈ cogs ->
  im_commit r = "" ->
  is_Some (repos w !! im_repo_name r) ->
  (forall l, l ∈ library_records w -> im_key l <> im_key r) ->
  exists cogs_to_update libraries_to_update w',
    _available_updates env cogs w = Ok ((cogs_to_update, libraries_to_update), w')
    /\ (im_key r ∈ key <$> cogs_to_update <->
        exists x, get_last_module_occurrence env (im_repo_name r) (im_name r) = Some x
                  /\ disabled (meta x) = false)
    /\ (forall x, x ∈ cogs_to_update -> key x = im_key r ->
          get_last_module_occurrence env (im_repo_name r) (im_name r) = Some x)
    /\ conf_lookup (installed_cogs_conf w') (im_key r)
       = conf_lookup (installed_cogs_conf w) (im_key r).
Proof.
  intros Hnd Hr Hcommit Hreg Hnolib.
  destruct (available_updates_run env w cogs)
    as (hashes & uc & cu & lu & Hrun & _ & _ & Huc & _ & Hsub & _ & Hcu & _).
  cbv zeta in Hrun.
  destruct (legacy_checked_spec env w cogs) as [Hsound Hcomplete].
  assert (Hcandidate : forall m, m ∈ candidates env w cogs -> im_key m <> im_key r).
  { intros m Hm Hkey. apply candidate_source in Hm as [[Hm Hknown]|Hm].
    - assert (m = r) as -> by (by apply (NoDup_key_inj im_key cogs)). done.
    - by apply (Hnolib m). }
  assert (Hsource : forall x, x ∈ cu -> key x = im_key r ->
            get_last_module_occurrence env (im_repo_name r) (im_name r) = Some x
            /\ disabled (meta x) = false).
  { intros x Hx Hkey. destruct (Hcu x Hx) as [_ [Hold|(m & Hm & _ & _ & Hkm)]].
    - destruct (Hsound x Hold) as (c & Hc & _ & _ & Hlast & Hdis).
      assert (c = r) as ->.
      { apply (NoDup_key_inj im_key cogs); [done..|].
        apply last_occurrence_key in Hlast. unfold im_key at 1. congruence. }
      done.
    - exfalso. apply (Hcandidate m Hm). congruence. }
  eexists cu, lu, _. split; [exact Hrun|]. split; [|split].
  - split.
    + intros Hin. apply list_elem_of_fmap in Hin as (x & Hkey & Hx).
      exists x. by apply Hsource.
    + intros (x & Hlast & Hdis).
      pose proof (Hcomplete r x Hr Hcommit Hreg Hlast Hdis) as Hin.
      apply last_occurrence_key in Hlast. change (im_key r) with (im_repo_name r, im_name r).
      rewrite <- Hlast.
      apply list_elem_of_fmap in Hin as (y & -> & Hy).
      apply list_elem_of_fmap. exists y. split; [done | by apply Hsub].
  - intros x Hx Hkey. by apply Hsource.
  - cbn [installed_cogs_conf set_conf].
    destruct (saved_spec (installed_cogs_conf w) (installed_libraries_conf w) uc)
      as (_ & _ & Hcogs & _).
    destruct (Hcogs (im_key r)) as [(u & Hu & _ & Hkey & _)|[_ ->]]; [|done].
    destruct (Huc u Hu) as (m & Hm & _ & _ & ->).
    exfalso. by apply (Hcandidate m Hm).
Qed.

(** * Installing: repositories that are gone, and reinstalling libraries *)

Lemma dict_upsert_keys_sup {K V} `{EqDecision K} (k : K) (f : option V -> V)
    (d : list (K * V)) k' :
  k' = k \/ k' ∈ d.*1 -> k' ∈ (dict_upsert k f d).*1.
Proof.
  induction d as [|[k0 v] d IH]; csimpl.
  - intros [->|Hin]; [by left | by apply elem_of_nil in Hin].
  - case_decide as Hk; csimpl; rewrite !elem_of_cons.
    + subst k0. intros [->|[->|Hin]]; [by left | by left | by right].
    + intros [->|[->|Hin]]; [right; apply IH; by left | by left | right; apply IH; by right].
Qed.

Lemma group_by_repo_commit_covers (cogs : list Installable) cog :
  cog ∈ cogs -> repo_name cog ∈ (group_by_repo_commit cogs).*1.
Proof.
  unfold group_by_repo_commit. intros Hin.
  apply (foldl_invariant
    (fun done (repos : list (string * list (string * list Installable))) =>
       forall c, c ∈ done -> repo_name c ∈ repos.*1)); [| |done].
  - intros c Hc. by apply elem_of_nil in Hc.
  - intros done x repos _ Hdone c Hc. apply dict_upsert_keys_sup.
    apply elem_of_app in Hc as [Hc|Hc]; [right; by apply Hdone|].
    apply list_elem_of_singleton in Hc as ->. by left.
Qed.

Section RemovedRepository.

Context (env : Env).

Lemma settled_nil acc : settled env [] acc.
Proof. intros cog Hin. by apply elem_of_nil in Hin. Qed.

Lemma install_entries_unregistered
    (entries : list (string * list (string * list Installable))) acc w :
  (exists entry, entry ∈ entries /\ repos w !! entry.1 = None) ->
  for_each entries (fun entry acc =>
    exit_to_commit ← repo_commit entry.1;
    acc ← for_each entry.2 (fun group acc =>
      checkout entry.1 group.1;;
      for_each group.2 (fun cog acc =>
        ok ← copy_to env cog false;
        mret (if ok : bool then (acc.1 ++ [from_installable cog], acc.2)
              else (acc.1, acc.2 ++ [cog]))) acc) acc;
    checkout entry.1 exit_to_commit;;
    mret acc) acc w = Raise AttributeError.
Proof.
  revert acc w. induction entries as [|entry entries IH]; intros acc w (bad & Hbad & Hnone).
  { by apply elem_of_nil in Hbad. }
  cbn [for_each].
  destruct (repos w !! entry.1) as [head|] eqn:Hrepo.
  - destruct (install_entry_run env [] entry acc w) as (acc' & w' & Hrun & Hrepos & _);
      [by rewrite Hrepo | apply settled_nil |].
    rewrite (bind_ok _ _ _ _ _ Hrun). apply IH. exists bad. split; [|by rewrite Hrepos].
    apply elem_of_cons in Hbad as [->|Hbad]; [congruence | done].
  - apply bind_raise. apply bind_raise. unfold repo_commit. by rewrite Hrepo.
Qed.

Lemma install_libraries_returns repo (libraries : list Installable) w :
  exists result w', install_libraries env repo libraries w = Ok (result, w').
Proof.
  unfold install_libraries. unfold mbind at 1, M_bind at 1, get_world.
  destruct (fun H => for_each_invariant
    (fun (_ : list Installable) (_ : list InstalledModule * list Installable)
         (_ : World) => True)
    (fun lib (acc : list InstalledModule * list Installable) =>
       reqs_ok ← match requirements (meta lib) with
                 | [] => mret true
                 | reqs => install_raw_requirements env repo reqs
                 end;
       ok ← (if reqs_ok : bool then copy_to env lib true else mret false);
       mret (if ok : bool then (acc.1 ++ [from_installable lib], acc.2)
             else (acc.1, acc.2 ++ [lib])))
    (libraries_to_install env w repo libraries) H ([], []) w)
    as (result & w' & Hrun & _); [| done | by exists result, w'].
  intros done lib acc w1 _ _.
  unfold mbind, M_bind, install_raw_requirements, copy_to, mret, M_ret.
  destruct (requirements (meta lib)) as [|req reqs].
  - destruct (copy_succeeds env w1 lib); eexists _, _; split; done.
  - destruct (pip_succeeds env w1 repo (req :: reqs)); [|eexists _, _; split; done].
    destruct (copy_succeeds env _ lib); eexists _, _; split; done.
Qed.

End RemovedRepository.

(** A cog whose repository is no longer registered makes the whole install
    raise [AttributeError], whatever the other cogs of the request are. *)
Theorem install_cogs_removed_repository_raises (env : Env)
    (cogs : list Installable) (w : World) :
  (exists cog, cog ∈ cogs /\ repos w !! repo_name cog = None) ->
  _install_cogs env cogs w = Raise AttributeError.
Proof.
  intros (cog & Hcog & Hnone). unfold _install_cogs.
  apply install_entries_unregistered.
  apply group_by_repo_commit_covers, list_elem_of_fmap in Hcog as (entry & Hkey & Hentry).
  exists entry. split; [done|]. by rewrite <- Hkey.
Qed.

(** Reinstalling libraries of registered repositories returns and leaves
    every repository at the commit it had checked out; what it reports as
    installed or failed are libraries of the request, and it changes neither
    the install maps nor the files of the cogs, its calls being package
    installs and copies of requested libraries into the shared library path. *)
Theorem reinstall_libraries_restores_repositories (env : Env)
    (libraries : list Installable) (w : World) :
  (forall lib, lib ∈ libraries -> is_Some (repos w !! repo_name lib)) ->
  exists installed failed w',
    _reinstall_libraries env libraries w = Ok ((installed, failed), w')
    /\ repos w' = repos w
    /\ installed ⊆ from_installable <$> libraries
    /\ failed ⊆ libraries
    /\ library_installs_only libraries w w'.
Proof.
  intros Hregistered.
  assert (Hrun : exists result w',
            _reinstall_libraries env libraries w = Ok (result, w') /\ repos w' = repos w).
  { unfold _reinstall_libraries.
    pose proof (group_libs_by_repo_commit_members libraries) as Hmembers.
    rewrite Forall_forall in Hmembers.
    destruct (fun H => for_each_invariant
      (fun (_ : list (string * list (string * list Installable)))
           (_ : list InstalledModule * list Installable) w' => repos w' = repos w)
      (fun (entry : string * list (string * list Installable)) acc =>
         exit_to_commit ← repo_commit entry.1;
         acc ← for_each entry.2 (fun group acc =>
           checkout entry.1 group.1;;
           '(installed, failed) ← install_libraries env entry.1 group.2;
           mret (acc.1 ++ installed, acc.2 ++ failed)) acc;
         checkout entry.1 exit_to_commit;;
         mret acc) (group_libs_by_repo_commit libraries) H ([], []) w)
      as (result & w' & Hrun & Hrepos); [| done | by exists result, w'].
    intros done entry acc w1 [rest Hsplit] Hrepos.
    destruct (Hmembers entry) as [Hname _]; [rewrite Hsplit; apply elem_of_middle|].
    apply list_elem_of_fmap in Hname as (lib & Hname & Hlib).
    destruct (Hregistered lib Hlib) as [exit_to_commit Hexit].
    rewrite <- Hname, <- Hrepos in Hexit.
    unfold mbind at 1, M_bind at 1, repo_commit at 1. rewrite Hexit.
    destruct (fun H => for_each_invariant
      (fun (_ : list (string * list Installable))
           (_ : list InstalledModule * list Installable) w' =>
         <[entry.1 := exit_to_commit]> (repos w') = repos w1)
      (fun (group : string * list Installable) acc =>
         checkout entry.1 group.1;;
         '(installed, failed) ← install_libraries env entry.1 group.2;
         mret (acc.1 ++ installed, acc.2 ++ failed)) entry.2 H acc w1)
      as (acc' & w2 & Hgroups & Hrepos2).
    - intros done' group acc1 w3 _ Hrepos3.
      unfold mbind at 1, M_bind at 1, checkout, modify_world.
      destruct (install_libraries_returns env entry.1 group.2
                  (set_repos <[entry.1:=group.1]> w3)) as ([inst fail] & w4 & Hinstall).
      rewrite (bind_ok _ _ _ _ _ Hinstall). eexists _, _. split; [reflexivity|].
      apply install_libraries_effects in Hinstall as (_ & -> & _).
      cbn [repos set_repos]. by rewrite insert_insert_eq.
    - by apply insert_id.
    - rewrite (bind_ok _ _ _ _ _ Hgroups). eexists _, _. split; [reflexivity|].
      cbn [repos set_repos]. congruence. }
  destruct Hrun as ([installed failed] & w' & Hrun & Hrepos).
  exists installed, failed, w'. split; [exact Hrun|]. split; [done|].
  apply reinstall_libraries_effects in Hrun as (? & ? & ?). done.
Qed.

(** * Copies, new libraries and the installed check *)

Section CopyOnce.

Context (env : Env).

Lemma copy_group_once (group : list Installable) acc w acc' w' :
  for_each group (fun cog acc =>
    ok ← copy_to env cog false;
    mret (if ok : bool then (acc.1 ++ [from_installable cog], acc.2)
          else (acc.1, acc.2 ++ [cog]))) acc w = Ok (acc', w') ->
  exists events,
    trace w' = events ++ trace w
    /\ events ≡ₚ (fun c => EvCopy c false) <$> group.
Proof.
  intros Hrun.
  apply (for_each_invariant_ok
    (fun done (_ : list InstalledModule * list Installable) w1 =>
       exists events, trace w1 = events ++ trace w
                      /\ events ≡ₚ (fun c => EvCopy c false) <$> done) _ group) in Hrun;
    [done| |by exists []].
  intros done cog acc1 w1 acc2 w2 _ (events & Htrace & Hperm) Hbody.
  apply bind_inv in Hbody as (ok & w3 & Hcopy & Hret).
  assert (Hw3 : trace w3 = EvCopy cog false :: trace w1).
  { unfold copy_to in Hcopy. by destruct (copy_succeeds env w1 cog); injection Hcopy as _ <-. }
  assert (w2 = w3) as -> by (by destruct ok; injection Hret as _ <-).
  exists (EvCopy cog false :: events). split; [by rewrite Hw3, Htrace|].
  rewrite fmap_app, Hperm. cbn. by rewrite <- Permutation_cons_append.
Qed.

Lemma install_cogs_once (cogs : list Installable) w result w' :
  _install_cogs env cogs w = Ok (result, w') ->
  exists events,
    trace w' = events ++ trace w
    /\ events ≡ₚ (fun c => EvCopy c false) <$> cogs.
Proof.
  unfold _install_cogs. intros Hrun.
  apply (for_each_invariant_ok
    (fun done (_ : list InstalledModule * list Installable) w1 =>
       exists events, trace w1 = events ++ trace w
                      /\ events ≡ₚ (fun c => EvCopy c false) <$> modules_of_entries done)
    _ (group_by_repo_commit cogs)) in Hrun.
  - destruct Hrun as (events & Htrace & Hperm). exists events. split; [done|].
    by rewrite Hperm, group_by_repo_commit_modules.
  - intros done entry acc1 w1 acc2 w2 _ (events & Htrace & Hperm) Hbody.
    apply bind_inv in Hbody as (exit_to_commit & w3 & Hexit & Hbody).
    unfold repo_commit in Hexit. destruct (repos w1 !! entry.1); [|done].
    injection Hexit as <- <-.
    apply bind_inv in Hbody as (acc3 & w4 & Hgroups & Hbody).
    unfold mbind, M_bind, checkout, modify_world, mret, M_ret in Hbody.
    injection Hbody as <- <-.
    apply (for_each_invariant_ok
      (fun done' (_ : list InstalledModule * list Installable) w5 =>
         exists events', trace w5 = events' ++ trace w1
                         /\ events' ≡ₚ (fun c => EvCopy c false) <$> modules_of_groups done')
      _ entry.2) in Hgroups.
    + destruct Hgroups as (events' & Htrace' & Hperm').
      exists (events' ++ events). cbn [trace set_repos].
      split; [by rewrite Htrace', Htrace, app_assoc|].
      unfold modules_of_entries in *. rewrite bind_app, bind_singleton, fmap_app.
      rewrite Hperm, Hperm'. apply Permutation_app_comm.
    + intros done' group acc4 w5 acc5 w6 _ (events' & Htrace' & Hperm') Hgroup.
      apply bind_inv in Hgroup as ([] & w7 & Hcheckout & Hgroup).
      unfold checkout, modify_world in Hcheckout. injection Hcheckout as <-.
      apply copy_group_once in Hgroup as (events'' & Htrace'' & Hperm'').
      exists (events'' ++ events'). cbn [trace set_repos] in Htrace''.
      split; [by rewrite Htrace'', Htrace', app_assoc|].
      unfold modules_of_groups in *. rewrite bind_app, bind_singleton, fmap_app.
      rewrite Hperm', Hperm''. apply Permutation_app_comm.
    + by exists [].
  - by exists [].
Qed.

End CopyOnce.

(** Installing cogs of registered repositories attempts the copy of every
    cog of the request exactly once and calls no other collaborator: the
    calls it adds are, up to their order, one copy per cog of the request. *)
Theorem install_cogs_copies_each_once (env : Env) (cogs : list Installable) (w : World) :
  (forall cog, cog ∈ cogs -> is_Some (repos w !! repo_name cog)) ->
  exists installed failed w' events,
    _install_cogs env cogs w = Ok ((installed, failed), w')
    /\ trace w' = events ++ trace w
    /\ events ≡ₚ (fun cog => EvCopy cog false) <$> cogs
    /\ length installed + length failed = length cogs.
Proof.
  intros Hregistered.
  destruct (install_cogs_run env cogs w Hregistered) as ([installed failed] & w' & Hrun & _).
  destruct (install_cogs_once env cogs w _ _ Hrun) as (events & Htrace & Hperm).
  exists installed, failed, w', events. split; [done|]. split; [done|]. split; [done|].
  clear Hperm Htrace events.
  unfold _install_cogs in Hrun.
  assert (Hcount : forall group : list Installable, forall acc w1 acc' w2,
            for_each group (fun cog acc =>
              ok ← copy_to env cog false;
              mret (if ok : bool then (acc.1 ++ [from_installable cog], acc.2)
                    else (acc.1, acc.2 ++ [cog]))) acc w1 = Ok (acc', w2) ->
            length acc'.1 + length acc'.2 = length acc.1 + length acc.2 + length group).
  { intros group acc w1 acc' w2 Hloop.
    apply (for_each_invariant_ok
      (fun done (acc1 : list InstalledModule * list Installable) (_ : World) =>
         length acc1.1 + length acc1.2 = length acc.1 + length acc.2 + length done)
      _ group) in Hloop; [done| |simpl; lia].
    intros done cog acc1 w3 acc2 w4 _ Hlen Hbody.
    apply bind_inv in Hbody as (ok & w5 & _ & Hret).
    destruct ok; injection Hret as <- _; simpl; rewrite !length_app in *; simpl; lia. }
  apply (for_each_invariant_ok
    (fun done (acc : list InstalledModule * list Installable) (_ : World) =>
       length acc.1 + length acc.2 = length (modules_of_entries done))
    _ (group_by_repo_commit cogs)) in Hrun.
  - simpl in Hrun. by rewrite Hrun, group_by_repo_commit_modules.
  - intros done entry acc1 w1 acc2 w2 _ Hlen Hbody.
    apply bind_inv in Hbody as (exit_to_commit & w3 & _ & Hbody).
    apply bind_inv in Hbody as (acc3 & w4 & Hgroups & Hbody).
    unfold mbind, M_bind, checkout, modify_world, mret, M_ret in Hbody.
    injection Hbody as <- _.
    apply (for_each_invariant_ok
      (fun done' (acc : list InstalledModule * list Installable) (_ : World) =>
         length acc.1 + length acc.2
         = length acc1.1 + length acc1.2 + length (modules_of_groups done'))
      _ entry.2) in Hgroups.
    + unfold modules_of_entries in *. rewrite bind_app, bind_singleton, length_app.
      rewrite Hgroups, Hlen. done.
    + intros done' group acc4 w5 acc5 w6 _ Hlen' Hgroup.
      apply bind_inv in Hgroup as ([] & w7 & _ & Hgroup).
      apply Hcount in Hgroup. unfold modules_of_groups in *.
      rewrite bind_app, bind_singleton, length_app. lia.
    + simpl. lia.
  - done.
Qed.

Section NewLibraries.

Context (env : Env) (w : World).

Lemma new_libraries_checked (cogs : list InstalledModule) lib :
  lib ∈ published_libraries env w cogs ->
  index_of im_key (key lib) (library_records w) = None ->
  key lib ∈ key <$> (libraries_checked env w cogs).2.
Proof.
  unfold libraries_checked. intros Hlib Hnone.
  apply (foldl_invariant
    (fun done (acc : list InstalledModule * list Installable) =>
       forall x, x ∈ done -> index_of im_key (key x) (library_records w) = None ->
         key x ∈ key <$> acc.2)); [| |done|done].
  - intros x Hx. by apply elem_of_nil in Hx.
  - intros done x [modules lu] _ Hdone y Hy Hy_none.
    unfold check_library. cbn [fst snd] in *.
    destruct (index_of im_key (key x) (library_records w)) as [installed|] eqn:Hidx;
      cbn [fst snd].
    + apply elem_of_app in Hy as [Hy|Hy]; [by apply Hdone|].
      apply list_elem_of_singleton in Hy as ->. congruence.
    + apply set_add_keys. apply elem_of_app in Hy as [Hy|Hy]; [left; by apply Hdone|].
      apply list_elem_of_singleton in Hy as ->. by right.
Qed.

End NewLibraries.

(** Whenever the resolver returns, every shared library that a repository
    of the request offers and that has no installed record is among the
    libraries to update, whether or not anything changed. *)
Theorem available_updates_returns_new_libraries (env : Env) (w : World)
    (cogs : list InstalledModule)
    (cogs_to_update libraries_to_update : list Installable) (w' : World) :
  _available_updates env cogs w = Ok ((cogs_to_update, libraries_to_update), w') ->
  forall repo lib,
    repo ∈ repos_of w cogs -> lib ∈ available_libraries env w repo ->
    index_of im_key (key lib) (library_records w) = None ->
    key lib ∈ key <$> libraries_to_update.
Proof.
  intros Hreturns.
  destruct (available_updates_run env w cogs)
    as (hashes & uc & cu & lu & Hrun & _ & _ & _ & _ & _ & Hsub & _).
  cbv zeta in Hrun. rewrite Hrun in Hreturns. injection Hreturns as _ <- _.
  intros repo lib Hrepo Hlib Hnone.
  assert (Hpub : lib ∈ published_libraries env w cogs).
  { unfold published_libraries. apply list_elem_of_bind. by exists repo. }
  pose proof (new_libraries_checked env w cogs lib Hpub Hnone) as Hin.
  apply list_elem_of_fmap in Hin as (y & -> & Hy).
  apply list_elem_of_fmap. exists y. split; [done | by apply Hsub].
Qed.

Lemma cog_uninstall_conf (env : Env) (clean_prefix : string)
    (cogs : list InstalledModule) (w : World) :
  exists w',
    _cog_uninstall env clean_prefix cogs w = Ok (tt, w')
    /\ installed_cogs_conf w'
       = (foldl (by_type conf_pop)
            (installed_cogs_conf w, installed_libraries_conf w) cogs).1.
Proof.
  unfold _cog_uninstall.
  destruct cogs as [|cog0 cogs0] eqn:Hshape.
  { eexists. split; reflexivity. }
  rewrite <- Hshape in *. clear Hshape cog0 cogs0.
  destruct (uninstall_loop_effects env (to_set im_key cogs) w)
    as ([uninstalled failed] & w1 & Hloop & Hc & Hl & _).
  rewrite (bind_ok _ _ _ _ _ Hloop).
  unfold mbind at 1, M_bind at 1, _remove_from_installed, modify_world.
  destruct (uninstall_message_ok env clean_prefix uninstalled failed) as (message & Hmsg).
  unfold mbind, M_bind, lift. rewrite Hmsg. unfold send_pagified, modify_world.
  eexists. split; [reflexivity|].
  cbn [installed_cogs_conf installed_libraries_conf log_event with_trace set_conf].
  by rewrite Hc, Hl.
Qed.

(** The installed check follows the install map: right after a cog record is
    stored, its name is reported as installed; and once every installed cog
    bearing a name has been uninstalled, the name is reported as not
    installed. *)
Theorem is_installed_follows_install_map (env : Env) (clean_prefix : string)
    (cogs : list InstalledModule) (cog_name : string) (w : World) :
  Forall (fun cog => im_type cog = COG) cogs ->
  conf_consistent (installed_cogs_conf w) ->
  (forall record, record ∈ records_of COG (installed_cogs_conf w) ->
     im_name record = cog_name -> im_key record ∈ im_json_key <$> cogs) ->
  (forall cog, cog ∈ cogs ->
     exists w1 record,
       _save_to_installed [cog] w = Ok (tt, w1)
       /\ is_installed (im_name cog) w1 = Ok ((true, Some record), w1)
       /\ im_name record = im_name cog)
  /\ exists w2,
       _cog_uninstall env clean_prefix cogs w = Ok (tt, w2)
       /\ is_installed cog_name w2 = Ok ((false, None), w2).
Proof.
  intros Htypes Hcons Hall. split.
  - intros cog Hcog. eexists _.
    assert (Htype : im_type cog = COG) by (rewrite Forall_forall in Htypes; by apply Htypes).
    assert (Hstored : from_json COG (to_json cog) ∈ records_of COG
              (installed_cogs_conf
                 (set_conf
                    (foldl (by_type conf_store)
                       (installed_cogs_conf w, installed_libraries_conf w) [cog]).1
                    (foldl (by_type conf_store)
                       (installed_cogs_conf w, installed_libraries_conf w) [cog]).2 w))).
    { cbn [installed_cogs_conf set_conf foldl]. unfold by_type. rewrite Htype. cbn [fst].
      apply (records_of_from_lookup COG _ (im_key cog)).
      rewrite conf_lookup_store. by rewrite decide_True. }
    rewrite is_installed_run.
    destruct (find _ _) as [record|] eqn:Hfind.
    + exists record. split; [reflexivity|]. split; [reflexivity|].
      apply find_some in Hfind as [_ Hname]. by apply bool_decide_eq_true in Hname.
    + exfalso. apply list_elem_of_In in Hstored.
      pose proof (find_none _ _ Hfind _ Hstored) as Hno. simpl in Hno.
      by apply bool_decide_eq_false in Hno.
  - destruct (cog_uninstall_conf env clean_prefix cogs w) as (w2 & Hrun & Hconf).
    exists w2. split; [exact Hrun|]. rewrite is_installed_run.
    destruct (find _ _) as [record|] eqn:Hfind; [|done]. exfalso.
    apply find_some in Hfind as [Hrecord Hname]. apply bool_decide_eq_true in Hname.
    apply list_elem_of_In in Hrecord.
    apply elem_of_records_of in Hrecord as (r & rj & n & j & Hr & Hn & ->).
    assert (Hlookup : conf_lookup (installed_cogs_conf w2) (r, n) = Some j).
    { unfold conf_lookup. simpl. rewrite Hr. simpl. exact Hn. }
    rewrite Hconf in Hlookup.
    pose proof (remove_all_lookup COG cogs
                  (installed_cogs_conf w, installed_libraries_conf w) (r, n)) as Hpop.
    rewrite Hpop in Hlookup by done. clear Hpop.
    destruct (find _ cogs) as [m|] eqn:Hfind; [done|]. cbn [fst] in Hlookup.
    pose proof (records_of_from_lookup COG _ _ _ Hlookup) as Hold.
    pose proof (Hall _ Hold Hname) as Hkey.
    destruct (records_of_lookup COG _ _ Hcons Hold) as [Hstored _].
    assert (Hk : im_key (from_json COG j) = (r, n)).
    { destruct (decide (im_key (from_json COG j) = (r, n))) as [|Hne]; [done|].
      unfold conf_lookup in Hlookup. simpl in Hlookup.
      destruct (installed_cogs_conf w !! r) as [rj0|] eqn:Hr0; [|done]. simpl in Hlookup.
      destruct (Hcons r rj0 n j Hr0 Hlookup) as [<- <-]. by destruct j. }
    apply list_elem_of_fmap in Hkey as (m & Hm_key & Hm).
    apply list_elem_of_In in Hm.
    pose proof (find_none _ _ Hfind m Hm) as Hno. simpl in Hno.
    apply bool_decide_eq_false in Hno. apply Hno. split.
    + rewrite Forall_forall in Htypes. apply Htypes. by apply list_elem_of_In.
    + congruence.
Qed.

(** * The properties on the concrete requests *)

Module Witness.

Import Examples.

Lemma filter_incorrect_cogs_single_python_outdated_raises_witness :
  _filter_incorrect_cogs env_quiet [cog_py39] = Raise (KeyError "cog").
Proof.
  apply filter_incorrect_cogs_single_python_outdated_raises. reflexivity.
Defined.

Lemma install_cogs_module_atomic_witness :
  exists w',
    _install_cogs env_copy_b_only [cog_a; cog_b] (world ∅ ∅)
    = Ok (([from_installable cog_b], [cog_a]), w')
    /\ repos w' = repos (world ∅ ∅).
Proof.
  destruct (install_cogs_module_atomic env_copy_b_only [cog_a; cog_b] (world ∅ ∅))
    as (installed & failed & w' & attempts & Hrun & Hrepos & _).
  { intros cog Hin. exists "c2".
    apply elem_of_cons in Hin as [->|Hin]; [reflexivity|].
    apply list_elem_of_singleton in Hin as ->. reflexivity. }
  exists w'. split; [|exact Hrepos].
  rewrite Hrun. vm_compute in Hrun. by injection Hrun as <- <- _.
Defined.

Lemma cog_uninstall_removes_records_witness :
  exists w',
    _cog_uninstall env_quiet "!" [record "a" "c1"] world_a_old = Ok (tt, w')
    /\ (forall cog, cog ∈ [record "a" "c1"] ->
          conf_lookup (installed_cogs_conf w') (im_json_key cog) = None)
    /\ (forall cog, cog ∈ [record "a" "c1"] ->
          cog ∈ records_of COG (installed_cogs_conf world_a_old) ->
          conf_lookup (installed_cogs_conf w') (im_key cog) = None)
    /\ (conf_consistent (installed_cogs_conf world_a_old) ->
        forall record0, record0 ∈ records_of COG (installed_cogs_conf w') ->
                        im_key record0 ∉ im_json_key <$> [record "a" "c1"])
    /\ (forall cog, cog ∈ [record "a" "c1"] ->
          install_path world_a_old !! im_name cog = None ->
          install_path w' !! im_name cog = None).
Proof.
  apply cog_uninstall_removes_records. by repeat constructor.
Defined.

Lemma failed_requirement_stops_request_witness :
  let w := world ∅ ∅ in
  exists calls failed,
    _install_requirements env_pip_fails [cog_a; cog_b] w = Ok (failed, pip_world w calls)
    /\ calls.*2 ≡ₚ requirement_set [cog_a; cog_b]
    /\ (forall req, req ∈ failed <-> failed_call env_pip_fails w calls req)
    /\ ((exists req, failed_call env_pip_fails w calls req) ->
        _update_cogs_and_libs env_pip_fails [cog_a; cog_b] [] w
          = Ok (([], "Failed to install requirements: "
                     +:+ humanize_list env_pip_fails (inline env_pip_fails <$> failed)),
                pip_world w calls)
        /\ _cog_installrev_install env_pip_fails "R" true "c3" [cog_a; cog_b] "" w
          = Ok (None,
                set_repos (<["R" := "c3"]>)
                  (log_event
                     (EvSend ("" +:+ nl +:+ "Failed to install requirements: "
                              +:+ humanize_list env_pip_fails
                                    (inline env_pip_fails <$> failed)))
                     (pip_world w calls)))).
Proof.
  intros w.
  apply (failed_requirement_stops_request env_pip_fails [cog_a; cog_b] [] "R" true "c3" "" w).
  intros Hempty. apply (f_equal (fun m : gmap string string => m !! "R")) in Hempty.
  vm_compute in Hempty. discriminate.
Defined.


Lemma consistent_singleton (r n : string) (j : ModuleJson) :
  json_repo_name j = r -> json_module_name j = n ->
  conf_consistent {[ r := {[ n := j ]} ]}.
Proof.
  intros Hr Hn r' rj n' j' Hlookup Hj.
  apply lookup_singleton_Some in Hlookup as [<- <-].
  apply lookup_singleton_Some in Hj as [<- <-]. done.
Qed.

Lemma consistent_empty : conf_consistent ∅.
Proof. intros r rj n j Hlookup. by rewrite lookup_empty in Hlookup. Qed.

Lemma fast_forward_and_rerun_witness :
  exists lu lu2 w1,
    _available_updates env_quiet [record "a" "c1"] world_a_old = Ok (([], lu), w1)
    /\ conf_lookup (installed_cogs_conf w1) ("R", "a") = Some (to_json (record "a" "c2"))
    /\ _available_updates env_quiet (reread w1 [record "a" "c1"]) w1 = Ok (([], lu2), w1).
Proof.
  destruct (fast_forward_and_rerun env_quiet world_a_old [record "a" "c1"])
    as (cu & lu & w1 & Hrun & Hpart1 & Hpart2).
  { compute_done. }
  destruct (Hpart1 (record "a" "c1")) as (Hstored & _ & _).
  { by left. }
  { discriminate. }
  { reflexivity. }
  { exists "c2". split; [reflexivity|]. split; [discriminate | reflexivity]. }
  { unfold absent_from_diff.
    assert (Hnone : diff_of env_quiet world_a_old (record "a" "c1") = [])
      by (vm_compute; reflexivity).
    rewrite Hnone. apply not_elem_of_nil. }
  { intros lib Hin.
    assert (Hnone : available_libraries env_quiet world_a_old "R" = [])
      by (vm_compute; reflexivity).
    change (im_repo_name (record "a" "c1")) with "R" in Hin. rewrite Hnone in Hin.
    by apply elem_of_nil in Hin. }
  destruct Hpart2 as (-> & _ & lu2 & Hrun2 & _).
  { by apply (consistent_singleton "R" "a"). }
  { apply consistent_empty. }
  { intros repo head Hhead.
    change (repos world_a_old) with ({[ "R" := "c2" ]} : gmap string string) in Hhead.
    apply lookup_singleton_Some in Hhead as [_ <-]. discriminate. }
  { intros c Hc. apply list_elem_of_singleton in Hc as ->. split; [|discriminate].
    change (installed_cogs_conf world_a_old)
      with ({[ "R" := {[ "a" := to_json (record "a" "c1") ]} ]}
              : gmap string (gmap string ModuleJson)).
    apply elem_of_records_of.
    exists "R", {[ "a" := to_json (record "a" "c1") ]}, "a", (to_json (record "a" "c1")).
    split; [apply lookup_singleton_eq|]. split; [apply lookup_singleton_eq | reflexivity]. }
  { intros m _ _. unfold absent_from_diff, diff_of.
    destruct (repos world_a_old !! im_repo_name m); apply not_elem_of_nil. }
  exists lu, lu2, w1. split; [done|]. split; [exact Hstored | exact Hrun2].
Defined.


(** C6, counterexample.  A disabled shared library that changed since it was
    installed is returned in the libraries-to-update set. *)
Lemma disabled_library_is_returned :
  ~ disabled_never_returned env_disabled_lib [record "a" "c2"] world_lib.
Proof.
  intros Hclaim.
  destruct (_available_updates env_disabled_lib [record "a" "c2"] world_lib)
    as [[[cu lu] w']|e] eqn:Hrun; [|vm_compute in Hrun; discriminate].
  specialize (Hclaim cu lu w' Hrun (mkInstallable "lib" "R" "c2" (lib_meta true))).
  vm_compute in Hrun. injection Hrun as <- <- _.
  discriminate Hclaim. by left.
Qed.

(** C7, counterexample.  Cog [a] needs a package that cannot be installed;
    its sibling [b] needs none, and yet [b] is never handed to the copy step:
    the update stops after the requirements. *)
Lemma sibling_is_not_installed :
  ~ requirement_failure_isolated env_pip_fails [cog_a; cog_b] (world ∅ ∅).
Proof.
  intros Hclaim.
  destruct (_update_cogs_and_libs env_pip_fails [cog_a; cog_b] [] (world ∅ ∅))
    as [[[names message] w']|e] eqn:Hrun; [|vm_compute in Hrun; discriminate].
  specialize (Hclaim names message w' Hrun cog_b).
  vm_compute in Hrun. injection Hrun as _ _ <-.
  assert (Hin : EvCopy cog_b false ∈ [EvPip "R" ["x"]]).
  { apply Hclaim; [by right; left|]. intros req repo w0 Hreq. by apply elem_of_nil in Hreq. }
  apply list_elem_of_singleton in Hin. discriminate.
Qed.

(** C3, counterexample.  The repository publishes a library that has no
    installed record: both runs return it, so the second run's update sets
    are not empty, although no record is without commit and nothing changed. *)
Lemma second_run_returns_new_library :
  ~ second_run_empty env_new_lib [record "a" "c1"] world_a_old.
Proof.
  intros Hclaim.
  destruct (_available_updates env_new_lib [record "a" "c1"] world_a_old)
    as [[first w1]|e] eqn:Hrun; [|vm_compute in Hrun; discriminate].
  destruct (Hclaim first w1 Hrun) as (w2 & Hsecond).
  vm_compute in Hrun. injection Hrun as _ <-.
  vm_compute in Hsecond. discriminate.
Qed.

End Witness.

(** * The properties of the commands on the concrete requests *)

Module MoreWitness.

Import Examples MoreExamples.

Lemma consistent_stored (modules : list InstalledModule) :
  conf_consistent (foldl (fun conf m => conf_store m conf) ∅ modules).
Proof. apply conf_store_all_consistent. apply Witness.consistent_empty. Qed.

Lemma save_then_remove_restores_witness :
  exists w1 w2,
    _save_to_installed [record "a" "c1"] (world ∅ ∅) = Ok (tt, w1)
    /\ _remove_from_installed [record "a" "c1"] w1 = Ok (tt, w2)
    /\ (forall k, conf_lookup (installed_cogs_conf w2) k
                  = conf_lookup (installed_cogs_conf (world ∅ ∅)) k)
    /\ (forall k, conf_lookup (installed_libraries_conf w2) k
                  = conf_lookup (installed_libraries_conf (world ∅ ∅)) k)
    /\ (forall m, m ∈ [record "a" "c1"] -> im_type m = COG ->
          exists m', m' ∈ [record "a" "c1"] /\ im_key m' = im_key m
                     /\ conf_lookup (installed_cogs_conf w1) (im_key m) = Some (to_json m')).
Proof.
  apply save_then_remove_restores.
  intros m Hin. apply list_elem_of_singleton in Hin as ->. repeat split; reflexivity.
Defined.

Lemma filter_incorrect_cogs_keeps_accepted_in_order_witness :
  exists message,
    _filter_incorrect_cogs env_quiet [cog_a; cog_py39; cog_b; cog_py39]
    = Ok (filter (accepted env_quiet) [cog_a; cog_py39; cog_b; cog_py39], message)
    /\ (message = "" <->
        Forall (fun cog => accepted env_quiet cog = true) [cog_a; cog_py39; cog_b; cog_py39]).
Proof.
  apply filter_incorrect_cogs_keeps_accepted_in_order. vm_compute. discriminate.
Defined.

Lemma cog_pin_single_raises_witness :
  _cog_pin env_quiet [record "a" "c1"] world_a_old = Raise (KeyError "cog")
  /\ _cog_unpin env_quiet [pinned_b] world_abc = Raise (KeyError "cog").
Proof.
  split.
  - apply cog_pin_single_raises. reflexivity.
  - apply cog_pin_single_raises. reflexivity.
Defined.

Lemma cog_pin_persists_witness :
  exists w',
    _cog_pin env_quiet [record "a" "c2"; record "b" "c1"] world_ab = Ok (tt, w')
    /\ conf_lookup (installed_cogs_conf w') ("R", "b")
       = Some (to_json (set_pinned (record "b" "c1") true))
    /\ installed_libraries_conf w' = installed_libraries_conf world_ab.
Proof.
  destruct (cog_pin_persists env_quiet [record "a" "c2"; record "b" "c1"] world_ab)
    as (w' & Hrun & Hstored & _ & Hlibs).
  { by repeat constructor. }
  { vm_compute. discriminate. }
  exists w'. split; [exact Hrun|]. split; [|exact Hlibs].
  apply (Hstored (record "b" "c1")); [|reflexivity].
  assert (Hset : to_set im_key [record "a" "c2"; record "b" "c1"]
                 = [record "a" "c2"; record "b" "c1"]) by (vm_compute; reflexivity).
  rewrite Hset. right. by left.
Defined.

Lemma records_ab :
  forall c, c ∈ [record "a" "c2"; record "b" "c1"] ->
    c ∈ records_of COG (installed_cogs_conf world_ab) /\ im_pinned c = false.
Proof.
  intros c Hc. apply elem_of_cons in Hc as [->|Hc];
    [|apply list_elem_of_singleton in Hc as ->].
  - split; [|reflexivity].
    apply (records_of_from_lookup COG _ ("R", "a") (to_json (record "a" "c2"))).
    vm_compute. reflexivity.
  - split; [|reflexivity].
    apply (records_of_from_lookup COG _ ("R", "b") (to_json (record "b" "c1"))).
    vm_compute. reflexivity.
Qed.

Lemma consistent_ab : conf_consistent (installed_cogs_conf world_ab).
Proof.
  assert (Heq : installed_cogs_conf world_ab
                = foldl (fun conf m => conf_store m conf) ∅
                    [record "a" "c2"; record "b" "c1"]) by (vm_compute; reflexivity).
  rewrite Heq. apply consistent_stored.
Qed.

Lemma pin_then_unpin_restores_witness :
  exists w1 w2,
    _cog_pin env_quiet [record "a" "c2"; record "b" "c1"] world_ab = Ok (tt, w1)
    /\ _cog_unpin env_quiet (reread w1 [record "a" "c2"; record "b" "c1"]) w1 = Ok (tt, w2)
    /\ (forall c, c ∈ [record "a" "c2"; record "b" "c1"] ->
          exists record0, record0 ∈ records_of COG (installed_cogs_conf w1)
                          /\ im_key record0 = im_key c /\ im_pinned record0 = true)
    /\ installed_cogs_conf w2 = installed_cogs_conf world_ab
    /\ installed_libraries_conf w2 = installed_libraries_conf world_ab.
Proof.
  apply pin_then_unpin_restores.
  - apply consistent_ab.
  - apply records_ab.
  - vm_compute. discriminate.
Defined.

Lemma filter_by_names_keeps_fresh_accepted_witness :
  exists message,
    _filter_incorrect_cogs_by_names env_quiet offers_ab (world ∅ ∅) "R" ["b"; "zzz"; "a"]
    = Returns ([cog_b; cog_a], message).
Proof.
  destruct (filter_by_names_keeps_fresh_accepted env_quiet offers_ab (world ∅ ∅) "R"
              ["b"; "zzz"; "a"]) as (message & Hrun & _).
  { vm_compute. discriminate. }
  { vm_compute. discriminate. }
  exists message. rewrite Hrun. vm_compute. reflexivity.
Defined.

Lemma filter_by_names_single_clash_raises_witness :
  _filter_incorrect_cogs_by_names env_quiet offers_ab world_other_a "R" ["a"; "b"]
  = Raises TypeError.
Proof.
  apply filter_by_names_single_clash_raises. vm_compute. reflexivity.
Defined.

Lemma maybe_update_config_migrates_witness :
  exists s',
    _maybe_update_config legacy_store = (Ok tt, s')
    /\ schema_version s' = 1
    /\ conf_lookup (installed_cogs_conf (store_world s')) ("R", "a")
       = Some (mkJson "R" "a" "" false)
    /\ legacy_record ("R", "a") ∈ records_of COG (installed_cogs_conf (store_world s')).
Proof.
  destruct (maybe_update_config_migrates legacy_store) as (s' & Hrun & Hversion & _ & Hfiled & _).
  { reflexivity. }
  { repeat constructor. by exists ("R", "a"). }
  exists s'. split; [exact Hrun|]. split; [exact Hversion|].
  apply (Hfiled ({[ "repo_name" := "R"; "cog_name" := "a" ]} : gmap string string) ("R", "a")).
  - by left.
  - reflexivity.
Defined.

Lemma maybe_update_config_runs_once_witness :
  exists s',
    _maybe_update_config legacy_store = (Ok tt, s')
    /\ schema_version s' <> 0
    /\ _maybe_update_config s' = (Ok tt, s').
Proof.
  destruct (_maybe_update_config legacy_store) as [[[]|e] s'] eqn:Hrun;
    [|vm_compute in Hrun; discriminate].
  exists s'. split; [reflexivity|].
  by apply (maybe_update_config_runs_once legacy_store).
Defined.

Lemma maybe_update_config_malformed_entry_witness :
  exists s',
    _maybe_update_config half_malformed_store = (Raise (KeyError "cog_name"), s')
    /\ schema_version s' = 0
    /\ installed s' = installed half_malformed_store
    /\ conf_lookup (installed_cogs_conf (store_world s')) ("R", "a")
       = Some (mkJson "R" "a" "" false).
Proof.
  destruct (maybe_update_config_malformed_entry half_malformed_store)
    as (before & bad & after & k & s' & Hsplit & Hall & Hbad & _ & Hrun & Hversion
        & Hraw & Hfiled & _).
  { reflexivity. }
  { apply Exists_cons_tl, Exists_cons_hd. reflexivity. }
  assert (Hbefore : before
            = [({[ "repo_name" := "R"; "cog_name" := "a" ]} : gmap string string)]).
  { destruct before as [|b0 before].
    - simpl in Hsplit. injection Hsplit as <- _. vm_compute in Hbad. discriminate.
    - injection Hsplit as <- Hrest. f_equal. destruct before as [|b1 before]; [done|].
      injection Hrest as <- Hrest. apply Forall_cons in Hall as [_ Hall].
      apply Forall_cons in Hall as [[key Hkey] _]. vm_compute in Hkey. discriminate. }
  exists s'. split.
  { rewrite Hrun. vm_compute in Hrun. by injection Hrun as <- _. }
  split; [exact Hversion|]. split; [exact Hraw|].
  apply (Hfiled ({[ "repo_name" := "R"; "cog_name" := "a" ]} : gmap string string) ("R", "a")).
  - rewrite Hbefore. by left.
  - reflexivity.
Defined.

Lemma cog_installrev_pins_iff_revision_witness :
  exists installed failed w',
    _cog_installrev_install env_quiet "R" true "c3" [cog_a; cog_b] "" (world ∅ ∅)
    = Ok (Some (installed, failed), w')
    /\ (forall r, r ∈ installed ->
          im_pinned r = true
          /\ exists cog, cog ∈ [cog_a; cog_b] /\ im_key r = key cog
                         /\ im_commit r = commit cog)
    /\ (forall r, r ∈ installed -> im_type r = COG ->
          exists j, conf_lookup (installed_cogs_conf w') (im_key r) = Some j
                    /\ json_pinned j = true)
    /\ failed ⊆ [cog_a; cog_b]
    /\ (forall k, k ∉ key <$> [cog_a; cog_b] ->
          conf_lookup (installed_cogs_conf w') k
          = conf_lookup (installed_cogs_conf (world ∅ ∅)) k).
Proof.
  destruct (_cog_installrev_install env_quiet "R" true "c3" [cog_a; cog_b] "" (world ∅ ∅))
    as [[[[installed failed]|] w']|e] eqn:Hrun;
    [ | vm_compute in Hrun; discriminate | vm_compute in Hrun; discriminate ].
  exists installed, failed, w'. split; [reflexivity|].
  by apply (cog_installrev_pins_iff_revision env_quiet "R" true "c3" [cog_a; cog_b] "" (world ∅ ∅)).
Defined.

Lemma get_cogs_to_check_selects_witness :
  exists cogs_to_check failed w1,
    _get_cogs_to_check all_updated [] [] true world_ab = Ok ((cogs_to_check, failed), w1)
    /\ NoDup (im_key <$> cogs_to_check)
    /\ (forall cog, cog ∈ cogs_to_check ->
          (im_repo_name cog ∉ failed)
          /\ cog ∈ records_of COG (installed_cogs_conf w1)
          /\ is_Some (repos w1 !! im_repo_name cog)).
Proof.
  destruct (_get_cogs_to_check all_updated [] [] true world_ab)
    as [[[cogs_to_check failed] w1]|e] eqn:Hrun; [|vm_compute in Hrun; discriminate].
  exists cogs_to_check, failed, w1. split; [reflexivity|].
  destruct (get_cogs_to_check_selects all_updated [] [] true world_ab _ _ _ Hrun)
    as [Hnd Hsel].
  split; [exact Hnd|]. intros cog Hcog.
  destruct (Hsel cog Hcog) as (Hfailed & _ & Hread & _).
  split; [exact Hfailed|]. by apply Hread.
Defined.

Lemma cog_checkforupdates_installs_nothing_witness :
  exists w' failed w1 events message,
    _cog_checkforupdates env_changed_b all_updated world_ab = Ok (tt, w')
    /\ all_updated None world_ab = Ok (failed, w1)
    /\ trace w' = EvSend message :: events ++ trace w1
    /\ length (diff_pairs events) = length events
    /\ install_path w' = install_path w1
    /\ repos w' = repos w1.
Proof.
  destruct (_cog_checkforupdates env_changed_b all_updated world_ab)
    as [[[] w']|e] eqn:Hrun; [|vm_compute in Hrun; discriminate].
  destruct (cog_checkforupdates_installs_nothing env_changed_b all_updated world_ab w' Hrun)
    as (failed & w1 & events & message & Hupdate & Htrace & Hdiffs & Hpath & _ & Hrepos & _).
  by exists w', failed, w1, events, message.
Defined.

Lemma update_files_installed_cogs_witness :
  exists names message w' installed_cogs,
    _update_cogs_and_libs env_quiet [cog_a; cog_b] [] (world ∅ ∅) = Ok ((names, message), w')
    /\ installed_cogs ⊆ from_installable <$> [cog_a; cog_b]
    /\ names = remove_dups (im_name <$> installed_cogs)
    /\ (forall r, r ∈ installed_cogs -> im_type r = COG ->
          exists j cog, conf_lookup (installed_cogs_conf w') (im_key r) = Some j
                        /\ json_pinned j = false
                        /\ (cog ∈ [cog_a; cog_b] ++ [])
                        /\ key cog = im_key r /\ json_commit j = commit cog).
Proof.
  destruct (_update_cogs_and_libs env_quiet [cog_a; cog_b] [] (world ∅ ∅))
    as [[[names message] w']|e] eqn:Hrun; [|vm_compute in Hrun; discriminate].
  destruct (update_files_installed_cogs env_quiet [cog_a; cog_b] [] (world ∅ ∅)
              names message w' Hrun) as (installed_cogs & Hsub & Hnames & Hfiled & _).
  by exists names, message, w', installed_cogs.
Defined.

Lemma cog_update_leaves_pinned_alone_witness :
  exists result w',
    _cog_update_logic env_changed_bc all_updated [] [] world_abc = Ok (result, w')
    /\ conf_lookup (installed_cogs_conf w') ("R", "b") = Some (to_json pinned_b)
    /\ (forall c, key c = ("R", "b") -> EvCopy c false ∉ trace w').
Proof.
  destruct (_cog_update_logic env_changed_bc all_updated [] [] world_abc)
    as [[result w']|e] eqn:Hrun; [|vm_compute in Hrun; discriminate].
  destruct (cog_update_leaves_pinned_alone env_changed_bc all_updated [] [] world_abc
              result w' Hrun) as (arg & failed & w1 & Hupdate & Hpinned).
  injection Hupdate as _ <-.
  destruct (Hpinned ("R", "b")) as [Hconf Htrace].
  { intros c [Hc|Hc] Hkey; [by apply elem_of_nil in Hc|].
    apply elem_of_records_of in Hc as (r & repo_json & n & j & Hr & Hn & ->).
    change (installed_cogs_conf world_abc)
      with ({[ "R" := {[ "a" := to_json (record "a" "c2");
                         "b" := to_json pinned_b;
                         "c" := to_json (record "c" "c1") ]} ]}
              : gmap string (gmap string ModuleJson)) in Hr.
    apply lookup_singleton_Some in Hr as [<- <-].
    apply lookup_insert_Some in Hn as [[<- <-]|[_ Hn]]; [discriminate Hkey|].
    apply lookup_insert_Some in Hn as [[<- <-]|[_ Hn]]; [reflexivity|].
    apply lookup_singleton_Some in Hn as [<- <-]. discriminate Hkey. }
  { intros l Hl. vm_compute in Hl. by apply elem_of_nil in Hl. }
  exists result, w'. split; [reflexivity|]. split.
  - rewrite Hconf. vm_compute. reflexivity.
  - intros c Hkey Hin. apply (Htrace c Hkey) in Hin. by apply elem_of_nil in Hin.
Defined.

Lemma available_updates_resolves_legacy_by_name_witness :
  exists cogs_to_update libraries_to_update w',
    _available_updates env_quiet [record "a" ""] (world ∅ ∅)
    = Ok ((cogs_to_update, libraries_to_update), w')
    /\ (("R", "a") ∉ key <$> cogs_to_update)
    /\ conf_lookup (installed_cogs_conf w') ("R", "a")
       = conf_lookup (installed_cogs_conf (world ∅ ∅)) ("R", "a").
Proof.
  destruct (available_updates_resolves_legacy_by_name env_quiet (world ∅ ∅)
              [record "a" ""] (record "a" ""))
    as (cu & lu & w' & Hrun & Hiff & _ & Hconf).
  { compute_done. }
  { by left. }
  { reflexivity. }
  { by exists "c2". }
  { intros l Hl. vm_compute in Hl. by apply elem_of_nil in Hl. }
  exists cu, lu, w'. split; [exact Hrun|]. split; [|exact Hconf].
  intros Hin. apply Hiff in Hin as (x & Hlast & _). discriminate Hlast.
Defined.

Lemma install_cogs_removed_repository_raises_witness :
  _install_cogs env_quiet [cog_a; cog_gone] (world ∅ ∅) = Raise AttributeError.
Proof.
  apply install_cogs_removed_repository_raises.
  exists cog_gone. split; [right; by left | reflexivity].
Defined.

Lemma reinstall_libraries_restores_repositories_witness :
  exists installed failed w',
    _reinstall_libraries env_quiet [lib_util] (world ∅ ∅) = Ok ((installed, failed), w')
    /\ repos w' = repos (world ∅ ∅)
    /\ installed ⊆ from_installable <$> [lib_util]
    /\ failed ⊆ [lib_util]
    /\ library_installs_only [lib_util] (world ∅ ∅) w'.
Proof.
  apply reinstall_libraries_restores_repositories.
  intros lib Hlib. apply list_elem_of_singleton in Hlib as ->. by exists "c2".
Defined.

Lemma install_cogs_copies_each_once_witness :
  exists installed failed w' events,
    _install_cogs env_copy_b_only [cog_a; cog_b] (world ∅ ∅) = Ok ((installed, failed), w')
    /\ trace w' = events ++ trace (world ∅ ∅)
    /\ events ≡ₚ (fun cog => EvCopy cog false) <$> [cog_a; cog_b]
    /\ length installed + length failed = length [cog_a; cog_b].
Proof.
  apply install_cogs_copies_each_once.
  intros cog Hcog. exists "c2".
  apply elem_of_cons in Hcog as [->|Hcog]; [reflexivity|].
  apply list_elem_of_singleton in Hcog as ->. reflexivity.
Defined.

Lemma is_installed_follows_install_map_witness :
  (forall cog, cog ∈ [record "a" "c2"] ->
     exists w1 stored,
       _save_to_installed [cog] world_ab = Ok (tt, w1)
       /\ is_installed (im_name cog) w1 = Ok ((true, Some stored), w1)
       /\ im_name stored = im_name cog)
  /\ exists w2,
       _cog_uninstall env_quiet "" [record "a" "c2"] world_ab = Ok (tt, w2)
       /\ is_installed "a" w2 = Ok ((false, None), w2).
Proof.
  apply is_installed_follows_install_map.
  - by repeat constructor.
  - apply consistent_ab.
  - intros stored Hstored Hname.
    assert (Hrecords : records_of COG (installed_cogs_conf world_ab)
                       = [record "a" "c2"; record "b" "c1"]) by (vm_compute; reflexivity).
    rewrite Hrecords in Hstored.
    apply elem_of_cons in Hstored as [->|Hstored]; [by left|].
    apply list_elem_of_singleton in Hstored as ->. discriminate Hname.
Defined.

Lemma available_updates_returns_new_libraries_witness :
  exists cogs_to_update libraries_to_update w',
    _available_updates env_new_lib [record "a" "c1"] world_a_old
    = Ok ((cogs_to_update, libraries_to_update), w')
    /\ ("R", "util") ∈ key <$> libraries_to_update.
Proof.
  destruct (_available_updates env_new_lib [record "a" "c1"] world_a_old)
    as [[[cu lu] w']|e] eqn:Hrun; [|vm_compute in Hrun; discriminate].
  exists cu, lu, w'. split; [reflexivity|].
  apply (available_updates_returns_new_libraries env_new_lib world_a_old
           [record "a" "c1"] cu lu w' Hrun "R"
           (mkInstallable "util" "R" "c2" (lib_meta false))).
  - vm_compute. by left.
  - vm_compute. by left.
  - vm_compute. reflexivity.
Defined.

End MoreWitness.
